(* ===== verification/_CoqProject ===== *)
-Q . S2P
Prelude.v
Protocol.v
PostQuantum.v
Verifier.v
ProtocolState.v
Pallet.v
PalletGuards.v
PalletRouting.v
PalletCalls.v
PalletTransitions.v
PalletInvariants.v
PalletCapacity.v
PalletQueries.v
PalletEscrow.v
PalletFunds.v
PalletSettlement.v
PalletBonds.v
PalletSafety.v
Runtime.v
PalletPrivacy.v
PalletDemo.v
PalletWitnesses.v
Shield.v
ShieldQueue.v
RuntimeCalls.v
Crowdloan.v
CrowdloanSafety.v
RuntimeWitnesses.v
ProxyTypes.v
Proxy.v
ProxySafety.v
ProxyInvariants.v
ProxyAuthority.v
ProxyWitnesses.v
TxExtensions.v
TxSafety.v
Ticks.v
TickBitmap.v
PowerBounds.v
TickPrice.v
TickOrder.v
TickLog.v
TickInverse.v
SafeFloat.v
SafeFloatBounds.v
SharePool.v
SharePoolSafety.v
StakePool.v
Scale.v
ScaleDemo.v
Registry.v
RegistrySafety.v
Drand.v
DrandSafety.v
Commitments.v
CommitmentSafety.v
StorageWitnesses.v
