(* ===== verification/Prelude.v ===== *)
(** * Qubitum: a verification development

    Qubitum is a Substrate chain on which users pay miners for machine-learning inference
    and validators submit proofs of it.  This library models its protocol and proves what
    makes it correct.

    ** The program and its model

    - [primitives/qubitum-protocol]: the rules of the protocol without a chain.
      [Protocol.v] models [lib.rs] (constants, reward split, settlement, bond and slash
      rules, halving, shape of a submission), [PostQuantum.v] models [post_quantum.rs]
      (the signature policy of each roadmap phase), [Verifier.v] models [verifier.rs] and
      [ProtocolState.v] models [state.rs], the in-memory reference state machine.  A
      method there is a [meth]: what it has written stays written when it fails.
    - [pallets/qubitum/src/lib.rs]: the same protocol as a FRAME pallet.  [Pallet.v] holds
      its types, errors, events, storage ([Store]), the verifiers and the interfaces it is
      parametric in; [PalletGuards.v] the [ensure_] functions and commitments;
      [PalletRouting.v] the choice of a miner and a validator; [PalletCalls.v] the
      bookkeeping and the nineteen dispatchables, joined by [run_call] and wrapped in the
      transactional layer by [dispatch]; [PalletQueries.v] the public views, the published
      parameters and [try_state].  A dispatchable is an [act] on the store.
    - [runtime/src/lib.rs]: [Runtime.v] is the runtime's configuration of the pallet.
    - [pallets/shield]: [Shield.v] models the pallet through which private calls reach the
      chain: keys that rotate with the block authors, encrypted submissions, the queue of
      stored calls that [on_initialize] works off, and the transaction extension.
    - [runtime/src/qubitum_privacy.rs], [check_mortality.rs] and the call filters of
      [runtime/src/lib.rs]: [RuntimeCalls.v] models the scans that look for Qubitum calls
      inside batches, proxies, sudo, multisig, scheduled calls and preimages, over a type
      [RuntimeCall] with the constructors the scans tell apart.
    - [pallets/crowdloan]: [Crowdloan.v] models the nine dispatchables, among them
      [finalize], which dispatches a call that was stored when the crowdloan was created.
    - [pallets/proxy], [pallets/utility] and the proxy types of [common] and the runtime:
      [ProxyTypes.v] models which calls a proxy of each type may make, [Proxy.v] the twelve
      calls of the proxy pallet and the eight of the utility pallet, joined by
      [run_runtime_call], which dispatches a call with the calls it carries, and the fee
      payer of [transaction_payment_wrapper.rs].
    - [runtime/src/check_nonce.rs], [sudo_wrapper.rs] and the pipeline [TxExtension] of
      [runtime/src/lib.rs]: [TxExtensions.v] models the checks that every signed transaction
      passes, with the privacy, mortality and fee extensions above as its elements.
    - [pallets/swap/src/tick.rs]: [Ticks.v] models tick indexes and the bitmap of three layers
      that finds the closest active tick, and [TickPrice.v] the conversions between ticks and
      square roots of prices, on words of 256 bits.
    - [primitives/share-pool]: [SafeFloat.v] models the decimal floating-point numbers of shares,
      and [SharePool.v] the pools that divide a value among keys, over an interface of their
      storage.  [StakePool.v] models the storage of stakes of
      [pallets/subtensor/src/staking/stake_utils.rs] that implements it, in the current and in
      the deprecated format, and the operations that increase and decrease a stake.
    - [pallets/registry]: [Registry.v] models identities, their codec and the two calls that
      set and clear them against a deposit.
    - [pallets/drand]: [Drand.v] models the pulses of the randomness beacon that unsigned
      transactions bring to the chain, their pruning and their validation by the pool.
    - [pallets/commitments]: [Commitments.v] models the data accounts commit to for a subnet,
      its codec and rate limit, and the reveal of fields that are encrypted until a round of
      the beacon; it reads the pulses of [Drand.v].

    Functions and constants keep the names of the source.  A [w]-bit integer is a [Z]
    with the checked and saturating operations of this file; a [StorageMap] is a [gmap];
    a block number is a [Z] that [current_block] saturates to 64 bits as the code does.

    ** Parameters

    The currency of the pallet ([T::Currency], the balances pallet) is the class
    [Currency] with its documented behaviour in [CurrencyLaws]; the hash of the
    commitments is the class [Hashing], and theorems that need it assume that commitments
    do not collide ([collision_free]); the identity and proof verifiers are fields of
    [Config].  [config_ok] says that the amounts of the configuration are not negative,
    balances have at least 16 bits, a slash takes at most the whole, and capacities are
    below 2^31; [runtime_config_with_ok] proves it for the runtime.
    [PalletDemo.v] gives a ledger, an injective hash and a run on which
    [PalletWitnesses.v] evaluates every theorem that has hypotheses.

    The shield pallet is parametric in the cryptography ([ShieldCrypto]) and in the
    decryption, weight and dispatch of queued calls ([ShieldRuntime]); its theorems assume
    that a dispatched call changes the shield's state only through the shield's own calls.
    The scans are parametric in the decoding of bytes ([RuntimeCodec]).  The crowdloan
    pallet is parametric in balances, preimages and dispatch ([CrowdloanRuntime], with the
    documented laws in [CrowdloanLaws]).  [RuntimeWitnesses.v] instantiates all of them.
    The dispatch of wrapped calls is parametric in the calls of all other pallets and in
    reserved balances ([WrapperRuntime]); [ProxyWitnesses.v] instantiates it.
    The pipeline is parametric in the extensions of other crates and of the Subtensor pallet
    ([OtherExtensions]), which are assumed to return the origin they get and to leave nonces,
    the sudo key and the shield keys alone ([transparent]); [TxRun] in [TxSafety.v]
    instantiates them.  Share pools are parametric in their storage
    ([SharePoolDataOperations] with [SharePoolLaws]), which the stakes implement.  Of the
    conversions of prices, the two fallback prices are parameters: decimal literals that the
    fixed-point crate converts.
    The hand-written codecs are parametric in the SCALE codec of primitive and bounded types
    and in its inputs ([Scale.v]); [ScaleDemo.v] gives one that satisfies the laws.  Registry,
    beacon and commitments are parametric in the balances, the queries of the Subtensor
    pallet, the check of a pulse and timelock decryption ([RegistryRuntime], [DrandConfig],
    [CommitmentRuntime], [TimelockCrypto]); [StorageWitnesses.v] instantiates them.

    ** What is proved

    - [PalletTransitions.v] defines an abstract machine of guarded transitions, and
      [PalletSafety.v] shows that every dispatchable refines it.  All invariants are
      proved for the transitions once and hold in every [reachable] state: a state reached
      from an empty storage by calls of any origin, the passing of blocks, and changes to
      the currency that leave what the pallet holds alone ([PalletInvariants.v]).
    - Registries, requests and counters are consistent ([PalletInvariants.v],
      [PalletCapacity.v], [PalletSafety.v]); [try_state] never fails ([PalletQueries.v]).
    - Funds on hold are exactly the pending payments, bonds and stakes
      ([PalletEscrow.v], [PalletFunds.v]).
    - Settlement, rejection and challenge move exactly the amounts they should
      ([PalletSettlement.v]); owners can always get their payment back and participants
      their capital, under exactly the documented conditions ([PalletFunds.v],
      [PalletBonds.v]).
    - Routing finds an eligible assignment if there is one; payment needs an accepted
      proof; closed requests are final ([PalletSafety.v]).
    - Calls arrive through the shielded origin, the pallet's own events do not tell them
      apart (those of the currency are not modelled), and the production build serves nothing
      without production verifiers ([PalletPrivacy.v]).
    - The queue of the shield pallet has no gaps, drops what is too old, and does nothing
      without a decryptor ([ShieldQueue.v]), until its index saturates.  The scans accept
      exactly the calls in which nothing private is found through the wrappers they look into
      ([carries]), and what the queue dispatches keeps the shielded origin.  They do not see
      the call that the creation of a crowdloan stores ([stores]), the one exception
      ([RuntimeCalls.v]).
    - An open crowdloan accounts for its contributions exactly at every moment, also while
      stored calls are running ([visits] in [CrowdloanSafety.v]; [runs] nests the run of such a
      call in [finalize]), and its account covers them unless its own stored call is running;
      contributors get their money back until it is finalized; what a finalized one holds
      without a target is lost to everybody.
    - Wrapped calls never run with more authority than their sender: origins are not
      raised and a proxy is confined to the calls its type permits, of all pallets
      ([ProxySafety.v]); a delayed proxy runs
      announced calls only, and fees are charged to those who agreed ([ProxyAuthority.v]);
      stored proxies stay well-formed ([ProxyInvariants.v]).  The order of proxy types is
      sound with one exception, stated exactly ([ProxyTypes.v]).
    - A signed transaction that passes the pipeline has the next nonce of its signer and
      satisfies the fee, privacy, sudo and mortality checks, and nothing else is refused but by
      the extensions of others; an account that is not reaped never uses a nonce twice, modulo
      2^32 ([TxSafety.v]).
    - The bitmap of ticks implements a set: any search after any updates finds the closest
      active tick; tick arithmetic stays in bounds ([TickBitmap.v]).
    - Prices increase with ticks ([TickOrder.v]), the logarithm is close enough to the exact
      one ([TickLog.v], with bounds on powers from [PowerBounds.v]), and so the tick of a price
      is the exact floor and a tick is recovered from its price ([TickInverse.v]).
    - The numbers of shares are accurate, stay normal, and are computed by loops that
      terminate ([SafeFloatBounds.v]).  A deposit or withdrawal moves the value of its key by the
      amount and leaves the other keys alone, up to five units, and keeps the pool and its
      shares in the range for which this holds ([SharePoolSafety.v]); so does an increase or
      decrease of a stake, and other pools do not change ([StakePool.v]).
    - Registrations are read back from their encodings, recorded deposits are covered by what
      is on hold, and clearing an identity asks for no permission, which is stated as a
      theorem ([RegistrySafety.v]).
    - Stored pulses are under their rounds, up to the last one; unless root sets the oldest
      round they are no earlier than that and bounded in number.  What the pool accepts is stored
      once and never accepted again ([DrandSafety.v]).
    - The index of timelocked commitments is exact, every block reveals what is due and
      nothing else, and the rate limit bounds what an account commits in an epoch
      ([CommitmentSafety.v]).
    - The reference state machine conserves the supply; its exits, slashes and payments
      are exact; two defects of it are stated as theorems ([ProtocolState.v]).

    ** Bounds

    Loops of the source run over finite ranges or lists and are structural folds here
    ([for_rotated] over the rotation of a list, [map_sum] over a map).  Fuel is used twice.
    [candidates_loop] of [Ticks.v] shifts a mask of 128 bits out after 128 rounds of 129; the
    proofs hold for any larger fuel.  The two loops that normalize a number of [SafeFloat.v] share the
    78 iterations the source promises; 58 are proved to be enough.  The loop that prunes pulses
    recurses on the removals that are left of the source's limit, a hundred.  The scans
    of nested calls recurse on the levels that are left of the source's limit, eight,
    and refuse what is deeper, as the source does.  Concrete amounts appear in witnesses
    only.

    ** Not modelled

    Storage migrations (states start from an empty storage of the current layout),
    weights, benchmarks, RPC glue, the decryption of shielded transactions by the block
    author, and the upstream extensions that charge fees and check versions, genesis and
    weights; of the swap pallet positions and swap steps, which compute with the
    fixed-point numbers of external crates; of the beacon the offchain worker, which fetches
    pulses over HTTP, and the pairing check; of the Subtensor pallet everything but the storage
    of stakes; and the node and EVM code that the protocol does not call.

    This file holds what the others share: results and the two monads with their
    inversion tactics, machine integers, record update, and sums over finite maps. *)

From Stdlib Require Import ZArith Lia.
From stdpp Require Import base tactics list gmap strings sorting.

Open Scope Z_scope.

(** ** Results

    Rust's [Result<A, E>].  The error type comes first so that [result E] is the
    monad of the operator [?]. *)
Inductive result (E A : Type) : Type :=
| Ok (a : A)
| Err (e : E).
Arguments Ok {E A} a.
Arguments Err {E A} e.

#[export] Instance result_eq_dec (E A : Type) `{EqDecision E, EqDecision A} :
  EqDecision (result E A).
Proof. solve_decision. Defined.

Definition rbind {E A B} (m : result E A) (k : A -> result E B) : result E B :=
  match m with Ok a => k a | Err e => Err e end.

(** [Option::ok_or] *)
Definition ok_or {E A} (o : option A) (e : E) : result E A :=
  match o with Some a => Ok a | None => Err e end.

(** [ensure!(cond, error)] *)
Definition ensure {E} (cond : bool) (e : E) : result E unit :=
  if cond then Ok tt else Err e.

(** [Result::map_err] *)
Definition map_err {E F A} (f : E -> F) (m : result E A) : result F A :=
  match m with Ok a => Ok a | Err e => Err (f e) end.

Definition is_ok {E A} (m : result E A) : bool :=
  match m with Ok _ => true | Err _ => false end.

(** ** Computations on a store

    [act S E A] is a fallible computation that reads and writes a store of type
    [S].  An error drops the store: this is the behaviour of code that runs under
    a transactional storage layer, where the caller of the outermost computation
    restores the store it started from. *)
Definition act (S E A : Type) : Type := S -> result E (A * S).

Definition ret {S E A} (a : A) : act S E A := fun s => Ok (a, s).

Definition abind {S E A B} (m : act S E A) (k : A -> act S E B) : act S E B :=
  fun s => match m s with Ok (a, s') => k a s' | Err e => Err e end.

Definition fail {S E A} (e : E) : act S E A := fun _ => Err e.

(** A read-only step: the store is inspected and left as it is. *)
Definition check {S E A} (f : S -> result E A) : act S E A :=
  fun s => match f s with Ok a => Ok (a, s) | Err e => Err e end.

Definition asks {S E A} (f : S -> A) : act S E A := fun s => Ok (f s, s).

Definition modify {S E} (f : S -> S) : act S E unit := fun s => Ok (tt, f s).

Declare Scope result_scope.
Delimit Scope result_scope with result.
Notation "x <-? m ; k" := (rbind m (fun x => k))
  (at level 100, m at next level, right associativity) : result_scope.
Notation "'try!' m ; k" := (rbind m (fun _ => k))
  (at level 100, m at next level, right associativity) : result_scope.
Open Scope result_scope.

Declare Scope act_scope.
Delimit Scope act_scope with act.
Notation "x <-! m ; k" := (abind m (fun x => k))
  (at level 100, m at next level, right associativity) : act_scope.
Notation "'do!' m ; k" := (abind m (fun _ => k))
  (at level 100, m at next level, right associativity) : act_scope.
Open Scope act_scope.

(** *** Inversion of successful runs *)
Section Runs.
Context {S E A B : Type}.

Lemma rbind_Ok (m : result E A) (k : A -> result E B) b :
  rbind m k = Ok b <-> exists a, m = Ok a /\ k a = Ok b.
Proof. destruct m; simpl; naive_solver. Qed.

Lemma abind_Ok (m : act S E A) (k : A -> act S E B) s b s' :
  abind m k s = Ok (b, s') <-> exists a s1, m s = Ok (a, s1) /\ k a s1 = Ok (b, s').
Proof. unfold abind. destruct (m s) as [[a s1]|e]; naive_solver. Qed.

Lemma ret_Ok (a b : A) (s s' : S) : @ret S E A a s = Ok (b, s') <-> b = a /\ s' = s.
Proof. unfold ret. naive_solver. Qed.

Lemma check_Ok (f : S -> result E A) s a s' :
  check f s = Ok (a, s') <-> f s = Ok a /\ s' = s.
Proof. unfold check. destruct (f s); naive_solver. Qed.

Lemma asks_Ok (f : S -> A) s a s' : @asks S E A f s = Ok (a, s') <-> a = f s /\ s' = s.
Proof. unfold asks. naive_solver. Qed.

Lemma modify_Ok (f : S -> S) s u s' : @modify S E f s = Ok (u, s') <-> s' = f s.
Proof. unfold modify. destruct u. naive_solver. Qed.

Lemma fail_Ok (e : E) s (a : A) (s' : S) : @fail S E A e s = Ok (a, s') <-> False.
Proof. unfold fail. naive_solver. Qed.

Lemma ok_or_Ok (o : option A) (e : E) a : ok_or o e = Ok a <-> o = Some a.
Proof. destruct o; simpl; naive_solver. Qed.

Lemma ok_or_Err (o : option A) (e e' : E) : ok_or o e = Err e' <-> o = None /\ e' = e.
Proof. destruct o; simpl; naive_solver. Qed.

Lemma ensure_Ok (c : bool) (e : E) u : ensure c e = Ok u <-> c = true.
Proof. destruct c, u; simpl; naive_solver. Qed.

Lemma ensure_Err (c : bool) (e e' : E) : ensure c e = Err e' <-> c = false /\ e' = e.
Proof. destruct c; simpl; naive_solver. Qed.

Lemma is_ok_true (m : result E A) : is_ok m = true <-> exists a, m = Ok a.
Proof. destruct m; simpl; naive_solver. Qed.

End Runs.

(** [for x in l { f(x)?; }] *)
Fixpoint for_each {E A} (f : A -> result E unit) (l : list A) : result E unit :=
  match l with
  | [] => Ok tt
  | x :: rest => rbind (f x) (fun _ => for_each f rest)
  end.

Lemma for_each_Ok {E A} (f : A -> result E unit) (l : list A) :
  for_each f l = Ok tt <-> forall x, x ∈ l -> f x = Ok tt.
Proof.
  induction l as [|x l IH]; simpl; [split; [by intros _ x ?%not_elem_of_nil|done]|].
  rewrite rbind_Ok. setoid_rewrite elem_of_cons. split.
  - intros ([] & Hx & Hl). rewrite IH in Hl. naive_solver.
  - intros H. exists tt. rewrite IH. auto.
Qed.

(** [inv_run] takes apart every hypothesis that says a computation succeeded, one
    monadic step at a time; what is left are equations about the operations that
    have no inversion rule here. *)
Ltac inv_run_step :=
  match goal with
  | H : rbind _ _ = Ok _ |- _ =>
      apply rbind_Ok in H; let a := fresh "a" in let H1 := fresh "Hr" in
      destruct H as (a & H1 & H)
  | H : abind _ _ _ = Ok (_, _) |- _ =>
      apply abind_Ok in H; let a := fresh "a" in let s := fresh "s" in
      let H1 := fresh "Hr" in destruct H as (a & s & H1 & H)
  | H : check _ _ = Ok (_, _) |- _ => apply check_Ok in H; destruct H as [H ?]; subst
  | H : asks _ _ = Ok (_, _) |- _ => apply asks_Ok in H; destruct H as [? ?]; subst
  | H : modify _ _ = Ok (_, _) |- _ => apply modify_Ok in H; subst
  | H : ret _ _ = Ok (_, _) |- _ => apply ret_Ok in H; destruct H as [? ?]; subst
  | H : fail _ _ = Ok (_, _) |- _ => apply fail_Ok in H; destruct H
  | H : ok_or _ _ = Ok _ |- _ => apply ok_or_Ok in H
  | H : ensure _ _ = Ok _ |- _ => apply ensure_Ok in H
  | H : Ok ?x = Ok ?x |- _ => clear H
  | H : Ok _ = Ok _ |- _ => injection H as H; subst
  | H : Err _ = Ok _ |- _ => discriminate H
  | H : (_, _) = (_, _) |- _ => apply pair_equal_spec in H; destruct H; subst
  | H : (if ?b then _ else _) = Ok _ |- _ => let E := fresh "Hif" in destruct b eqn:E
  | H : (if ?b then _ else _) _ = Ok _ |- _ => let E := fresh "Hif" in destruct b eqn:E
  | H : match ?o with Some _ => _ | None => _ end = Ok _ |- _ =>
      let E := fresh "Ho" in destruct o eqn:E
  | H : match ?o with Some _ => _ | None => _ end _ = Ok _ |- _ =>
      let E := fresh "Ho" in destruct o eqn:E
  | x : unit |- _ => destruct x
  end.
Ltac inv_run := repeat inv_run_step.
Tactic Notation "inv_run" "with" tactic(t) := repeat (inv_run_step || t).

(** Booleans of the code turned into the propositions they decide. *)
Create Rewrite HintDb boolprop.
#[export] Hint Rewrite
  Z.leb_le Z.leb_gt Z.ltb_lt Z.ltb_ge Z.eqb_eq Z.eqb_neq
  andb_true_iff andb_false_iff orb_true_iff orb_false_iff
  negb_true_iff negb_false_iff
  bool_decide_eq_true bool_decide_eq_false : boolprop.
Ltac boolprop := autorewrite with boolprop in *.

(** ** Machine integers

    A [w]-bit unsigned integer is a [Z] in [0 .. 2^w - 1].  The checked operations
    return [None] where Rust's do, the saturating ones clamp. *)
Definition in_range (w x : Z) : Prop := 0 <= x < 2 ^ w.

(** Closed range goals. *)
Ltac solve_range := split; [vm_compute; congruence | vm_compute; reflexivity].

Definition uint_max (w : Z) : Z := 2 ^ w - 1.

Definition checked_add (w a b : Z) : option Z :=
  if a + b <? 2 ^ w then Some (a + b) else None.

Definition checked_sub (a b : Z) : option Z :=
  if b <=? a then Some (a - b) else None.

Definition checked_mul (w a b : Z) : option Z :=
  if a * b <? 2 ^ w then Some (a * b) else None.

Definition checked_div (a b : Z) : option Z :=
  if b =? 0 then None else Some (a / b).

Definition checked_rem (a b : Z) : option Z :=
  if b =? 0 then None else Some (a mod b).

(** [checked_shr] fails when the shift amount reaches the width. *)
Definition checked_shr (w a n : Z) : option Z :=
  if n <? w then Some (Z.shiftr a n) else None.

Definition saturating_add (w a b : Z) : Z := Z.min (a + b) (uint_max w).

Definition saturating_sub (a b : Z) : Z := Z.max (a - b) 0.

(** [TryFrom] from a wider unsigned type. *)
Definition try_from_uint (w a : Z) : option Z := if a <? 2 ^ w then Some a else None.

(** [saturated_into] from a wider unsigned type. *)
Definition saturated_into (w a : Z) : Z := Z.min a (uint_max w).

(** [u64::from_le_bytes], for any number of bytes. *)
Fixpoint from_le_bytes (bytes : list Z) : Z :=
  match bytes with
  | [] => 0
  | b :: bs => b + 256 * from_le_bytes bs
  end.

Lemma checked_add_Some w a b c :
  checked_add w a b = Some c <-> c = a + b /\ a + b < 2 ^ w.
Proof. unfold checked_add. destruct (Z.ltb_spec (a + b) (2 ^ w)); naive_solver lia. Qed.

Lemma checked_add_None w a b : checked_add w a b = None <-> 2 ^ w <= a + b.
Proof. unfold checked_add. destruct (Z.ltb_spec (a + b) (2 ^ w)); naive_solver lia. Qed.

Lemma checked_sub_Some a b c : checked_sub a b = Some c <-> c = a - b /\ b <= a.
Proof. unfold checked_sub. destruct (Z.leb_spec b a); naive_solver lia. Qed.

Lemma checked_mul_Some w a b c :
  checked_mul w a b = Some c <-> c = a * b /\ a * b < 2 ^ w.
Proof. unfold checked_mul. destruct (Z.ltb_spec (a * b) (2 ^ w)); naive_solver lia. Qed.

Lemma checked_mul_None w a b : checked_mul w a b = None <-> 2 ^ w <= a * b.
Proof. unfold checked_mul. destruct (Z.ltb_spec (a * b) (2 ^ w)); naive_solver lia. Qed.

Lemma checked_div_Some a b c : checked_div a b = Some c <-> c = a / b /\ b <> 0.
Proof. unfold checked_div. destruct (Z.eqb_spec b 0); naive_solver lia. Qed.

Lemma from_le_bytes_range bytes :
  Forall (in_range 8) bytes -> 0 <= from_le_bytes bytes < 2 ^ (8 * Z.of_nat (length bytes)).
Proof.
  unfold in_range. induction 1 as [|b bs Hb _ IH]; simpl; [lia|].
  replace (8 * Z.of_nat (S (length bs))) with (8 + 8 * Z.of_nat (length bs)) by lia.
  rewrite Z.pow_add_r by lia. change (2 ^ 8) with 256 in *. lia.
Qed.

#[export] Hint Rewrite checked_add_Some checked_sub_Some checked_mul_Some
  checked_div_Some checked_add_None checked_mul_None : boolprop.

(** ** Field update

    [r <| f := v |>] is the record [r] with field [f] replaced.  An instance of
    [Eta T] lists the fields once, by eta-expansion; the setters of the single
    fields are computed from it. *)
Class Eta (T : Type) := eta : T -> T.

Class Setter {T A : Type} (proj : T -> A) := set_field : (A -> A) -> T -> T.
Arguments set_field {T A} proj {_} f r.

Ltac solve_setter :=
  match goal with
  | |- @Setter ?T ?A ?proj =>
      let inst := constr:(_ : Eta T) in
      let inst := eval hnf in inst in
      match eval pattern proj in inst with
      | ?g proj => let r := eval cbv beta in (fun (f : A -> A) => g (fun r => f (proj r))) in
                   exact r
      end
  end.
#[export] Hint Extern 1 (Setter _) => solve_setter : typeclass_instances.

#[warnings="-postfix-notation-not-level-1"]
Notation "r <| f := v |>" := (set_field f (fun _ => v) r)
  (at level 12, left associativity, f at next level).
#[warnings="-postfix-notation-not-level-1"]
Notation "r <| f ::= g |>" := (set_field f g r)
  (at level 12, left associativity, f at next level).

(** ** Sums over finite maps *)
Section MapSum.
Context {K V : Type} `{Countable K}.
Implicit Types (m : gmap K V) (f : K -> V -> Z).

Definition map_sum f m : Z := map_fold (fun k v acc => f k v + acc) 0 m.

Lemma map_sum_empty f : map_sum f ∅ = 0.
Proof. apply map_fold_empty. Qed.

Lemma map_sum_insert_None f m k v :
  m !! k = None -> map_sum f (<[k:=v]> m) = f k v + map_sum f m.
Proof. intros Hk. unfold map_sum. rewrite map_fold_insert_L; [done|lia|done]. Qed.

Lemma map_sum_delete f m k v :
  m !! k = Some v -> map_sum f m = f k v + map_sum f (delete k m).
Proof.
  intros Hk. rewrite <- (insert_delete_id m k v Hk) at 1.
  apply map_sum_insert_None, lookup_delete_eq.
Qed.

(** What one insertion does to a sum, whether or not the key was bound. *)
Lemma map_sum_insert f m k v :
  map_sum f (<[k:=v]> m) =
  map_sum f m + f k v - match m !! k with Some v0 => f k v0 | None => 0 end.
Proof.
  destruct (m !! k) as [v0|] eqn:Hk; [|rewrite map_sum_insert_None by done; lia].
  rewrite (map_sum_delete f m k v0 Hk), (map_sum_delete f (<[k:=v]> m) k v)
    by apply lookup_insert_eq.
  rewrite delete_insert_eq. lia.
Qed.

Lemma map_sum_nonneg f m :
  (forall k v, m !! k = Some v -> 0 <= f k v) -> 0 <= map_sum f m.
Proof.
  induction m as [|k v m Hk IH] using map_ind; intros Hf; [by rewrite map_sum_empty|].
  rewrite map_sum_insert_None by done.
  assert (0 <= f k v) by (apply Hf, lookup_insert_eq).
  assert (0 <= map_sum f m); [|lia].
  apply IH. intros k' v' Hk'. apply Hf. rewrite lookup_insert_ne; [done|congruence].
Qed.

Lemma map_sum_lookup_le f m k v :
  (forall k v, m !! k = Some v -> 0 <= f k v) -> m !! k = Some v -> f k v <= map_sum f m.
Proof.
  intros Hf Hk. rewrite (map_sum_delete f m k v Hk).
  assert (0 <= map_sum f (delete k m)); [|lia].
  apply map_sum_nonneg. intros k' v' [_ Hk']%lookup_delete_Some. by apply Hf.
Qed.

Lemma map_sum_ext f g m :
  (forall k v, m !! k = Some v -> f k v = g k v) -> map_sum f m = map_sum g m.
Proof.
  induction m as [|k v m Hk IH] using map_ind; intros Hf; [done|].
  rewrite !map_sum_insert_None by done. f_equal; [apply Hf, lookup_insert_eq|].
  apply IH. intros k' v' Hk'. apply Hf. rewrite lookup_insert_ne; [done|congruence].
Qed.

End MapSum.

(** An update that keeps the contribution of its key keeps the sum. *)
Lemma map_sum_insert_same `{Countable K} {V} (f : K -> V -> Z) (m : gmap K V) k v0 v :
  m !! k = Some v0 -> f k v = f k v0 -> map_sum f (<[k:=v]> m) = map_sum f m.
Proof. intros Hk Hf. rewrite map_sum_insert, Hk, Hf. lia. Qed.

(** [Option::and_then] *)
Definition and_then {A B} (o : option A) (f : A -> option B) : option B :=
  match o with Some a => f a | None => None end.

Lemma and_then_Some {A B} (o : option A) (f : A -> option B) b :
  and_then o f = Some b <-> exists a, o = Some a /\ f a = Some b.
Proof. destruct o; simpl; naive_solver. Qed.

(** [Option::unwrap_or] *)
Definition unwrap_or {A} (o : option A) (d : A) : A :=
  match o with Some a => a | None => d end.

(** ** Methods on a mutable receiver

    [meth S E A] is a Rust method on [&mut self]: unlike [act], a failing run keeps
    the writes it made before the error, because nothing rolls them back. *)
Definition meth (S E A : Type) : Type := S -> S * result E A.

Definition mdone {S E A} (a : A) : meth S E A := fun s => (s, Ok a).

Definition merr {S E A} (e : E) : meth S E A := fun s => (s, Err e).

Definition mthen {S E A B} (m : meth S E A) (k : A -> meth S E B) : meth S E B :=
  fun s => match m s with
           | (s', Ok a) => k a s'
           | (s', Err e) => (s', Err e)
           end.

(** A step that inspects the receiver without writing it. *)
Definition mcheck {S E A} (f : S -> result E A) : meth S E A := fun s => (s, f s).

Definition mwrite {S E} (f : S -> S) : meth S E unit := fun s => (f s, Ok tt).

Declare Scope meth_scope.
Delimit Scope meth_scope with meth.
Notation "x <-& m ; k" := (mthen m (fun x => k))
  (at level 100, m at next level, right associativity) : meth_scope.
Notation "'mut!' m ; k" := (mthen m (fun _ => k))
  (at level 100, m at next level, right associativity) : meth_scope.
Open Scope meth_scope.

(** [stable P m]: the method keeps [P], whether it succeeds or fails. *)
Definition stable {S E A} (P : S -> Prop) (m : meth S E A) : Prop :=
  forall s, P s -> P (fst (m s)).

Section Methods.
Context {S E A B : Type}.

Lemma mthen_Ok (m : meth S E A) (k : A -> meth S E B) s b s' :
  mthen m k s = (s', Ok b) <-> exists a s1, m s = (s1, Ok a) /\ k a s1 = (s', Ok b).
Proof. unfold mthen. destruct (m s) as [s1 [a|e]]; naive_solver. Qed.

Lemma mcheck_Ok (f : S -> result E A) s a s' :
  mcheck f s = (s', Ok a) <-> f s = Ok a /\ s' = s.
Proof. unfold mcheck. split; [by intros [= <- <-]|by intros [-> ->]]. Qed.

Lemma mwrite_Ok (f : S -> S) s (u : unit) s' :
  @mwrite S E f s = (s', Ok u) <-> s' = f s.
Proof. unfold mwrite. destruct u. split; [by intros [= <-]|by intros ->]. Qed.

Lemma mdone_Ok (a b : A) (s s' : S) : @mdone S E A a s = (s', Ok b) <-> b = a /\ s' = s.
Proof. unfold mdone. split; [by intros [= <- <-]|by intros [-> ->]]. Qed.

Context (P : S -> Prop).

Lemma stable_then (m : meth S E A) (k : A -> meth S E B) :
  stable P m -> (forall a, stable P (k a)) -> stable P (mthen m k).
Proof.
  intros Hm Hk s Hs. unfold mthen. specialize (Hm s Hs).
  destruct (m s) as [s' [a|e]]; [by apply Hk|done].
Qed.

(** The continuation may use what the first part established. *)
Lemma stable_then_Ok (m : meth S E A) (k : A -> meth S E B) s :
  P s -> P (fst (m s)) -> (forall a s', m s = (s', Ok a) -> P s' -> P (fst (k a s'))) ->
  P (fst (mthen m k s)).
Proof.
  intros Hs Hm Hk. unfold mthen. destruct (m s) as [s' [a|e]] eqn:E'; [by apply Hk|done].
Qed.

Lemma stable_check (f : S -> result E A) : stable P (mcheck f).
Proof. by intros s. Qed.

Lemma stable_done (a : A) : stable P (@mdone S E A a).
Proof. by intros s. Qed.

Lemma stable_fail (e : E) : stable P (@merr S E A e).
Proof. by intros s. Qed.

Lemma stable_run (m : meth S E A) s : P s -> stable P m -> P (fst (m s)).
Proof. auto. Qed.

Lemma stable_write (f : S -> S) :
  (forall s, P s -> P (f s)) -> stable P (@mwrite S E f).
Proof. intros Hf s Hs. by apply Hf. Qed.

End Methods.

(** [solve_stable] walks through a method and leaves its writes and the calls no
    hint of the database [stable] speaks about. *)
Create HintDb stable.
Ltac stable_step :=
  match goal with
  | |- stable _ (mthen _ _) => apply stable_then; [|intros ?]
  | |- stable _ (mcheck _) => apply stable_check
  | |- stable _ (mdone _) => apply stable_done
  | |- stable _ (merr _) => apply stable_fail
  | |- stable _ (mwrite _) => apply stable_write; intros ? ?
  | |- stable _ (if ?b then _ else _) => destruct b
  | |- stable _ (match ?x with _ => _ end) => destruct x
  end.
Ltac solve_stable := repeat stable_step; auto with stable.

Ltac inv_meth_step :=
  match goal with
  | H : mthen _ _ _ = (_, Ok _) |- _ =>
      apply mthen_Ok in H; let a := fresh "a" in let s := fresh "st" in
      let H1 := fresh "Hm" in destruct H as (a & s & H1 & H)
  | H : mcheck _ _ = (_, Ok _) |- _ => apply mcheck_Ok in H; destruct H as [H ?]; subst
  | H : mwrite _ _ = (_, Ok _) |- _ => apply mwrite_Ok in H; subst
  | H : mdone _ _ = (_, Ok _) |- _ => apply mdone_Ok in H; destruct H as [? ?]; subst
  | H : merr _ _ = (_, Ok _) |- _ => discriminate H
  | H : (if ?b then _ else _) _ = (_, Ok _) |- _ =>
      let E := fresh "Hif" in destruct b eqn:E
  | H : (_, Err _) = (_, Ok _) |- _ => discriminate H
  | H : (_, Ok _) = (_, Ok _) |- _ => injection H as ? ?; subst
  end.
Ltac inv_meth := repeat (inv_meth_step || inv_run_step).
