(* ===== verification/Protocol.v ===== *)
(** * Protocol constants, policies and pure rules

    The data and the pure functions of [primitives/qubitum-protocol/src/lib.rs]:
    the enums and structs shared by the runtime and off-chain clients, the emission
    split, the miner bond and subnet policies, the shape check of a proof
    submission, the settlement of a payment and the halving schedule.  Amounts are
    [u128], basis points [u16], block numbers [u64]. *)

From S2P Require Import Prelude.
From stdpp Require Import base tactics list gmap.
From Stdlib Require Import ZArith Lia.
Open Scope Z_scope.

(** ** Types and constants *)

(** A 32-byte array. *)
Definition Commitment : Type := list Z.
#[export] Instance Commitment_eq_dec : EqDecision Commitment := _ : EqDecision (list Z).
#[export] Instance Commitment_countable : Countable Commitment := _ : Countable (list Z).

Definition AccountId : Type := list Z.
#[export] Instance AccountId_eq_dec : EqDecision AccountId := _ : EqDecision (list Z).
#[export] Instance AccountId_countable : Countable AccountId := _ : Countable (list Z).

Definition zero_commitment : Commitment := replicate 32 0.
Arguments zero_commitment : simpl never.

Definition BPS_DENOMINATOR : Z := 10000.
Definition PLANCKS_PER_QBT : Z := 1000000000.
Definition INITIAL_SUPPLY_QBT : Z := 21000000.
Definition INITIAL_SUPPLY : Z := 21000000000000000.
Definition HALVING_INTERVAL_BLOCKS : Z := 10512000.
Definition MINER_EMISSION_BPS : Z := 5000.
Definition VALIDATOR_REWARD_BPS : Z := 3000.
Definition TREASURY_REWARD_BPS : Z := 2000.
Definition MINER_REGISTRATION_BURN : Z := 10000000000.
Definition MIN_MINER_BOND : Z := 100000000000.
Definition MAX_MINER_BOND : Z := 10000000000000.
Definition BOND_EXIT_COOLDOWN_BLOCKS : Z := 50400.
Definition MIN_INVALID_PROOF_SLASH_BPS : Z := 1000.
Definition MAX_INVALID_PROOF_SLASH_BPS : Z := 10000.
Definition TARGET_PROOF_SIZE_MIN_BYTES : Z := 50 * 1024.
Definition TARGET_PROOF_SIZE_MAX_BYTES : Z := 200 * 1024.
Definition TARGET_VERIFICATION_MS : Z := 100.

Inductive ProtocolError : Type :=
| ProtocolError_ArithmeticOverflow
| ProtocolError_CooldownNotComplete
| ProtocolError_DuplicateSubnet
| ProtocolError_InsufficientBalance
| ProtocolError_InvalidBond
| ProtocolError_InvalidCreationBurn
| ProtocolError_InvalidProofSize
| ProtocolError_InvalidRewardSplit
| ProtocolError_InvalidSlashPercent
| ProtocolError_InvalidStake
| ProtocolError_LatencyExceeded
| ProtocolError_MissingCommitment
| ProtocolError_AmbiguousSignatureCommitment
| ProtocolError_MissingClassicalSignature
| ProtocolError_MissingPostQuantumSignature
| ProtocolError_NotActive
| ProtocolError_ProofSystemMismatch
| ProtocolError_UnsupportedSignatureAlgorithm
| ProtocolError_UnknownMiner
| ProtocolError_UnknownSubnet
| ProtocolError_UnknownValidator
| ProtocolError_VerifierError
| ProtocolError_ClassicalSignatureDisallowed.
#[export] Instance ProtocolError_eq_dec : EqDecision ProtocolError.
Proof. solve_decision. Defined.

Inductive ProofSystem : Type :=
| ProofSystem_Mock
| ProofSystem_RiscZeroStark
| ProofSystem_Stark
| ProofSystem_External (id : Z).
#[export] Instance ProofSystem_eq_dec : EqDecision ProofSystem.
Proof. solve_decision. Defined.

Inductive ProofVerifierVersion : Type :=
| ProofVerifierVersion_Mock
| ProofVerifierVersion_RiscZeroV1
| ProofVerifierVersion_RiscZeroV2
| ProofVerifierVersion_StarkV1
| ProofVerifierVersion_External (id : Z).
#[export] Instance ProofVerifierVersion_eq_dec : EqDecision ProofVerifierVersion.
Proof. solve_decision. Defined.

Definition ProofVerifierVersion_supports
    (self : ProofVerifierVersion) (proof_system : ProofSystem) : bool :=
  match self, proof_system with
  | ProofVerifierVersion_Mock, ProofSystem_Mock
  | ProofVerifierVersion_RiscZeroV1, ProofSystem_RiscZeroStark
  | ProofVerifierVersion_RiscZeroV2, ProofSystem_RiscZeroStark
  | ProofVerifierVersion_StarkV1, ProofSystem_Stark => true
  | ProofVerifierVersion_External version, ProofSystem_External system => version =? system
  | _, _ => false
  end.

Inductive SignatureMode : Type :=
| SignatureMode_ClassicalEcdsa
| SignatureMode_HybridDilithium
| SignatureMode_FullPostQuantum.
#[export] Instance SignatureMode_eq_dec : EqDecision SignatureMode.
Proof. solve_decision. Defined.

Inductive SubnetDomain : Type :=
| SubnetDomain_General
| SubnetDomain_Vision
| SubnetDomain_Code
| SubnetDomain_Biology
| SubnetDomain_Custom (c : Commitment).
#[export] Instance SubnetDomain_eq_dec : EqDecision SubnetDomain.
Proof. solve_decision. Defined.

Inductive RegistryStatus : Type :=
| RegistryStatus_Pending
| RegistryStatus_Active
| RegistryStatus_Exiting (exit_available_at : Z)
| RegistryStatus_Slashed
| RegistryStatus_Disabled.
#[export] Instance RegistryStatus_eq_dec : EqDecision RegistryStatus.
Proof. solve_decision. Defined.

Inductive Visibility : Type :=
| Visibility_Private
| Visibility_Public
| Visibility_Optional.

Inductive PrivacyElementKind : Type :=
| PrivacyElementKind_ModelWeights
| PrivacyElementKind_InferenceInput
| PrivacyElementKind_InferenceOutput
| PrivacyElementKind_MinerIdentity.

Record PrivacyElement : Type := {
  element : PrivacyElementKind;
  visibility : Visibility;
}.

Definition PRIVACY_TABLE : list PrivacyElement := [
  {| element := PrivacyElementKind_ModelWeights; visibility := Visibility_Private |};
  {| element := PrivacyElementKind_InferenceInput; visibility := Visibility_Private |};
  {| element := PrivacyElementKind_InferenceOutput; visibility := Visibility_Public |};
  {| element := PrivacyElementKind_MinerIdentity; visibility := Visibility_Optional |}
].

(** ** Amounts *)

Definition pro_rata (amount bps : Z) : result ProtocolError Z :=
  ok_or (and_then (checked_mul 128 amount bps)
           (fun value => checked_div value BPS_DENOMINATOR))
    ProtocolError_ArithmeticOverflow.

Definition ensure_commitment (commitment : Commitment) : result ProtocolError unit :=
  if bool_decide (commitment = zero_commitment)
  then Err ProtocolError_MissingCommitment else Ok tt.

Record EmissionAllocation : Type := {
  alloc_miner : Z;
  alloc_validator : Z;
  alloc_treasury : Z;
}.

Record RewardSplit : Type := {
  miner_bps : Z;
  validator_bps : Z;
  treasury_bps : Z;
}.

Definition RewardSplit_qubitum : RewardSplit := {|
  miner_bps := MINER_EMISSION_BPS;
  validator_bps := VALIDATOR_REWARD_BPS;
  treasury_bps := TREASURY_REWARD_BPS;
|}.

Definition RewardSplit_validate (self : RewardSplit) : result ProtocolError RewardSplit :=
  sum <-? ok_or (and_then (checked_add 16 (miner_bps self) (validator_bps self))
                  (fun value => checked_add 16 value (treasury_bps self)))
            ProtocolError_ArithmeticOverflow;
  if sum =? BPS_DENOMINATOR then Ok self else Err ProtocolError_InvalidRewardSplit.

Definition RewardSplit_allocate (self : RewardSplit) (amount : Z) :
    result ProtocolError EmissionAllocation :=
  try! RewardSplit_validate self;
  miner <-? pro_rata amount (miner_bps self);
  validator <-? pro_rata amount (validator_bps self);
  assigned <-? ok_or (checked_add 128 miner validator) ProtocolError_ArithmeticOverflow;
  treasury <-? ok_or (checked_sub amount assigned) ProtocolError_ArithmeticOverflow;
  Ok {| alloc_miner := miner; alloc_validator := validator; alloc_treasury := treasury |}.

Record InferenceSettlement : Type := {
  miner_payment : Z;
  validator_fee : Z;
  treasury_fee : Z;
}.

Definition settle_inference_payment (payment validator_fee_bps treasury_fee_bps : Z) :
    result ProtocolError InferenceSettlement :=
  combined_bps <-? ok_or (checked_add 16 validator_fee_bps treasury_fee_bps)
                     ProtocolError_ArithmeticOverflow;
  if BPS_DENOMINATOR <? combined_bps then Err ProtocolError_InvalidRewardSplit else
  validator_fee <-? pro_rata payment validator_fee_bps;
  treasury_fee <-? pro_rata payment treasury_fee_bps;
  assigned <-? ok_or (checked_add 128 validator_fee treasury_fee)
                 ProtocolError_ArithmeticOverflow;
  miner_payment <-? ok_or (checked_sub payment assigned) ProtocolError_ArithmeticOverflow;
  Ok {| miner_payment := miner_payment; validator_fee := validator_fee;
        treasury_fee := treasury_fee |}.

(** ** Policies *)

Record MinerBondPolicy : Type := {
  registration_burn : Z;
  min_bond : Z;
  max_bond : Z;
  exit_cooldown_blocks : Z;
  min_invalid_proof_slash_bps : Z;
  max_invalid_proof_slash_bps : Z;
}.

Definition MinerBondPolicy_qubitum : MinerBondPolicy := {|
  registration_burn := MINER_REGISTRATION_BURN;
  min_bond := MIN_MINER_BOND;
  max_bond := MAX_MINER_BOND;
  exit_cooldown_blocks := BOND_EXIT_COOLDOWN_BLOCKS;
  min_invalid_proof_slash_bps := MIN_INVALID_PROOF_SLASH_BPS;
  max_invalid_proof_slash_bps := MAX_INVALID_PROOF_SLASH_BPS;
|}.

Definition validate_bond (self : MinerBondPolicy) (bond : Z) : result ProtocolError Z :=
  if (bond <? min_bond self) || (max_bond self <? bond)
  then Err ProtocolError_InvalidBond else Ok bond.

Definition exit_available_at (self : MinerBondPolicy) (current_block : Z) :
    result ProtocolError Z :=
  ok_or (checked_add 64 current_block (exit_cooldown_blocks self))
    ProtocolError_ArithmeticOverflow.

Definition slash_amount (self : MinerBondPolicy) (bond slash_bps : Z) :
    result ProtocolError Z :=
  if (slash_bps <? min_invalid_proof_slash_bps self)
     || (max_invalid_proof_slash_bps self <? slash_bps)
  then Err ProtocolError_InvalidSlashPercent
  else pro_rata bond slash_bps.

Record SubnetPolicy : Type := {
  creation_burn : Z;
  miner_bond : MinerBondPolicy;
  min_validator_stake : Z;
  policy_proof_system : ProofSystem;
  min_proof_size_bytes : Z;
  max_proof_size_bytes : Z;
  max_verification_latency_ms : Z;
}.

Definition SubnetPolicy_qubitum : SubnetPolicy := {|
  creation_burn := MINER_REGISTRATION_BURN;
  miner_bond := MinerBondPolicy_qubitum;
  min_validator_stake := MIN_MINER_BOND;
  policy_proof_system := ProofSystem_RiscZeroStark;
  min_proof_size_bytes := TARGET_PROOF_SIZE_MIN_BYTES;
  max_proof_size_bytes := TARGET_PROOF_SIZE_MAX_BYTES;
  max_verification_latency_ms := TARGET_VERIFICATION_MS;
|}.

Definition validate_creation_burn (self : SubnetPolicy) (amount : Z) :
    result ProtocolError Z :=
  if amount <? creation_burn self then Err ProtocolError_InvalidCreationBurn else Ok amount.

Definition validate_validator_stake (self : SubnetPolicy) (stake : Z) :
    result ProtocolError Z :=
  if stake <? min_validator_stake self then Err ProtocolError_InvalidStake else Ok stake.

(** ** Registry records *)

Record SubnetConfig : Type := {
  subnet_config_id : Z;
  owner : AccountId;
  domain : SubnetDomain;
  policy : SubnetPolicy;
  active : bool;
}.

Record MinerRegistration : Type := mk_MinerRegistration {
  miner_reg_id : Z;
  miner_operator : AccountId;
  miner_subnet_id : Z;
  miner_model_commitment : Commitment;
  miner_proof_system : ProofSystem;
  bond : Z;
  miner_status : RegistryStatus;
  miner_shielded_identity_commitment : option Commitment;
  miner_endpoint_commitment : option Commitment;
}.
#[export] Instance eta_MinerRegistration : Eta MinerRegistration := fun r =>
  mk_MinerRegistration (miner_reg_id r) (miner_operator r) (miner_subnet_id r)
    (miner_model_commitment r) (miner_proof_system r) (bond r) (miner_status r)
    (miner_shielded_identity_commitment r) (miner_endpoint_commitment r).

Definition MinerRegistration_activate (self : MinerRegistration) (policy : MinerBondPolicy) :
    result ProtocolError MinerRegistration :=
  try! validate_bond policy (bond self);
  try! ensure_commitment (miner_model_commitment self);
  Ok (self <| miner_status := RegistryStatus_Active |>).

Definition MinerRegistration_begin_exit
    (self : MinerRegistration) (policy : MinerBondPolicy) (current_block : Z) :
    result ProtocolError MinerRegistration :=
  at_block <-? exit_available_at policy current_block;
  Ok (self <| miner_status := RegistryStatus_Exiting at_block |>).

Record ValidatorRegistration : Type := mk_ValidatorRegistration {
  validator_reg_id : Z;
  validator_operator : AccountId;
  staked : Z;
  routing_subnets : list Z;
  validator_status : RegistryStatus;
}.
#[export] Instance eta_ValidatorRegistration : Eta ValidatorRegistration := fun r =>
  mk_ValidatorRegistration (validator_reg_id r) (validator_operator r) (staked r)
    (routing_subnets r) (validator_status r).

Definition ValidatorRegistration_activate
    (self : ValidatorRegistration) (policy : SubnetPolicy) :
    result ProtocolError ValidatorRegistration :=
  try! validate_validator_stake policy (staked self);
  Ok (self <| validator_status := RegistryStatus_Active |>).

(** ** Proof submissions *)

Record ProofEnvelope : Type := {
  proof_commitment : Commitment;
  journal_commitment : Commitment;
  image_id : Commitment;
  verifier_version : ProofVerifierVersion;
}.
#[export] Instance ProofEnvelope_eq_dec : EqDecision ProofEnvelope.
Proof. solve_decision. Defined.

Definition ProofEnvelope_risc_zero_v1
    (proof_commitment journal_commitment image_id : Commitment) : ProofEnvelope := {|
  proof_commitment := proof_commitment;
  journal_commitment := journal_commitment;
  image_id := image_id;
  verifier_version := ProofVerifierVersion_RiscZeroV1;
|}.

Definition ProofEnvelope_validate (self : ProofEnvelope) (proof_system : ProofSystem) :
    result ProtocolError ProofEnvelope :=
  try! ensure_commitment (proof_commitment self);
  try! ensure_commitment (journal_commitment self);
  try! ensure_commitment (image_id self);
  if negb (ProofVerifierVersion_supports (verifier_version self) proof_system)
  then Err ProtocolError_ProofSystemMismatch else Ok self.

Record InferenceProofSubmission : Type := {
  request_id : Z;
  subnet_id : Z;
  miner_id : Z;
  validator_id : Z;
  input_commitment : Commitment;
  output_commitment : Commitment;
  model_commitment : Commitment;
  proof : ProofEnvelope;
  proof_system : ProofSystem;
  proof_size_bytes : Z;
  verification_latency_ms : Z;
  submitted_at : Z;
}.
#[export] Instance InferenceProofSubmission_eq_dec : EqDecision InferenceProofSubmission.
Proof. solve_decision. Defined.

Definition validate_shape (self : InferenceProofSubmission) (policy : SubnetPolicy) :
    result ProtocolError InferenceProofSubmission :=
  try! ensure_commitment (input_commitment self);
  try! ensure_commitment (output_commitment self);
  try! ensure_commitment (model_commitment self);
  try! ProofEnvelope_validate (proof self) (proof_system self);
  if negb (bool_decide (proof_system self = policy_proof_system policy))
  then Err ProtocolError_ProofSystemMismatch else
  if (proof_size_bytes self <? min_proof_size_bytes policy)
     || (max_proof_size_bytes policy <? proof_size_bytes self)
  then Err ProtocolError_InvalidProofSize else
  if max_verification_latency_ms policy <? verification_latency_ms self
  then Err ProtocolError_LatencyExceeded else
  Ok self.

Inductive VerificationOutcome : Type :=
| VerificationOutcome_Valid
| VerificationOutcome_Invalid (slash_bps : Z)
| VerificationOutcome_Error.
#[export] Instance VerificationOutcome_eq_dec : EqDecision VerificationOutcome.
Proof. solve_decision. Defined.

Record InferenceRecord : Type := {
  rec_request_id : Z;
  rec_subnet_id : Z;
  rec_miner_id : Z;
  rec_validator_id : Z;
  rec_input_commitment : Commitment;
  rec_output_commitment : Commitment;
  rec_model_commitment : Commitment;
  recorded_at : Z;
}.

Definition InferenceRecord_from_valid_submission (submission : InferenceProofSubmission) :
    InferenceRecord := {|
  rec_request_id := request_id submission;
  rec_subnet_id := subnet_id submission;
  rec_miner_id := miner_id submission;
  rec_validator_id := validator_id submission;
  rec_input_commitment := input_commitment submission;
  rec_output_commitment := output_commitment submission;
  rec_model_commitment := model_commitment submission;
  recorded_at := submitted_at submission;
|}.

(** ** Roadmap and emission schedule *)

Definition signature_mode_for_year (year : Z) : SignatureMode :=
  if year <=? 1 then SignatureMode_ClassicalEcdsa
  else if year =? 2 then SignatureMode_HybridDilithium
  else SignatureMode_FullPostQuantum.

Definition halving_epoch (block : Z) : Z :=
  let epoch := unwrap_or (checked_div block HALVING_INTERVAL_BLOCKS) 0 in
  unwrap_or (try_from_uint 32 epoch) (uint_max 32).

Definition emission_after_halvings (initial_emission block : Z) : result ProtocolError Z :=
  let halvings := halving_epoch block in
  let shift := Z.min halvings 127 in
  ok_or (checked_shr 128 initial_emission shift) ProtocolError_ArithmeticOverflow.

(** ** Lemmas on the checks *)

Lemma ensure_commitment_Ok c u : ensure_commitment c = Ok u <-> c <> zero_commitment.
Proof.
  unfold ensure_commitment. destruct u. case_bool_decide; naive_solver.
Qed.

Lemma pro_rata_eq amount bps :
  pro_rata amount bps =
  if amount * bps <? 2 ^ 128 then Ok (amount * bps / BPS_DENOMINATOR)
  else Err ProtocolError_ArithmeticOverflow.
Proof. unfold pro_rata, checked_mul. by destruct (amount * bps <? 2 ^ 128). Qed.

Lemma pro_rata_Ok amount bps x :
  pro_rata amount bps = Ok x -> x = amount * bps / BPS_DENOMINATOR /\ amount * bps < 2 ^ 128.
Proof. rewrite pro_rata_eq. destruct (Z.ltb_spec (amount * bps) (2 ^ 128)); naive_solver. Qed.

(** A share of at most the whole is at most the amount. *)
Lemma share_le amount bps :
  0 <= amount -> 0 <= bps <= BPS_DENOMINATOR ->
  0 <= amount * bps / BPS_DENOMINATOR <= amount.
Proof.
  unfold BPS_DENOMINATOR. intros Ha Hb. split; [apply Z.div_pos; nia|].
  apply Z.div_le_upper_bound; nia.
Qed.

(** Two shares that together are at most the whole fit in the amount. *)
Lemma shares_le amount a b :
  0 <= amount -> 0 <= a -> 0 <= b -> a + b <= BPS_DENOMINATOR ->
  amount * a / BPS_DENOMINATOR + amount * b / BPS_DENOMINATOR <= amount.
Proof.
  unfold BPS_DENOMINATOR. intros Hm Ha Hb Hab.
  pose proof (Z.mul_div_le (amount * a) 10000 ltac:(lia)).
  pose proof (Z.mul_div_le (amount * b) 10000 ltac:(lia)). nia.
Qed.

Lemma slash_amount_Ok p b bps x :
  0 <= b -> 0 <= min_invalid_proof_slash_bps p ->
  max_invalid_proof_slash_bps p <= BPS_DENOMINATOR ->
  slash_amount p b bps = Ok x ->
  x = b * bps / BPS_DENOMINATOR /\ 0 <= x <= b
  /\ min_invalid_proof_slash_bps p <= bps <= max_invalid_proof_slash_bps p.
Proof.
  unfold slash_amount. intros Hb Hmin Hmax H. inv_run.
  apply pro_rata_Ok in H as [-> _]. boolprop.
  destruct Hif as [Hlo Hhi]. pose proof (share_le b bps Hb ltac:(lia)). lia.
Qed.

Lemma slash_amount_qubitum_Ok b bps x :
  0 <= b -> slash_amount MinerBondPolicy_qubitum b bps = Ok x -> 0 <= x <= b.
Proof. intros Hb Hx. apply slash_amount_Ok in Hx as (_ & ? & _); done || by compute. Qed.

Lemma validate_bond_Ok p b x :
  validate_bond p b = Ok x <-> x = b /\ min_bond p <= b <= max_bond p.
Proof.
  unfold validate_bond.
  destruct (Z.ltb_spec b (min_bond p)), (Z.ltb_spec (max_bond p) b); simpl; naive_solver lia.
Qed.

Lemma validate_creation_burn_Ok p b x :
  validate_creation_burn p b = Ok x <-> x = b /\ creation_burn p <= b.
Proof. unfold validate_creation_burn. destruct (Z.ltb_spec b (creation_burn p)); naive_solver lia. Qed.

Lemma validate_validator_stake_Ok p b x :
  validate_validator_stake p b = Ok x <-> x = b /\ min_validator_stake p <= b.
Proof.
  unfold validate_validator_stake. destruct (Z.ltb_spec b (min_validator_stake p)); naive_solver lia.
Qed.

(** ** Properties *)

(** What settling a payment means: the fees are the floors of their basis-point
    shares and the miner receives the rest, so the parts add up to the payment. *)
Definition settlement_of (payment v t : Z) (s : InferenceSettlement) : Prop :=
  validator_fee s = payment * v / BPS_DENOMINATOR
  /\ treasury_fee s = payment * t / BPS_DENOMINATOR
  /\ miner_payment s + validator_fee s + treasury_fee s = payment
  /\ payment * (BPS_DENOMINATOR - v - t) / BPS_DENOMINATOR <= miner_payment s
  /\ 0 <= miner_payment s /\ 0 <= validator_fee s /\ 0 <= treasury_fee s.

Lemma settle_inference_payment_total payment v t :
  in_range 128 payment -> in_range 16 v -> in_range 16 t ->
  v + t <= BPS_DENOMINATOR -> payment * v < 2 ^ 128 -> payment * t < 2 ^ 128 ->
  exists s, settle_inference_payment payment v t = Ok s /\ settlement_of payment v t s.
Proof.
  unfold in_range, settle_inference_payment. intros Hp Hv Ht Hvt Hpv Hpt.
  rewrite !pro_rata_eq.
  pose proof (shares_le payment v t ltac:(lia) ltac:(lia) ltac:(lia) Hvt) as Hle.
  pose proof (share_le payment v ltac:(lia) ltac:(lia)).
  pose proof (share_le payment t ltac:(lia) ltac:(lia)).
  unfold checked_add, checked_sub. unfold BPS_DENOMINATOR in *.
  rewrite !(proj2 (Z.ltb_lt _ _)) by lia. simpl.
  rewrite (proj2 (Z.ltb_ge _ _)) by lia. rewrite (proj2 (Z.ltb_lt _ _)) by lia. simpl.
  rewrite (proj2 (Z.leb_le _ _)) by lia. simpl.
  eexists; split; [reflexivity|]. unfold settlement_of, BPS_DENOMINATOR; simpl.
  repeat split; try lia.
  transitivity (payment - payment * v / 10000 - payment * t / 10000); [|lia].
  pose proof (Z.mul_div_le (payment * v) 10000 ltac:(lia)).
  pose proof (Z.mul_div_le (payment * t) 10000 ltac:(lia)).
  apply Z.div_le_upper_bound; lia.
Qed.

Lemma settle_inference_payment_sound payment v t s :
  in_range 128 payment -> in_range 16 v -> in_range 16 t ->
  settle_inference_payment payment v t = Ok s -> settlement_of payment v t s.
Proof.
  intros Hp Hv Ht H. assert (Hvt : v + t <= BPS_DENOMINATOR
    /\ payment * v < 2 ^ 128 /\ payment * t < 2 ^ 128).
  { unfold settle_inference_payment in H. inv_run. boolprop.
    apply pro_rata_Ok in Hr0 as [_ ?], Hr1 as [_ ?]. lia. }
  destruct (settle_inference_payment_total payment v t) as (s' & Hs & ?); [tauto..|].
  congruence.
Qed.

(** [settle_inference_payment] on every branch: it fails with [ArithmeticOverflow]
    exactly when the basis points leave [u16] or a share leaves [u128], with
    [InvalidRewardSplit] exactly when the fees exceed the whole payment, and
    otherwise splits the payment without losing or creating a unit. *)
Theorem settle_inference_payment_exact (payment v t : Z)
    (Hp : in_range 128 payment) (Hv : in_range 16 v) (Ht : in_range 16 t) :
  match settle_inference_payment payment v t with
  | Ok s => v + t <= BPS_DENOMINATOR /\ settlement_of payment v t s
  | Err ProtocolError_InvalidRewardSplit => BPS_DENOMINATOR < v + t < 2 ^ 16
  | Err ProtocolError_ArithmeticOverflow =>
      2 ^ 16 <= v + t
      \/ v + t <= BPS_DENOMINATOR /\ (2 ^ 128 <= payment * v \/ 2 ^ 128 <= payment * t)
  | Err _ => False
  end.
Proof.
  destruct (Z_le_gt_dec (v + t) BPS_DENOMINATOR) as [Hvt|Hvt].
  - destruct (Z_lt_le_dec (payment * v) (2 ^ 128)), (Z_lt_le_dec (payment * t) (2 ^ 128));
      [destruct (settle_inference_payment_total payment v t) as (s & -> & Hs); auto|..];
      unfold settle_inference_payment, checked_add, in_range, BPS_DENOMINATOR in *;
      rewrite !pro_rata_eq, (proj2 (Z.ltb_lt (v + t) _)) by lia; simpl;
      rewrite (proj2 (Z.ltb_ge 10000 _)) by lia;
      repeat match goal with |- context [if ?a <? ?b then _ else _] =>
        destruct (Z.ltb_spec a b) end; simpl; auto; lia.
  - unfold settle_inference_payment, checked_add, in_range, BPS_DENOMINATOR in *.
    destruct (Z.ltb_spec (v + t) (2 ^ 16)); simpl; [|lia].
    rewrite (proj2 (Z.ltb_lt _ _)) by lia. lia.
Qed.

Lemma settle_inference_payment_exact_witness :
  match settle_inference_payment 1000 250 50 with
  | Ok s => 250 + 50 <= BPS_DENOMINATOR /\ settlement_of 1000 250 50 s
  | Err _ => False
  end.
Proof.
  exact (settle_inference_payment_exact 1000 250 50
           ltac:(solve_range) ltac:(solve_range) ltac:(solve_range)).
Defined.

Lemma RewardSplit_validate_Ok self x :
  RewardSplit_validate self = Ok x ->
  x = self /\ miner_bps self + validator_bps self + treasury_bps self = BPS_DENOMINATOR.
Proof.
  unfold RewardSplit_validate. intros H. inv_run.
  apply and_then_Some in Hr as (y & H1 & H2). boolprop. split; [done|lia].
Qed.

(** An emission allocation hands out the whole amount: the miner and validator
    shares are the floors of their basis-point shares, and the treasury takes its
    own share together with what the rounding left over, at most two units more
    than the floor of its share. *)
Theorem RewardSplit_allocate_conserves (self : RewardSplit) (amount : Z)
    (a : EmissionAllocation)
    (Ham : in_range 128 amount) (Hm : in_range 16 (miner_bps self))
    (Hv : in_range 16 (validator_bps self)) (Ht : in_range 16 (treasury_bps self))
    (Hok : RewardSplit_allocate self amount = Ok a) :
  alloc_miner a = amount * miner_bps self / BPS_DENOMINATOR
  /\ alloc_validator a = amount * validator_bps self / BPS_DENOMINATOR
  /\ alloc_miner a + alloc_validator a + alloc_treasury a = amount
  /\ amount * treasury_bps self / BPS_DENOMINATOR <= alloc_treasury a
  /\ alloc_treasury a < amount * treasury_bps self / BPS_DENOMINATOR + 3.
Proof.
  unfold in_range in *. unfold RewardSplit_allocate in Hok. inv_run.
  apply RewardSplit_validate_Ok in Hr as [_ Hsum].
  apply pro_rata_Ok in Hr0 as [-> _], Hr1 as [-> _]. boolprop.
  destruct Hr2 as [-> _], Hr3 as [-> Hle]. simpl.
  do 2 (split; [done|]). split; [lia|].
  assert (Ht' : treasury_bps self = BPS_DENOMINATOR - miner_bps self - validator_bps self) by lia.
  rewrite Ht'. unfold BPS_DENOMINATOR in *.
  pose proof (Z.mul_div_le (amount * miner_bps self) 10000 ltac:(lia)).
  pose proof (Z.mul_div_le (amount * validator_bps self) 10000 ltac:(lia)).
  pose proof (Z.mul_succ_div_gt (amount * miner_bps self) 10000 ltac:(lia)).
  pose proof (Z.mul_succ_div_gt (amount * validator_bps self) 10000 ltac:(lia)).
  set (r := amount * (10000 - miner_bps self - validator_bps self)).
  pose proof (Z.mul_div_le r 10000 ltac:(lia)).
  pose proof (Z.mul_succ_div_gt r 10000 ltac:(lia)). subst r.
  split; lia.
Qed.

Lemma RewardSplit_allocate_conserves_witness :
  exists a, RewardSplit_allocate RewardSplit_qubitum 101 = Ok a
    /\ alloc_miner a + alloc_validator a + alloc_treasury a = 101
    /\ alloc_miner a = 50 /\ alloc_validator a = 30.
Proof.
  eexists. split; [vm_compute; reflexivity|].
  match goal with |- alloc_miner ?a + _ + _ = _ /\ _ =>
    pose proof (RewardSplit_allocate_conserves RewardSplit_qubitum 101 a
      ltac:(solve_range) ltac:(solve_range) ltac:(solve_range)
      ltac:(solve_range) eq_refl) as (H1 & H2 & H3 & _)
  end.
  rewrite H3, H1, H2. repeat split; reflexivity.
Defined.

(** The halving schedule is total: for every block the emission is the initial
    amount divided by two for each completed interval (127 halvings at most), so no
    block number, however large, makes it fail. *)
Theorem emission_after_halvings_total (e block : Z)
    (He : in_range 128 e) (Hb : in_range 64 block) :
  emission_after_halvings e block
  = Ok (e / 2 ^ Z.min (block / HALVING_INTERVAL_BLOCKS) 127).
Proof.
  unfold in_range in *. unfold emission_after_halvings, halving_epoch, try_from_uint.
  change (unwrap_or (checked_div block HALVING_INTERVAL_BLOCKS) 0)
    with (block / HALVING_INTERVAL_BLOCKS).
  assert (0 <= block / HALVING_INTERVAL_BLOCKS)
    by (apply Z.div_pos; unfold HALVING_INTERVAL_BLOCKS; lia).
  assert (Hmin : Z.min (unwrap_or (if block / HALVING_INTERVAL_BLOCKS <? 2 ^ 32
                   then Some (block / HALVING_INTERVAL_BLOCKS) else None) (uint_max 32)) 127
                 = Z.min (block / HALVING_INTERVAL_BLOCKS) 127).
  { unfold uint_max. destruct (Z.ltb_spec (block / HALVING_INTERVAL_BLOCKS) (2 ^ 32));
      simpl; lia. }
  rewrite Hmin. unfold checked_shr. rewrite (proj2 (Z.ltb_lt _ _)) by lia.
  simpl. rewrite Z.shiftr_div_pow2 by lia. done.
Qed.

Lemma emission_after_halvings_total_witness :
  emission_after_halvings INITIAL_SUPPLY (3 * HALVING_INTERVAL_BLOCKS + 7)
  = Ok (INITIAL_SUPPLY / 2 ^ Z.min ((3 * HALVING_INTERVAL_BLOCKS + 7) / HALVING_INTERVAL_BLOCKS) 127).
Proof.
  apply (emission_after_halvings_total INITIAL_SUPPLY (3 * HALVING_INTERVAL_BLOCKS + 7));
    solve_range.
Defined.

(** What a well-shaped submission is, independently of the order in which the code
    looks at it. *)
Record shape_ok (s : InferenceProofSubmission) (p : SubnetPolicy) : Prop := {
  shape_commitments :
    Forall (fun c => c <> zero_commitment)
      [input_commitment s; output_commitment s; model_commitment s;
       proof_commitment (proof s); journal_commitment (proof s); image_id (proof s)];
  shape_supported :
    ProofVerifierVersion_supports (verifier_version (proof s)) (proof_system s) = true;
  shape_system : proof_system s = policy_proof_system p;
  shape_size : min_proof_size_bytes p <= proof_size_bytes s <= max_proof_size_bytes p;
  shape_latency : verification_latency_ms s <= max_verification_latency_ms p;
}.

Lemma ProofEnvelope_validate_Ok e ps x :
  ProofEnvelope_validate e ps = Ok x <->
  x = e /\ Forall (fun c => c <> zero_commitment)
             [proof_commitment e; journal_commitment e; image_id e]
  /\ ProofVerifierVersion_supports (verifier_version e) ps = true.
Proof.
  unfold ProofEnvelope_validate. rewrite !Forall_cons. split.
  - intros H. inv_run. rewrite ensure_commitment_Ok in *. boolprop. auto 10.
  - intros (-> & (H1 & H2 & H3 & _) & ->).
    by rewrite !(proj2 (ensure_commitment_Ok _ tt)).
Qed.

Lemma validate_shape_id (s x : InferenceProofSubmission) (p : SubnetPolicy) :
  validate_shape s p = Ok x -> x = s.
Proof. unfold validate_shape. intros H. by inv_run. Qed.

(** [validate_shape] accepts exactly the submissions whose six commitments are
    non-zero, whose verifier supports the declared proof system, whose proof system
    is the subnet's, and whose size and latency are inside the policy's bounds; it
    returns them unchanged. *)
Theorem validate_shape_iff (s : InferenceProofSubmission) (p : SubnetPolicy)
    (x : InferenceProofSubmission) :
  validate_shape s p = Ok x <-> x = s /\ shape_ok s p.
Proof.
  unfold validate_shape. split.
  - intros H. inv_run. rewrite ensure_commitment_Ok in *.
    apply ProofEnvelope_validate_Ok in Hr2 as (-> & Hp & Hs). boolprop.
    rewrite !Forall_cons in Hp.
    split; [done|]. split; [|done|..]; [|apply dec_stable; naive_solver|lia|lia].
    rewrite !Forall_cons. naive_solver.
  - intros (-> & [Hc Hv Hsys Hsize Hlat]). rewrite !Forall_cons in Hc.
    destruct Hc as (H1 & H2 & H3 & H4 & H5 & H6 & _).
    rewrite !(proj2 (ensure_commitment_Ok _ tt)) by done. simpl.
    rewrite (proj2 (ProofEnvelope_validate_Ok (proof s) (proof_system s) (proof s)))
      by (rewrite !Forall_cons; naive_solver). simpl.
    rewrite bool_decide_true by done. simpl.
    by rewrite !(proj2 (Z.ltb_ge _ _)) by lia.
Qed.
