(* ===== verification/PostQuantum.v ===== *)
(** * Signature policy of the post-quantum migration

    [primitives/qubitum-protocol/src/post_quantum.rs]: signature algorithms, the
    bundle of a classical and a post-quantum commitment, and the policy that says
    which bundles a roadmap phase accepts. *)

From S2P Require Import Prelude Protocol.
From stdpp Require Import base tactics list.
From Stdlib Require Import ZArith Lia.
Open Scope Z_scope.

Inductive SignatureAlgorithm : Type :=
| SignatureAlgorithm_Ecdsa
| SignatureAlgorithm_Sr25519
| SignatureAlgorithm_Ed25519
| SignatureAlgorithm_Dilithium3
| SignatureAlgorithm_Dilithium5
| SignatureAlgorithm_Falcon512
| SignatureAlgorithm_SphincsPlus.
#[export] Instance SignatureAlgorithm_eq_dec : EqDecision SignatureAlgorithm.
Proof. solve_decision. Defined.

Definition is_classical (self : SignatureAlgorithm) : bool :=
  match self with
  | SignatureAlgorithm_Ecdsa | SignatureAlgorithm_Sr25519 | SignatureAlgorithm_Ed25519 => true
  | _ => false
  end.

Definition is_post_quantum (self : SignatureAlgorithm) : bool :=
  match self with
  | SignatureAlgorithm_Dilithium3 | SignatureAlgorithm_Dilithium5
  | SignatureAlgorithm_Falcon512 | SignatureAlgorithm_SphincsPlus => true
  | _ => false
  end.

Definition is_dilithium (self : SignatureAlgorithm) : bool :=
  match self with
  | SignatureAlgorithm_Dilithium3 | SignatureAlgorithm_Dilithium5 => true
  | _ => false
  end.

Record SignatureCommitment : Type := {
  algorithm : SignatureAlgorithm;
  public_key_commitment : Commitment;
  signature_commitment : Commitment;
}.
#[export] Instance SignatureCommitment_eq_dec : EqDecision SignatureCommitment.
Proof. solve_decision. Defined.

Record SignatureBundle : Type := {
  classical : option SignatureCommitment;
  post_quantum : option SignatureCommitment;
}.
#[export] Instance SignatureBundle_eq_dec : EqDecision SignatureBundle.
Proof. solve_decision. Defined.

Record SignaturePolicy : Type := SignaturePolicy_new { mode : SignatureMode }.

Definition ensure_well_formed_commitments (signature : SignatureCommitment) :
    result ProtocolError unit :=
  if bool_decide (public_key_commitment signature = zero_commitment)
     || bool_decide (signature_commitment signature = zero_commitment)
  then Err ProtocolError_MissingCommitment
  else if bool_decide (public_key_commitment signature = signature_commitment signature)
  then Err ProtocolError_AmbiguousSignatureCommitment
  else Ok tt.

Definition validate_classical (signature : SignatureCommitment) : result ProtocolError unit :=
  try! ensure_well_formed_commitments signature;
  if is_classical (algorithm signature) then Ok tt
  else Err ProtocolError_UnsupportedSignatureAlgorithm.

Definition validate_dilithium (signature : SignatureCommitment) : result ProtocolError unit :=
  try! ensure_well_formed_commitments signature;
  if is_dilithium (algorithm signature) then Ok tt
  else Err ProtocolError_UnsupportedSignatureAlgorithm.

Definition require_classical (signature : option SignatureCommitment) :
    result ProtocolError unit :=
  signature <-? ok_or signature ProtocolError_MissingClassicalSignature;
  validate_classical signature.

Definition require_dilithium (signature : option SignatureCommitment) :
    result ProtocolError unit :=
  signature <-? ok_or signature ProtocolError_MissingPostQuantumSignature;
  validate_dilithium signature.

Definition reject_classical (signature : option SignatureCommitment) :
    result ProtocolError unit :=
  match signature with
  | Some _ => Err ProtocolError_ClassicalSignatureDisallowed
  | None => Ok tt
  end.

Definition validate_optional_dilithium (signature : option SignatureCommitment) :
    result ProtocolError unit :=
  match signature with
  | Some signature => validate_dilithium signature
  | None => Ok tt
  end.

Definition ensure_bundle_commitments_are_domain_separated (bundle : SignatureBundle) :
    result ProtocolError unit :=
  match classical bundle, post_quantum bundle with
  | Some c, Some pq =>
      let classical_commitments := [public_key_commitment c; signature_commitment c] in
      let post_quantum_commitments := [public_key_commitment pq; signature_commitment pq] in
      if existsb (fun x => bool_decide (x ∈ post_quantum_commitments)) classical_commitments
      then Err ProtocolError_AmbiguousSignatureCommitment
      else Ok tt
  | _, _ => Ok tt
  end.

Definition SignaturePolicy_validate (self : SignaturePolicy) (bundle : SignatureBundle) :
    result ProtocolError SignatureBundle :=
  try! match mode self with
       | SignatureMode_ClassicalEcdsa =>
           try! require_classical (classical bundle);
           validate_optional_dilithium (post_quantum bundle)
       | SignatureMode_HybridDilithium =>
           try! require_classical (classical bundle);
           require_dilithium (post_quantum bundle)
       | SignatureMode_FullPostQuantum =>
           try! reject_classical (classical bundle);
           require_dilithium (post_quantum bundle)
       end;
  try! ensure_bundle_commitments_are_domain_separated bundle;
  Ok bundle.

(** ** Specification *)

(** A signature slot: both commitments present and different. *)
Definition slot_ok (accepts : SignatureAlgorithm -> bool) (s : SignatureCommitment) : Prop :=
  public_key_commitment s <> zero_commitment
  /\ signature_commitment s <> zero_commitment
  /\ public_key_commitment s <> signature_commitment s
  /\ accepts (algorithm s) = true.

Definition disjoint_slots (a b : SignatureCommitment) : Prop :=
  forall x, x ∈ [public_key_commitment a; signature_commitment a] ->
            x ∉ [public_key_commitment b; signature_commitment b].

(** The bundles each roadmap phase accepts. *)
Inductive bundle_ok : SignatureMode -> SignatureBundle -> Prop :=
| bundle_classical_only c :
    slot_ok is_classical c ->
    bundle_ok SignatureMode_ClassicalEcdsa {| classical := Some c; post_quantum := None |}
| bundle_both m c d :
    m = SignatureMode_ClassicalEcdsa \/ m = SignatureMode_HybridDilithium ->
    slot_ok is_classical c -> slot_ok is_dilithium d -> disjoint_slots c d ->
    bundle_ok m {| classical := Some c; post_quantum := Some d |}
| bundle_post_quantum d :
    slot_ok is_dilithium d ->
    bundle_ok SignatureMode_FullPostQuantum {| classical := None; post_quantum := Some d |}.

Lemma ensure_well_formed_commitments_Ok s u :
  ensure_well_formed_commitments s = Ok u <->
  public_key_commitment s <> zero_commitment
  /\ signature_commitment s <> zero_commitment
  /\ public_key_commitment s <> signature_commitment s.
Proof.
  unfold ensure_well_formed_commitments. destruct u.
  repeat case_bool_decide; simpl; naive_solver.
Qed.

Lemma validate_classical_Ok s u : validate_classical s = Ok u <-> slot_ok is_classical s.
Proof.
  unfold validate_classical, slot_ok. rewrite rbind_Ok.
  setoid_rewrite ensure_well_formed_commitments_Ok. destruct u, (is_classical _); naive_solver.
Qed.

Lemma validate_dilithium_Ok s u : validate_dilithium s = Ok u <-> slot_ok is_dilithium s.
Proof.
  unfold validate_dilithium, slot_ok. rewrite rbind_Ok.
  setoid_rewrite ensure_well_formed_commitments_Ok. destruct u, (is_dilithium _); naive_solver.
Qed.

Lemma require_classical_Ok o u :
  require_classical o = Ok u <-> exists s, o = Some s /\ slot_ok is_classical s.
Proof.
  unfold require_classical. rewrite rbind_Ok. setoid_rewrite ok_or_Ok.
  by setoid_rewrite validate_classical_Ok.
Qed.

Lemma require_dilithium_Ok o u :
  require_dilithium o = Ok u <-> exists s, o = Some s /\ slot_ok is_dilithium s.
Proof.
  unfold require_dilithium. rewrite rbind_Ok. setoid_rewrite ok_or_Ok.
  by setoid_rewrite validate_dilithium_Ok.
Qed.

Lemma domain_separated_Ok b u :
  ensure_bundle_commitments_are_domain_separated b = Ok u <->
  forall c d, classical b = Some c -> post_quantum b = Some d -> disjoint_slots c d.
Proof.
  unfold ensure_bundle_commitments_are_domain_separated, disjoint_slots. destruct u.
  destruct (classical b) as [c|], (post_quantum b) as [d|]; [|naive_solver..].
  destruct (existsb _ _) eqn:Hex.
  - split; [done|]. intros H. apply existsb_exists in Hex as (x & Hx & Hd).
    apply bool_decide_eq_true in Hd. apply list_elem_of_In in Hx.
    by destruct (H c d eq_refl eq_refl x Hx).
  - split; [|done]. intros _ c' d' [= <-] [= <-] x Hx Hd.
    apply not_true_iff_false in Hex. apply Hex, existsb_exists.
    exists x. rewrite <- list_elem_of_In. by rewrite bool_decide_eq_true.
Qed.

(** The signature policy accepts a bundle exactly when the roadmap phase allows
    it: a classical slot is required, then joined by a Dilithium slot, then
    forbidden; a Dilithium slot is optional, then required; every present slot
    carries two distinct non-zero commitments under an algorithm of its family; and
    no commitment is shared between the two slots. *)
Theorem SignaturePolicy_validate_iff (m : SignatureMode) (b x : SignatureBundle) :
  SignaturePolicy_validate (SignaturePolicy_new m) b = Ok x <-> x = b /\ bundle_ok m b.
Proof.
  unfold SignaturePolicy_validate; simpl. rewrite rbind_Ok. split.
  - intros (u & Hm & H). inv_run. split; [done|].
    rewrite domain_separated_Ok in Hr. destruct x as [[c|] [d|]], m; simpl in *; inv_run;
      try discriminate;
      repeat match goal with
      | H : require_classical _ = Ok _ |- _ => apply require_classical_Ok in H as (? & [= <-] & ?)
      | H : require_dilithium _ = Ok _ |- _ => apply require_dilithium_Ok in H as (? & [= <-] & ?)
      | H : validate_dilithium _ = Ok _ |- _ => apply validate_dilithium_Ok in H
      end; by constructor; auto.
  - intros (-> & Hb).
    assert (Hd : ensure_bundle_commitments_are_domain_separated b = Ok tt).
    { apply domain_separated_Ok. inversion Hb; simpl; naive_solver. }
    exists tt. rewrite Hd. split; [|done].
    inversion Hb as [c Hc|m' c d [->| ->] Hc Hpq _|d Hpq]; subst; simpl;
      rewrite ?rbind_Ok;
      try (exists tt; split; [apply require_classical_Ok; eauto|]);
      try done; apply validate_dilithium_Ok || apply require_dilithium_Ok; eauto.
Qed.

(** Once the full post-quantum phase is reached no bundle that still carries a
    classical signature is accepted, whatever its post-quantum slot holds. *)
Lemma classical_sunset b :
  is_Some (classical b) ->
  SignaturePolicy_validate (SignaturePolicy_new SignatureMode_FullPostQuantum) b
  = Err ProtocolError_ClassicalSignatureDisallowed.
Proof. intros [c Hc]. unfold SignaturePolicy_validate, reject_classical; simpl. by rewrite Hc. Qed.
