(* ===== verification/Verifier.v ===== *)
(** * Proof verifiers of the protocol crate

    [primitives/qubitum-protocol/src/verifier.rs]: the verifier interface, the
    shape-only verifier and the deterministic verifier of the protocol tests. *)

From S2P Require Import Prelude Protocol.
From stdpp Require Import base tactics list.
From Stdlib Require Import ZArith.
Open Scope Z_scope.

(** The trait [ProofVerifier]: [V] is the implementing type. *)
Class ProofVerifier (V : Type) := {
  verify : V -> InferenceProofSubmission -> SubnetPolicy ->
           result ProtocolError VerificationOutcome;
}.

Record ShapeVerifier : Type := mk_ShapeVerifier {}.

#[export] Instance ShapeVerifier_verify : ProofVerifier ShapeVerifier := {|
  verify _ submission policy :=
    try! validate_shape submission policy;
    Ok VerificationOutcome_Valid;
|}.

Record MockVerifier : Type := {
  expected_proof_commitment : option Commitment;
  forced_invalid_slash_bps : option Z;
}.

Definition MockVerifier_accepting : MockVerifier :=
  {| expected_proof_commitment := None; forced_invalid_slash_bps := None |}.

Definition MockVerifier_expecting (c : Commitment) : MockVerifier :=
  {| expected_proof_commitment := Some c; forced_invalid_slash_bps := None |}.

Definition MockVerifier_rejecting (slash_bps : Z) : MockVerifier :=
  {| expected_proof_commitment := None; forced_invalid_slash_bps := Some slash_bps |}.

#[export] Instance MockVerifier_verify : ProofVerifier MockVerifier := {|
  verify self submission policy :=
    try! validate_shape submission policy;
    match forced_invalid_slash_bps self with
    | Some slash_bps => Ok (VerificationOutcome_Invalid slash_bps)
    | None =>
        match expected_proof_commitment self with
        | Some expected =>
            if bool_decide (expected = proof_commitment (proof submission))
            then Ok VerificationOutcome_Valid
            else Ok (VerificationOutcome_Invalid
                       (min_invalid_proof_slash_bps (miner_bond policy)))
        | None => Ok VerificationOutcome_Valid
        end
    end;
|}.

Inductive ProofProcessing : Type :=
| ProofProcessing_Accepted (record : InferenceRecord)
| ProofProcessing_Rejected (miner_slashed : Z).
