(* ===== verification/ProtocolState.v ===== *)
(** * The protocol state machine

    [primitives/qubitum-protocol/src/state.rs]: accounts with free and locked
    balances, subnets, miners, validators and inference records, and the methods of
    [ProtocolState].  The methods take [&mut self] and return early with [?], so a
    failing call keeps the writes it made before the error; they are modelled as
    [meth] computations that return the state in both cases. *)

From S2P Require Import Prelude Protocol Verifier.
From stdpp Require Import base tactics list gmap.
From Stdlib Require Import ZArith Lia.
Open Scope Z_scope.

Record AccountLedger : Type := mk_AccountLedger {
  free : Z;
  locked : Z;
}.
#[export] Instance eta_AccountLedger : Eta AccountLedger :=
  fun r => mk_AccountLedger (free r) (locked r).

Definition AccountLedger_default : AccountLedger := mk_AccountLedger 0 0.

Definition AccountLedger_total (self : AccountLedger) : result ProtocolError Z :=
  ok_or (checked_add 128 (free self) (locked self)) ProtocolError_ArithmeticOverflow.

Record ProtocolState : Type := mk_ProtocolState {
  treasury_account : AccountId;
  accounts : gmap AccountId AccountLedger;
  subnets : gmap Z SubnetConfig;
  miners : gmap Z MinerRegistration;
  validators : gmap Z ValidatorRegistration;
  records : gmap Z InferenceRecord;
  total_burned : Z;
  next_subnet_id : Z;
  next_miner_id : Z;
  next_validator_id : Z;
}.
#[export] Instance eta_ProtocolState : Eta ProtocolState := fun r =>
  mk_ProtocolState (treasury_account r) (accounts r) (subnets r) (miners r)
    (validators r) (records r) (total_burned r) (next_subnet_id r) (next_miner_id r)
    (next_validator_id r).

Abbreviation smeth := (meth ProtocolState ProtocolError).

Definition ProtocolState_new (treasury : AccountId) : ProtocolState := {|
  treasury_account := treasury;
  accounts := ∅;
  subnets := ∅;
  miners := ∅;
  validators := ∅;
  records := ∅;
  total_burned := 0;
  next_subnet_id := 0;
  next_miner_id := 0;
  next_validator_id := 0;
|}.

Definition ledger (st : ProtocolState) (account : AccountId) : AccountLedger :=
  unwrap_or (accounts st !! account) AccountLedger_default.

Definition put_ledger (account : AccountId) (l : AccountLedger) (st : ProtocolState) :
    ProtocolState :=
  st <| accounts ::= <[account := l]> |>.

(** ** Balance primitives

    [self.accounts.entry(account).or_default()] binds the account to the default
    ledger when it has none, before any check. *)

Definition credit (account : AccountId) (amount : Z) : smeth unit := fun st =>
  let l := ledger st account in
  let st := put_ledger account l st in
  match checked_add 128 (free l) amount with
  | Some v => (put_ledger account (l <| free := v |>) st, Ok tt)
  | None => (st, Err ProtocolError_ArithmeticOverflow)
  end.

Definition debit_free (account : AccountId) (amount : Z) : smeth unit := fun st =>
  let l := ledger st account in
  let st := put_ledger account l st in
  if free l <? amount then (st, Err ProtocolError_InsufficientBalance) else
  match checked_sub (free l) amount with
  | Some v => (put_ledger account (l <| free := v |>) st, Ok tt)
  | None => (st, Err ProtocolError_ArithmeticOverflow)
  end.

Definition record_burn (amount : Z) : smeth unit := fun st =>
  match checked_add 128 (total_burned st) amount with
  | Some v => (st <| total_burned := v |>, Ok tt)
  | None => (st, Err ProtocolError_ArithmeticOverflow)
  end.

Definition burn (account : AccountId) (amount : Z) : smeth unit :=
  mut! debit_free account amount;
  record_burn amount.

Definition burn_locked (account : AccountId) (amount : Z) : smeth unit := fun st =>
  let l := ledger st account in
  let st := put_ledger account l st in
  if locked l <? amount then (st, Err ProtocolError_InsufficientBalance) else
  match checked_sub (locked l) amount with
  | Some v => record_burn amount (put_ledger account (l <| locked := v |>) st)
  | None => (st, Err ProtocolError_ArithmeticOverflow)
  end.

Definition transfer (from to : AccountId) (amount : Z) : smeth unit :=
  mut! debit_free from amount;
  credit to amount.

Definition lock (account : AccountId) (amount : Z) : smeth unit :=
  mut! debit_free account amount;
  fun st =>
    let l := ledger st account in
    let st := put_ledger account l st in
    match checked_add 128 (locked l) amount with
    | Some v => (put_ledger account (l <| locked := v |>) st, Ok tt)
    | None => (st, Err ProtocolError_ArithmeticOverflow)
    end.

Definition unlock (account : AccountId) (amount : Z) : smeth unit := fun st =>
  let l := ledger st account in
  let st := put_ledger account l st in
  if locked l <? amount then (st, Err ProtocolError_InsufficientBalance) else
  match checked_sub (locked l) amount with
  | None => (st, Err ProtocolError_ArithmeticOverflow)
  | Some v =>
      let st := put_ledger account (l <| locked := v |>) st in
      match checked_add 128 (free l) amount with
      | Some w => (put_ledger account (l <| locked := v |> <| free := w |>) st, Ok tt)
      | None => (st, Err ProtocolError_ArithmeticOverflow)
      end
  end.

(** ** Genesis *)

Fixpoint endow (endowed : list (AccountId * Z)) (issued : Z) : smeth Z :=
  match endowed with
  | [] => mdone issued
  | (account, amount) :: rest =>
      issued <-& mcheck (fun _ => ok_or (checked_add 128 issued amount)
                                    ProtocolError_ArithmeticOverflow);
      mut! credit account amount;
      endow rest issued
  end.

Definition with_genesis (treasury : AccountId) (endowed : list (AccountId * Z)) :
    result ProtocolError ProtocolState :=
  let run : smeth unit :=
    issued <-& endow endowed 0;
    if INITIAL_SUPPLY <? issued then merr ProtocolError_ArithmeticOverflow else
    treasury_remainder <-& mcheck (fun _ => ok_or (checked_sub INITIAL_SUPPLY issued)
                                              ProtocolError_ArithmeticOverflow);
    credit treasury treasury_remainder in
  match run (ProtocolState_new treasury) with
  | (st, Ok _) => Ok st
  | (_, Err e) => Err e
  end.

(** ** Identifiers *)

Definition take_subnet_id : smeth Z :=
  id <-& mcheck (fun st => Ok (next_subnet_id st));
  next <-& mcheck (fun _ => ok_or (checked_add 16 id 1) ProtocolError_ArithmeticOverflow);
  mut! mwrite (fun st => st <| next_subnet_id := next |>);
  mdone id.

Definition take_miner_id : smeth Z :=
  id <-& mcheck (fun st => Ok (next_miner_id st));
  next <-& mcheck (fun _ => ok_or (checked_add 64 id 1) ProtocolError_ArithmeticOverflow);
  mut! mwrite (fun st => st <| next_miner_id := next |>);
  mdone id.

Definition take_validator_id : smeth Z :=
  id <-& mcheck (fun st => Ok (next_validator_id st));
  next <-& mcheck (fun _ => ok_or (checked_add 64 id 1) ProtocolError_ArithmeticOverflow);
  mut! mwrite (fun st => st <| next_validator_id := next |>);
  mdone id.

(** ** Subnets, miners and validators *)

Definition create_subnet (owner : AccountId) (domain : SubnetDomain) (creation_burn : Z) :
    smeth Z :=
  let policy := SubnetPolicy_qubitum in
  mut! mcheck (fun _ => validate_creation_burn policy creation_burn);
  mut! burn owner creation_burn;
  id <-& take_subnet_id;
  inserted <-& mcheck (fun st => Ok (bool_decide (subnets st !! id = None)));
  mut! mwrite (fun st => st <| subnets ::= <[id := {|
    subnet_config_id := id; owner := owner; domain := domain; policy := policy;
    active := true |}]> |>);
  if inserted : bool then mdone id else merr ProtocolError_DuplicateSubnet.

Definition get_subnet (st : ProtocolState) (id : Z) : result ProtocolError SubnetConfig :=
  ok_or (subnets st !! id) ProtocolError_UnknownSubnet.

Definition get_miner (st : ProtocolState) (id : Z) : result ProtocolError MinerRegistration :=
  ok_or (miners st !! id) ProtocolError_UnknownMiner.

(** [self.miners.get_mut(&id).ok_or(UnknownMiner)?], then a write through it. *)
Definition update_miner (id : Z) (f : MinerRegistration -> MinerRegistration) : smeth unit :=
  miner <-& mcheck (fun st => get_miner st id);
  mwrite (fun st => st <| miners ::= <[id := f miner]> |>).

Definition register_miner (operator : AccountId) (subnet_id : Z)
    (model_commitment : Commitment) (proof_system : ProofSystem) : smeth Z :=
  subnet <-& mcheck (fun st => get_subnet st subnet_id);
  let pol := policy subnet in
  if negb (bool_decide (policy_proof_system pol = proof_system))
  then merr ProtocolError_ProofSystemMismatch else
  mut! mcheck (fun _ => ensure_commitment model_commitment);
  mut! burn operator (registration_burn (miner_bond pol));
  id <-& take_miner_id;
  mut! mwrite (fun st => st <| miners ::= <[id := {|
    miner_reg_id := id; miner_operator := operator; miner_subnet_id := subnet_id;
    miner_model_commitment := model_commitment; miner_proof_system := proof_system;
    bond := 0; miner_status := RegistryStatus_Pending;
    miner_shielded_identity_commitment := None; miner_endpoint_commitment := None |}]> |>);
  mdone id.

Definition activate_miner (miner_id bond_amount : Z) : smeth unit :=
  miner <-& mcheck (fun st => get_miner st miner_id);
  subnet <-& mcheck (fun st => get_subnet st (miner_subnet_id miner));
  mut! mcheck (fun _ => validate_bond (miner_bond (policy subnet)) bond_amount);
  mut! lock (miner_operator miner) bond_amount;
  update_miner miner_id (fun m =>
    m <| bond := bond_amount |> <| miner_status := RegistryStatus_Active |>).

Definition begin_miner_exit (miner_id current_block : Z) : smeth unit :=
  miner <-& mcheck (fun st => get_miner st miner_id);
  subnet <-& mcheck (fun st => get_subnet st (miner_subnet_id miner));
  at_block <-& mcheck (fun _ => exit_available_at (miner_bond (policy subnet)) current_block);
  update_miner miner_id (fun m => m <| miner_status := RegistryStatus_Exiting at_block |>).

Definition complete_miner_exit (miner_id current_block : Z) : smeth unit :=
  miner <-& mcheck (fun st => get_miner st miner_id);
  match miner_status miner with
  | RegistryStatus_Exiting exit_at =>
      if current_block <? exit_at then merr ProtocolError_CooldownNotComplete else
      mut! unlock (miner_operator miner) (bond miner);
      update_miner miner_id (fun m =>
        m <| bond := 0 |> <| miner_status := RegistryStatus_Disabled |>)
  | _ => merr ProtocolError_NotActive
  end.

Definition register_validator (operator : AccountId) (subnet_id stake : Z) : smeth Z :=
  subnet <-& mcheck (fun st => get_subnet st subnet_id);
  mut! mcheck (fun _ => validate_validator_stake (policy subnet) stake);
  mut! lock operator stake;
  id <-& take_validator_id;
  mut! mwrite (fun st => st <| validators ::= <[id := {|
    validator_reg_id := id; validator_operator := operator; staked := stake;
    routing_subnets := [subnet_id]; validator_status := RegistryStatus_Active |}]> |>);
  mdone id.

Definition slash_miner (miner_id slash_bps : Z) : smeth Z :=
  miner <-& mcheck (fun st => get_miner st miner_id);
  subnet <-& mcheck (fun st => get_subnet st (miner_subnet_id miner));
  let pol := miner_bond (policy subnet) in
  amount <-& mcheck (fun _ => slash_amount pol (bond miner) slash_bps);
  remaining <-& mcheck (fun _ => ok_or (checked_sub (bond miner) amount)
                                   ProtocolError_ArithmeticOverflow);
  mut! burn_locked (miner_operator miner) amount;
  mut! update_miner miner_id (fun m =>
    let m := m <| bond := remaining |> in
    if remaining <? min_bond pol then m <| miner_status := RegistryStatus_Slashed |> else m);
  mdone amount.

(** ** Proofs *)

Definition active_miner_of (st : ProtocolState) (submission : InferenceProofSubmission) :
    result ProtocolError AccountId :=
  miner <-? get_miner st (miner_id submission);
  if negb (miner_subnet_id miner =? subnet_id submission)
     || negb (bool_decide (miner_status miner = RegistryStatus_Active))
  then Err ProtocolError_NotActive else Ok (miner_operator miner).

Definition active_validator_of (st : ProtocolState) (submission : InferenceProofSubmission) :
    result ProtocolError AccountId :=
  validator <-? ok_or (validators st !! validator_id submission)
                  ProtocolError_UnknownValidator;
  let validator_routes_subnet :=
    bool_decide (subnet_id submission ∈ routing_subnets validator) in
  if negb validator_routes_subnet
     || negb (bool_decide (validator_status validator = RegistryStatus_Active))
  then Err ProtocolError_NotActive else Ok (validator_operator validator).

Definition submit_valid_proof (payer : AccountId) (submission : InferenceProofSubmission)
    (payment validator_fee_bps treasury_fee_bps : Z) : smeth InferenceRecord :=
  subnet <-& mcheck (fun st => get_subnet st (subnet_id submission));
  submission <-& mcheck (fun _ => validate_shape submission (policy subnet));
  miner_operator <-& mcheck (fun st => active_miner_of st submission);
  validator_operator <-& mcheck (fun st => active_validator_of st submission);
  settlement <-& mcheck (fun _ =>
    settle_inference_payment payment validator_fee_bps treasury_fee_bps);
  mut! transfer payer miner_operator (miner_payment settlement);
  mut! transfer payer validator_operator (validator_fee settlement);
  treasury <-& mcheck (fun st => Ok (treasury_account st));
  mut! transfer payer treasury (treasury_fee settlement);
  let record := InferenceRecord_from_valid_submission submission in
  mut! mwrite (fun st => st <| records ::= <[rec_request_id record := record]> |>);
  mdone record.

Definition process_proof `{ProofVerifier V} (payer : AccountId)
    (submission : InferenceProofSubmission)
    (payment validator_fee_bps treasury_fee_bps : Z) (verifier : V) :
    smeth ProofProcessing :=
  subnet <-& mcheck (fun st => get_subnet st (subnet_id submission));
  outcome <-& mcheck (fun _ => verify verifier submission (policy subnet));
  match outcome with
  | VerificationOutcome_Valid =>
      record <-& submit_valid_proof payer submission payment validator_fee_bps
                   treasury_fee_bps;
      mdone (ProofProcessing_Accepted record)
  | VerificationOutcome_Invalid slash_bps =>
      miner_slashed <-& slash_miner (miner_id submission) slash_bps;
      mdone (ProofProcessing_Rejected miner_slashed)
  | VerificationOutcome_Error => merr ProtocolError_VerifierError
  end.

(** ** The ledger invariant *)

Definition ledger_total (l : AccountLedger) : Z := free l + locked l.

(** Everything ever issued: what the accounts own plus what was burned. *)
Definition supply (st : ProtocolState) : Z :=
  map_sum (fun _ l => ledger_total l) (accounts st) + total_burned st.

(** The miner bonds and validator stakes recorded for an operator. *)
Definition capital (st : ProtocolState) (a : AccountId) : Z :=
  map_sum (fun _ m => if decide (miner_operator m = a) then bond m else 0) (miners st)
  + map_sum (fun _ v => if decide (validator_operator v = a) then staked v else 0)
      (validators st).

(** [ledger_inv K st]: balances are non-negative and sum to [K] together with the
    burned total, and every recorded bond and stake is backed by locked funds. *)
Record ledger_inv (K : Z) (st : ProtocolState) : Prop := {
  inv_nonneg a : 0 <= free (ledger st a) /\ 0 <= locked (ledger st a);
  inv_burned : 0 <= total_burned st;
  inv_supply : supply st = K;
  inv_bonds id m : miners st !! id = Some m -> 0 <= bond m;
  inv_stakes id v : validators st !! id = Some v -> 0 <= staked v;
  inv_backed a : capital st a <= locked (ledger st a);
  inv_policy id s : subnets st !! id = Some s -> policy s = SubnetPolicy_qubitum;
  inv_subnet id m : miners st !! id = Some m -> is_Some (subnets st !! miner_subnet_id m);
}.

Lemma ledger_put a l st b :
  ledger (put_ledger a l st) b = if decide (a = b) then l else ledger st b.
Proof.
  unfold ledger, put_ledger; simpl. rewrite lookup_insert. by destruct (decide (a = b)).
Qed.

Lemma ledger_put_eq a l st : ledger (put_ledger a l st) a = l.
Proof. rewrite ledger_put. by rewrite decide_True. Qed.

Lemma put_put a l1 l2 st : put_ledger a l2 (put_ledger a l1 st) = put_ledger a l2 st.
Proof. unfold put_ledger. unfold set_field. destruct st; simpl. by rewrite insert_insert_eq. Qed.

Lemma supply_put a l st :
  supply (put_ledger a l st) = supply st + ledger_total l - ledger_total (ledger st a).
Proof.
  unfold supply, ledger, put_ledger; simpl. rewrite map_sum_insert.
  destruct (accounts st !! a); simpl; unfold ledger_total; simpl; lia.
Qed.

Lemma ledger_le_supply K st a : ledger_inv K st ->
  ledger_total (ledger st a) + total_burned st <= K.
Proof.
  intros [Hn Hb <- _ _ _ _ _]. unfold supply, ledger in *.
  assert (Hpos : forall k l, accounts st !! k = Some l -> 0 <= ledger_total l).
  { intros k l Hk. specialize (Hn k). rewrite Hk in Hn. unfold ledger_total. simpl in Hn. lia. }
  destruct (accounts st !! a) as [l|] eqn:Ha; simpl.
  - pose proof (map_sum_lookup_le (fun _ l => ledger_total l) _ _ _ Hpos Ha). simpl in *. lia.
  - pose proof (map_sum_nonneg (fun _ l => ledger_total l) _ Hpos).
    change (ledger_total AccountLedger_default) with 0. lia.
Qed.

(** One account's ledger changes. *)
Lemma put_ledger_inv K K' a l st :
  ledger_inv K st -> 0 <= free l -> 0 <= locked l -> capital st a <= locked l ->
  K' = K + ledger_total l - ledger_total (ledger st a) ->
  ledger_inv K' (put_ledger a l st).
Proof.
  intros Hi Hf Hl Hc ->. destruct Hi. split; try done.
  - intros b. rewrite ledger_put. case_decide; auto.
  - rewrite supply_put. lia.
  - intros b. rewrite ledger_put. unfold capital in *; simpl. case_decide; [by subst|auto].
Qed.

Lemma touch_ledger_inv K a st :
  ledger_inv K st -> ledger_inv K (put_ledger a (ledger st a) st).
Proof.
  intros Hi. destruct (inv_nonneg _ _ Hi a).
  eapply put_ledger_inv; eauto using inv_backed. lia.
Qed.

(** *** The primitives, as equations *)

Section Primitives.
Context (K : Z) (st : ProtocolState) (a : AccountId) (amount : Z).
Hypothesis Hinv : ledger_inv K st.
Hypothesis Hamount : 0 <= amount.

Lemma debit_free_eq :
  debit_free a amount st =
  if free (ledger st a) <? amount
  then (put_ledger a (ledger st a) st, Err ProtocolError_InsufficientBalance)
  else (put_ledger a (ledger st a <| free := free (ledger st a) - amount |>) st, Ok tt).
Proof.
  unfold debit_free. destruct (Z.ltb_spec (free (ledger st a)) amount); [done|].
  unfold checked_sub. rewrite (proj2 (Z.leb_le _ _)) by lia. by rewrite put_put.
Qed.

Lemma credit_eq : K + amount < 2 ^ 128 ->
  credit a amount st =
  (put_ledger a (ledger st a <| free := free (ledger st a) + amount |>) st, Ok tt).
Proof.
  intros HK. pose proof (ledger_le_supply K st a Hinv) as Hle.
  destruct (inv_nonneg _ _ Hinv a). pose proof (inv_burned _ _ Hinv).
  unfold ledger_total in Hle. unfold credit, checked_add.
  rewrite (proj2 (Z.ltb_lt _ _)) by lia. by rewrite put_put.
Qed.

Lemma lock_eq : K < 2 ^ 128 ->
  lock a amount st =
  if free (ledger st a) <? amount
  then (put_ledger a (ledger st a) st, Err ProtocolError_InsufficientBalance)
  else (put_ledger a (mk_AccountLedger (free (ledger st a) - amount)
                        (locked (ledger st a) + amount)) st, Ok tt).
Proof.
  intros HK. unfold lock, mthen. rewrite debit_free_eq.
  destruct (Z.ltb_spec (free (ledger st a)) amount); [done|].
  pose proof (ledger_le_supply K st a Hinv) as Hle.
  destruct (inv_nonneg _ _ Hinv a). pose proof (inv_burned _ _ Hinv).
  rewrite !ledger_put_eq, !put_put. unfold ledger_total in Hle. unfold checked_add; simpl.
  rewrite (proj2 (Z.ltb_lt _ _)) by lia. by rewrite put_put.
Qed.

Lemma unlock_eq : K < 2 ^ 128 ->
  unlock a amount st =
  if locked (ledger st a) <? amount
  then (put_ledger a (ledger st a) st, Err ProtocolError_InsufficientBalance)
  else (put_ledger a (mk_AccountLedger (free (ledger st a) + amount)
                        (locked (ledger st a) - amount)) st, Ok tt).
Proof.
  intros HK. unfold unlock, checked_sub, checked_add.
  destruct (Z.ltb_spec (locked (ledger st a)) amount); [done|].
  pose proof (ledger_le_supply K st a Hinv) as Hle. pose proof (inv_burned _ _ Hinv).
  destruct (inv_nonneg _ _ Hinv a). unfold ledger_total in Hle.
  rewrite (proj2 (Z.leb_le _ _)), (proj2 (Z.ltb_lt _ _)) by lia. by rewrite !put_put.
Qed.

Lemma burn_locked_eq : K < 2 ^ 128 ->
  burn_locked a amount st =
  if locked (ledger st a) <? amount
  then (put_ledger a (ledger st a) st, Err ProtocolError_InsufficientBalance)
  else (put_ledger a (ledger st a <| locked := locked (ledger st a) - amount |>) st
          <| total_burned := total_burned st + amount |>, Ok tt).
Proof.
  intros HK. unfold burn_locked, record_burn, checked_sub, checked_add.
  destruct (Z.ltb_spec (locked (ledger st a)) amount); [done|].
  pose proof (ledger_le_supply K st a Hinv) as Hle.
  destruct (inv_nonneg _ _ Hinv a). unfold ledger_total in Hle.
  rewrite (proj2 (Z.leb_le _ _)), put_put by lia. simpl.
  by rewrite (proj2 (Z.ltb_lt _ _)) by lia.
Qed.

Lemma burn_eq : K < 2 ^ 128 ->
  burn a amount st =
  if free (ledger st a) <? amount
  then (put_ledger a (ledger st a) st, Err ProtocolError_InsufficientBalance)
  else (put_ledger a (ledger st a <| free := free (ledger st a) - amount |>) st
          <| total_burned := total_burned st + amount |>, Ok tt).
Proof.
  intros HK. unfold burn, mthen. rewrite debit_free_eq.
  destruct (Z.ltb_spec (free (ledger st a)) amount); [done|].
  pose proof (ledger_le_supply K st a Hinv) as Hle.
  destruct (inv_nonneg _ _ Hinv a). unfold ledger_total in Hle.
  unfold record_burn, checked_add; simpl. by rewrite (proj2 (Z.ltb_lt _ _)) by lia.
Qed.

End Primitives.

(** *** The invariant under writes to the other fields *)

Lemma total_burned_inv K K' b st :
  ledger_inv K st -> 0 <= b -> K' = K + b - total_burned st ->
  ledger_inv K' (st <| total_burned := b |>).
Proof.
  intros [] Hb ->. split; try done. subst K. unfold supply in *; simpl. lia.
Qed.

Lemma capital_update_miner st id m m' a :
  miners st !! id = Some m -> miner_operator m' = miner_operator m ->
  capital (st <| miners ::= <[id := m']> |>) a
  = capital st a + if decide (miner_operator m = a) then bond m' - bond m else 0.
Proof.
  intros Hm Hop. unfold capital; simpl. rewrite map_sum_insert, Hm, Hop. case_decide; lia.
Qed.

(** An operator's ledger and one of their miner records change together. *)
Lemma put_ledger_miner_inv K K' id m m' l st :
  ledger_inv K st -> miners st !! id = Some m ->
  miner_operator m' = miner_operator m -> miner_subnet_id m' = miner_subnet_id m ->
  0 <= bond m' -> 0 <= free l -> 0 <= locked l ->
  capital st (miner_operator m) + bond m' - bond m <= locked l ->
  K' = K + ledger_total l - ledger_total (ledger st (miner_operator m)) ->
  ledger_inv K' (put_ledger (miner_operator m) l st <| miners ::= <[id := m']> |>).
Proof.
  intros Hi Hm Hop Hsub Hb Hf Hl Hc ->. destruct Hi.
  assert (Hcap : forall a, capital (put_ledger (miner_operator m) l st
      <| miners ::= <[id := m']> |>) a
      = capital st a + if decide (miner_operator m = a) then bond m' - bond m else 0)
    by (intros a; by apply (capital_update_miner (put_ledger (miner_operator m) l st))).
  split; try done.
  - intros b. change (0 <= free (ledger (put_ledger (miner_operator m) l st) b)
      /\ 0 <= locked (ledger (put_ledger (miner_operator m) l st) b)).
    rewrite ledger_put. case_decide; auto.
  - change (supply (put_ledger (miner_operator m) l st)
      = K + ledger_total l - ledger_total (ledger st (miner_operator m))).
    rewrite supply_put. lia.
  - intros id' m0. simpl. rewrite lookup_insert_Some. intros [[_ <-]|[_ ?]]; eauto.
  - intros a. rewrite Hcap.
    change (ledger _ a) with (ledger (put_ledger (miner_operator m) l st) a).
    rewrite ledger_put. case_decide; [subst; lia|]. specialize (inv_backed0 a). lia.
  - intros id' m0. simpl. rewrite lookup_insert_Some.
    intros [[_ <-]|[_ ?]]; [rewrite Hsub|]; eauto.
Qed.

(** A miner record changes without its bond or operator changing. *)
Lemma update_miner_same_inv K id m m' st :
  ledger_inv K st -> miners st !! id = Some m ->
  miner_operator m' = miner_operator m -> miner_subnet_id m' = miner_subnet_id m ->
  bond m' = bond m ->
  ledger_inv K (st <| miners ::= <[id := m']> |>).
Proof.
  intros [] Hm Hop Hsub Hb. split; try done.
  - intros id' m0. simpl. rewrite lookup_insert_Some.
    intros [[_ <-]|[_ ?]]; [rewrite Hb|]; eauto.
  - intros a. rewrite (capital_update_miner st id m) by done.
    change (ledger _ a) with (ledger st a). specialize (inv_backed0 a). case_decide; lia.
  - intros id' m0. simpl. rewrite lookup_insert_Some.
    intros [[_ <-]|[_ ?]]; [rewrite Hsub|]; eauto.
Qed.

(** A new record may only replace one whose bond it does not exceed. *)
Lemma insert_miner_inv K id m' st :
  ledger_inv K st -> bond m' = 0 -> is_Some (subnets st !! miner_subnet_id m') ->
  ledger_inv K (st <| miners ::= <[id := m']> |>).
Proof.
  intros [] Hb Hsub. split; try done.
  - intros id' m0. simpl. rewrite lookup_insert_Some. intros [[_ <-]|[_ ?]]; [lia|eauto].
  - intros a. change (ledger _ a) with (ledger st a). specialize (inv_backed0 a).
    unfold capital in *; simpl. rewrite map_sum_insert, Hb.
    destruct (miners st !! id) as [m|] eqn:Hm; [pose proof (inv_bonds0 _ _ Hm)|];
      repeat case_decide; lia.
  - intros id' m0. simpl. rewrite lookup_insert_Some. intros [[_ <-]|[_ ?]]; eauto.
Qed.

Lemma insert_validator_inv K id v st :
  ledger_inv K st -> 0 <= staked v ->
  capital st (validator_operator v) + staked v <= locked (ledger st (validator_operator v)) ->
  ledger_inv K (st <| validators ::= <[id := v]> |>).
Proof.
  intros [] Hs Hc. split; try done.
  - intros id' v0. simpl. rewrite lookup_insert_Some. intros [[_ <-]|[_ ?]]; eauto.
  - intros a. change (ledger _ a) with (ledger st a). specialize (inv_backed0 a).
    unfold capital in *; simpl. rewrite map_sum_insert.
    destruct (validators st !! id) as [v0|] eqn:Hv; [pose proof (inv_stakes0 _ _ Hv)|];
      repeat case_decide; subst; lia.
Qed.

Lemma insert_subnet_inv K id s st :
  ledger_inv K st -> policy s = SubnetPolicy_qubitum ->
  ledger_inv K (st <| subnets ::= <[id := s]> |>).
Proof.
  intros [] Hp. split; try done.
  - intros id' s0. simpl. rewrite lookup_insert_Some. intros [[_ <-]|[_ ?]]; eauto.
  - intros id' m Hm. simpl. rewrite lookup_insert_is_Some'. eauto.
Qed.

Lemma update_miner_eq st id f m :
  miners st !! id = Some m ->
  update_miner id f st = (st <| miners ::= <[id := f m]> |>, Ok tt).
Proof. intros Hm. unfold update_miner, mthen, mcheck, get_miner. by rewrite Hm. Qed.

(** *** Every method keeps the invariant *)

Section Stability.
Context (K : Z).
Hypothesis HK : 0 <= K < 2 ^ 128.

Lemma burn_stable a amount : 0 <= amount -> stable (ledger_inv K) (burn a amount).
Proof.
  intros Ha st Hi. rewrite (burn_eq K) by (done || lia).
  destruct (Z.ltb_spec (free (ledger st a)) amount); simpl; [by apply touch_ledger_inv|].
  pose proof (inv_burned _ _ Hi). destruct (inv_nonneg _ _ Hi a).
  eapply (total_burned_inv (K - amount)); [|lia|simpl; lia].
  eapply put_ledger_inv; eauto; simpl; [lia|by apply inv_backed with K|].
  unfold ledger_total; simpl. lia.
Qed.

Lemma lock_stable a amount : 0 <= amount -> stable (ledger_inv K) (lock a amount).
Proof.
  intros Ha st Hi. rewrite (lock_eq K) by (done || lia).
  destruct (Z.ltb_spec (free (ledger st a)) amount); simpl; [by apply touch_ledger_inv|].
  destruct (inv_nonneg _ _ Hi a). pose proof (inv_backed _ _ Hi a).
  eapply put_ledger_inv; eauto; simpl; [lia..|]. unfold ledger_total; simpl. lia.
Qed.

Lemma transfer_stable a b amount : 0 <= amount -> stable (ledger_inv K) (transfer a b amount).
Proof.
  intros Ha st Hi. unfold transfer, mthen. rewrite debit_free_eq by lia.
  destruct (Z.ltb_spec (free (ledger st a)) amount); simpl; [by apply touch_ledger_inv|].
  destruct (inv_nonneg _ _ Hi a).
  assert (Hi1 : ledger_inv (K - amount)
    (put_ledger a (ledger st a <| free := free (ledger st a) - amount |>) st)).
  { eapply put_ledger_inv; eauto; simpl; [lia|by apply inv_backed with K|].
    unfold ledger_total; simpl. lia. }
  rewrite (credit_eq (K - amount)) by (done || lia). simpl.
  destruct (inv_nonneg _ _ Hi1 b).
  eapply put_ledger_inv; [exact Hi1|simpl; lia|simpl; lia|exact (inv_backed _ _ Hi1 b)|].
  unfold ledger_total; simpl. lia.
Qed.

End Stability.

Section MethodStability.
Context (K : Z).
Hypothesis HK : 0 <= K < 2 ^ 128.
Local Hint Resolve burn_stable lock_stable transfer_stable : stable.

Lemma create_subnet_stable o d b :
  0 <= b -> stable (ledger_inv K) (create_subnet o d b).
Proof.
  intros Hb. unfold create_subnet, take_subnet_id. solve_stable.
  - by destruct H.
  - by apply insert_subnet_inv.
Qed.

Lemma register_miner_stable o n c ps : stable (ledger_inv K) (register_miner o n c ps).
Proof.
  intros st Hi. unfold register_miner. apply stable_then_Ok; [done..|].
  intros sub st' [Hs ->]%mcheck_Ok _. unfold get_subnet in Hs. inv_run.
  pose proof (inv_policy _ _ Hi _ _ Hs) as ->.
  cut (ledger_inv K st /\ is_Some (subnets st !! n)); [|eauto]. clear Hi Hs.
  intros Hi. match goal with |- ledger_inv K (fst (?m st)) =>
    enough (stable (fun st => ledger_inv K st /\ is_Some (subnets st !! n)) m)
      as Hst by (exact (proj1 (Hst st Hi))) end.
  unfold take_miner_id. solve_stable.
  - intros st' [Hi' Hs']. split; [by apply burn_stable|].
    destruct Hi'. rewrite (burn_eq K) by (done || lia). by destruct (_ <? _).
  - destruct H as [[] ?]. done.
  - destruct H. split; [by apply insert_miner_inv|done].
Qed.

Lemma activate_miner_stable id b : 0 <= b -> stable (ledger_inv K) (activate_miner id b).
Proof.
  intros Hb st Hi. unfold activate_miner. apply stable_then_Ok; [done..|].
  intros m st' [Hm ->]%mcheck_Ok _. apply stable_then_Ok; [done..|].
  intros sub st' [Hs ->]%mcheck_Ok _. apply stable_then_Ok; [done..|].
  intros _b st' [_ ->]%mcheck_Ok _. unfold mthen, get_miner in *. inv_run.
  rewrite (lock_eq K) by (done || lia).
  destruct (Z.ltb_spec (free (ledger st (miner_operator m))) b); simpl;
    [by apply touch_ledger_inv|].
  erewrite update_miner_eq by exact Hm. simpl.
  destruct (inv_nonneg _ _ Hi (miner_operator m)).
  pose proof (inv_backed _ _ Hi (miner_operator m)). pose proof (inv_bonds _ _ Hi _ _ Hm).
  eapply put_ledger_miner_inv; eauto; simpl; [lia..|]. unfold ledger_total; simpl. lia.
Qed.

Lemma begin_miner_exit_stable id n : stable (ledger_inv K) (begin_miner_exit id n).
Proof.
  intros st Hi. unfold begin_miner_exit. apply stable_then_Ok; [done..|].
  intros m st' [Hm ->]%mcheck_Ok _. apply stable_then_Ok; [done..|].
  intros sub st' [Hs ->]%mcheck_Ok _. apply stable_then_Ok; [done..|].
  intros at_block st' [_ ->]%mcheck_Ok _. unfold get_miner in Hm. inv_run.
  rewrite (update_miner_eq _ _ _ m) by done. by eapply update_miner_same_inv.
Qed.

(** A bond is part of its operator's capital. *)
Lemma bond_le_capital st id m :
  ledger_inv K st -> miners st !! id = Some m -> bond m <= capital st (miner_operator m).
Proof.
  intros Hi Hm. unfold capital.
  pose proof (map_sum_lookup_le (fun _ m0 => if decide (miner_operator m0 = miner_operator m)
    then bond m0 else 0) (miners st) id m) as Hle. simpl in Hle.
  rewrite decide_True in Hle by done.
  enough (0 <= map_sum (fun _ v => if decide (validator_operator v = miner_operator m)
    then staked v else 0) (validators st)).
  { enough (bond m <= map_sum (fun _ m0 => if decide (miner_operator m0 = miner_operator m)
      then bond m0 else 0) (miners st)) by lia.
    apply Hle; [|done]. intros k v Hk. pose proof (inv_bonds _ _ Hi _ _ Hk). by case_decide. }
  apply map_sum_nonneg. intros k v Hk. pose proof (inv_stakes _ _ Hi _ _ Hk). by case_decide.
Qed.

(** The run of [complete_miner_exit] for a miner whose cooldown is over: the whole
    bond moves from locked to free. *)
Lemma complete_miner_exit_eq st id m n e :
  ledger_inv K st -> miners st !! id = Some m ->
  miner_status m = RegistryStatus_Exiting e -> e <= n ->
  complete_miner_exit id n st =
  (put_ledger (miner_operator m)
     (mk_AccountLedger (free (ledger st (miner_operator m)) + bond m)
                       (locked (ledger st (miner_operator m)) - bond m)) st
   <| miners ::= <[id := m <| bond := 0 |> <| miner_status := RegistryStatus_Disabled |>]> |>,
   Ok tt).
Proof.
  intros Hi Hm Hst Hn. unfold complete_miner_exit, mthen, mcheck, get_miner.
  rewrite Hm; simpl. rewrite Hst. rewrite (proj2 (Z.ltb_ge _ _)) by lia.
  pose proof (inv_bonds _ _ Hi _ _ Hm). rewrite (unlock_eq K) by (done || lia).
  pose proof (bond_le_capital _ _ _ Hi Hm).
  pose proof (inv_backed _ _ Hi (miner_operator m)).
  rewrite (proj2 (Z.ltb_ge _ _)) by lia. by rewrite (update_miner_eq _ _ _ m).
Qed.

Lemma complete_miner_exit_stable id n : stable (ledger_inv K) (complete_miner_exit id n).
Proof.
  intros st Hi. destruct (miners st !! id) as [m|] eqn:Hm;
    [|unfold complete_miner_exit, mthen, mcheck, get_miner; by rewrite Hm].
  destruct (miner_status m) as [| |e| |] eqn:Hst;
    try (unfold complete_miner_exit, mthen, mcheck, get_miner; rewrite Hm; simpl;
         by rewrite Hst).
  destruct (Z_lt_le_dec n e) as [Hn|Hn].
  { unfold complete_miner_exit, mthen, mcheck, get_miner. rewrite Hm; simpl. rewrite Hst.
    by rewrite (proj2 (Z.ltb_lt _ _)) by lia. }
  rewrite (complete_miner_exit_eq st id m n e) by done. simpl.
  pose proof (bond_le_capital _ _ _ Hi Hm). pose proof (inv_backed _ _ Hi (miner_operator m)).
  pose proof (inv_bonds _ _ Hi _ _ Hm). destruct (inv_nonneg _ _ Hi (miner_operator m)).
  eapply put_ledger_miner_inv; eauto; simpl; [lia..|]. unfold ledger_total; simpl. lia.
Qed.

Lemma register_validator_stable o n stake :
  0 <= stake -> stable (ledger_inv K) (register_validator o n stake).
Proof.
  intros Hs st Hi. unfold register_validator. apply stable_then_Ok; [done..|].
  intros sub st' [_ ->]%mcheck_Ok _. apply stable_then_Ok; [done..|].
  intros _s st' [_ ->]%mcheck_Ok _. unfold mthen at 1.
  rewrite (lock_eq K) by (done || lia).
  destruct (Z.ltb_spec (free (ledger st o)) stake); simpl; [by apply touch_ledger_inv|].
  destruct (inv_nonneg _ _ Hi o). pose proof (inv_backed _ _ Hi o) as Hb.
  set (st1 := put_ledger o _ st).
  assert (Hi1 : ledger_inv K st1).
  { eapply put_ledger_inv; eauto; simpl; [lia..|]. unfold ledger_total; simpl. lia. }
  assert (Hc : capital st1 o + stake <= locked (ledger st1 o)).
  { subst st1. rewrite ledger_put_eq; simpl. unfold capital in *; simpl. lia. }
  clearbody st1. unfold take_validator_id, mthen, mcheck, mwrite, mdone. simpl.
  destruct (checked_add 64 (next_validator_id st1) 1); simpl; [|done].
  apply insert_validator_inv; [by destruct Hi1|done|done].
Qed.

(** The run of [slash_miner] on a miner that exists, with a legal percentage: the
    amount leaves the locked funds, the bond and the supply, and is recorded as
    burned. *)
Lemma slash_miner_eq st id m bps x :
  ledger_inv K st -> miners st !! id = Some m ->
  is_Some (subnets st !! miner_subnet_id m) ->
  slash_amount MinerBondPolicy_qubitum (bond m) bps = Ok x ->
  slash_miner id bps st =
  (put_ledger (miner_operator m)
     (ledger st (miner_operator m) <| locked := locked (ledger st (miner_operator m)) - x |>) st
   <| total_burned := total_burned st + x |>
   <| miners ::= <[id :=
        let m' := m <| bond := bond m - x |> in
        if bond m - x <? MIN_MINER_BOND
        then m' <| miner_status := RegistryStatus_Slashed |> else m']> |>,
   Ok x).
Proof.
  intros Hi Hm [s Hs] Hx. pose proof (inv_bonds _ _ Hi _ _ Hm).
  pose proof (slash_amount_qubitum_Ok (bond m) bps x ltac:(done) Hx) as Hxb.
  unfold slash_miner, mthen, mcheck, get_miner, get_subnet. rewrite Hm; simpl. rewrite Hs; simpl.
  rewrite (inv_policy _ _ Hi _ _ Hs).
  change (miner_bond SubnetPolicy_qubitum) with MinerBondPolicy_qubitum. rewrite Hx.
  unfold checked_sub. rewrite (proj2 (Z.leb_le _ _)) by lia. simpl.
  rewrite (burn_locked_eq K) by (done || lia).
  pose proof (bond_le_capital _ _ _ Hi Hm). pose proof (inv_backed _ _ Hi (miner_operator m)).
  rewrite (proj2 (Z.ltb_ge _ _)) by lia. by rewrite (update_miner_eq _ _ _ m).
Qed.

Lemma slash_miner_stable id bps : stable (ledger_inv K) (slash_miner id bps).
Proof.
  intros st Hi.
  destruct (miners st !! id) as [m|] eqn:Hm;
    [|unfold slash_miner, mthen, mcheck, get_miner; by rewrite Hm].
  destruct (subnets st !! miner_subnet_id m) as [s|] eqn:Hs;
    [|unfold slash_miner, mthen, mcheck, get_miner, get_subnet;
      rewrite Hm; simpl; by rewrite Hs].
  destruct (slash_amount MinerBondPolicy_qubitum (bond m) bps) as [x|e] eqn:Hx.
  2: { unfold slash_miner, mthen, mcheck, get_miner, get_subnet. rewrite Hm; simpl.
       rewrite Hs; simpl. rewrite (inv_policy _ _ Hi _ _ Hs).
       change (miner_bond SubnetPolicy_qubitum) with MinerBondPolicy_qubitum. by rewrite Hx. }
  rewrite (slash_miner_eq st id m bps x) by eauto. simpl.
  pose proof (inv_bonds _ _ Hi _ _ Hm). pose proof (inv_burned _ _ Hi).
  pose proof (slash_amount_qubitum_Ok (bond m) bps x ltac:(done) Hx) as Hxb.
  pose proof (bond_le_capital _ _ _ Hi Hm). pose proof (inv_backed _ _ Hi (miner_operator m)).
  destruct (inv_nonneg _ _ Hi (miner_operator m)).
  set (m' := if bond m - x <? MIN_MINER_BOND then _ else _).
  assert (Hm' : miner_operator m' = miner_operator m
    /\ miner_subnet_id m' = miner_subnet_id m /\ bond m' = bond m - x)
    by (subst m'; by destruct (_ <? _)). destruct Hm' as (Hop & Hsub & Hbd).
  set (l := ledger st (miner_operator m)
        <| locked := locked (ledger st (miner_operator m)) - x |>).
  pose proof (put_ledger_miner_inv K (K - x) id m m' l st Hi Hm Hop Hsub ltac:(lia)
    ltac:(done) ltac:(simpl; lia) ltac:(simpl; lia)
    ltac:(unfold ledger_total; simpl; lia)) as Hi'.
  exact (total_burned_inv _ K (total_burned st + x) _ Hi' ltac:(lia) ltac:(simpl; lia)).
Qed.

Lemma submit_valid_proof_stable payer sub payment v t :
  in_range 128 payment -> in_range 16 v -> in_range 16 t ->
  stable (ledger_inv K) (submit_valid_proof payer sub payment v t).
Proof.
  intros Hp Hv Ht st Hi. unfold submit_valid_proof.
  do 4 (apply stable_then_Ok; [done..|]; intros ? ? [_ ->]%mcheck_Ok _).
  apply stable_then_Ok; [done..|]. intros se ? [Hse ->]%mcheck_Ok _.
  pose proof (settle_inference_payment_sound payment v t se Hp Hv Ht Hse)
    as (_ & _ & _ & _ & Hm & Hvf & Htf).
  apply stable_run; [done|]. solve_stable. by destruct H.
Qed.

Lemma process_proof_stable `{ProofVerifier V} payer sub payment v t (ver : V) :
  in_range 128 payment -> in_range 16 v -> in_range 16 t ->
  stable (ledger_inv K) (process_proof payer sub payment v t ver).
Proof.
  intros Hp Hv Ht. unfold process_proof.
  solve_stable; auto using submit_valid_proof_stable, slash_miner_stable.
Qed.

End MethodStability.

(** ** Genesis and reachable states *)

Lemma ProtocolState_new_inv t : ledger_inv 0 (ProtocolState_new t).
Proof. by split. Qed.

Lemma credit_inv K a amount st :
  ledger_inv K st -> 0 <= amount -> K + amount < 2 ^ 128 ->
  exists st', credit a amount st = (st', Ok tt) /\ ledger_inv (K + amount) st'.
Proof.
  intros Hi Ha HK. rewrite (credit_eq K) by done. eexists; split; [done|].
  destruct (inv_nonneg _ _ Hi a). pose proof (inv_backed _ _ Hi a).
  eapply put_ledger_inv; eauto; simpl; [lia|]. unfold ledger_total; simpl. lia.
Qed.

Lemma endow_inv endowed : forall issued st st' total,
  Forall (fun p => in_range 128 (snd p)) endowed -> ledger_inv issued st ->
  endow endowed issued st = (st', Ok total) -> ledger_inv total st'.
Proof.
  induction endowed as [|[a amount] rest IH]; simpl; intros issued st st' total Hf Hi H.
  - inv_meth. done.
  - apply Forall_cons in Hf as [Ha Hf]. unfold in_range in Ha; simpl in Ha.
    inv_meth. boolprop. destruct Hm as [-> Hlt].
    destruct (credit_inv issued a amount st Hi ltac:(lia) ltac:(lia)) as (st2 & Hc & Hi2).
    rewrite Hc in Hm0. injection Hm0 as <-. eauto.
Qed.

Lemma with_genesis_inv t endowed st :
  Forall (fun p => in_range 128 (snd p)) endowed ->
  with_genesis t endowed = Ok st -> ledger_inv INITIAL_SUPPLY st.
Proof.
  intros Hf H. unfold with_genesis in H.
  destruct (mthen _ _ _) as [st1 [[]|]] eqn:Hrun; [|done]. injection H as <-. inv_meth.
  apply endow_inv in Hm; [|done|apply ProtocolState_new_inv]. boolprop.
  destruct Hm0 as [-> _].
  destruct (credit_inv a t (INITIAL_SUPPLY - a) st) as (st2 & Hc & Hi2); [done|lia| |].
  { unfold INITIAL_SUPPLY. lia. }
  rewrite Hc in Hrun. injection Hrun as <-. by replace INITIAL_SUPPLY with (a + (INITIAL_SUPPLY - a)) by lia.
Qed.

(** One call of a public method, successful or not. *)
Inductive protocol_step : ProtocolState -> ProtocolState -> Prop :=
| step_create_subnet st owner domain burn :
    in_range 128 burn -> protocol_step st (fst (create_subnet owner domain burn st))
| step_register_miner st operator subnet model ps :
    protocol_step st (fst (register_miner operator subnet model ps st))
| step_activate_miner st id bond :
    in_range 128 bond -> protocol_step st (fst (activate_miner id bond st))
| step_begin_miner_exit st id block :
    protocol_step st (fst (begin_miner_exit id block st))
| step_complete_miner_exit st id block :
    protocol_step st (fst (complete_miner_exit id block st))
| step_register_validator st operator subnet stake :
    in_range 128 stake -> protocol_step st (fst (register_validator operator subnet stake st))
| step_submit_valid_proof st payer sub payment v t :
    in_range 128 payment -> in_range 16 v -> in_range 16 t ->
    protocol_step st (fst (submit_valid_proof payer sub payment v t st))
| step_process_proof (V : Type) (HV : ProofVerifier V) (ver : V) st payer sub payment v t :
    in_range 128 payment -> in_range 16 v -> in_range 16 t ->
    protocol_step st (fst (process_proof payer sub payment v t ver st))
| step_slash_miner st id bps :
    protocol_step st (fst (slash_miner id bps st)).

Definition reachable (st : ProtocolState) : Prop :=
  exists t endowed st0,
    Forall (fun p => in_range 128 (snd p)) endowed
    /\ with_genesis t endowed = Ok st0 /\ rtc protocol_step st0 st.

Lemma protocol_step_inv st st' :
  protocol_step st st' -> ledger_inv INITIAL_SUPPLY st -> ledger_inv INITIAL_SUPPLY st'.
Proof.
  assert (HK : 0 <= INITIAL_SUPPLY < 2 ^ 128) by (unfold INITIAL_SUPPLY; lia).
  intros Hstep Hi. destruct Hstep;
    first [apply create_subnet_stable | apply register_miner_stable
          | apply activate_miner_stable | apply begin_miner_exit_stable
          | apply complete_miner_exit_stable | apply register_validator_stable
          | apply submit_valid_proof_stable | apply process_proof_stable
          | apply slash_miner_stable]; unfold in_range in *; done || lia.
Qed.

Lemma reachable_inv st : reachable st -> ledger_inv INITIAL_SUPPLY st.
Proof.
  intros (t & endowed & st0 & Hf & Hg & Hr).
  apply with_genesis_inv in Hg; [|done]. induction Hr; eauto using protocol_step_inv.
Qed.

(** ** The effect of a settlement *)

Definition credit_if (a b : AccountId) (amount : Z) : Z :=
  if decide (a = b) then amount else 0.

Lemma transfer_delta K from to amount st st' u :
  ledger_inv K st -> K < 2 ^ 128 -> 0 <= amount ->
  transfer from to amount st = (st', Ok u) ->
  (forall a, free (ledger st' a)
             = free (ledger st a) - credit_if a from amount + credit_if a to amount
             /\ locked (ledger st' a) = locked (ledger st a))
  /\ st' = st <| accounts := accounts st' |>.
Proof.
  intros Hi HK Ha H. unfold transfer, mthen in H. rewrite debit_free_eq in H by lia.
  destruct (Z.ltb_spec (free (ledger st from)) amount); [done|].
  destruct (inv_nonneg _ _ Hi from). revert H. set (st1 := put_ledger from _ st).
  assert (Hi1 : ledger_inv (K - amount) st1).
  { eapply put_ledger_inv; eauto; simpl; [lia|exact (inv_backed _ _ Hi from)|].
    unfold ledger_total; simpl. lia. }
  intros Hc. rewrite (credit_eq (K - amount)) in Hc by (done || lia).
  injection Hc as <- _. split; [|done]. intros a. unfold credit_if. subst st1.
  rewrite !ledger_put; simpl. repeat case_decide; subst; simpl; try done; rewrite ?ledger_put_eq; simpl; lia.
Qed.

Lemma active_miner_of_Ok st sub o :
  active_miner_of st sub = Ok o ->
  exists m, miners st !! miner_id sub = Some m /\ miner_status m = RegistryStatus_Active
    /\ miner_subnet_id m = subnet_id sub /\ miner_operator m = o.
Proof.
  unfold active_miner_of, get_miner. intros H. inv_run. boolprop.
  destruct Hif. by exists a.
Qed.

Lemma active_validator_of_Ok st sub o :
  active_validator_of st sub = Ok o ->
  exists v, validators st !! validator_id sub = Some v
    /\ validator_status v = RegistryStatus_Active
    /\ subnet_id sub ∈ routing_subnets v /\ validator_operator v = o.
Proof.
  unfold active_validator_of. intros H. inv_run. boolprop.
  destruct Hif. by exists a.
Qed.

(** What a successful settlement leaves behind. *)
Record settled (st st' : ProtocolState) (payer : AccountId)
    (sub : InferenceProofSubmission) (payment v t : Z) (r : InferenceRecord) : Prop := {
  settled_parties :
    exists m va se,
      miners st !! miner_id sub = Some m /\ miner_status m = RegistryStatus_Active
      /\ miner_subnet_id m = subnet_id sub
      /\ validators st !! validator_id sub = Some va
      /\ validator_status va = RegistryStatus_Active
      /\ subnet_id sub ∈ routing_subnets va
      /\ settlement_of payment v t se
      /\ forall a,
           free (ledger st' a)
           = free (ledger st a) - credit_if a payer payment
             + credit_if a (miner_operator m) (miner_payment se)
             + credit_if a (validator_operator va) (validator_fee se)
             + credit_if a (treasury_account st) (treasury_fee se)
           /\ locked (ledger st' a) = locked (ledger st a);
  settled_record : r = InferenceRecord_from_valid_submission sub;
  settled_records : records st' = <[request_id sub := r]> (records st);
  settled_registry :
    miners st' = miners st /\ validators st' = validators st /\ subnets st' = subnets st
    /\ total_burned st' = total_burned st;
}.

(** A successful [submit_valid_proof] in a reachable state debits the payer the
    payment exactly once and credits the miner operator, the validator operator and
    the treasury their parts of it (the accounts may coincide); the miner and the
    validator were active in the submission's subnet, no locked balance and no
    registration changes, and the record is stored under the request id. *)
Theorem submit_valid_proof_settles (st st' : ProtocolState) (payer : AccountId)
    (sub : InferenceProofSubmission) (payment v t : Z) (r : InferenceRecord)
    (Hreach : reachable st)
    (Hp : in_range 128 payment) (Hv : in_range 16 v) (Ht : in_range 16 t)
    (Hok : submit_valid_proof payer sub payment v t st = (st', Ok r)) :
  settled st st' payer sub payment v t r.
Proof.
  pose proof (reachable_inv _ Hreach) as Hi0. clear Hreach.
  assert (HK : 0 <= INITIAL_SUPPLY < 2 ^ 128) by (unfold INITIAL_SUPPLY; lia).
  unfold submit_valid_proof in Hok. inv_meth.
  apply validate_shape_id in Hm0 as ->.
  apply active_miner_of_Ok in Hm1 as (m & Hm1 & Hms & Hmn & <-).
  apply active_validator_of_Ok in Hm2 as (va & Hv1 & Hvs & Hvn & <-).
  pose proof (settle_inference_payment_sound _ _ _ _ Hp Hv Ht Hm3) as Hse.
  destruct Hse as (Hvf & Htf & Hsum & Hmin & Hpm & Hpv & Hpt).
  pose proof (transfer_stable _ HK payer (miner_operator m) _ Hpm _ Hi0) as Hi1.
  rewrite Hm4 in Hi1; simpl in Hi1.
  pose proof (transfer_stable _ HK payer (validator_operator va) _ Hpv _ Hi1) as Hi2.
  rewrite Hm5 in Hi2; simpl in Hi2.
  apply (transfer_delta INITIAL_SUPPLY) in Hm4 as [Hd1 He1]; [|done|lia|done].
  apply (transfer_delta INITIAL_SUPPLY) in Hm5 as [Hd2 He2]; [|done|lia|done].
  apply (transfer_delta INITIAL_SUPPLY) in Hm7 as [Hd3 He3]; [|done|lia|done].
  split; [| done | by rewrite He3, He2, He1 | by rewrite He3, He2, He1].
  exists m, va, a3. do 6 (split; [done|]). split; [unfold settlement_of; tauto|].
  clear a Hm. intros a. specialize (Hd1 a). specialize (Hd2 a). specialize (Hd3 a).
  replace (treasury_account st) with (treasury_account st6)
    by (by rewrite He2, He1).
  change (ledger (st8 <| records ::= _ |>) a) with (ledger st8 a). unfold credit_if in *.
  repeat case_decide; lia.
Qed.

(** ** Theorems on reachable states *)

Lemma INITIAL_SUPPLY_range : 0 <= INITIAL_SUPPLY < 2 ^ 128.
Proof. unfold INITIAL_SUPPLY. lia. Qed.

(** C40 In every state reachable from a genesis by public calls, failed ones included,
    free balances, locked balances and the burned total are non-negative and sum to
    the initial supply, and each operator's miner bonds and validator stakes are
    covered by the operator's locked balance. *)
Theorem reachable_conserves_supply (st : ProtocolState) (Hreach : reachable st) :
  supply st = INITIAL_SUPPLY /\ 0 <= total_burned st
  /\ forall a, 0 <= free (ledger st a) /\ 0 <= locked (ledger st a)
               /\ capital st a <= locked (ledger st a).
Proof.
  apply reachable_inv in Hreach as []. split; [done|]. split; [done|].
  intros a. destruct (inv_nonneg0 a). auto.
Qed.

(** [complete_miner_exit] for a registered miner, on every branch: before the
    cooldown is over and for a miner that is not exiting nothing changes and the
    error says why; afterwards the call cannot fail, the whole bond moves from the
    operator's locked to the free balance and the miner is disabled. *)
Theorem complete_miner_exit_releases (st : ProtocolState) (id n : Z) (m : MinerRegistration)
    (Hreach : reachable st) (Hm : miners st !! id = Some m) :
  complete_miner_exit id n st =
  match miner_status m with
  | RegistryStatus_Exiting e =>
      if n <? e then (st, Err ProtocolError_CooldownNotComplete) else
      (put_ledger (miner_operator m)
         (mk_AccountLedger (free (ledger st (miner_operator m)) + bond m)
                           (locked (ledger st (miner_operator m)) - bond m)) st
       <| miners ::= <[id := m <| bond := 0 |>
                               <| miner_status := RegistryStatus_Disabled |>]> |>, Ok tt)
  | _ => (st, Err ProtocolError_NotActive)
  end.
Proof.
  apply reachable_inv in Hreach.
  destruct (miner_status m) as [| |e| |] eqn:Hst; [| |destruct (Z.ltb_spec n e)| |];
    try (by apply (complete_miner_exit_eq _ INITIAL_SUPPLY_range) with e);
    unfold complete_miner_exit, mthen, mcheck, get_miner; rewrite Hm; simpl; rewrite Hst;
    try done.
  by rewrite (proj2 (Z.ltb_lt _ _)).
Qed.

(** [slash_miner] for a registered miner: a percentage outside 10% .. 100% is
    refused without effect; otherwise the call cannot fail, exactly the rounded-down
    share of the bond leaves the locked balance and is recorded as burned, and the
    miner is marked slashed when what is left is below the minimum bond. *)
Theorem slash_miner_exact (st : ProtocolState) (id bps : Z) (m : MinerRegistration)
    (Hreach : reachable st) (Hm : miners st !! id = Some m) :
  slash_miner id bps st =
  if (bps <? MIN_INVALID_PROOF_SLASH_BPS) || (MAX_INVALID_PROOF_SLASH_BPS <? bps)
  then (st, Err ProtocolError_InvalidSlashPercent) else
  let x := bond m * bps / BPS_DENOMINATOR in
  let m' := m <| bond := bond m - x |> in
  (put_ledger (miner_operator m)
     (ledger st (miner_operator m) <| locked := locked (ledger st (miner_operator m)) - x |>) st
   <| total_burned := total_burned st + x |>
   <| miners ::= <[id := if bond m - x <? MIN_MINER_BOND
                         then m' <| miner_status := RegistryStatus_Slashed |> else m']> |>,
   Ok x).
Proof.
  apply reachable_inv in Hreach as Hi.
  destruct (inv_subnet _ _ Hi _ _ Hm) as [s Hs]. destruct (_ || _) eqn:Hb.
  - unfold slash_miner, mthen, mcheck, get_miner, get_subnet. rewrite Hm; simpl.
    rewrite Hs; simpl. rewrite (inv_policy _ _ Hi _ _ Hs). unfold slash_amount. simpl.
    by rewrite Hb.
  - apply (slash_miner_eq _ INITIAL_SUPPLY_range); [done..|].
    unfold slash_amount. simpl. rewrite Hb, pro_rata_eq, (proj2 (Z.ltb_lt _ _)); [done|].
    pose proof (bond_le_capital _ _ _ _ Hi Hm). pose proof (inv_bonds _ _ Hi _ _ Hm).
    pose proof (inv_backed _ _ Hi (miner_operator m)). pose proof (inv_burned _ _ Hi).
    pose proof (ledger_le_supply _ _ (miner_operator m) Hi) as Hle.
    destruct (inv_nonneg _ _ Hi (miner_operator m)). unfold ledger_total in Hle. boolprop.
    unfold INITIAL_SUPPLY, MAX_INVALID_PROOF_SLASH_BPS, MIN_INVALID_PROOF_SLASH_BPS in *. nia.
Qed.

(** [activate_miner] does not look at the status of the miner: a successful call
    locks the new bond and replaces the recorded one, so the bond recorded before it
    stays locked without any registration that would release it. *)
Theorem activate_miner_strands_previous_bond (st st' : ProtocolState) (id b : Z)
    (m : MinerRegistration) (u : unit)
    (Hreach : reachable st) (Hb : in_range 128 b) (Hm : miners st !! id = Some m)
    (Hok : activate_miner id b st = (st', Ok u)) :
  let o := miner_operator m in
  locked (ledger st' o) - capital st' o = locked (ledger st o) - capital st o + bond m.
Proof.
  apply reachable_inv in Hreach as Hi. unfold activate_miner, in_range in *.
  pose proof INITIAL_SUPPLY_range. inv_meth. unfold get_miner in *. inv_run.
  simplify_eq. rewrite (lock_eq INITIAL_SUPPLY) in Hm3 by (done || lia).
  destruct (_ <? _); [done|]. injection Hm3 as <-.
  erewrite update_miner_eq in Hok by exact Hm. injection Hok as <-.
  rewrite (capital_update_miner _ id m) by done. rewrite decide_True by done.
  match goal with |- context [ledger (?s <| miners ::= ?f |>) ?a] =>
    change (ledger (s <| miners ::= f |>) a) with (ledger s a) end.
  rewrite ledger_put_eq; simpl. change (capital (put_ledger _ _ st)) with (capital st). lia.
Qed.

(** ** A concrete run

    One subnet, one active miner, one active validator and a funded payer. *)
Module Demo.

Definition acct (n : Z) : AccountId := replicate 32 n.
Definition treasury := acct 9.
Definition owner := acct 1.
Definition operator := acct 2.
Definition router := acct 3.
Definition payer := acct 4.

Definition genesis : result ProtocolError ProtocolState :=
  with_genesis treasury
    [(owner, 10000000000); (operator, 500000000000); (router, 100000000000); (payer, 9600)].

Definition st0 : ProtocolState :=
  match genesis with Ok st => st | Err _ => ProtocolState_new treasury end.
Definition st1 := fst (create_subnet owner SubnetDomain_General 10000000000 st0).
Definition st2 := fst (register_miner operator 0 (acct 7) ProofSystem_RiscZeroStark st1).
Definition st3 := fst (activate_miner 0 100000000000 st2).
Definition st4 := fst (register_validator router 0 100000000000 st3).
Definition st_exiting := fst (begin_miner_exit 0 5 st4).

Definition submission : InferenceProofSubmission := {|
  request_id := 77; subnet_id := 0; miner_id := 0; validator_id := 0;
  input_commitment := acct 5; output_commitment := acct 6; model_commitment := acct 7;
  proof := ProofEnvelope_risc_zero_v1 (acct 10) (acct 11) (acct 12);
  proof_system := ProofSystem_RiscZeroStark;
  proof_size_bytes := 60 * 1024; verification_latency_ms := 20; submitted_at := 8 |}.

Lemma reach_step st st' : reachable st -> protocol_step st st' -> reachable st'.
Proof.
  intros (t & l & s0 & Hf & Hg & Hr) Hs. exists t, l, s0. split; [done|]. split; [done|].
  eapply rtc_r; eauto.
Qed.

Lemma reach0 : reachable st0.
Proof.
  exists treasury, [(owner, 10000000000); (operator, 500000000000); (router, 100000000000);
    (payer, 9600)], st0.
  split; [repeat constructor; vm_compute; congruence|]. split; [vm_compute; reflexivity|done].
Qed.

Lemma reach4 : reachable st4.
Proof.
  eapply reach_step; [|exact (step_register_validator st3 router 0 100000000000
    ltac:(solve_range))].
  eapply reach_step; [|exact (step_activate_miner st2 0 100000000000 ltac:(solve_range))].
  eapply reach_step; [|exact (step_register_miner st1 operator 0 (acct 7)
    ProofSystem_RiscZeroStark)].
  eapply reach_step; [|exact (step_create_subnet st0 owner SubnetDomain_General 10000000000
    ltac:(solve_range))].
  exact reach0.
Qed.

Lemma reach_exiting : reachable st_exiting.
Proof. eapply reach_step; [exact reach4|exact (step_begin_miner_exit st4 0 5)]. Qed.

Lemma reachable_conserves_supply_witness :
  supply st_exiting = INITIAL_SUPPLY /\ capital st_exiting operator = 100000000000.
Proof.
  split; [|vm_compute; reflexivity].
  destruct (reachable_conserves_supply st_exiting reach_exiting) as [H _]. exact H.
Defined.

Lemma complete_miner_exit_releases_witness :
  snd (complete_miner_exit 0 50405 st_exiting) = Ok tt
  /\ locked (ledger (fst (complete_miner_exit 0 50405 st_exiting)) operator) = 0.
Proof.
  destruct (miners st_exiting !! 0) as [m|] eqn:Hm; [|vm_compute in Hm; discriminate].
  pose proof (complete_miner_exit_releases st_exiting 0 50405 m reach_exiting Hm) as H.
  vm_compute in Hm. injection Hm as <-. rewrite H. vm_compute. split; reflexivity.
Defined.

Lemma slash_miner_exact_witness :
  snd (slash_miner 0 2500 st4) = Ok 25000000000
  /\ total_burned (fst (slash_miner 0 2500 st4)) = 45000000000.
Proof.
  destruct (miners st4 !! 0) as [m|] eqn:Hm; [|vm_compute in Hm; discriminate].
  pose proof (slash_miner_exact st4 0 2500 m reach4 Hm) as H.
  vm_compute in Hm. injection Hm as <-. rewrite H. vm_compute. split; reflexivity.
Defined.

Lemma activate_miner_strands_previous_bond_witness :
  let st' := fst (activate_miner 0 200000000000 st4) in
  snd (activate_miner 0 200000000000 st4) = Ok tt
  /\ locked (ledger st' operator) - capital st' operator = 100000000000.
Proof.
  destruct (miners st4 !! 0) as [m|] eqn:Hm; [|vm_compute in Hm; discriminate].
  pose proof (activate_miner_strands_previous_bond st4
    (fst (activate_miner 0 200000000000 st4)) 0 200000000000 m tt reach4
    ltac:(solve_range) Hm ltac:(vm_compute; reflexivity)) as H.
  vm_compute in Hm. injection Hm as <-. vm_compute in H |- *. split; [reflexivity|exact H].
Defined.

Lemma submit_valid_proof_settles_witness :
  let run := submit_valid_proof payer submission 9600 1000 1000 st4 in
  settled st4 (fst run) payer submission 9600 1000 1000
    (InferenceRecord_from_valid_submission submission)
  /\ free (ledger (fst run) payer) = 0.
Proof.
  split; [|vm_compute; reflexivity].
  apply submit_valid_proof_settles; [exact reach4|solve_range|solve_range|solve_range|].
  vm_compute. reflexivity.
Defined.

(** [submit_valid_proof] is not atomic: with a payer who can pay the miner part of
    the payment but not the fees, the call fails with [InsufficientBalance], stores no
    record, and keeps the transfer to the miner. *)
Theorem submit_valid_proof_partial_payment :
  let run := submit_valid_proof payer submission 12000 1000 1000 st4 in
  snd run = Err ProtocolError_InsufficientBalance
  /\ records (fst run) !! request_id submission = None
  /\ free (ledger st4 payer) = 9600 /\ free (ledger (fst run) payer) = 0
  /\ free (ledger (fst run) operator) = free (ledger st4 operator) + 9600.
Proof. vm_compute. do 4 (split; [reflexivity|]). reflexivity. Qed.

End Demo.
