(* ===== verification/Pallet.v ===== *)
(** * The Qubitum pallet: data, configuration and storage

    [pallets/qubitum/src/lib.rs], the parts every other file of the pallet builds on:
    the registry and request records, events and errors, the associated types and
    constants of [Config], the two verifier interfaces with the implementations the
    pallet ships, the storage items and the primitives that write them.

    Code outside the repository enters as parameters: [Currency] (the [fungible]
    traits, implemented by pallet-balances in the runtime) and [Hashing] (SCALE
    encoding followed by blake2-256, one constructor of [Preimage] per hashed
    tuple). *)

From S2P Require Import Prelude Protocol PostQuantum.
From stdpp Require Import base tactics list gmap strings.
From Stdlib Require Import ZArith Lia.
Open Scope Z_scope.

(** ** Enumerations *)

Inductive ProofVerifierMode : Type :=
| ProofVerifierMode_FailClosed
| ProofVerifierMode_ShapeOnly
| ProofVerifierMode_ProductionZk
| ProofVerifierMode_TestOnly.
#[export] Instance ProofVerifierMode_eq_dec : EqDecision ProofVerifierMode.
Proof. solve_decision. Defined.

Inductive IdentitySignatureVerifierMode : Type :=
| IdentitySignatureVerifierMode_FailClosed
| IdentitySignatureVerifierMode_CommitmentBindingOnly
| IdentitySignatureVerifierMode_ProductionCrypto
| IdentitySignatureVerifierMode_TestOnly.
#[export] Instance IdentitySignatureVerifierMode_eq_dec :
  EqDecision IdentitySignatureVerifierMode.
Proof. solve_decision. Defined.

Definition production_crypto_verification (self : IdentitySignatureVerifierMode) : bool :=
  bool_decide (self = IdentitySignatureVerifierMode_ProductionCrypto).

Definition identity_signature_verification (self : IdentitySignatureVerifierMode) : bool :=
  production_crypto_verification self.

Definition proof_settlement_enabled (self : ProofVerifierMode) : bool :=
  negb (bool_decide (self = ProofVerifierMode_FailClosed)).

Definition production_zk_verifier (self : ProofVerifierMode) : bool :=
  bool_decide (self = ProofVerifierMode_ProductionZk).

Inductive HoldReason : Type :=
| HoldReason_MinerBond
| HoldReason_ValidatorStake
| HoldReason_InferencePayment.
#[export] Instance HoldReason_eq_dec : EqDecision HoldReason.
Proof. solve_decision. Defined.

Inductive InferenceRequestStatus : Type :=
| InferenceRequestStatus_Pending
| InferenceRequestStatus_Settled
| InferenceRequestStatus_Cancelled
| InferenceRequestStatus_Rejected
| InferenceRequestStatus_Expired.
#[export] Instance InferenceRequestStatus_eq_dec : EqDecision InferenceRequestStatus.
Proof. solve_decision. Defined.

(** ** Registry, request and proof records *)

Record ChainSubnet : Type := mk_ChainSubnet {
  cs_id : Z;
  cs_owner_commitment : Commitment;
  cs_domain : SubnetDomain;
  cs_proof_system : ProofSystem;
  cs_policy_commitment : Commitment;
  cs_active : bool;
}.

Record ChainMiner : Type := mk_ChainMiner {
  cm_id : Z;
  cm_operator_commitment : Commitment;
  cm_subnet_id : Z;
  cm_model_commitment : Commitment;
  cm_proof_system : ProofSystem;
  cm_bond_commitment : Commitment;
  cm_status : RegistryStatus;
}.
#[export] Instance eta_ChainMiner : Eta ChainMiner := fun r =>
  mk_ChainMiner (cm_id r) (cm_operator_commitment r) (cm_subnet_id r)
    (cm_model_commitment r) (cm_proof_system r) (cm_bond_commitment r) (cm_status r).

Record ChainValidator : Type := mk_ChainValidator {
  cv_id : Z;
  cv_operator_commitment : Commitment;
  cv_subnet_id : Z;
  cv_stake_commitment : Commitment;
  cv_status : RegistryStatus;
}.
#[export] Instance eta_ChainValidator : Eta ChainValidator := fun r =>
  mk_ChainValidator (cv_id r) (cv_operator_commitment r) (cv_subnet_id r)
    (cv_stake_commitment r) (cv_status r).

Record ChainIdentityCommitments : Type := {
  shielded_identity_commitment : option Commitment;
  endpoint_commitment : option Commitment;
}.

Record ChainProofRecord : Type := {
  pr_request_id : Z;
  pr_subnet_id : Z;
  pr_assignment_commitment : Commitment;
  pr_audit_commitment : Commitment;
  pr_proof_system : ProofSystem;
}.

Record ChainInferenceRequest : Type := mk_ChainInferenceRequest {
  rq_request_id : Z;
  rq_user_commitment : Commitment;
  rq_subnet_id : Z;
  rq_assignment_commitment : Commitment;
  rq_input_commitment : Commitment;
  rq_terms_commitment : Commitment;
  rq_timing_commitment : Commitment;
  rq_status : InferenceRequestStatus;
}.
#[export] Instance eta_ChainInferenceRequest : Eta ChainInferenceRequest := fun r =>
  mk_ChainInferenceRequest (rq_request_id r) (rq_user_commitment r) (rq_subnet_id r)
    (rq_assignment_commitment r) (rq_input_commitment r) (rq_terms_commitment r)
    (rq_timing_commitment r) (rq_status r).

Record ChainAssignment : Type := {
  as_request_id : Z;
  as_subnet_id : Z;
  as_miner_id : Z;
  as_validator_id : Z;
}.

(** ** Call parameters *)

Record InferenceRequestParams : Type := {
  ip_subnet_id : Z;
  ip_miner_id : Z;
  ip_validator_id : Z;
  ip_input_commitment : Commitment;
  ip_assignment_blinding : Commitment;
  ip_timing_blinding : Commitment;
  ip_terms_blinding : Commitment;
  ip_payment : Z;
  ip_validator_fee_bps : Z;
  ip_treasury_fee_bps : Z;
}.

Record AutoRouteInferenceRequestParams : Type := {
  ar_subnet_id : Z;
  ar_input_commitment : Commitment;
  ar_assignment_blinding : Commitment;
  ar_timing_blinding : Commitment;
  ar_terms_blinding : Commitment;
  ar_payment : Z;
  ar_validator_fee_bps : Z;
  ar_treasury_fee_bps : Z;
}.

Record InferenceRequestCommitmentParams : Type := {
  cp_subnet_id : Z;
  cp_input_commitment : Commitment;
  cp_assignment_commitment : Commitment;
  cp_created_at : Z;
  cp_timing_commitment : Commitment;
  cp_terms_commitment : Commitment;
  cp_payment : Z;
  cp_validator_fee_bps : Z;
  cp_treasury_fee_bps : Z;
}.

Record InferenceRequestTerms : Type := {
  terms_payment : Z;
  terms_validator_fee_bps : Z;
  terms_treasury_fee_bps : Z;
}.

Record InferenceRequestTermsWitness : Type := {
  terms : InferenceRequestTerms;
  terms_blinding : Commitment;
}.

Record InferenceRequestTimingWitness : Type := {
  created_at : Z;
  timing_blinding : Commitment;
}.

(** ** Events and errors *)

Inductive Event : Type :=
| Event_PrivateActivity
| Event_SubnetCreated
| Event_MinerRegistered
| Event_MinerActivated
| Event_MinerExitStarted
| Event_MinerBondWithdrawn
| Event_ValidatorRegistered
| Event_ValidatorExitStarted
| Event_ValidatorStakeWithdrawn
| Event_MinerIdentityCommitmentsUpdated
| Event_ValidatorIdentityCommitmentsUpdated
| Event_InferenceRequested
| Event_ProofAccepted
| Event_ProofChallengeAccepted
| Event_InferenceSettled
| Event_InferenceCancelled
| Event_InferenceRefunded
| Event_InferenceExpired
| Event_ProofRejected
| Event_MinerSlashed
| Event_ValidatorSlashed.

Inductive Error : Type :=
| Error_ArithmeticOverflow
| Error_UnknownSubnet
| Error_UnknownMiner
| Error_UnknownValidator
| Error_ProofSystemMismatch
| Error_UnsupportedProofSystem
| Error_InvalidBond
| Error_InvalidStake
| Error_NotActive
| Error_InvalidMinerStatus
| Error_MinerExitUnavailable
| Error_NotOperator
| Error_InvalidValidatorStatus
| Error_ValidatorExitUnavailable
| Error_NotValidatorOperator
| Error_MissingCommitment
| Error_ModelCommitmentMismatch
| Error_DuplicateProof
| Error_DuplicateRequest
| Error_InvalidRequestId
| Error_UnknownRequest
| Error_RequestAlreadySettled
| Error_RequestCancelUnavailable
| Error_NotRequestOwner
| Error_RequestMismatch
| Error_ParticipantMismatch
| Error_SelfValidation
| Error_NoRouteAvailable
| Error_AssignmentMismatch
| Error_PendingAssignedRequests
| Error_PendingAssignmentUnderflow
| Error_RequestStatusCounterUnderflow
| Error_TooManyActiveMiners
| Error_TooManyActiveValidators
| Error_InvalidPayment
| Error_InvalidFeeSplit
| Error_RouteAssignmentMustBeHidden
| Error_UnsupportedCommittedRequestPayload
| Error_InvalidProofSize
| Error_LatencyExceeded
| Error_ProofSubmittedFromFuture
| Error_ProofSubmissionExpired
| Error_ProofTranscriptMismatch
| Error_ChallengeProofValid
| Error_InvalidSlashPercent
| Error_InvalidSignatureBundle
| Error_MissingSignatureBundle
| Error_MissingCapitalRecord
| Error_VerifierError
| Error_PublicCallPayloadDisallowed.
#[export] Instance Error_eq_dec : EqDecision Error.
Proof. solve_decision. Defined.

(** The dispatch errors the pallet can return: its own, [DispatchError::Other] of the
    shape verifier, [BadOrigin] of [ensure_signed] and [ensure_root], and whatever the
    currency reports. *)
Inductive DispatchError : Type :=
| DispatchError_Module (e : Error)
| DispatchError_Other (message : string)
| DispatchError_BadOrigin
| DispatchError_Currency (code : Z).

Abbreviation dresult := (result DispatchError).

(** [ensure!] and [ok_or] with one of the pallet's errors. *)
Abbreviation ensureE c e := (ensure c (DispatchError_Module e)).
Abbreviation ok_orE o e := (ok_or o (DispatchError_Module e)).

(** ** Verifier interfaces *)

Record ProofVerificationPolicy : Type := {
  pv_proof_system : ProofSystem;
  pv_model_commitment : Commitment;
  pv_min_proof_size_bytes : Z;
  pv_max_proof_size_bytes : Z;
  pv_max_verification_latency_ms : Z;
}.

Record VerifyProof : Type := {
  proof_mode : ProofVerifierMode;
  proof_verify : InferenceProofSubmission -> ProofVerificationPolicy ->
                 dresult VerificationOutcome;
}.

Record IdentitySignatureVerificationPolicy : Type := {
  sv_signature_mode : SignatureMode;
  sv_challenge : Commitment;
}.

Record VerifyIdentitySignature : Type := {
  identity_mode : IdentitySignatureVerifierMode;
  identity_verify : SignatureCommitment -> IdentitySignatureVerificationPolicy -> bool;
}.

(** ** Hashed data *)

(** Every tuple the pallet passes to [using_encoded(blake2_256)]. *)
Inductive Preimage : Type :=
| Pre_account (who : AccountId)
| Pre_role_account (domain : string) (who : AccountId)
| Pre_participant_capital (domain : string) (participant_id : Z)
    (operator_commitment : Commitment) (status : RegistryStatus)
| Pre_identity_challenge (domain : string) (subject_id : Z)
    (operator_commitment : Commitment) (shielded endpoint : option Commitment)
    (mode : SignatureMode)
| Pre_identity_binding (challenge : Commitment) (algorithm : SignatureAlgorithm)
    (public_key_commitment : Commitment) (mode : SignatureMode)
| Pre_subnet_policy (subnet_id : Z) (domain : SubnetDomain) (proof_system : ProofSystem)
    (creation_burn registration_burn min_bond max_bond min_stake : Z)
    (max_miners max_validators : Z)
| Pre_request_assignment (request_id subnet_id miner_id validator_id : Z)
    (blinding : Commitment)
| Pre_legacy_request_assignment (request_id subnet_id miner_id validator_id : Z)
| Pre_request_timing (request_id created_at : Z) (blinding : Commitment)
| Pre_legacy_request_timing (request_id created_at : Z)
| Pre_request_terms (request_id payment validator_fee_bps treasury_fee_bps : Z)
    (blinding : Commitment)
| Pre_legacy_request_terms (request_id payment validator_fee_bps treasury_fee_bps : Z)
| Pre_proof_audit (request_id subnet_id : Z) (assignment_commitment : Commitment)
    (input output model : Commitment) (proof : ProofEnvelope) (proof_system : ProofSystem)
    (proof_size_bytes verification_latency_ms submitted_at accepted_at : Z)
| Pre_proof_transcript (request_id subnet_id miner_id validator_id : Z)
    (input output model : Commitment) (proof_system : ProofSystem)
    (proof_commitment image_id : Commitment) (verifier_version : ProofVerifierVersion)
    (proof_size_bytes verification_latency_ms submitted_at : Z)
| Pre_route_seed (domain : string) (request_id subnet_id : Z) (blinding : Commitment).

Class Hashing := { commit : Preimage -> Commitment }.

(** [commit] has no collision among the tuples the pallet hashes. *)
Definition collision_free `{Hashing} : Prop := forall p q, commit p = commit q -> p = q.

Definition identity_signature_binding_for_mode `{Hashing} (signature_mode : SignatureMode)
    (challenge : Commitment) (signature : SignatureCommitment) : Commitment :=
  commit (Pre_identity_binding challenge (algorithm signature)
            (public_key_commitment signature) signature_mode).

(** ** The verifiers of the pallet *)

Definition FailClosedIdentitySignatureVerifier : VerifyIdentitySignature := {|
  identity_mode := IdentitySignatureVerifierMode_FailClosed;
  identity_verify _ _ := false;
|}.

Definition CommitmentBindingIdentitySignatureVerifier `{Hashing} :
    VerifyIdentitySignature := {|
  identity_mode := IdentitySignatureVerifierMode_CommitmentBindingOnly;
  identity_verify signature policy :=
    bool_decide (signature_commitment signature
                 = identity_signature_binding_for_mode (sv_signature_mode policy)
                     (sv_challenge policy) signature);
|}.

Definition FailClosedProofVerifier : VerifyProof := {|
  proof_mode := ProofVerifierMode_FailClosed;
  proof_verify _ _ := Ok VerificationOutcome_Error;
|}.

Inductive ShapeVerifierError : Type :=
| ShapeVerifierError_MissingCommitment
| ShapeVerifierError_ProofSystemMismatch
| ShapeVerifierError_ModelCommitmentMismatch
| ShapeVerifierError_InvalidProofSize
| ShapeVerifierError_LatencyExceeded.

Definition DispatchError_from_ShapeVerifierError (error : ShapeVerifierError) :
    DispatchError :=
  match error with
  | ShapeVerifierError_MissingCommitment => DispatchError_Other "MissingCommitment"
  | ShapeVerifierError_ProofSystemMismatch => DispatchError_Other "ProofSystemMismatch"
  | ShapeVerifierError_ModelCommitmentMismatch =>
      DispatchError_Other "ModelCommitmentMismatch"
  | ShapeVerifierError_InvalidProofSize => DispatchError_Other "InvalidProofSize"
  | ShapeVerifierError_LatencyExceeded => DispatchError_Other "LatencyExceeded"
  end.

Definition ShapeProofVerifier : VerifyProof := {|
  proof_mode := ProofVerifierMode_ShapeOnly;
  proof_verify submission policy :=
    let ensure cond error := ensure cond (DispatchError_from_ShapeVerifierError error) in
    let nonzero c := negb (bool_decide (c = zero_commitment)) in
    try! ensure (nonzero (input_commitment submission)) ShapeVerifierError_MissingCommitment;
    try! ensure (nonzero (output_commitment submission)) ShapeVerifierError_MissingCommitment;
    try! ensure (nonzero (model_commitment submission)) ShapeVerifierError_MissingCommitment;
    try! ensure (nonzero (proof_commitment (proof submission)))
           ShapeVerifierError_MissingCommitment;
    try! ensure (nonzero (journal_commitment (proof submission)))
           ShapeVerifierError_MissingCommitment;
    try! ensure (nonzero (image_id (proof submission))) ShapeVerifierError_MissingCommitment;
    try! ensure (ProofVerifierVersion_supports (verifier_version (proof submission))
                   (proof_system submission)) ShapeVerifierError_ProofSystemMismatch;
    try! ensure (bool_decide (proof_system submission = pv_proof_system policy))
           ShapeVerifierError_ProofSystemMismatch;
    try! ensure (bool_decide (model_commitment submission = pv_model_commitment policy))
           ShapeVerifierError_ModelCommitmentMismatch;
    try! ensure ((pv_min_proof_size_bytes policy <=? proof_size_bytes submission)
                 && (proof_size_bytes submission <=? pv_max_proof_size_bytes policy))
           ShapeVerifierError_InvalidProofSize;
    try! ensure (verification_latency_ms submission <=? pv_max_verification_latency_ms policy)
           ShapeVerifierError_LatencyExceeded;
    Ok VerificationOutcome_Valid;
|}.

(** ** The currency *)

(** The operations of [T::Currency] the pallet calls, on a state of type [C].  [hold],
    [release], [burn_held] and [transfer_on_hold] are called with [Precision::Exact],
    [burn_from] with [Precision::Exact] and [Preservation::Expendable]; the burning
    operations return the amount burned.  [balance] is the free balance, which the
    pallet never reads; the theorems about payments observe it. *)
Class Currency (C : Type) := {
  balance : AccountId -> C -> Z;
  balance_on_hold : HoldReason -> AccountId -> C -> Z;
  hold : HoldReason -> AccountId -> Z -> C -> dresult C;
  release : HoldReason -> AccountId -> Z -> C -> dresult C;
  burn_held : HoldReason -> AccountId -> Z -> C -> dresult (Z * C);
  burn_from : AccountId -> Z -> C -> dresult (Z * C);
  transfer_on_hold : HoldReason -> AccountId -> AccountId -> Z -> C -> dresult C;
}.

(** What [fungible::hold] documents of these operations: each changes the held balance
    of one account under one reason, by the amount it was called with; a release or
    burn of an amount that is on hold succeeds; what is released or transferred arrives
    in one free balance, and what is burned on hold in none.  What [burn_from] takes from a free balance
    is left open, since an expendable account may lose dust with it. *)
Definition held_after `{Currency C} (r : HoldReason) (a : AccountId) (delta : Z) (c c' : C) :
    Prop :=
  forall r' a', balance_on_hold r' a' c'
    = balance_on_hold r' a' c + if decide (r' = r /\ a' = a) then delta else 0.

Definition balance_after `{Currency C} (a : AccountId) (delta : Z) (c c' : C) : Prop :=
  forall a', balance a' c' = balance a' c + if decide (a' = a) then delta else 0.

Class CurrencyLaws (C : Type) `{Currency C} := {
  on_hold_nonneg r a c : 0 <= balance_on_hold r a c;
  hold_held r a x c c' : hold r a x c = Ok c' -> held_after r a x c c';
  release_held r a x c c' : release r a x c = Ok c' -> held_after r a (- x) c c';
  release_total r a x c : 0 <= x <= balance_on_hold r a c ->
    exists c', release r a x c = Ok c';
  burn_held_held r a x c y c' : burn_held r a x c = Ok (y, c') ->
    y = x /\ held_after r a (- x) c c';
  burn_held_total r a x c : 0 <= x <= balance_on_hold r a c ->
    exists c', burn_held r a x c = Ok (x, c');
  burn_from_held a x c y c' : burn_from a x c = Ok (y, c') ->
    forall r a', balance_on_hold r a' c' = balance_on_hold r a' c;
  transfer_on_hold_held r a b x c c' : transfer_on_hold r a b x c = Ok c' ->
    held_after r a (- x) c c';
  hold_balance r a x c c' : hold r a x c = Ok c' -> balance_after a (- x) c c';
  release_balance r a x c c' : release r a x c = Ok c' -> balance_after a x c c';
  transfer_on_hold_balance r a b x c c' : transfer_on_hold r a b x c = Ok c' ->
    balance_after b x c c';
  burn_held_balance r a x c y c' : burn_held r a x c = Ok (y, c') ->
    forall a', balance a' c' = balance a' c;
}.

(** ** Configuration *)

Inductive RuntimeOrigin : Type :=
| Origin_Root
| Origin_Signed (who : AccountId)
| Origin_None
| Origin_Shielded (who : AccountId).

(** The associated types and constants of [Config]; [balance_bits] is the width of
    [BalanceOf<T>]. *)
Class Config := {
  balance_bits : Z;
  SubnetCreationBurn : Z;
  MinerRegistrationBurn : Z;
  MinMinerBond : Z;
  MaxMinerBond : Z;
  MaxActiveMinersPerSubnet : Z;
  MaxActiveValidatorsPerSubnet : Z;
  MinValidatorStake : Z;
  MinInvalidProofSlashBps : Z;
  MaxInvalidProofSlashBps : Z;
  MinProofSizeBytes : Z;
  MaxProofSizeBytes : Z;
  MaxVerificationLatencyMs : Z;
  MaxProofSubmissionAgeBlocks : Z;
  cfg_SignatureMode : SignatureMode;
  IdentitySignatureVerifier : VerifyIdentitySignature;
  ShieldedCallPayloads : bool;
  ShieldedCallPayloadExecution : bool;
  PrivateEventMetadata : bool;
  ShieldedOrigin : RuntimeOrigin -> option AccountId;
  ProofVerifier : VerifyProof;
  ProtocolTreasury : AccountId;
  MinerExitCooldownBlocks : Z;
  ValidatorExitCooldownBlocks : Z;
  RequestCancelDelayBlocks : Z;
}.

(** The runtime's [EnsureShieldedQubitumOrigin]. *)
Definition EnsureShieldedQubitumOrigin (origin : RuntimeOrigin) : option AccountId :=
  match origin with Origin_Shielded who => Some who | _ => None end.

(** ** Storage

    A value with [ValueQuery] is a plain field, killed by writing its default; a map
    with [ValueQuery] is read with a default.  The state of the currency, the block
    number of [frame_system] and the deposited events are part of the store. *)
Record Store (C : Type) : Type := mk_Store {
  SubnetCount : Z;
  MinerCount : Z;
  ValidatorCount : Z;
  Subnets : gmap Z ChainSubnet;
  Miners : gmap Z ChainMiner;
  Validators : gmap Z ChainValidator;
  MinerIdentityCommitments : gmap Z ChainIdentityCommitments;
  MinerIdentitySignatureBundles : gmap Z SignatureBundle;
  MinerIdentitySignatureChallenges : gmap Z Commitment;
  ValidatorIdentityCommitments : gmap Z ChainIdentityCommitments;
  ValidatorIdentitySignatureBundles : gmap Z SignatureBundle;
  ValidatorIdentitySignatureChallenges : gmap Z Commitment;
  ProofRecords : gmap Z ChainProofRecord;
  InferenceRequests : gmap Z ChainInferenceRequest;
  RequestCount : Z;
  ActiveMinersBySubnet : gmap Z (list Z);
  ActiveValidatorsBySubnet : gmap Z (list Z);
  MinerLockedBond : gmap Z Z;
  ValidatorLockedStake : gmap Z Z;
  PendingMinerRequests : gmap Z Z;
  PendingValidatorRequests : gmap Z Z;
  PendingInferenceRequestCount : Z;
  SettledInferenceRequestCount : Z;
  CancelledInferenceRequestCount : Z;
  RejectedInferenceRequestCount : Z;
  ExpiredInferenceRequestCount : Z;
  TotalBurned : Z;
  TotalInferenceEscrowed : Z;
  TotalMinerPayouts : Z;
  TotalValidatorFees : Z;
  TotalTreasuryFees : Z;
  TotalInferenceRefunded : Z;
  LegacyAccountingMigrationFailures : Z;
  LegacyRoutingIndexMigrationFailures : Z;
  LegacyCapitalRecordMigrationFailures : Z;
  currency_state : C;
  block_number : Z;
  events : list Event; (* of this pallet; those the currency deposits belong to [C] *)
}.
Arguments mk_Store {C}.
Arguments SubnetCount {C} _.
Arguments MinerCount {C} _.
Arguments ValidatorCount {C} _.
Arguments Subnets {C} _.
Arguments Miners {C} _.
Arguments Validators {C} _.
Arguments MinerIdentityCommitments {C} _.
Arguments MinerIdentitySignatureBundles {C} _.
Arguments MinerIdentitySignatureChallenges {C} _.
Arguments ValidatorIdentityCommitments {C} _.
Arguments ValidatorIdentitySignatureBundles {C} _.
Arguments ValidatorIdentitySignatureChallenges {C} _.
Arguments ProofRecords {C} _.
Arguments InferenceRequests {C} _.
Arguments RequestCount {C} _.
Arguments ActiveMinersBySubnet {C} _.
Arguments ActiveValidatorsBySubnet {C} _.
Arguments MinerLockedBond {C} _.
Arguments ValidatorLockedStake {C} _.
Arguments PendingMinerRequests {C} _.
Arguments PendingValidatorRequests {C} _.
Arguments PendingInferenceRequestCount {C} _.
Arguments SettledInferenceRequestCount {C} _.
Arguments CancelledInferenceRequestCount {C} _.
Arguments RejectedInferenceRequestCount {C} _.
Arguments ExpiredInferenceRequestCount {C} _.
Arguments TotalBurned {C} _.
Arguments TotalInferenceEscrowed {C} _.
Arguments TotalMinerPayouts {C} _.
Arguments TotalValidatorFees {C} _.
Arguments TotalTreasuryFees {C} _.
Arguments TotalInferenceRefunded {C} _.
Arguments LegacyAccountingMigrationFailures {C} _.
Arguments LegacyRoutingIndexMigrationFailures {C} _.
Arguments LegacyCapitalRecordMigrationFailures {C} _.
Arguments currency_state {C} _.
Arguments block_number {C} _.
Arguments events {C} _.
#[export] Instance eta_Store C : Eta (Store C) := fun r => mk_Store
  (SubnetCount r) (MinerCount r) (ValidatorCount r) (Subnets r) (Miners r) (Validators
  r) (MinerIdentityCommitments r) (MinerIdentitySignatureBundles r)
  (MinerIdentitySignatureChallenges r) (ValidatorIdentityCommitments r)
  (ValidatorIdentitySignatureBundles r) (ValidatorIdentitySignatureChallenges r)
  (ProofRecords r) (InferenceRequests r) (RequestCount r) (ActiveMinersBySubnet r)
  (ActiveValidatorsBySubnet r) (MinerLockedBond r) (ValidatorLockedStake r)
  (PendingMinerRequests r) (PendingValidatorRequests r) (PendingInferenceRequestCount r)
  (SettledInferenceRequestCount r) (CancelledInferenceRequestCount r)
  (RejectedInferenceRequestCount r) (ExpiredInferenceRequestCount r) (TotalBurned r)
  (TotalInferenceEscrowed r) (TotalMinerPayouts r) (TotalValidatorFees r)
  (TotalTreasuryFees r) (TotalInferenceRefunded r) (LegacyAccountingMigrationFailures r)
  (LegacyRoutingIndexMigrationFailures r) (LegacyCapitalRecordMigrationFailures r)
  (currency_state r) (block_number r) (events r).

Abbreviation pact C := (act (Store C) DispatchError).
