(* ===== verification/PalletGuards.v ===== *)
(** * The Qubitum pallet: commitments and checks

    The helper functions of [pallets/qubitum/src/lib.rs] that read storage without
    writing it: commitments, witness checks, signature-bundle checks, capital records,
    fee arithmetic, and the validation of a proof submission. *)

From S2P Require Import Prelude Protocol PostQuantum Pallet.
From stdpp Require Import base tactics list gmap strings list_numbers.
From Stdlib Require Import ZArith Lia.
Open Scope Z_scope.

Definition LEGACY_ASSIGNMENT_BLINDING : Commitment := zero_commitment.
Definition LEGACY_TIMING_BLINDING : Commitment := zero_commitment.
Definition LEGACY_TERMS_BLINDING : Commitment := zero_commitment.

Section Guards.
Context {C : Type} `{CC : !Currency C} `{T : !Config} `{HH : !Hashing}.
Implicit Types s : Store C.

(** ** Origins, block number and arithmetic *)

Definition current_block s : Z := saturated_into 64 (block_number s).

Definition ensure_signed (origin : RuntimeOrigin) : dresult AccountId :=
  match origin with Origin_Signed who => Ok who | _ => Err DispatchError_BadOrigin end.

Definition ensure_root (origin : RuntimeOrigin) : dresult unit :=
  match origin with Origin_Root => Ok tt | _ => Err DispatchError_BadOrigin end.

Definition ensure_payload_signer (origin : RuntimeOrigin) : dresult AccountId :=
  if ShieldedCallPayloads
  then ok_orE (ShieldedOrigin origin) Error_PublicCallPayloadDisallowed
  else ensure_signed origin.

Definition ensure_public_call_payload_allowed : dresult unit :=
  ensureE (negb ShieldedCallPayloads) Error_PublicCallPayloadDisallowed.

(** [pro_rata]: the multiplication is checked at the width of the balance. *)
Definition pro_rata (amount bps : Z) : dresult Z :=
  let bps := saturated_into balance_bits bps in
  let denominator := saturated_into balance_bits BPS_DENOMINATOR in
  ok_orE (and_then (checked_mul balance_bits amount bps)
            (fun value => checked_div value denominator)) Error_ArithmeticOverflow.

Definition validate_fee_split (validator_fee_bps treasury_fee_bps : Z) : dresult unit :=
  combined <-? ok_orE (checked_add 16 validator_fee_bps treasury_fee_bps)
                 Error_ArithmeticOverflow;
  ensureE (combined <=? BPS_DENOMINATOR) Error_InvalidFeeSplit.

Definition payment_split (payment validator_fee_bps treasury_fee_bps : Z) :
    dresult (Z * Z * Z) :=
  try! validate_fee_split validator_fee_bps treasury_fee_bps;
  validator_fee <-? pro_rata payment validator_fee_bps;
  treasury_fee <-? pro_rata payment treasury_fee_bps;
  assigned <-? ok_orE (checked_add balance_bits validator_fee treasury_fee)
                 Error_ArithmeticOverflow;
  miner_payment <-? ok_orE (checked_sub payment assigned) Error_ArithmeticOverflow;
  Ok (miner_payment, validator_fee, treasury_fee).

(** ** Commitments *)

Definition ensure_commitment (commitment : Commitment) : dresult unit :=
  ensureE (negb (bool_decide (commitment = zero_commitment))) Error_MissingCommitment.

Definition ensure_optional_commitment (commitment : option Commitment) : dresult unit :=
  match commitment with
  | Some commitment => ensure_commitment commitment
  | None => Ok tt
  end.

Definition ensure_proof_envelope (proof : ProofEnvelope) (proof_system : ProofSystem) :
    dresult unit :=
  try! ensure_commitment (proof_commitment proof);
  try! ensure_commitment (journal_commitment proof);
  try! ensure_commitment (image_id proof);
  ensureE (ProofVerifierVersion_supports (verifier_version proof) proof_system)
    Error_ProofSystemMismatch.

Definition ensure_supported_proof_system (proof_system : ProofSystem) : dresult unit :=
  ensureE (match proof_system with
           | ProofSystem_RiscZeroStark | ProofSystem_Stark => true
           | _ => false
           end) Error_UnsupportedProofSystem.

Definition account_commitment (who : AccountId) : Commitment := commit (Pre_account who).

Definition role_account_commitment (domain : string) (who : AccountId) : Commitment :=
  commit (Pre_role_account domain who).

Definition subnet_owner_commitment (who : AccountId) : Commitment :=
  role_account_commitment "qubitum.subnet.owner.v1" who.

Definition operator_commitment (who : AccountId) : Commitment :=
  role_account_commitment "qubitum.operator.v1" who.

Definition request_user_commitment (who : AccountId) : Commitment :=
  role_account_commitment "qubitum.request.user.v1" who.

Definition participant_capital_commitment (domain : string) (participant_id : Z)
    (operator_commitment : Commitment) (status : RegistryStatus) : Commitment :=
  commit (Pre_participant_capital domain participant_id operator_commitment status).

Definition miner_bond_commitment (miner_id : Z) (operator_commitment : Commitment)
    (status : RegistryStatus) : Commitment :=
  participant_capital_commitment "qubitum.miner.bond.state.v1" miner_id
    operator_commitment status.

Definition validator_stake_commitment (validator_id : Z) (operator_commitment : Commitment)
    (status : RegistryStatus) : Commitment :=
  participant_capital_commitment "qubitum.validator.stake.state.v1" validator_id
    operator_commitment status.

Definition identity_signature_challenge (domain : string) (subject_id : Z)
    (operator_commitment : Commitment) (shielded endpoint : option Commitment) :
    Commitment :=
  commit (Pre_identity_challenge domain subject_id operator_commitment shielded endpoint
            cfg_SignatureMode).

Definition miner_identity_signature_challenge (miner_id : Z)
    (operator_commitment : Commitment) (shielded endpoint : option Commitment) :
    Commitment :=
  identity_signature_challenge "qubitum.identity.miner.v1" miner_id operator_commitment
    shielded endpoint.

Definition validator_identity_signature_challenge (validator_id : Z)
    (operator_commitment : Commitment) (shielded endpoint : option Commitment) :
    Commitment :=
  identity_signature_challenge "qubitum.identity.validator.v1" validator_id
    operator_commitment shielded endpoint.

Definition subnet_policy_commitment (subnet_id : Z) (domain : SubnetDomain)
    (proof_system : ProofSystem) : Commitment :=
  commit (Pre_subnet_policy subnet_id domain proof_system SubnetCreationBurn
            MinerRegistrationBurn MinMinerBond MaxMinerBond MinValidatorStake
            MaxActiveMinersPerSubnet MaxActiveValidatorsPerSubnet).

Definition request_assignment_commitment (request_id subnet_id miner_id validator_id : Z)
    (assignment_blinding : Commitment) : Commitment :=
  commit (Pre_request_assignment request_id subnet_id miner_id validator_id
            assignment_blinding).

Definition legacy_request_assignment_commitment
    (request_id subnet_id miner_id validator_id : Z) : Commitment :=
  commit (Pre_legacy_request_assignment request_id subnet_id miner_id validator_id).

Definition request_timing_commitment (request_id created_at : Z)
    (timing_blinding : Commitment) : Commitment :=
  commit (Pre_request_timing request_id created_at timing_blinding).

Definition legacy_request_timing_commitment (request_id created_at : Z) : Commitment :=
  commit (Pre_legacy_request_timing request_id created_at).

Definition request_terms_commitment
    (request_id payment validator_fee_bps treasury_fee_bps : Z)
    (terms_blinding : Commitment) : Commitment :=
  commit (Pre_request_terms request_id payment validator_fee_bps treasury_fee_bps
            terms_blinding).

Definition legacy_request_terms_commitment
    (request_id payment validator_fee_bps treasury_fee_bps : Z) : Commitment :=
  commit (Pre_legacy_request_terms request_id payment validator_fee_bps treasury_fee_bps).

Definition proof_audit_commitment_for_assignment (submission : InferenceProofSubmission)
    (accepted_at : Z) (assignment_commitment : Commitment) : Commitment :=
  commit (Pre_proof_audit (request_id submission) (subnet_id submission)
            assignment_commitment (input_commitment submission)
            (output_commitment submission) (model_commitment submission)
            (proof submission) (proof_system submission) (proof_size_bytes submission)
            (verification_latency_ms submission) (submitted_at submission) accepted_at).

Definition proof_transcript_commitment (submission : InferenceProofSubmission) :
    Commitment :=
  commit (Pre_proof_transcript (request_id submission) (subnet_id submission)
            (miner_id submission) (validator_id submission) (input_commitment submission)
            (output_commitment submission) (model_commitment submission)
            (proof_system submission) (proof_commitment (proof submission))
            (image_id (proof submission)) (verifier_version (proof submission))
            (proof_size_bytes submission) (verification_latency_ms submission)
            (submitted_at submission)).

(** ** Ownership and witnesses *)

Definition operator_commitment_matches (stored : Commitment) (operator : AccountId) : bool :=
  bool_decide (stored = operator_commitment operator)
  || bool_decide (stored = account_commitment operator).

Definition ensure_miner_operator (miner : ChainMiner) (operator : AccountId) : dresult unit :=
  ensureE (operator_commitment_matches (cm_operator_commitment miner) operator)
    Error_NotOperator.

Definition ensure_validator_operator (validator : ChainValidator) (operator : AccountId) :
    dresult unit :=
  ensureE (operator_commitment_matches (cv_operator_commitment validator) operator)
    Error_NotOperator.

Definition ensure_validator_submission_operator (validator : ChainValidator)
    (operator : AccountId) : dresult unit :=
  ensureE (operator_commitment_matches (cv_operator_commitment validator) operator)
    Error_NotValidatorOperator.

Definition request_user_commitment_matches (stored : Commitment) (user : AccountId) : bool :=
  bool_decide (stored = request_user_commitment user)
  || bool_decide (stored = account_commitment user).

Definition ensure_request_user (request : ChainInferenceRequest) (user : AccountId) :
    dresult unit :=
  ensureE (request_user_commitment_matches (rq_user_commitment request) user)
    Error_NotRequestOwner.

Definition resolve_request_assignment_commitment (request : ChainInferenceRequest)
    (miner_id validator_id : Z) (assignment_blinding : Commitment) : dresult Commitment :=
  let blinded := request_assignment_commitment (rq_request_id request)
                   (rq_subnet_id request) miner_id validator_id assignment_blinding in
  let legacy := legacy_request_assignment_commitment (rq_request_id request)
                  (rq_subnet_id request) miner_id validator_id in
  let assignment_matches :=
    bool_decide (rq_assignment_commitment request = blinded)
    || (bool_decide (assignment_blinding = LEGACY_ASSIGNMENT_BLINDING)
        && bool_decide (rq_assignment_commitment request = legacy)) in
  try! ensureE assignment_matches Error_AssignmentMismatch;
  try! ensureE (negb (bool_decide (assignment_blinding = LEGACY_ASSIGNMENT_BLINDING))
                || bool_decide (rq_assignment_commitment request = legacy))
         Error_MissingCommitment;
  Ok (rq_assignment_commitment request).

Definition ensure_request_assignment_witness (request : ChainInferenceRequest)
    (miner_id validator_id : Z) (assignment_blinding : Commitment) : dresult unit :=
  try! resolve_request_assignment_commitment request miner_id validator_id
         assignment_blinding;
  Ok tt.

Definition submission_assignment_commitment s (submission : InferenceProofSubmission)
    (assignment_blinding : Commitment) : dresult Commitment :=
  request <-? ok_orE (InferenceRequests s !! request_id submission) Error_UnknownRequest;
  resolve_request_assignment_commitment request (miner_id submission)
    (validator_id submission) assignment_blinding.

Definition ensure_request_timing_witness (request : ChainInferenceRequest)
    (timing_witness : InferenceRequestTimingWitness) : dresult unit :=
  let blinded := request_timing_commitment (rq_request_id request)
                   (created_at timing_witness) (timing_blinding timing_witness) in
  let legacy := legacy_request_timing_commitment (rq_request_id request)
                  (created_at timing_witness) in
  let timing_matches :=
    bool_decide (rq_timing_commitment request = blinded)
    || (bool_decide (timing_blinding timing_witness = LEGACY_TIMING_BLINDING)
        && bool_decide (rq_timing_commitment request = legacy)) in
  try! ensureE timing_matches Error_RequestMismatch;
  ensureE (negb (bool_decide (timing_blinding timing_witness = LEGACY_TIMING_BLINDING))
           || bool_decide (rq_timing_commitment request = legacy)) Error_MissingCommitment.

Definition ensure_request_terms_witness (request : ChainInferenceRequest)
    (terms_witness : InferenceRequestTermsWitness) : dresult unit :=
  let t := terms terms_witness in
  try! ensureE (0 <? terms_payment t) Error_InvalidPayment;
  try! validate_fee_split (terms_validator_fee_bps t) (terms_treasury_fee_bps t);
  let blinded := request_terms_commitment (rq_request_id request) (terms_payment t)
                   (terms_validator_fee_bps t) (terms_treasury_fee_bps t)
                   (terms_blinding terms_witness) in
  let legacy := legacy_request_terms_commitment (rq_request_id request) (terms_payment t)
                  (terms_validator_fee_bps t) (terms_treasury_fee_bps t) in
  let terms_match :=
    bool_decide (rq_terms_commitment request = blinded)
    || (bool_decide (terms_blinding terms_witness = LEGACY_TERMS_BLINDING)
        && bool_decide (rq_terms_commitment request = legacy)) in
  try! ensureE terms_match Error_RequestMismatch;
  ensureE (negb (bool_decide (terms_blinding terms_witness = LEGACY_TERMS_BLINDING))
           || bool_decide (rq_terms_commitment request = legacy)) Error_MissingCommitment.

Definition ensure_proof_transcript_witness (submission : InferenceProofSubmission) :
    dresult unit :=
  ensureE (bool_decide (journal_commitment (proof submission)
                        = proof_transcript_commitment submission))
    Error_ProofTranscriptMismatch.

(** ** Signature bundles *)

Definition ensure_signature_bundle (signature_bundle : SignatureBundle) : dresult unit :=
  match SignaturePolicy_validate (SignaturePolicy_new cfg_SignatureMode) signature_bundle with
  | Ok _ => Ok tt
  | Err _ => Err (DispatchError_Module Error_InvalidSignatureBundle)
  end.

Definition ensure_signature_commitment_bound_to_challenge (signature : SignatureCommitment)
    (challenge : Commitment) : dresult unit :=
  ensureE (identity_verify IdentitySignatureVerifier signature
             {| sv_signature_mode := cfg_SignatureMode; sv_challenge := challenge |})
    Error_InvalidSignatureBundle.

(** [if let Some(signature) = o { check(signature)?; }] *)
Definition when_some {A} (o : option A) (f : A -> dresult unit) : dresult unit :=
  match o with Some a => f a | None => Ok tt end.

Definition ensure_signature_bundle_bound_to_challenge (signature_bundle : SignatureBundle)
    (challenge : Commitment) : dresult unit :=
  try! ensure_signature_bundle signature_bundle;
  try! when_some (classical signature_bundle) (fun signature =>
         ensure_signature_commitment_bound_to_challenge signature challenge);
  when_some (post_quantum signature_bundle) (fun signature =>
    ensure_signature_commitment_bound_to_challenge signature challenge).

Definition ensure_signature_commitment_not_reserved (signature : SignatureCommitment)
    (reserved : list (option Commitment)) : dresult unit :=
  ensureE (forallb (fun maybe_commitment =>
      match maybe_commitment with
      | Some commitment =>
          negb (bool_decide (public_key_commitment signature = commitment))
          && negb (bool_decide (signature_commitment signature = commitment))
      | None => true
      end) reserved) Error_InvalidSignatureBundle.

Definition ensure_identity_signature_bundle_bound (signature_bundle : SignatureBundle)
    (challenge operator_commitment : Commitment) (shielded endpoint : option Commitment) :
    dresult unit :=
  try! ensure_signature_bundle_bound_to_challenge signature_bundle challenge;
  let reserved := [Some operator_commitment; Some challenge; shielded; endpoint] in
  try! when_some (classical signature_bundle) (fun signature =>
         ensure_signature_commitment_not_reserved signature reserved);
  when_some (post_quantum signature_bundle) (fun signature =>
    ensure_signature_commitment_not_reserved signature reserved).

Definition ensure_miner_signature_bundle_bound s (miner_id : Z) (miner : ChainMiner) :
    dresult unit :=
  commitments <-? ok_orE (MinerIdentityCommitments s !! miner_id)
                    Error_MissingSignatureBundle;
  stored_challenge <-? ok_orE (MinerIdentitySignatureChallenges s !! miner_id)
                         Error_MissingSignatureBundle;
  let expected_challenge := miner_identity_signature_challenge miner_id
    (cm_operator_commitment miner) (shielded_identity_commitment commitments)
    (endpoint_commitment commitments) in
  try! ensureE (bool_decide (stored_challenge = expected_challenge))
         Error_InvalidSignatureBundle;
  signature_bundle <-? ok_orE (MinerIdentitySignatureBundles s !! miner_id)
                         Error_MissingSignatureBundle;
  ensure_identity_signature_bundle_bound signature_bundle expected_challenge
    (cm_operator_commitment miner) (shielded_identity_commitment commitments)
    (endpoint_commitment commitments).

Definition ensure_validator_signature_bundle_bound s (validator_id : Z)
    (validator : ChainValidator) : dresult unit :=
  commitments <-? ok_orE (ValidatorIdentityCommitments s !! validator_id)
                    Error_MissingSignatureBundle;
  stored_challenge <-? ok_orE (ValidatorIdentitySignatureChallenges s !! validator_id)
                         Error_MissingSignatureBundle;
  let expected_challenge := validator_identity_signature_challenge validator_id
    (cv_operator_commitment validator) (shielded_identity_commitment commitments)
    (endpoint_commitment commitments) in
  try! ensureE (bool_decide (stored_challenge = expected_challenge))
         Error_InvalidSignatureBundle;
  signature_bundle <-? ok_orE (ValidatorIdentitySignatureBundles s !! validator_id)
                         Error_MissingSignatureBundle;
  ensure_identity_signature_bundle_bound signature_bundle expected_challenge
    (cv_operator_commitment validator) (shielded_identity_commitment commitments)
    (endpoint_commitment commitments).

Definition ensure_participant_signature_bundles s (miner_id validator_id : Z) :
    dresult unit :=
  miner <-? ok_orE (Miners s !! miner_id) Error_UnknownMiner;
  validator <-? ok_orE (Validators s !! validator_id) Error_UnknownValidator;
  try! ensure_miner_signature_bundle_bound s miner_id miner;
  ensure_validator_signature_bundle_bound s validator_id validator.

(** ** Records and capital *)

Definition miner_records s : list (Z * ChainMiner) :=
  omap (fun miner_id => m ← Miners s !! miner_id; Some (miner_id, m))
    (seqZ 0 (MinerCount s)).

Definition validator_records s : list (Z * ChainValidator) :=
  omap (fun validator_id => v ← Validators s !! validator_id; Some (validator_id, v))
    (seqZ 0 (ValidatorCount s)).

Definition request_records s : list (Z * ChainInferenceRequest) :=
  omap (fun request_id => r ← InferenceRequests s !! request_id; Some (request_id, r))
    (seqZ 0 (RequestCount s)).

Definition held_miner_bond s (operator : AccountId) : Z :=
  balance_on_hold HoldReason_MinerBond operator (currency_state s).

Definition held_validator_stake s (operator : AccountId) : Z :=
  balance_on_hold HoldReason_ValidatorStake operator (currency_state s).

Definition miner_capital_bearing_status (status : RegistryStatus) : bool :=
  match status with
  | RegistryStatus_Active | RegistryStatus_Slashed | RegistryStatus_Exiting _ => true
  | _ => false
  end.

Definition validator_capital_bearing_status (status : RegistryStatus) : bool :=
  match status with
  | RegistryStatus_Pending | RegistryStatus_Active | RegistryStatus_Slashed
  | RegistryStatus_Exiting _ => true
  | _ => false
  end.

Definition miner_capital_record_count s (operator_commitment : Commitment) : Z :=
  foldl (fun count _ => saturating_add 32 count 1) 0
    (List.filter (fun '(_, miner) =>
       bool_decide (cm_operator_commitment miner = operator_commitment)
       && miner_capital_bearing_status (cm_status miner)) (miner_records s)).

Definition validator_capital_record_count s (operator_commitment : Commitment) : Z :=
  foldl (fun count _ => saturating_add 32 count 1) 0
    (List.filter (fun '(_, validator) =>
       bool_decide (cv_operator_commitment validator = operator_commitment)
       && validator_capital_bearing_status (cv_status validator)) (validator_records s)).

Definition locked_miner_bond s (miner_id : Z) (operator : AccountId) : dresult Z :=
  match MinerLockedBond s !! miner_id with
  | Some bond => Ok bond
  | None =>
      miner <-? ok_orE (Miners s !! miner_id) Error_UnknownMiner;
      try! ensure_miner_operator miner operator;
      try! ensureE (miner_capital_bearing_status (cm_status miner)
                    && (miner_capital_record_count s (cm_operator_commitment miner) =? 1))
             Error_MissingCapitalRecord;
      Ok (held_miner_bond s operator)
  end.

Definition locked_validator_stake s (validator_id : Z) (operator : AccountId) : dresult Z :=
  match ValidatorLockedStake s !! validator_id with
  | Some stake => Ok stake
  | None =>
      validator <-? ok_orE (Validators s !! validator_id) Error_UnknownValidator;
      try! ensure_validator_operator validator operator;
      try! ensureE (validator_capital_bearing_status (cv_status validator)
                    && (validator_capital_record_count s (cv_operator_commitment validator)
                        =? 1))
             Error_MissingCapitalRecord;
      Ok (held_validator_stake s operator)
  end.

Definition miner_has_active_locked_bond_record s (miner_id : Z) : bool :=
  match MinerLockedBond s !! miner_id with
  | Some bond => MinMinerBond <=? bond
  | None => false
  end.

Definition ensure_miner_locked_bond_record s (miner_id : Z) : dresult unit :=
  ensureE (miner_has_active_locked_bond_record s miner_id) Error_MissingCapitalRecord.

Definition validator_has_active_locked_stake_record s (validator_id : Z) : bool :=
  match ValidatorLockedStake s !! validator_id with
  | Some stake => MinValidatorStake <=? stake
  | None => false
  end.

Definition ensure_validator_locked_stake_record s (validator_id : Z) : dresult unit :=
  ensureE (validator_has_active_locked_stake_record s validator_id)
    Error_MissingCapitalRecord.

(** ** Requests and submissions *)

Definition ensure_request_id_matches_next s (request_id : Z) : dresult unit :=
  let expected := RequestCount s in
  ensureE (request_id =? expected) Error_InvalidRequestId.

Definition ensure_request_id_can_advance s (request_id : Z) : dresult Z :=
  try! ensure_request_id_matches_next s request_id;
  ok_orE (checked_add 64 request_id 1) Error_ArithmeticOverflow.

Definition ensure_inference_request_openable s (request_id subnet_id : Z)
    (input_commitment assignment_blinding timing_blinding terms_blinding : Commitment)
    (payment validator_fee_bps treasury_fee_bps : Z) : dresult unit :=
  try! ensure_commitment input_commitment;
  try! ensure_commitment assignment_blinding;
  try! ensure_commitment timing_blinding;
  try! ensure_commitment terms_blinding;
  try! ensureE (bool_decide (InferenceRequests s !! request_id = None))
         Error_DuplicateRequest;
  try! ensureE (0 <? payment) Error_InvalidPayment;
  try! validate_fee_split validator_fee_bps treasury_fee_bps;
  subnet <-? ok_orE (Subnets s !! subnet_id) Error_UnknownSubnet;
  ensureE (cs_active subnet) Error_NotActive.

Definition ensure_committed_request_payload_preflight s (request_id : Z)
    (params : InferenceRequestCommitmentParams) : dresult unit :=
  try! ensure_commitment (cp_input_commitment params);
  try! ensure_commitment (cp_assignment_commitment params);
  try! ensure_commitment (cp_timing_commitment params);
  try! ensure_commitment (cp_terms_commitment params);
  try! ensureE (bool_decide (InferenceRequests s !! request_id = None))
         Error_DuplicateRequest;
  try! ensure_request_id_matches_next s request_id;
  try! ensureE (cp_created_at params =? current_block s) Error_RequestMismatch;
  try! ensureE (negb (bool_decide (cp_timing_commitment params
          = legacy_request_timing_commitment request_id (cp_created_at params))))
         Error_MissingCommitment;
  try! ensureE (0 <? cp_payment params) Error_InvalidPayment;
  try! validate_fee_split (cp_validator_fee_bps params) (cp_treasury_fee_bps params);
  try! ensureE (negb (bool_decide (cp_terms_commitment params
          = legacy_request_terms_commitment request_id (cp_payment params)
              (cp_validator_fee_bps params) (cp_treasury_fee_bps params))))
         Error_MissingCommitment;
  subnet <-? ok_orE (Subnets s !! cp_subnet_id params) Error_UnknownSubnet;
  ensureE (cs_active subnet) Error_NotActive.

Definition ensure_distinct_operators (miner : ChainMiner) (validator : ChainValidator) :
    dresult unit :=
  ensureE (negb (bool_decide (cm_operator_commitment miner
                              = cv_operator_commitment validator))) Error_SelfValidation.

Definition is_active (status : RegistryStatus) : bool :=
  bool_decide (status = RegistryStatus_Active).

Definition ensure_request_assignment s (subnet_id miner_id validator_id : Z) :
    dresult unit :=
  miner <-? ok_orE (Miners s !! miner_id) Error_UnknownMiner;
  validator <-? ok_orE (Validators s !! validator_id) Error_UnknownValidator;
  try! ensureE ((cm_subnet_id miner =? subnet_id) && (cv_subnet_id validator =? subnet_id))
         Error_ParticipantMismatch;
  try! ensureE (is_active (cm_status miner) && is_active (cv_status validator))
         Error_NotActive;
  try! ensure_distinct_operators miner validator;
  ensure_participant_signature_bundles s miner_id validator_id.

Definition ensure_submission_fresh s (submitted_at : Z) : dresult unit :=
  let current := current_block s in
  try! ensureE (submitted_at <=? current) Error_ProofSubmittedFromFuture;
  ensureE (saturating_sub current MaxProofSubmissionAgeBlocks <=? submitted_at)
    Error_ProofSubmissionExpired.

Definition is_pending (request : ChainInferenceRequest) : bool :=
  bool_decide (rq_status request = InferenceRequestStatus_Pending).

Definition request_matches (request : ChainInferenceRequest)
    (submission : InferenceProofSubmission) : bool :=
  (rq_subnet_id request =? subnet_id submission)
  && bool_decide (rq_input_commitment request = input_commitment submission).

Definition validate_submission_for_request s (submission : InferenceProofSubmission)
    (assignment_blinding : Commitment) :
    dresult (ProofVerificationPolicy * ChainMiner * ChainValidator) :=
  try! ensure_commitment (input_commitment submission);
  try! ensure_commitment (output_commitment submission);
  try! ensure_commitment (model_commitment submission);
  try! ensure_proof_envelope (proof submission) (proof_system submission);
  try! ensureE (bool_decide (ProofRecords s !! request_id submission = None))
         Error_DuplicateProof;
  request <-? ok_orE (InferenceRequests s !! request_id submission) Error_UnknownRequest;
  try! ensureE (is_pending request) Error_RequestAlreadySettled;
  try! ensureE (request_matches request submission) Error_RequestMismatch;
  try! ensure_request_assignment_witness request (miner_id submission)
         (validator_id submission) assignment_blinding;
  subnet <-? ok_orE (Subnets s !! subnet_id submission) Error_UnknownSubnet;
  try! ensureE (bool_decide (cs_proof_system subnet = proof_system submission))
         Error_ProofSystemMismatch;
  try! ensureE ((MinProofSizeBytes <=? proof_size_bytes submission)
                && (proof_size_bytes submission <=? MaxProofSizeBytes))
         Error_InvalidProofSize;
  try! ensureE (verification_latency_ms submission <=? MaxVerificationLatencyMs)
         Error_LatencyExceeded;
  try! ensure_submission_fresh s (submitted_at submission);
  try! ensure_proof_transcript_witness submission;
  miner <-? ok_orE (Miners s !! miner_id submission) Error_UnknownMiner;
  try! ensureE ((cm_subnet_id miner =? subnet_id submission) && is_active (cm_status miner))
         Error_NotActive;
  try! ensureE (bool_decide (cm_model_commitment miner = model_commitment submission))
         Error_ModelCommitmentMismatch;
  validator <-? ok_orE (Validators s !! validator_id submission) Error_UnknownValidator;
  try! ensureE ((cv_subnet_id validator =? subnet_id submission)
                && is_active (cv_status validator)) Error_NotActive;
  try! ensure_distinct_operators miner validator;
  try! ensure_participant_signature_bundles s (miner_id submission)
         (validator_id submission);
  Ok ({| pv_proof_system := cs_proof_system subnet;
         pv_model_commitment := cm_model_commitment miner;
         pv_min_proof_size_bytes := MinProofSizeBytes;
         pv_max_proof_size_bytes := MaxProofSizeBytes;
         pv_max_verification_latency_ms := MaxVerificationLatencyMs |}, miner, validator).

Definition validate_submission s (submission : InferenceProofSubmission)
    (validator_operator miner_operator : AccountId) (assignment_blinding : Commitment) :
    dresult ProofVerificationPolicy :=
  r <-? validate_submission_for_request s submission assignment_blinding;
  let '(policy, miner, validator) := r in
  try! ensure_miner_operator miner miner_operator;
  try! ensure_validator_submission_operator validator validator_operator;
  Ok policy.

Definition validate_challenge_submission s (submission : InferenceProofSubmission)
    (miner_operator : AccountId) (assignment_blinding : Commitment) :
    dresult ProofVerificationPolicy :=
  r <-? validate_submission_for_request s submission assignment_blinding;
  let '(policy, miner, _) := r in
  try! ensure_miner_operator miner miner_operator;
  Ok policy.

Definition ensure_rejected_request_witnesses (request : ChainInferenceRequest)
    (submission : InferenceProofSubmission) (request_user : AccountId)
    (assignment_blinding : Commitment) (terms_witness : InferenceRequestTermsWitness) :
    dresult unit :=
  try! ensureE (is_pending request) Error_RequestAlreadySettled;
  try! ensureE (request_matches request submission) Error_RequestMismatch;
  try! ensure_request_assignment_witness request (miner_id submission)
         (validator_id submission) assignment_blinding;
  try! ensure_request_user request request_user;
  ensure_request_terms_witness request terms_witness.

Definition ensure_inference_refund_can_record (payment : Z) : dresult unit := Ok tt.

Definition ensure_rejected_request_refundable s (submission : InferenceProofSubmission)
    (request_user : AccountId) (assignment_blinding : Commitment)
    (terms_witness : InferenceRequestTermsWitness) : dresult unit :=
  request <-? ok_orE (InferenceRequests s !! request_id submission) Error_UnknownRequest;
  try! ensure_rejected_request_witnesses request submission request_user
         assignment_blinding terms_witness;
  ensure_inference_refund_can_record (terms_payment (terms terms_witness)).

Definition slash_bps_in_range (slash_bps : Z) : bool :=
  (MinInvalidProofSlashBps <=? slash_bps) && (slash_bps <=? MaxInvalidProofSlashBps).

End Guards.
