(* ===== verification/PalletRouting.v ===== *)
(** * The Qubitum pallet: routing

    The deterministic assignment of a miner and a validator to a request
    ([route_assignment], [route_active_validator]), the derived lists of route-eligible
    participants, and the capacity checks on them.

    The runtime is compiled for wasm32, so [usize] has 32 bits here. *)

From S2P Require Import Prelude Protocol PostQuantum Pallet PalletGuards.
From stdpp Require Import base tactics list gmap strings sorting list_numbers.
From Stdlib Require Import ZArith Lia.
Open Scope Z_scope.

Definition usize_bits : Z := 32.

(** ** Searching from a start position

    [for offset in 0..ids.len() { let target = (start + offset) % ids.len(); .. }]: the
    body looks at one id and either continues or returns from the enclosing function.
    The additions, the remainder and the lookup are the ones the code guards with
    [?]. *)
Inductive flow (A : Type) : Type :=
| Continue
| Return (o : option A).
Arguments Continue {A}.
Arguments Return {A} o.

Definition rotated_id (ids : list Z) (start offset : Z) : option Z :=
  and_then (checked_add usize_bits start offset) (fun sum =>
  and_then (checked_rem sum (Z.of_nat (length ids))) (fun target =>
  ids !! Z.to_nat target)).

Fixpoint for_rotated {A} (ids : list Z) (start : Z) (body : Z -> flow A)
    (offsets : list Z) : option A :=
  match offsets with
  | [] => None
  | offset :: rest =>
      and_then (rotated_id ids start offset) (fun id =>
      match body id with
      | Return o => o
      | Continue => for_rotated ids start body rest
      end)
  end.

Section Routing.
Context {C : Type} `{CC : !Currency C} `{T : !Config} `{HH : !Hashing}.
Implicit Types s : Store C.

Definition miner_is_route_eligible s (miner_id : Z) (miner : ChainMiner) : bool :=
  is_active (cm_status miner)
  && miner_has_active_locked_bond_record s miner_id
  && is_ok (ensure_miner_signature_bundle_bound s miner_id miner).

Definition validator_is_route_eligible s (validator_id : Z) (validator : ChainValidator) :
    bool :=
  is_active (cv_status validator)
  && validator_has_active_locked_stake_record s validator_id
  && is_ok (ensure_validator_signature_bundle_bound s validator_id validator).

Definition active_miner_route_ids s (subnet_id : Z) : list Z :=
  merge_sort Z.le
    (map fst (List.filter (fun '(miner_id, miner) =>
       (cm_subnet_id miner =? subnet_id) && miner_is_route_eligible s miner_id miner)
       (miner_records s))).

Definition active_validator_route_ids s (subnet_id : Z) : list Z :=
  merge_sort Z.le
    (map fst (List.filter (fun '(validator_id, validator) =>
       (cv_subnet_id validator =? subnet_id)
       && validator_is_route_eligible s validator_id validator)
       (validator_records s))).

(** [ids.len() as u32] *)
Definition len_u32 (ids : list Z) : Z := Z.of_nat (length ids) mod 2 ^ 32.

Definition ensure_route_capacity (ids : list Z) (candidate : option Z) (max : Z)
    (error : Error) : dresult unit :=
  let count := len_u32 ids in
  let already_included :=
    match candidate with Some c => bool_decide (c ∈ ids) | None => false end in
  if already_included then ensureE (count <=? max) error else ensureE (count <? max) error.

Definition ensure_active_miner_capacity s (subnet_id : Z) (candidate : option Z) :
    dresult unit :=
  ensure_route_capacity (active_miner_route_ids s subnet_id) candidate
    MaxActiveMinersPerSubnet Error_TooManyActiveMiners.

Definition ensure_active_validator_capacity s (subnet_id : Z) (candidate : option Z) :
    dresult unit :=
  ensure_route_capacity (active_validator_route_ids s subnet_id) candidate
    MaxActiveValidatorsPerSubnet Error_TooManyActiveValidators.

Definition insert_active_miner s (subnet_id miner_id : Z) : dresult unit :=
  ensure_active_miner_capacity s subnet_id (Some miner_id).

Definition insert_active_validator s (subnet_id validator_id : Z) : dresult unit :=
  ensure_active_validator_capacity s subnet_id (Some validator_id).

Definition remove_active_miner (subnet_id miner_id : Z) s : Store C := s.

Definition remove_active_validator (subnet_id validator_id : Z) s : Store C := s.

Definition route_seed (domain : string) (request_id subnet_id : Z)
    (assignment_blinding : Commitment) : Z :=
  let digest := commit (Pre_route_seed domain request_id subnet_id assignment_blinding) in
  from_le_bytes (take 8 digest).

Definition route_index (seed : Z) (len : nat) : option Z :=
  and_then (try_from_uint 64 (Z.of_nat len)) (fun count =>
  and_then (checked_rem seed count) (try_from_uint usize_bits)).

Definition route_validator_body s (subnet_id : Z) (miner_operator_commitment : Commitment)
    (validator_id : Z) : flow Z :=
  match Validators s !! validator_id with
  | None => Continue
  | Some validator =>
      if (cv_subnet_id validator =? subnet_id)
         && is_active (cv_status validator)
         && validator_has_active_locked_stake_record s validator_id
         && negb (bool_decide (cv_operator_commitment validator = miner_operator_commitment))
         && is_ok (ensure_validator_signature_bundle_bound s validator_id validator)
      then Return (Some validator_id) else Continue
  end.

Definition route_active_validator s (subnet_id seed : Z)
    (miner_operator_commitment : Commitment) : option Z :=
  let ids := active_validator_route_ids s subnet_id in
  if bool_decide (ids = []) then None else
  and_then (route_index seed (length ids)) (fun start =>
  for_rotated ids start (route_validator_body s subnet_id miner_operator_commitment)
    (seqZ 0 (Z.of_nat (length ids)))).

Definition route_miner_body s (subnet_id request_id validator_seed miner_id : Z) :
    flow ChainAssignment :=
  match Miners s !! miner_id with
  | None => Continue
  | Some miner =>
      if negb (cm_subnet_id miner =? subnet_id)
         || negb (is_active (cm_status miner))
         || negb (miner_has_active_locked_bond_record s miner_id)
         || negb (is_ok (ensure_miner_signature_bundle_bound s miner_id miner))
      then Continue else
      match route_active_validator s subnet_id validator_seed (cm_operator_commitment miner)
      with
      | None => Continue
      | Some validator_id =>
          match Validators s !! validator_id with
          | None => Continue
          | Some validator =>
              if is_ok (ensure_distinct_operators miner validator)
              then Return (Some {| as_request_id := request_id; as_subnet_id := subnet_id;
                                   as_miner_id := miner_id; as_validator_id := validator_id |})
              else Return None
          end
      end
  end.

Definition route_assignment s (subnet_id request_id : Z) (assignment_blinding : Commitment) :
    option ChainAssignment :=
  and_then (Subnets s !! subnet_id) (fun subnet =>
  if negb (cs_active subnet) then None else
  let miner_ids := active_miner_route_ids s subnet_id in
  if bool_decide (miner_ids = []) then None else
  let miner_seed := route_seed "qubitum.route.miner.v1" request_id subnet_id
                      assignment_blinding in
  and_then (route_index miner_seed (length miner_ids)) (fun miner_start =>
  let validator_seed := route_seed "qubitum.route.validator.v1" request_id subnet_id
                          assignment_blinding in
  for_rotated miner_ids miner_start
    (route_miner_body s subnet_id request_id validator_seed)
    (seqZ 0 (Z.of_nat (length miner_ids))))).

End Routing.

(** ** The rotated search visits every id once *)

Section Rotation.
Context {A : Type}.

Definition rotation (ids : list Z) (start : Z) : list Z :=
  drop (Z.to_nat start) ids ++ take (Z.to_nat start) ids.

Lemma rotated_id_eq ids start k :
  0 <= start < Z.of_nat (length ids) -> 0 <= k < Z.of_nat (length ids) ->
  Z.of_nat (length ids) < 2 ^ 31 ->
  rotated_id ids start k = rotation ids start !! Z.to_nat k.
Proof.
  intros Hs Hk Hl. unfold rotated_id, rotation, checked_add, checked_rem, usize_bits.
  rewrite (proj2 (Z.ltb_lt _ _)) by lia. simpl.
  rewrite (proj2 (Z.eqb_neq _ _)) by lia. simpl.
  destruct (decide (start + k < Z.of_nat (length ids))).
  - rewrite Z.mod_small by lia.
    rewrite lookup_app_l by (rewrite length_drop; lia).
    rewrite lookup_drop. f_equal. lia.
  - rewrite lookup_app_r by (rewrite length_drop; lia). rewrite length_drop.
    assert (Hm : (start + k) mod Z.of_nat (length ids) = start + k - Z.of_nat (length ids)).
    { symmetry. apply (Z.mod_unique_pos _ _ 1); lia. }
    rewrite Hm, lookup_take_lt by lia. f_equal. lia.
Qed.

(** The first id of the list the body returns at. *)
Fixpoint first_return (body : Z -> flow A) (ids : list Z) : option A :=
  match ids with
  | [] => None
  | id :: rest => match body id with Return o => o | Continue => first_return body rest end
  end.

Lemma for_rotated_first_return ids start body :
  0 <= start < Z.of_nat (length ids) -> Z.of_nat (length ids) < 2 ^ 31 ->
  for_rotated ids start body (seqZ 0 (Z.of_nat (length ids)))
  = first_return body (rotation ids start).
Proof.
  intros Hs Hl.
  assert (Hlen : length (rotation ids start) = length ids).
  { unfold rotation. rewrite length_app, length_drop, length_take. lia. }
  assert (Hgen : forall n k, Z.of_nat n + k = Z.of_nat (length ids) -> 0 <= k ->
    for_rotated ids start body (seqZ k (Z.of_nat n))
    = first_return body (drop (Z.to_nat k) (rotation ids start))).
  { induction n as [|n IH]; intros k Hn Hk.
    - rewrite drop_ge by lia. done.
    - rewrite seqZ_cons by lia.
      replace (Z.pred (Z.of_nat (S n))) with (Z.of_nat n) by lia. simpl. rewrite rotated_id_eq by lia.
      destruct (lookup_lt_is_Some_2 (rotation ids start) (Z.to_nat k)) as [id Hid]; [lia|].
      rewrite Hid. simpl. rewrite (drop_S _ _ _ Hid). simpl.
      destruct (body id); [|done].
      rewrite IH by lia. do 2 f_equal. lia. }
  rewrite Hgen by lia. done.
Qed.

(** When the body never returns [None], the search finds something iff one of the ids
    is accepted. *)
Lemma first_return_Some body ids a :
  first_return body ids = Some a -> exists id, id ∈ ids /\ body id = Return (Some a).
Proof.
  induction ids as [|id ids IH]; simpl; [done|]. destruct (body id) as [|o] eqn:Hb.
  - intros (id' & Hin & H)%IH. exists id'. split; [by right|done].
  - intros ->. exists id. split; [left|done].
Qed.

Lemma first_return_None body ids :
  (forall id, id ∈ ids -> body id <> Return None) ->
  first_return body ids = None -> forall id, id ∈ ids -> body id = Continue.
Proof.
  induction ids as [|id ids IH]; simpl; intros Hn H id' Hin; [by apply not_elem_of_nil in Hin|].
  destruct (body id) as [|o] eqn:Hb; [|subst; by destruct (Hn id ltac:(left))].
  apply elem_of_cons in Hin as [->|Hin]; [done|].
  apply IH; [|done|done]. intros id0 Hin0. apply Hn. by right.
Qed.

Lemma elem_of_rotation ids start id :
  id ∈ rotation ids start <-> id ∈ ids.
Proof.
  transitivity (id ∈ take (Z.to_nat start) ids ++ drop (Z.to_nat start) ids);
    [unfold rotation; rewrite !elem_of_app; tauto | by rewrite take_drop].
Qed.

End Rotation.

(** ** Eligible participants *)

Section Eligibility.
Context {C : Type} `{CC : !Currency C} `{T : !Config} `{HH : !Hashing}.
Implicit Types s : Store C.

(** A registered miner that requests of the subnet may be routed to. *)
Definition eligible_miner s (subnet_id id : Z) (m : ChainMiner) : Prop :=
  0 <= id < MinerCount s /\ Miners s !! id = Some m /\ cm_subnet_id m = subnet_id
  /\ miner_is_route_eligible s id m = true.

Definition eligible_validator s (subnet_id id : Z) (v : ChainValidator) : Prop :=
  0 <= id < ValidatorCount s /\ Validators s !! id = Some v /\ cv_subnet_id v = subnet_id
  /\ validator_is_route_eligible s id v = true.

Lemma elem_of_miner_records s id m :
  (id, m) ∈ miner_records s <-> 0 <= id < MinerCount s /\ Miners s !! id = Some m.
Proof.
  unfold miner_records. rewrite list_elem_of_omap. split.
  - intros (id' & Hin & Hm). apply elem_of_seqZ in Hin.
    destruct (Miners s !! id') eqn:E; simplify_eq/=. split; [lia|done].
  - intros [Hr Hm]. exists id. rewrite elem_of_seqZ, Hm. split; [lia|done].
Qed.

Lemma elem_of_validator_records s id v :
  (id, v) ∈ validator_records s
  <-> 0 <= id < ValidatorCount s /\ Validators s !! id = Some v.
Proof.
  unfold validator_records. rewrite list_elem_of_omap. split.
  - intros (id' & Hin & Hv). apply elem_of_seqZ in Hin.
    destruct (Validators s !! id') eqn:E; simplify_eq/=. split; [lia|done].
  - intros [Hr Hv]. exists id. rewrite elem_of_seqZ, Hv. split; [lia|done].
Qed.

Lemma elem_of_sorted_filter {R} (f : Z * R -> bool) (l : list (Z * R)) id :
  id ∈ merge_sort Z.le (map fst (List.filter f l)) <-> exists r, (id, r) ∈ l /\ f (id, r) = true.
Proof.
  rewrite merge_sort_Permutation, list_elem_of_In, in_map_iff. split.
  - intros ([id' r] & <- & [Hin Hf]%filter_In). exists r. by rewrite list_elem_of_In.
  - intros (r & Hin & Hf). exists (id, r). split; [done|]. apply filter_In.
    by rewrite <- list_elem_of_In.
Qed.

Lemma elem_of_active_miner_route_ids s n id :
  id ∈ active_miner_route_ids s n <-> exists m, eligible_miner s n id m.
Proof.
  unfold active_miner_route_ids, eligible_miner. rewrite elem_of_sorted_filter.
  apply exist_proper. intros m. rewrite elem_of_miner_records, andb_true_iff, Z.eqb_eq.
  tauto.
Qed.

Lemma elem_of_active_validator_route_ids s n id :
  id ∈ active_validator_route_ids s n <-> exists v, eligible_validator s n id v.
Proof.
  unfold active_validator_route_ids, eligible_validator. rewrite elem_of_sorted_filter.
  apply exist_proper. intros v. rewrite elem_of_validator_records, andb_true_iff, Z.eqb_eq.
  tauto.
Qed.

Lemma omap_fst_NoDup {R} (g : Z -> option R) (l : list Z) :
  NoDup l -> NoDup (map fst (omap (fun id => r ← g id; Some (id, r)) l)).
Proof.
  induction 1 as [|x l Hx Hl IH]; csimpl; [constructor|].
  destruct (g x); csimpl; [|done]. constructor; [|done].
  intros ([x' r'] & -> & Hin)%list_elem_of_fmap. apply list_elem_of_omap in Hin as (y & Hy & Hg).
  destruct (g y); by simplify_eq/=.
Qed.

Lemma sorted_filter_NoDup {R} (f : Z * R -> bool) (l : list (Z * R)) :
  NoDup (map fst l) -> NoDup (merge_sort Z.le (map fst (List.filter f l))).
Proof.
  intros Hl. rewrite merge_sort_Permutation. induction l as [|[id r] l IH]; csimpl; [constructor|].
  csimpl in Hl. apply NoDup_cons in Hl as [Hid Hl]. destruct (f (id, r)); [|auto].
  csimpl. constructor; [|auto].
  intros ([id' r'] & -> & Hin)%list_elem_of_fmap. apply Hid. simpl.
  apply list_elem_of_fmap. exists (id', r'). split; [done|].
  apply list_elem_of_In, filter_In in Hin as [Hin _]. by apply list_elem_of_In.
Qed.

Lemma active_miner_route_ids_NoDup s n : NoDup (active_miner_route_ids s n).
Proof. apply sorted_filter_NoDup, omap_fst_NoDup, NoDup_seqZ. Qed.

Lemma active_validator_route_ids_NoDup s n : NoDup (active_validator_route_ids s n).
Proof. apply sorted_filter_NoDup, omap_fst_NoDup, NoDup_seqZ. Qed.

End Eligibility.

(** ** Correctness of the assignment *)

Lemma route_index_Some seed len :
  (0 < len)%nat -> Z.of_nat len < 2 ^ 31 ->
  exists start, route_index seed len = Some start /\ 0 <= start < Z.of_nat len.
Proof.
  intros Hpos Hl. pose proof (Z.mod_pos_bound seed (Z.of_nat len) ltac:(lia)).
  exists (seed mod Z.of_nat len). split; [|lia].
  unfold route_index, try_from_uint, checked_rem, usize_bits.
  rewrite (proj2 (Z.ltb_lt _ _)) by lia. simpl.
  rewrite (proj2 (Z.eqb_neq _ _)) by lia. simpl.
  by rewrite (proj2 (Z.ltb_lt _ _)) by lia.
Qed.

Lemma nonempty_length {A} (l : list A) : l <> [] -> (0 < length l)%nat.
Proof. destruct l; simpl; [done|lia]. Qed.

Section Assignment.
Context {C : Type} `{CC : !Currency C} `{T : !Config} `{HH : !Hashing}.
Context (s : Store C) (n : Z).
Hypothesis Hminers : Z.of_nat (length (active_miner_route_ids s n)) < 2 ^ 31.
Hypothesis Hvalidators : Z.of_nat (length (active_validator_route_ids s n)) < 2 ^ 31.

(** An eligible miner and an eligible validator under different operators. *)
Definition routable (m v : Z) : Prop :=
  exists mr vr, eligible_miner s n m mr /\ eligible_validator s n v vr
    /\ cm_operator_commitment mr <> cv_operator_commitment vr.

Lemma route_validator_body_Return opc id o :
  route_validator_body s n opc id = Return o ->
  o = Some id /\ exists v, Validators s !! id = Some v /\ cv_operator_commitment v <> opc.
Proof.
  unfold route_validator_body. destruct (Validators s !! id) as [v|] eqn:Hv; [|done].
  destruct (_ && _) eqn:Hc; [|done]. intros [= <-]. boolprop.
  destruct Hc as ((_ & Hopc) & _). by eauto.
Qed.

Lemma route_validator_body_Continue opc id v :
  eligible_validator s n id v -> route_validator_body s n opc id = Continue ->
  cv_operator_commitment v = opc.
Proof.
  intros (_ & Hv & Hn & He). unfold route_validator_body, validator_is_route_eligible in *.
  rewrite Hv. boolprop. destruct He as [[-> ->] ->]. rewrite Hn, Z.eqb_refl. simpl.
  by case_bool_decide.
Qed.

Lemma route_active_validator_spec seed opc :
  match route_active_validator s n seed opc with
  | Some id => exists v, eligible_validator s n id v /\ cv_operator_commitment v <> opc
  | None => forall id v, eligible_validator s n id v -> cv_operator_commitment v = opc
  end.
Proof.
  unfold route_active_validator. case_bool_decide as Hnil.
  { intros id v He. assert (id ∈ active_validator_route_ids s n) as Hin
      by (apply elem_of_active_validator_route_ids; eauto).
    rewrite Hnil in Hin. by apply not_elem_of_nil in Hin. }
  destruct (route_index_Some seed _ (nonempty_length _ Hnil) Hvalidators)
    as (start & -> & Hst). simpl. rewrite for_rotated_first_return by done.
  destruct (first_return _ _) as [id|] eqn:Hf.
  - apply first_return_Some in Hf as (id' & Hin & Hb).
    apply route_validator_body_Return in Hb as ([= ->] & v & Hv & Ho).
    apply elem_of_rotation, elem_of_active_validator_route_ids in Hin as (v' & He).
    destruct He as (? & Hv' & ?). simplify_eq. by exists v'.
  - intros id v He. apply (route_validator_body_Continue _ id v); [done|].
    eapply first_return_None; [|exact Hf|].
    + intros id' _ [? _]%route_validator_body_Return. done.
    + apply elem_of_rotation, elem_of_active_validator_route_ids. eauto.
Qed.

Lemma route_miner_body_Return r seed id o :
  route_miner_body s n r seed id = Return o ->
  exists v, o = Some {| as_request_id := r; as_subnet_id := n; as_miner_id := id;
                        as_validator_id := v |} /\ routable id v \/ ~ 0 <= id < MinerCount s.
Proof.
  unfold route_miner_body. destruct (Miners s !! id) as [m|] eqn:Hm; [|done].
  destruct (_ || _) eqn:Hc; [done|]. boolprop. destruct Hc as [[[Hn Ha] Hb] Hs].
  pose proof (route_active_validator_spec seed (cm_operator_commitment m)) as Hv.
  destruct (route_active_validator _ _ _ _) as [v|]; [|done].
  destruct Hv as (vr & He & Hop). pose proof He as (_ & -> & _).
  unfold ensure_distinct_operators. rewrite bool_decide_eq_false_2 by done. simpl.
  intros [= <-]. exists v.
  destruct (decide (0 <= id < MinerCount s)) as [Hr|Hr]; [left; split; [done|]|by right].
  exists m, vr. split; [|done]. unfold eligible_miner, miner_is_route_eligible.
  by rewrite Ha, Hb, Hs.
Qed.

Lemma route_miner_body_Continue r seed id v :
  route_miner_body s n r seed id = Continue -> ~ routable id v.
Proof.
  intros Hb (m & vr & (_ & Hm & Hn & He) & Hv & Hop). revert Hb.
  unfold route_miner_body, miner_is_route_eligible in *. rewrite Hm. boolprop.
  destruct He as [[-> ->] ->]. rewrite Hn, Z.eqb_refl. simpl.
  pose proof (route_active_validator_spec seed (cm_operator_commitment m)) as Hspec.
  destruct (route_active_validator _ _ _ _) as [v'|]; [|by rewrite (Hspec _ _ Hv) in Hop].
  destruct Hspec as (v'' & (_ & -> & _) & _). by destruct (is_ok _).
Qed.

Lemma route_assignment_cases r b :
  match route_assignment s n r b with
  | Some a => as_request_id a = r /\ as_subnet_id a = n
      /\ (exists sub, Subnets s !! n = Some sub /\ cs_active sub = true)
      /\ routable (as_miner_id a) (as_validator_id a)
  | None => (forall sub, Subnets s !! n = Some sub -> cs_active sub = false)
      \/ forall m v, ~ routable m v
  end.
Proof.
  unfold route_assignment. destruct (Subnets s !! n) as [sub|] eqn:Hsub; simpl; [|by left].
  destruct (cs_active sub) eqn:Hact; simpl; [|by left; intros ? [= <-]].
  case_bool_decide as Hnil.
  { right. intros m v (mr & vr & He & _). assert (m ∈ active_miner_route_ids s n) as Hin
      by (apply elem_of_active_miner_route_ids; eauto).
    rewrite Hnil in Hin. by apply not_elem_of_nil in Hin. }
  destruct (route_index_Some (route_seed "qubitum.route.miner.v1" r n b) _
    (nonempty_length _ Hnil) Hminers) as (start & -> & Hst). simpl.
  rewrite for_rotated_first_return by done. destruct (first_return _ _) as [a|] eqn:Hf.
  - apply first_return_Some in Hf as (id & Hin & Hb).
    apply elem_of_rotation, elem_of_active_miner_route_ids in Hin as (m & Hid & _).
    apply route_miner_body_Return in Hb as (v & [[[= ->] Hr]|Hr]); [|done]. simpl. eauto 10.
  - right. intros m v Hr. eapply route_miner_body_Continue; [|exact Hr].
    eapply first_return_None; [|exact Hf|].
    + intros id Hin Hb.
      apply elem_of_rotation, elem_of_active_miner_route_ids in Hin as (mr & Hid & _).
      apply route_miner_body_Return in Hb as (v' & [[? _]|?]); done.
    + apply elem_of_rotation, elem_of_active_miner_route_ids.
      destruct Hr as (mr & _ & He & _). eauto.
Qed.

End Assignment.
