(* ===== verification/PalletCalls.v ===== *)
(** * The Qubitum pallet: dispatchables

    The functions of [pallets/qubitum/src/lib.rs] that write storage, and the nineteen
    calls of the pallet.  A call runs in a transactional storage layer: [dispatch]
    keeps the store it started from when the call returns an error. *)

From S2P Require Import Prelude Protocol PostQuantum Pallet PalletGuards PalletRouting.
From stdpp Require Import base tactics list gmap strings list_numbers.
From Stdlib Require Import ZArith Lia.
Open Scope Z_scope.

Section Calls.
Context {C : Type} `{CC : !Currency C} `{T : !Config} `{HH : !Hashing}.
Implicit Types s : Store C.

Abbreviation errE e := (fail (DispatchError_Module e)).

(** ** Storage access *)

(** A call of the currency that returns nothing, and one that returns an amount. *)
Definition currency_do (f : C -> dresult C) : pact C unit := fun s =>
  match f (currency_state s) with
  | Ok c => Ok (tt, s <| currency_state := c |>)
  | Err e => Err e
  end.

Definition currency_get (f : C -> dresult (Z * C)) : pact C Z := fun s =>
  match f (currency_state s) with
  | Ok (x, c) => Ok (x, s <| currency_state := c |>)
  | Err e => Err e
  end.

(** [StorageMap::try_mutate(key, f)]: the closure works on a copy of the entry, which
    is written back when the closure succeeds; reads of the map inside the closure see
    the entry that is still stored. *)
Definition try_mutate {V A} (lookup : Store C -> option V)
    (write : option V -> Store C -> Store C) (f : option V -> pact C (A * option V)) :
    pact C A :=
  maybe <-! asks lookup;
  r <-! f maybe;
  do! modify (write (snd r));
  ret (fst r).

Definition write_entry {V} (id : Z) (o : option V) (m : gmap Z V) : gmap Z V :=
  match o with Some v => <[id := v]> m | None => delete id m end.

Definition Miners_try_mutate {A} (miner_id : Z)
    (f : option ChainMiner -> pact C (A * option ChainMiner)) : pact C A :=
  try_mutate (fun s => Miners s !! miner_id)
    (fun o s => s <| Miners ::= write_entry miner_id o |>) f.

Definition Validators_try_mutate {A} (validator_id : Z)
    (f : option ChainValidator -> pact C (A * option ChainValidator)) : pact C A :=
  try_mutate (fun s => Validators s !! validator_id)
    (fun o s => s <| Validators ::= write_entry validator_id o |>) f.

Definition InferenceRequests_try_mutate {A} (request_id : Z)
    (f : option ChainInferenceRequest -> pact C (A * option ChainInferenceRequest)) :
    pact C A :=
  try_mutate (fun s => InferenceRequests s !! request_id)
    (fun o s => s <| InferenceRequests ::= write_entry request_id o |>) f.

(** ** Events, identifiers and totals *)

Definition deposit_event (event : Event) : pact C unit :=
  modify (fun s => s <| events ::= fun l => l ++ [event] |>).

Fixpoint deposit_all (l : list Event) : pact C unit :=
  match l with
  | [] => ret tt
  | event :: rest => do! deposit_event event; deposit_all rest
  end.

Definition deposit_activity_events (l : list Event) : pact C unit :=
  if PrivateEventMetadata then deposit_event Event_PrivateActivity else deposit_all l.

Definition deposit_activity_event (event : Event) : pact C unit :=
  deposit_activity_events [event].

Definition next_subnet_id : pact C Z :=
  id <-! asks SubnetCount;
  next <-! check (fun _ => ok_orE (checked_add 16 id 1) Error_ArithmeticOverflow);
  do! modify (fun s => s <| SubnetCount := next |>);
  ret id.

Definition next_miner_id : pact C Z :=
  id <-! asks MinerCount;
  next <-! check (fun _ => ok_orE (checked_add 64 id 1) Error_ArithmeticOverflow);
  do! modify (fun s => s <| MinerCount := next |>);
  ret id.

Definition next_validator_id : pact C Z :=
  id <-! asks ValidatorCount;
  next <-! check (fun _ => ok_orE (checked_add 64 id 1) Error_ArithmeticOverflow);
  do! modify (fun s => s <| ValidatorCount := next |>);
  ret id.

Definition ensure_next_request_id (request_id : Z) : pact C unit :=
  next <-! check (fun s => ensure_request_id_can_advance s request_id);
  modify (fun s => s <| RequestCount := next |>).

Definition clear_inference_accounting_totals : pact C unit :=
  modify (fun s => s <| TotalInferenceEscrowed := 0 |> <| TotalMinerPayouts := 0 |>
                     <| TotalValidatorFees := 0 |> <| TotalTreasuryFees := 0 |>
                     <| TotalInferenceRefunded := 0 |>).

Definition clear_burned_total : pact C unit := modify (fun s => s <| TotalBurned := 0 |>).

Definition record_inference_escrow (payment : Z) : pact C unit :=
  clear_inference_accounting_totals.

Definition record_inference_settlement (miner_payment validator_fee treasury_fee : Z) :
    pact C unit :=
  clear_inference_accounting_totals.

Definition record_inference_refund (payment : Z) : pact C unit :=
  clear_inference_accounting_totals.

Definition record_burned (amount : Z) : pact C unit := clear_burned_total.

Definition ensure_inference_escrow_can_record (payment : Z) : dresult unit := Ok tt.

Definition ensure_inference_settlement_can_record
    (miner_payment validator_fee treasury_fee : Z) : dresult unit := Ok tt.

Definition ensure_burned_can_record (amount : Z) : dresult unit := Ok tt.

(** ** Pending assignments and status counters *)

(** [PendingMinerRequests::try_mutate(id, |count| *count = count.checked_add(1)?)] on a
    map with [ValueQuery]. *)
Definition increment_count (id : Z) (m : gmap Z Z) : dresult (gmap Z Z) :=
  next <-? ok_orE (checked_add 64 (default 0 (m !! id)) 1) Error_ArithmeticOverflow;
  Ok (<[id := next]> m).

(** [try_mutate_exists]: the entry is removed when the count reaches zero. *)
Definition decrement_count (id : Z) (m : gmap Z Z) : dresult (gmap Z Z) :=
  count <-? ok_orE (m !! id) Error_PendingAssignmentUnderflow;
  next <-? ok_orE (checked_sub count 1) Error_PendingAssignmentUnderflow;
  Ok (if next =? 0 then delete id m else <[id := next]> m).

Definition increment_pending_assignment (miner_id validator_id : Z) : pact C unit :=
  pm <-! check (fun s => increment_count miner_id (PendingMinerRequests s));
  do! modify (fun s => s <| PendingMinerRequests := pm |>);
  pv <-! check (fun s => increment_count validator_id (PendingValidatorRequests s));
  modify (fun s => s <| PendingValidatorRequests := pv |>).

Definition decrement_pending_assignment (miner_id validator_id : Z) : pact C unit :=
  pm <-! check (fun s => decrement_count miner_id (PendingMinerRequests s));
  do! modify (fun s => s <| PendingMinerRequests := pm |>);
  pv <-! check (fun s => decrement_count validator_id (PendingValidatorRequests s));
  modify (fun s => s <| PendingValidatorRequests := pv |>).

Definition increment_request_count (count : Z) : dresult Z :=
  ok_orE (checked_add 64 count 1) Error_ArithmeticOverflow.

Definition decrement_request_count (count : Z) : dresult Z :=
  ok_orE (checked_sub count 1) Error_RequestStatusCounterUnderflow.

Definition status_count (status : InferenceRequestStatus) s : Z :=
  match status with
  | InferenceRequestStatus_Pending => PendingInferenceRequestCount s
  | InferenceRequestStatus_Settled => SettledInferenceRequestCount s
  | InferenceRequestStatus_Cancelled => CancelledInferenceRequestCount s
  | InferenceRequestStatus_Rejected => RejectedInferenceRequestCount s
  | InferenceRequestStatus_Expired => ExpiredInferenceRequestCount s
  end.

Definition put_status_count (status : InferenceRequestStatus) (count : Z) s : Store C :=
  match status with
  | InferenceRequestStatus_Pending => s <| PendingInferenceRequestCount := count |>
  | InferenceRequestStatus_Settled => s <| SettledInferenceRequestCount := count |>
  | InferenceRequestStatus_Cancelled => s <| CancelledInferenceRequestCount := count |>
  | InferenceRequestStatus_Rejected => s <| RejectedInferenceRequestCount := count |>
  | InferenceRequestStatus_Expired => s <| ExpiredInferenceRequestCount := count |>
  end.

Definition increment_request_status_count (status : InferenceRequestStatus) : pact C unit :=
  next <-! check (fun s => increment_request_count (status_count status s));
  modify (put_status_count status next).

Definition decrement_request_status_count (status : InferenceRequestStatus) : pact C unit :=
  next <-! check (fun s => decrement_request_count (status_count status s));
  modify (put_status_count status next).

Definition transition_request_status (from to : InferenceRequestStatus) : pact C unit :=
  if bool_decide (from = to) then ret tt else
  do! decrement_request_status_count from;
  increment_request_status_count to.

(** ** Burning and slashing *)

Definition burn_free (who : AccountId) (amount : Z) : pact C unit :=
  do! check (fun _ => ensure_burned_can_record amount);
  burned <-! currency_get (burn_from who amount);
  record_burned burned.

(** [miner.status = status; miner.bond_commitment = miner_bond_commitment(..)] *)
Definition with_miner_status (miner_id : Z) (status : RegistryStatus) (miner : ChainMiner) :
    ChainMiner :=
  miner <| cm_status := status |>
    <| cm_bond_commitment :=
         miner_bond_commitment miner_id (cm_operator_commitment miner) status |>.

Definition with_validator_status (validator_id : Z) (status : RegistryStatus)
    (validator : ChainValidator) : ChainValidator :=
  validator <| cv_status := status |>
    <| cv_stake_commitment :=
         validator_stake_commitment validator_id (cv_operator_commitment validator) status |>.

Definition is_exiting (status : RegistryStatus) : bool :=
  match status with RegistryStatus_Exiting _ => true | _ => false end.

Definition slash_miner_bond (miner_id : Z) (operator : AccountId) (slash_bps : Z) :
    pact C Z :=
  do! check (fun _ => ensureE (slash_bps_in_range slash_bps) Error_InvalidSlashPercent);
  amount <-! Miners_try_mutate miner_id (fun maybe_miner =>
    miner <-! check (fun _ => ok_orE maybe_miner Error_UnknownMiner);
    do! check (fun _ => ensure_miner_operator miner operator);
    current_bond <-! check (fun s => locked_miner_bond s miner_id operator);
    slash_amount <-! check (fun _ => PalletGuards.pro_rata current_bond slash_bps);
    do! check (fun _ => ensure_burned_can_record slash_amount);
    burned <-! currency_get (burn_held HoldReason_MinerBond operator slash_amount);
    remaining_bond <-! check (fun _ =>
      ok_orE (checked_sub current_bond burned) Error_ArithmeticOverflow);
    do! modify (fun s => s <| MinerLockedBond ::= <[miner_id := remaining_bond]> |>);
    let slashed := (remaining_bond <? MinMinerBond) && negb (is_exiting (cm_status miner)) in
    do! modify (fun s =>
      if slashed then remove_active_miner (cm_subnet_id miner) miner_id s else s);
    let status := if slashed then RegistryStatus_Slashed else cm_status miner in
    ret (burned, Some (with_miner_status miner_id status miner)));
  do! record_burned amount;
  ret amount.

Definition slash_validator_stake (validator_id : Z) (operator : AccountId) (slash_bps : Z) :
    pact C Z :=
  do! check (fun _ => ensureE (slash_bps_in_range slash_bps) Error_InvalidSlashPercent);
  amount <-! Validators_try_mutate validator_id (fun maybe_validator =>
    validator <-! check (fun _ => ok_orE maybe_validator Error_UnknownValidator);
    do! check (fun _ => ensure_validator_operator validator operator);
    current_stake <-! check (fun s => locked_validator_stake s validator_id operator);
    slash_amount <-! check (fun _ => PalletGuards.pro_rata current_stake slash_bps);
    do! check (fun _ => ensure_burned_can_record slash_amount);
    burned <-! currency_get (burn_held HoldReason_ValidatorStake operator slash_amount);
    remaining_stake <-! check (fun _ =>
      ok_orE (checked_sub current_stake burned) Error_ArithmeticOverflow);
    do! modify (fun s => s <| ValidatorLockedStake ::= <[validator_id := remaining_stake]> |>);
    let slashed :=
      (remaining_stake <? MinValidatorStake) && negb (is_exiting (cv_status validator)) in
    do! modify (fun s =>
      if slashed then remove_active_validator (cv_subnet_id validator) validator_id s else s);
    let status := if slashed then RegistryStatus_Slashed else cv_status validator in
    ret (burned, Some (with_validator_status validator_id status validator)));
  do! record_burned amount;
  ret amount.

(** ** Opening, settling and refunding requests *)

Definition open_inference_request_with_commitments (user : AccountId)
    (request_id subnet_id miner_id validator_id : Z)
    (input_commitment assignment_commitment terms_commitment timing_commitment : Commitment)
    (payment validator_fee_bps treasury_fee_bps : Z) : pact C unit :=
  do! check (fun s => ensure_request_assignment s subnet_id miner_id validator_id);
  do! ensure_next_request_id request_id;
  do! check (fun _ => ensure_inference_escrow_can_record payment);
  do! currency_do (hold HoldReason_InferencePayment user payment);
  do! increment_pending_assignment miner_id validator_id;
  do! increment_request_status_count InferenceRequestStatus_Pending;
  do! record_inference_escrow payment;
  do! modify (fun s => s <| InferenceRequests ::= <[request_id := {|
    rq_request_id := request_id; rq_user_commitment := request_user_commitment user;
    rq_subnet_id := subnet_id; rq_assignment_commitment := assignment_commitment;
    rq_input_commitment := input_commitment; rq_terms_commitment := terms_commitment;
    rq_timing_commitment := timing_commitment;
    rq_status := InferenceRequestStatus_Pending |}]> |>);
  deposit_activity_event Event_InferenceRequested.

Definition open_inference_request (user : AccountId)
    (request_id subnet_id miner_id validator_id : Z)
    (input_commitment assignment_blinding timing_blinding terms_blinding : Commitment)
    (payment validator_fee_bps treasury_fee_bps : Z) : pact C unit :=
  created_at <-! asks current_block;
  let assignment_commitment := request_assignment_commitment request_id subnet_id miner_id
                                 validator_id assignment_blinding in
  let terms_commitment := request_terms_commitment request_id payment validator_fee_bps
                            treasury_fee_bps terms_blinding in
  let timing_commitment := request_timing_commitment request_id created_at timing_blinding in
  open_inference_request_with_commitments user request_id subnet_id miner_id validator_id
    input_commitment assignment_commitment terms_commitment timing_commitment payment
    validator_fee_bps treasury_fee_bps.

Definition transfer_held_payment (source dest : AccountId) (amount : Z) : pact C unit :=
  if amount =? 0 then ret tt else
  currency_do (transfer_on_hold HoldReason_InferencePayment source dest amount).

Definition settle_request_payment (submission : InferenceProofSubmission)
    (request_user miner_operator validator_operator : AccountId)
    (assignment_blinding : Commitment) (terms_witness : InferenceRequestTermsWitness) :
    pact C (Z * Z * Z) :=
  InferenceRequests_try_mutate (request_id submission) (fun maybe_request =>
    request <-! check (fun _ => ok_orE maybe_request Error_UnknownRequest);
    do! check (fun _ => ensureE (is_pending request) Error_RequestAlreadySettled);
    do! check (fun _ => ensureE (request_matches request submission) Error_RequestMismatch);
    do! check (fun _ => ensure_request_assignment_witness request (miner_id submission)
                          (validator_id submission) assignment_blinding);
    do! check (fun _ => ensure_request_user request request_user);
    do! check (fun _ => ensure_request_terms_witness request terms_witness);
    let t := terms terms_witness in
    miner <-! check (fun s => ok_orE (Miners s !! miner_id submission) Error_UnknownMiner);
    validator <-! check (fun s =>
      ok_orE (Validators s !! validator_id submission) Error_UnknownValidator);
    do! check (fun _ => ensure_miner_operator miner miner_operator);
    do! check (fun _ => ensure_validator_operator validator validator_operator);
    split <-! check (fun _ => payment_split (terms_payment t) (terms_validator_fee_bps t)
                                (terms_treasury_fee_bps t));
    let '(miner_payment, validator_fee, treasury_fee) := split in
    do! check (fun _ =>
      ensure_inference_settlement_can_record miner_payment validator_fee treasury_fee);
    do! transfer_held_payment request_user miner_operator miner_payment;
    do! transfer_held_payment request_user validator_operator validator_fee;
    do! transfer_held_payment request_user ProtocolTreasury treasury_fee;
    let request := request <| rq_status := InferenceRequestStatus_Settled |> in
    do! decrement_pending_assignment (miner_id submission) (validator_id submission);
    do! transition_request_status InferenceRequestStatus_Pending
          InferenceRequestStatus_Settled;
    do! record_inference_settlement miner_payment validator_fee treasury_fee;
    ret ((miner_payment, validator_fee, treasury_fee), Some request)).

Definition refund_rejected_request (submission : InferenceProofSubmission)
    (request_user : AccountId) (assignment_blinding : Commitment)
    (terms_witness : InferenceRequestTermsWitness) : pact C Z :=
  InferenceRequests_try_mutate (request_id submission) (fun maybe_request =>
    request <-! check (fun _ => ok_orE maybe_request Error_UnknownRequest);
    do! check (fun _ => ensure_rejected_request_witnesses request submission request_user
                          assignment_blinding terms_witness);
    let payment := terms_payment (terms terms_witness) in
    do! check (fun _ => ensure_inference_refund_can_record payment);
    do! currency_do (release HoldReason_InferencePayment request_user payment);
    let request := request <| rq_status := InferenceRequestStatus_Rejected |> in
    do! decrement_pending_assignment (miner_id submission) (validator_id submission);
    do! transition_request_status InferenceRequestStatus_Pending
          InferenceRequestStatus_Rejected;
    do! record_inference_refund payment;
    ret (payment, Some request)).

(** ** Dispatchables *)

Definition create_subnet (origin : RuntimeOrigin) (domain : SubnetDomain)
    (proof_system : ProofSystem) : pact C unit :=
  owner <-! check (fun _ => ensure_payload_signer origin);
  do! check (fun _ => ensure_supported_proof_system proof_system);
  do! burn_free owner SubnetCreationBurn;
  subnet_id <-! next_subnet_id;
  let subnet := {|
    cs_id := subnet_id; cs_owner_commitment := subnet_owner_commitment owner;
    cs_domain := domain; cs_proof_system := proof_system;
    cs_policy_commitment := subnet_policy_commitment subnet_id domain proof_system;
    cs_active := true |} in
  do! modify (fun s => s <| Subnets ::= <[subnet_id := subnet]> |>);
  deposit_activity_event Event_SubnetCreated.

Definition register_miner (origin : RuntimeOrigin) (subnet_id : Z)
    (model_commitment : Commitment) (proof_system : ProofSystem) : pact C unit :=
  operator <-! check (fun _ => ensure_payload_signer origin);
  do! check (fun _ => ensure_commitment model_commitment);
  do! check (fun _ => ensure_supported_proof_system proof_system);
  subnet <-! check (fun s => ok_orE (Subnets s !! subnet_id) Error_UnknownSubnet);
  do! check (fun _ => ensureE (bool_decide (cs_proof_system subnet = proof_system))
                        Error_ProofSystemMismatch);
  do! burn_free operator MinerRegistrationBurn;
  miner_id <-! next_miner_id;
  let operator_commitment := operator_commitment operator in
  let status := RegistryStatus_Pending in
  let miner := {|
    cm_id := miner_id; cm_operator_commitment := operator_commitment;
    cm_subnet_id := subnet_id; cm_model_commitment := model_commitment;
    cm_proof_system := proof_system;
    cm_bond_commitment := miner_bond_commitment miner_id operator_commitment status;
    cm_status := status |} in
  do! modify (fun s => s <| Miners ::= <[miner_id := miner]> |>);
  deposit_activity_event Event_MinerRegistered.

Definition activate_miner (origin : RuntimeOrigin) (miner_id bond : Z) : pact C unit :=
  operator <-! check (fun _ => ensure_payload_signer origin);
  do! Miners_try_mutate miner_id (fun maybe_miner =>
    miner <-! check (fun _ => ok_orE maybe_miner Error_UnknownMiner);
    do! check (fun _ => ensure_miner_operator miner operator);
    do! check (fun _ => ensureE (bool_decide (cm_status miner = RegistryStatus_Pending))
                          Error_InvalidMinerStatus);
    do! check (fun s => ensureE (bool_decide (is_Some (Subnets s !! cm_subnet_id miner)))
                          Error_UnknownSubnet);
    do! check (fun _ => ensureE ((MinMinerBond <=? bond) && (bond <=? MaxMinerBond))
                          Error_InvalidBond);
    do! check (fun s => ensure_miner_signature_bundle_bound s miner_id miner);
    do! currency_do (hold HoldReason_MinerBond operator bond);
    do! check (fun s => insert_active_miner s (cm_subnet_id miner) miner_id);
    do! modify (fun s => s <| MinerLockedBond ::= <[miner_id := bond]> |>);
    ret (tt, Some (with_miner_status miner_id RegistryStatus_Active miner)));
  deposit_activity_event Event_MinerActivated.

Definition register_validator (origin : RuntimeOrigin) (subnet_id stake : Z) : pact C unit :=
  operator <-! check (fun _ => ensure_payload_signer origin);
  do! check (fun s => ensureE (bool_decide (is_Some (Subnets s !! subnet_id)))
                        Error_UnknownSubnet);
  do! check (fun _ => ensureE (MinValidatorStake <=? stake) Error_InvalidStake);
  validator_id <-! next_validator_id;
  do! check (fun s => ensure_active_validator_capacity s subnet_id None);
  do! currency_do (hold HoldReason_ValidatorStake operator stake);
  let operator_commitment := operator_commitment operator in
  let status := RegistryStatus_Pending in
  let validator := {|
    cv_id := validator_id; cv_operator_commitment := operator_commitment;
    cv_subnet_id := subnet_id;
    cv_stake_commitment :=
      validator_stake_commitment validator_id operator_commitment status;
    cv_status := status |} in
  do! modify (fun s => s <| Validators ::= <[validator_id := validator]> |>);
  do! modify (fun s => s <| ValidatorLockedStake ::= <[validator_id := stake]> |>);
  deposit_activity_event Event_ValidatorRegistered.

Definition submit_proof (origin : RuntimeOrigin) (submission : InferenceProofSubmission)
    (request_user miner_operator : AccountId) (assignment_blinding : Commitment)
    (terms_witness : InferenceRequestTermsWitness) : pact C unit :=
  validator_operator <-! check (fun _ => ensure_payload_signer origin);
  policy <-! check (fun s => validate_submission s submission validator_operator
                               miner_operator assignment_blinding);
  outcome <-! check (fun _ => proof_verify ProofVerifier submission policy);
  match outcome with
  | VerificationOutcome_Invalid slash_bps =>
      do! check (fun s => ensure_rejected_request_refundable s submission request_user
                            assignment_blinding terms_witness);
      do! slash_miner_bond (miner_id submission) miner_operator slash_bps;
      do! slash_validator_stake (validator_id submission) validator_operator slash_bps;
      do! refund_rejected_request submission request_user assignment_blinding terms_witness;
      deposit_activity_events [Event_MinerSlashed; Event_ValidatorSlashed;
                               Event_ProofRejected; Event_InferenceRefunded]
  | VerificationOutcome_Error => errE Error_VerifierError
  | VerificationOutcome_Valid =>
      assignment_commitment <-! check (fun s =>
        submission_assignment_commitment s submission assignment_blinding);
      accepted_at <-! asks current_block;
      let audit_commitment :=
        proof_audit_commitment_for_assignment submission accepted_at assignment_commitment in
      do! settle_request_payment submission request_user miner_operator validator_operator
            assignment_blinding terms_witness;
      do! modify (fun s => s <| ProofRecords ::= <[request_id submission := {|
        pr_request_id := request_id submission; pr_subnet_id := subnet_id submission;
        pr_assignment_commitment := assignment_commitment;
        pr_audit_commitment := audit_commitment;
        pr_proof_system := proof_system submission |}]> |>);
      deposit_activity_events [Event_ProofAccepted; Event_InferenceSettled]
  end.

Definition challenge_proof (origin : RuntimeOrigin) (submission : InferenceProofSubmission)
    (request_user miner_operator : AccountId) (assignment_blinding : Commitment)
    (terms_witness : InferenceRequestTermsWitness) : pact C unit :=
  do! check (fun _ => ensure_payload_signer origin);
  policy <-! check (fun s => validate_challenge_submission s submission miner_operator
                               assignment_blinding);
  outcome <-! check (fun _ => proof_verify ProofVerifier submission policy);
  match outcome with
  | VerificationOutcome_Invalid slash_bps =>
      do! check (fun s => ensure_rejected_request_refundable s submission request_user
                            assignment_blinding terms_witness);
      do! slash_miner_bond (miner_id submission) miner_operator slash_bps;
      do! refund_rejected_request submission request_user assignment_blinding terms_witness;
      deposit_activity_events [Event_MinerSlashed; Event_ProofRejected;
                               Event_ProofChallengeAccepted; Event_InferenceRefunded]
  | VerificationOutcome_Valid => errE Error_ChallengeProofValid
  | VerificationOutcome_Error => errE Error_VerifierError
  end.

Definition slash_miner (origin : RuntimeOrigin) (miner_id : Z) (operator : AccountId)
    (slash_bps : Z) : pact C unit :=
  do! check (fun _ => ensure_public_call_payload_allowed);
  do! check (fun _ => ensure_root origin);
  do! check (fun _ => ensureE (slash_bps_in_range slash_bps) Error_InvalidSlashPercent);
  do! check (fun s => ensureE (default 0 (PendingMinerRequests s !! miner_id) =? 0)
                        Error_PendingAssignedRequests);
  do! slash_miner_bond miner_id operator slash_bps;
  deposit_activity_event Event_MinerSlashed.

Definition slash_validator (origin : RuntimeOrigin) (validator_id : Z)
    (operator : AccountId) (slash_bps : Z) : pact C unit :=
  do! check (fun _ => ensure_public_call_payload_allowed);
  do! check (fun _ => ensure_root origin);
  do! check (fun _ => ensureE (slash_bps_in_range slash_bps) Error_InvalidSlashPercent);
  do! check (fun s => ensureE (default 0 (PendingValidatorRequests s !! validator_id) =? 0)
                        Error_PendingAssignedRequests);
  do! slash_validator_stake validator_id operator slash_bps;
  deposit_activity_event Event_ValidatorSlashed.

Definition request_inference_auto_route (origin : RuntimeOrigin) (request_id : Z)
    (params : AutoRouteInferenceRequestParams) : pact C unit :=
  user <-! check (fun _ => ensure_payload_signer origin);
  do! check (fun s => ensure_inference_request_openable s request_id (ar_subnet_id params)
    (ar_input_commitment params) (ar_assignment_blinding params)
    (ar_timing_blinding params) (ar_terms_blinding params) (ar_payment params)
    (ar_validator_fee_bps params) (ar_treasury_fee_bps params));
  do! check (fun s => ensure_request_id_can_advance s request_id);
  assignment <-! check (fun s =>
    ok_orE (route_assignment s (ar_subnet_id params) request_id
              (ar_assignment_blinding params)) Error_NoRouteAvailable);
  open_inference_request user request_id (ar_subnet_id params) (as_miner_id assignment)
    (as_validator_id assignment) (ar_input_commitment params)
    (ar_assignment_blinding params) (ar_timing_blinding params) (ar_terms_blinding params)
    (ar_payment params) (ar_validator_fee_bps params) (ar_treasury_fee_bps params).

Definition request_inference (origin : RuntimeOrigin) (request_id : Z)
    (params : InferenceRequestParams) : pact C unit :=
  user <-! check (fun _ => ensure_payload_signer origin);
  do! check (fun _ => ensureE ((ip_miner_id params =? 0) && (ip_validator_id params =? 0))
                        Error_RouteAssignmentMustBeHidden);
  do! check (fun s => ensure_inference_request_openable s request_id (ip_subnet_id params)
    (ip_input_commitment params) (ip_assignment_blinding params)
    (ip_timing_blinding params) (ip_terms_blinding params) (ip_payment params)
    (ip_validator_fee_bps params) (ip_treasury_fee_bps params));
  do! check (fun s => ensure_request_id_can_advance s request_id);
  assignment <-! check (fun s =>
    ok_orE (route_assignment s (ip_subnet_id params) request_id
              (ip_assignment_blinding params)) Error_NoRouteAvailable);
  open_inference_request user request_id (ip_subnet_id params) (as_miner_id assignment)
    (as_validator_id assignment) (ip_input_commitment params)
    (ip_assignment_blinding params) (ip_timing_blinding params) (ip_terms_blinding params)
    (ip_payment params) (ip_validator_fee_bps params) (ip_treasury_fee_bps params).

Definition request_inference_commitments (origin : RuntimeOrigin) (request_id : Z)
    (params : InferenceRequestCommitmentParams) : pact C unit :=
  do! check (fun _ => ensure_payload_signer origin);
  do! check (fun s => ensure_committed_request_payload_preflight s request_id params);
  errE Error_UnsupportedCommittedRequestPayload.

Definition cancel_inference (origin : RuntimeOrigin) (request_id : Z)
    (miner_id validator_id : Z) (assignment_blinding : Commitment)
    (timing_witness : InferenceRequestTimingWitness)
    (terms_witness : InferenceRequestTermsWitness) : pact C unit :=
  user <-! check (fun _ => ensure_payload_signer origin);
  payment <-! InferenceRequests_try_mutate request_id (fun maybe_request =>
    request <-! check (fun _ => ok_orE maybe_request Error_UnknownRequest);
    do! check (fun _ => ensure_request_user request user);
    do! check (fun _ => ensure_request_assignment_witness request miner_id validator_id
                          assignment_blinding);
    do! check (fun _ => ensure_request_timing_witness request timing_witness);
    do! check (fun _ => ensure_request_terms_witness request terms_witness);
    do! check (fun _ => ensureE (is_pending request) Error_RequestAlreadySettled);
    cancel_available_at <-! check (fun _ =>
      ok_orE (checked_add 64 (created_at timing_witness) RequestCancelDelayBlocks)
        Error_ArithmeticOverflow);
    do! check (fun s => ensureE (cancel_available_at <=? current_block s)
                          Error_RequestCancelUnavailable);
    let payment := terms_payment (terms terms_witness) in
    do! check (fun _ => ensure_inference_refund_can_record payment);
    do! currency_do (release HoldReason_InferencePayment user payment);
    ret (payment, Some (request <| rq_status := InferenceRequestStatus_Cancelled |>)));
  do! decrement_pending_assignment miner_id validator_id;
  do! transition_request_status InferenceRequestStatus_Pending
        InferenceRequestStatus_Cancelled;
  do! record_inference_refund payment;
  deposit_activity_event Event_InferenceCancelled.

Definition expire_inference (origin : RuntimeOrigin) (request_id : Z) (request_user : AccountId)
    (miner_id validator_id : Z) (assignment_blinding : Commitment)
    (timing_witness : InferenceRequestTimingWitness)
    (terms_witness : InferenceRequestTermsWitness) : pact C unit :=
  do! check (fun _ => ensure_payload_signer origin);
  payment <-! InferenceRequests_try_mutate request_id (fun maybe_request =>
    request <-! check (fun _ => ok_orE maybe_request Error_UnknownRequest);
    do! check (fun _ => ensure_request_user request request_user);
    do! check (fun _ => ensure_request_assignment_witness request miner_id validator_id
                          assignment_blinding);
    do! check (fun _ => ensure_request_timing_witness request timing_witness);
    do! check (fun _ => ensure_request_terms_witness request terms_witness);
    do! check (fun _ => ensureE (is_pending request) Error_RequestAlreadySettled);
    cancel_available_at <-! check (fun _ =>
      ok_orE (checked_add 64 (created_at timing_witness) RequestCancelDelayBlocks)
        Error_ArithmeticOverflow);
    do! check (fun s => ensureE (cancel_available_at <=? current_block s)
                          Error_RequestCancelUnavailable);
    let payment := terms_payment (terms terms_witness) in
    do! check (fun _ => ensure_inference_refund_can_record payment);
    do! currency_do (release HoldReason_InferencePayment request_user payment);
    ret (payment, Some (request <| rq_status := InferenceRequestStatus_Expired |>)));
  do! decrement_pending_assignment miner_id validator_id;
  do! transition_request_status InferenceRequestStatus_Pending
        InferenceRequestStatus_Expired;
  do! record_inference_refund payment;
  deposit_activity_event Event_InferenceExpired.

Definition deactivate_miner (origin : RuntimeOrigin) (miner_id : Z) : pact C unit :=
  operator <-! check (fun _ => ensure_payload_signer origin);
  exit_available_at <-! check (fun s =>
    ok_orE (checked_add 64 (current_block s) MinerExitCooldownBlocks)
      Error_ArithmeticOverflow);
  do! Miners_try_mutate miner_id (fun maybe_miner =>
    miner <-! check (fun _ => ok_orE maybe_miner Error_UnknownMiner);
    do! check (fun _ => ensure_miner_operator miner operator);
    do! check (fun _ => ensureE
      (match cm_status miner with
       | RegistryStatus_Active | RegistryStatus_Slashed => true
       | _ => false
       end) Error_InvalidMinerStatus);
    do! check (fun s => ensureE (default 0 (PendingMinerRequests s !! miner_id) =? 0)
                          Error_PendingAssignedRequests);
    do! modify (remove_active_miner (cm_subnet_id miner) miner_id);
    ret (tt, Some (with_miner_status miner_id
                     (RegistryStatus_Exiting exit_available_at) miner)));
  deposit_activity_event Event_MinerExitStarted.

Definition withdraw_miner_bond (origin : RuntimeOrigin) (miner_id : Z) : pact C unit :=
  operator <-! check (fun _ => ensure_payload_signer origin);
  do! Miners_try_mutate miner_id (fun maybe_miner =>
    miner <-! check (fun _ => ok_orE maybe_miner Error_UnknownMiner);
    do! check (fun _ => ensure_miner_operator miner operator);
    match cm_status miner with
    | RegistryStatus_Exiting exit_available_at =>
        do! check (fun s => ensureE (exit_available_at <=? current_block s)
                              Error_MinerExitUnavailable);
        bond <-! check (fun s => locked_miner_bond s miner_id operator);
        do! (if bond =? 0 then ret tt
             else currency_do (release HoldReason_MinerBond operator bond));
        do! modify (fun s => s <| MinerLockedBond ::= delete miner_id |>);
        ret (tt, Some (with_miner_status miner_id RegistryStatus_Disabled miner))
    | _ => errE Error_InvalidMinerStatus
    end);
  deposit_activity_event Event_MinerBondWithdrawn.

Definition deactivate_validator (origin : RuntimeOrigin) (validator_id : Z) : pact C unit :=
  operator <-! check (fun _ => ensure_payload_signer origin);
  exit_available_at <-! check (fun s =>
    ok_orE (checked_add 64 (current_block s) ValidatorExitCooldownBlocks)
      Error_ArithmeticOverflow);
  do! Validators_try_mutate validator_id (fun maybe_validator =>
    validator <-! check (fun _ => ok_orE maybe_validator Error_UnknownValidator);
    do! check (fun _ => ensure_validator_operator validator operator);
    do! check (fun _ => ensureE
      (match cv_status validator with
       | RegistryStatus_Pending | RegistryStatus_Active | RegistryStatus_Slashed => true
       | _ => false
       end) Error_InvalidValidatorStatus);
    do! check (fun s => ensureE (default 0 (PendingValidatorRequests s !! validator_id) =? 0)
                          Error_PendingAssignedRequests);
    do! modify (remove_active_validator (cv_subnet_id validator) validator_id);
    ret (tt, Some (with_validator_status validator_id
                     (RegistryStatus_Exiting exit_available_at) validator)));
  deposit_activity_event Event_ValidatorExitStarted.

Definition withdraw_validator_stake (origin : RuntimeOrigin) (validator_id : Z) : pact C unit :=
  operator <-! check (fun _ => ensure_payload_signer origin);
  do! Validators_try_mutate validator_id (fun maybe_validator =>
    validator <-! check (fun _ => ok_orE maybe_validator Error_UnknownValidator);
    do! check (fun _ => ensure_validator_operator validator operator);
    match cv_status validator with
    | RegistryStatus_Exiting exit_available_at =>
        do! check (fun s => ensureE (exit_available_at <=? current_block s)
                              Error_ValidatorExitUnavailable);
        stake <-! check (fun s => locked_validator_stake s validator_id operator);
        do! (if stake =? 0 then ret tt
             else currency_do (release HoldReason_ValidatorStake operator stake));
        do! modify (fun s => s <| ValidatorLockedStake ::= delete validator_id |>);
        ret (tt, Some (with_validator_status validator_id RegistryStatus_Disabled validator))
    | _ => errE Error_InvalidValidatorStatus
    end);
  deposit_activity_event Event_ValidatorStakeWithdrawn.

(** [is_some] *)
Definition is_some {A} (o : option A) : bool := match o with Some _ => true | None => false end.

Definition set_miner_identity_commitments (origin : RuntimeOrigin) (miner_id : Z)
    (shielded endpoint : option Commitment) (signature_bundle : SignatureBundle) :
    pact C unit :=
  operator <-! check (fun _ => ensure_payload_signer origin);
  miner <-! check (fun s => ok_orE (Miners s !! miner_id) Error_UnknownMiner);
  do! check (fun _ => ensure_miner_operator miner operator);
  do! check (fun _ => ensure_optional_commitment shielded);
  do! check (fun _ => ensure_optional_commitment endpoint);
  let setting_identity := is_some shielded || is_some endpoint in
  do! check (fun s => ensureE (default 0 (PendingMinerRequests s !! miner_id) =? 0)
                        Error_PendingAssignedRequests);
  do! (if setting_identity then
    let challenge_commitment := miner_identity_signature_challenge miner_id
      (cm_operator_commitment miner) shielded endpoint in
    do! check (fun _ => ensure_identity_signature_bundle_bound signature_bundle
      challenge_commitment (cm_operator_commitment miner) shielded endpoint);
    do! modify (fun s => s
      <| MinerIdentityCommitments ::= <[miner_id := {|
           shielded_identity_commitment := shielded; endpoint_commitment := endpoint |}]> |>
      <| MinerIdentitySignatureBundles ::= <[miner_id := signature_bundle]> |>
      <| MinerIdentitySignatureChallenges ::= <[miner_id := challenge_commitment]> |>);
    if is_active (cm_status miner) then
      do! check (fun s => ensure_miner_locked_bond_record s miner_id);
      check (fun s => insert_active_miner s (cm_subnet_id miner) miner_id)
    else ret tt
  else
    do! check (fun s =>
      if is_some (MinerIdentityCommitments s !! miner_id)
         || is_some (MinerIdentitySignatureBundles s !! miner_id)
         || is_some (MinerIdentitySignatureChallenges s !! miner_id)
      then
        let challenge_commitment := miner_identity_signature_challenge miner_id
          (cm_operator_commitment miner) None None in
        ensure_identity_signature_bundle_bound signature_bundle challenge_commitment
          (cm_operator_commitment miner) None None
      else Ok tt);
    do! modify (fun s => s
      <| MinerIdentityCommitments ::= delete miner_id |>
      <| MinerIdentitySignatureBundles ::= delete miner_id |>
      <| MinerIdentitySignatureChallenges ::= delete miner_id |>);
    modify (fun s => if is_active (cm_status miner)
                     then remove_active_miner (cm_subnet_id miner) miner_id s else s));
  deposit_activity_event Event_MinerIdentityCommitmentsUpdated.

Definition set_validator_identity_commitments (origin : RuntimeOrigin) (validator_id : Z)
    (shielded endpoint : option Commitment) (signature_bundle : SignatureBundle) :
    pact C unit :=
  operator <-! check (fun _ => ensure_payload_signer origin);
  validator <-! check (fun s => ok_orE (Validators s !! validator_id) Error_UnknownValidator);
  do! check (fun _ => ensure_validator_operator validator operator);
  do! check (fun _ => ensure_optional_commitment shielded);
  do! check (fun _ => ensure_optional_commitment endpoint);
  let setting_identity := is_some shielded || is_some endpoint in
  do! check (fun s => ensureE (default 0 (PendingValidatorRequests s !! validator_id) =? 0)
                        Error_PendingAssignedRequests);
  do! (if setting_identity then
    let challenge_commitment := validator_identity_signature_challenge validator_id
      (cv_operator_commitment validator) shielded endpoint in
    do! check (fun _ => ensure_identity_signature_bundle_bound signature_bundle
      challenge_commitment (cv_operator_commitment validator) shielded endpoint);
    do! check (fun s =>
      if bool_decide (cv_status validator = RegistryStatus_Pending)
      then ensure_validator_locked_stake_record s validator_id else Ok tt);
    do! modify (fun s => s
      <| ValidatorIdentityCommitments ::= <[validator_id := {|
           shielded_identity_commitment := shielded; endpoint_commitment := endpoint |}]> |>
      <| ValidatorIdentitySignatureBundles ::= <[validator_id := signature_bundle]> |>
      <| ValidatorIdentitySignatureChallenges ::= <[validator_id := challenge_commitment]> |>);
    Validators_try_mutate validator_id (fun maybe_validator =>
      validator <-! check (fun _ => ok_orE maybe_validator Error_UnknownValidator);
      do! check (fun _ => ensureE
        (match cv_status validator with
         | RegistryStatus_Active | RegistryStatus_Pending => true
         | _ => false
         end) Error_InvalidValidatorStatus);
      let status := if bool_decide (cv_status validator = RegistryStatus_Pending)
                    then RegistryStatus_Active else cv_status validator in
      do! check (fun s => insert_active_validator s (cv_subnet_id validator) validator_id);
      ret (tt, Some (with_validator_status validator_id status validator)))
  else
    do! check (fun s =>
      if is_some (ValidatorIdentityCommitments s !! validator_id)
         || is_some (ValidatorIdentitySignatureBundles s !! validator_id)
         || is_some (ValidatorIdentitySignatureChallenges s !! validator_id)
      then
        let challenge_commitment := validator_identity_signature_challenge validator_id
          (cv_operator_commitment validator) None None in
        ensure_identity_signature_bundle_bound signature_bundle challenge_commitment
          (cv_operator_commitment validator) None None
      else Ok tt);
    do! modify (fun s => s
      <| ValidatorIdentityCommitments ::= delete validator_id |>
      <| ValidatorIdentitySignatureBundles ::= delete validator_id |>
      <| ValidatorIdentitySignatureChallenges ::= delete validator_id |>);
    if is_active (cv_status validator) then
      Validators_try_mutate validator_id (fun maybe_validator =>
        validator <-! check (fun _ => ok_orE maybe_validator Error_UnknownValidator);
        do! modify (remove_active_validator (cv_subnet_id validator) validator_id);
        ret (tt, Some (with_validator_status validator_id RegistryStatus_Pending validator)))
    else ret tt);
  deposit_activity_event Event_ValidatorIdentityCommitmentsUpdated.

End Calls.

(** ** Calls and their dispatch *)

Inductive Call : Type :=
| Call_create_subnet (domain : SubnetDomain) (proof_system : ProofSystem)
| Call_register_miner (subnet_id : Z) (model : Commitment) (proof_system : ProofSystem)
| Call_activate_miner (miner_id bond : Z)
| Call_register_validator (subnet_id stake : Z)
| Call_submit_proof (submission : InferenceProofSubmission)
    (request_user miner_operator : AccountId) (assignment_blinding : Commitment)
    (terms_witness : InferenceRequestTermsWitness)
| Call_challenge_proof (submission : InferenceProofSubmission)
    (request_user miner_operator : AccountId) (assignment_blinding : Commitment)
    (terms_witness : InferenceRequestTermsWitness)
| Call_slash_miner (miner_id : Z) (operator : AccountId) (slash_bps : Z)
| Call_request_inference (request_id : Z) (params : InferenceRequestParams)
| Call_request_inference_auto_route (request_id : Z)
    (params : AutoRouteInferenceRequestParams)
| Call_request_inference_commitments (request_id : Z)
    (params : InferenceRequestCommitmentParams)
| Call_cancel_inference (request_id miner_id validator_id : Z)
    (assignment_blinding : Commitment) (timing_witness : InferenceRequestTimingWitness)
    (terms_witness : InferenceRequestTermsWitness)
| Call_deactivate_miner (miner_id : Z)
| Call_withdraw_miner_bond (miner_id : Z)
| Call_deactivate_validator (validator_id : Z)
| Call_withdraw_validator_stake (validator_id : Z)
| Call_slash_validator (validator_id : Z) (operator : AccountId) (slash_bps : Z)
| Call_expire_inference (request_id : Z) (request_user : AccountId)
    (miner_id validator_id : Z) (assignment_blinding : Commitment)
    (timing_witness : InferenceRequestTimingWitness)
    (terms_witness : InferenceRequestTermsWitness)
| Call_set_miner_identity_commitments (miner_id : Z) (shielded endpoint : option Commitment)
    (signature_bundle : SignatureBundle)
| Call_set_validator_identity_commitments (validator_id : Z)
    (shielded endpoint : option Commitment) (signature_bundle : SignatureBundle).

Section Dispatch.
Context {C : Type} `{CC : !Currency C} `{T : !Config} `{HH : !Hashing}.

Definition run_call (origin : RuntimeOrigin) (c : Call) : pact C unit :=
  match c with
  | Call_create_subnet d ps => create_subnet origin d ps
  | Call_register_miner n m ps => register_miner origin n m ps
  | Call_activate_miner id b => activate_miner origin id b
  | Call_register_validator n st => register_validator origin n st
  | Call_submit_proof sub u mo ab tw => submit_proof origin sub u mo ab tw
  | Call_challenge_proof sub u mo ab tw => challenge_proof origin sub u mo ab tw
  | Call_slash_miner id o bps => slash_miner origin id o bps
  | Call_request_inference id p => request_inference origin id p
  | Call_request_inference_auto_route id p => request_inference_auto_route origin id p
  | Call_request_inference_commitments id p => request_inference_commitments origin id p
  | Call_cancel_inference id m v ab ti te => cancel_inference origin id m v ab ti te
  | Call_deactivate_miner id => deactivate_miner origin id
  | Call_withdraw_miner_bond id => withdraw_miner_bond origin id
  | Call_deactivate_validator id => deactivate_validator origin id
  | Call_withdraw_validator_stake id => withdraw_validator_stake origin id
  | Call_slash_validator id o bps => slash_validator origin id o bps
  | Call_expire_inference id u m v ab ti te => expire_inference origin id u m v ab ti te
  | Call_set_miner_identity_commitments id sh ep b =>
      set_miner_identity_commitments origin id sh ep b
  | Call_set_validator_identity_commitments id sh ep b =>
      set_validator_identity_commitments origin id sh ep b
  end.

(** The transactional layer around a dispatchable. *)
Definition dispatch (origin : RuntimeOrigin) (c : Call) (s : Store C) :
    Store C * dresult unit :=
  match run_call origin c s with
  | Ok (_, s') => (s', Ok tt)
  | Err e => (s, Err e)
  end.

End Dispatch.
