(* ===== verification/PalletTransitions.v ===== *)
(** * The Qubitum pallet: registry transitions

    The abstract machine behind the dispatchables: [trans] lists the ways in which the
    registries, the requests and the held funds may change, each with its guard, and
    every call of the pallet is proved to be a sequence of such transitions.  The
    invariants of the later files are proved once per transition. *)

From S2P Require Import Prelude Protocol PostQuantum Pallet PalletGuards PalletRouting.
From S2P Require Import PalletCalls.
From stdpp Require Import base tactics list gmap strings list_numbers relations.
From Stdlib Require Import ZArith Lia.
Open Scope Z_scope.

(** ** Inversion of the storage combinators *)

Section Inversion.
Context {C : Type}.

Lemma try_mutate_Ok {V A} (lookup : Store C -> option V) write f s (a : A) s' :
  try_mutate lookup write f s = Ok (a, s') <->
  exists o s1, f (lookup s) s = Ok ((a, o), s1) /\ s' = write o s1.
Proof.
  unfold try_mutate. split.
  - intros H. inv_run. destruct a1 as [a o]. by exists o, s1.
  - intros (o & s1 & Hf & ->). unfold abind, asks, modify, ret. by rewrite Hf.
Qed.

Lemma currency_do_Ok (f : C -> dresult C) (s : Store C) u s' :
  currency_do f s = Ok (u, s') <->
  exists c, f (currency_state s) = Ok c /\ s' = s <| currency_state := c |>.
Proof. destruct u. unfold currency_do. destruct (f (currency_state s)); naive_solver. Qed.

Lemma currency_get_Ok (f : C -> dresult (Z * C)) (s : Store C) x s' :
  currency_get f s = Ok (x, s') <->
  exists c, f (currency_state s) = Ok (x, c) /\ s' = s <| currency_state := c |>.
Proof. unfold currency_get. destruct (f (currency_state s)) as [[]|]; naive_solver. Qed.

End Inversion.

Ltac inv_storage_step :=
  match goal with
  | H : Miners_try_mutate _ _ _ = Ok _ |- _ => unfold Miners_try_mutate in H
  | H : Validators_try_mutate _ _ _ = Ok _ |- _ => unfold Validators_try_mutate in H
  | H : InferenceRequests_try_mutate _ _ _ = Ok _ |- _ =>
      unfold InferenceRequests_try_mutate in H
  | H : try_mutate _ _ _ _ = Ok (_, _) |- _ =>
      apply try_mutate_Ok in H; let o := fresh "o" in let s := fresh "s" in
      let H1 := fresh "Hr" in destruct H as (o & s & H1 & H); subst
  | H : currency_do _ _ = Ok (_, _) |- _ =>
      apply currency_do_Ok in H; let c := fresh "c" in let H1 := fresh "Hc" in
      destruct H as (c & H1 & H); subst
  | H : currency_get _ _ = Ok (_, _) |- _ =>
      apply currency_get_Ok in H; let c := fresh "c" in let H1 := fresh "Hc" in
      destruct H as (c & H1 & H); subst
  | H : (_, _) = (_, _) |- _ => apply pair_equal_spec in H; destruct H; subst
  end.
(** [inv_call] takes a successful call apart down to its guards and writes. *)
Ltac inv_call := repeat (inv_run_step || inv_storage_step).

(** ** Held funds *)

Section Held.
Context {C : Type} `{CC : !Currency C}.

Lemma held_after_trans r a x y c1 c2 c3 :
  held_after r a x c1 c2 -> held_after r a y c2 c3 -> held_after r a (x + y) c1 c3.
Proof. intros H1 H2 r' a'. rewrite H2, H1. case_decide; lia. Qed.

Lemma held_after_zero r a c : held_after r a 0 c c.
Proof. intros r' a'. case_decide; lia. Qed.

End Held.

(** ** The transitions *)

Section Transitions.
Context {C : Type} `{CC : !Currency C} `{T : !Config} `{HH : !Hashing}.
Implicit Types s : Store C.

(** Only what no registry depends on may differ: events and the accounting totals. *)
Definition same_registry s s' : Prop :=
  s' = s <| events := events s' |>
         <| TotalBurned := TotalBurned s' |>
         <| TotalInferenceEscrowed := TotalInferenceEscrowed s' |>
         <| TotalMinerPayouts := TotalMinerPayouts s' |>
         <| TotalValidatorFees := TotalValidatorFees s' |>
         <| TotalTreasuryFees := TotalTreasuryFees s' |>
         <| TotalInferenceRefunded := TotalInferenceRefunded s' |>.

(** What a user commits to when opening a request. *)
Record Opening : Type := {
  op_user : AccountId;
  op_miner : Z;
  op_validator : Z;
  op_assignment_blinding : Commitment;
  op_timing : InferenceRequestTimingWitness;
  op_terms : InferenceRequestTermsWitness;
}.

Definition op_payment (o : Opening) : Z := terms_payment (terms (op_terms o)).

(** The terms of an opening are what [ensure_inference_request_openable] accepts. *)
Definition opening_ok (o : Opening) : Prop :=
  op_assignment_blinding o <> zero_commitment
  /\ timing_blinding (op_timing o) <> zero_commitment
  /\ terms_blinding (op_terms o) <> zero_commitment
  /\ 0 < op_payment o
  /\ is_ok (validate_fee_split (terms_validator_fee_bps (terms (op_terms o)))
              (terms_treasury_fee_bps (terms (op_terms o)))) = true.

(** The request record of an opening. *)
Definition opened_request (id n : Z) (input : Commitment) (o : Opening) :
    ChainInferenceRequest := {|
  rq_request_id := id;
  rq_user_commitment := request_user_commitment (op_user o);
  rq_subnet_id := n;
  rq_assignment_commitment := request_assignment_commitment id n (op_miner o)
    (op_validator o) (op_assignment_blinding o);
  rq_input_commitment := input;
  rq_terms_commitment := request_terms_commitment id (op_payment o)
    (terms_validator_fee_bps (terms (op_terms o)))
    (terms_treasury_fee_bps (terms (op_terms o))) (terms_blinding (op_terms o));
  rq_timing_commitment := request_timing_commitment id (created_at (op_timing o))
    (timing_blinding (op_timing o));
  rq_status := InferenceRequestStatus_Pending;
|}.

(** The store after a request was closed. *)
Definition closed_store s (id : Z) (r : ChainInferenceRequest) (st : InferenceRequestStatus)
    (c : C) (pm pv : gmap Z Z) : Store C :=
  put_status_count st (status_count st s + 1)
    (s <| currency_state := c |>
       <| PendingMinerRequests := pm |> <| PendingValidatorRequests := pv |>
       <| PendingInferenceRequestCount := PendingInferenceRequestCount s - 1 |>)
  <| InferenceRequests ::= <[id := r <| rq_status := st |>]> |>.

Definition zero_totals s : Store C :=
  s <| TotalInferenceEscrowed := 0 |> <| TotalMinerPayouts := 0 |>
    <| TotalValidatorFees := 0 |> <| TotalTreasuryFees := 0 |>
    <| TotalInferenceRefunded := 0 |>.

(** The guard of closing a request: it is pending, the user, the assignment and the
    terms open its commitments, the payment leaves the user's held funds and the
    counters can move. *)
Record closes s (id : Z) (r : ChainInferenceRequest) (st : InferenceRequestStatus)
    (u : AccountId) (m v : Z) (ab : Commitment) (tw : InferenceRequestTermsWitness)
    (c : C) (pm pv : gmap Z Z) : Prop := {
  closes_request : InferenceRequests s !! id = Some r;
  closes_pending : rq_status r = InferenceRequestStatus_Pending;
  closes_status : st <> InferenceRequestStatus_Pending;
  closes_user : request_user_commitment_matches (rq_user_commitment r) u = true;
  closes_assignment : ensure_request_assignment_witness r m v ab = Ok tt;
  closes_terms : ensure_request_terms_witness r tw = Ok tt;
  closes_held : held_after HoldReason_InferencePayment u (- terms_payment (terms tw))
                  (currency_state s) c;
  closes_miner : decrement_count m (PendingMinerRequests s) = Ok pm;
  closes_validator : decrement_count v (PendingValidatorRequests s) = Ok pv;
  closes_count : 1 <= PendingInferenceRequestCount s;
  closes_next : status_count st s + 1 < 2 ^ 64;
}.

(** The guard of opening a request, and the store after it. *)
Record opens s (n : Z) (o : Opening) (c : C) (pm pv : gmap Z Z) : Prop := {
  opens_fresh : InferenceRequests s !! RequestCount s = None;
  opens_next : RequestCount s + 1 < 2 ^ 64;
  opens_ok : opening_ok o;
  opens_now : created_at (op_timing o) = current_block s;
  opens_assignment : ensure_request_assignment s n (op_miner o) (op_validator o) = Ok tt;
  opens_hold : hold HoldReason_InferencePayment (op_user o) (op_payment o)
                 (currency_state s) = Ok c;
  opens_miner : increment_count (op_miner o) (PendingMinerRequests s) = Ok pm;
  opens_validator : increment_count (op_validator o) (PendingValidatorRequests s) = Ok pv;
  opens_count : PendingInferenceRequestCount s + 1 < 2 ^ 64;
}.

Definition opened_store s (n : Z) (input : Commitment) (o : Opening) (c : C)
    (pm pv : gmap Z Z) : Store C :=
  s <| RequestCount := RequestCount s + 1 |> <| currency_state := c |>
    <| PendingMinerRequests := pm |> <| PendingValidatorRequests := pv |>
    <| PendingInferenceRequestCount := PendingInferenceRequestCount s + 1 |>
    <| InferenceRequests ::=
         <[RequestCount s := opened_request (RequestCount s) n input o]> |>.

(** The record of a proof that was accepted at block [n] for the request [r]. *)
Definition proof_record (sub : InferenceProofSubmission) (r : ChainInferenceRequest) (n : Z) :
    ChainProofRecord := {|
  pr_request_id := request_id sub;
  pr_subnet_id := subnet_id sub;
  pr_assignment_commitment := rq_assignment_commitment r;
  pr_audit_commitment :=
    proof_audit_commitment_for_assignment sub n (rq_assignment_commitment r);
  pr_proof_system := proof_system sub;
|}.

Inductive trans : Store C -> Store C -> Prop :=
| trans_note s s' : same_registry s s' -> trans s s'
| trans_burn_free s who x y c :
    burn_from who x (currency_state s) = Ok (y, c) ->
    trans s (s <| currency_state := c |>)
| trans_create_subnet s sub :
    SubnetCount s + 1 < 2 ^ 16 ->
    trans s (s <| SubnetCount := SubnetCount s + 1 |>
               <| Subnets ::= <[SubnetCount s := sub]> |>)
| trans_register_miner s o m :
    is_Some (Subnets s !! cm_subnet_id m) -> MinerCount s + 1 < 2 ^ 64 ->
    cm_id m = MinerCount s -> cm_operator_commitment m = operator_commitment o ->
    cm_status m = RegistryStatus_Pending ->
    trans s (s <| MinerCount := MinerCount s + 1 |>
               <| Miners ::= <[MinerCount s := m]> |>)
| trans_activate_miner s o id m b c :
    Miners s !! id = Some m -> operator_commitment_matches (cm_operator_commitment m) o = true ->
    cm_status m = RegistryStatus_Pending -> MinMinerBond <= b <= MaxMinerBond ->
    hold HoldReason_MinerBond o b (currency_state s) = Ok c ->
    ensure_miner_signature_bundle_bound s id m = Ok tt ->
    insert_active_miner (s <| currency_state := c |>) (cm_subnet_id m) id = Ok tt ->
    trans s (s <| currency_state := c |> <| MinerLockedBond ::= <[id := b]> |>
               <| Miners ::= <[id := with_miner_status id RegistryStatus_Active m]> |>)
| trans_register_validator s o v b c :
    is_Some (Subnets s !! cv_subnet_id v) -> ValidatorCount s + 1 < 2 ^ 64 ->
    cv_id v = ValidatorCount s -> cv_operator_commitment v = operator_commitment o ->
    cv_status v = RegistryStatus_Pending -> MinValidatorStake <= b ->
    hold HoldReason_ValidatorStake o b (currency_state s) = Ok c ->
    trans s (s <| currency_state := c |> <| ValidatorCount := ValidatorCount s + 1 |>
               <| Validators ::= <[ValidatorCount s := v]> |>
               <| ValidatorLockedStake ::= <[ValidatorCount s := b]> |>)
| trans_exit_miner s id m e :
    Miners s !! id = Some m ->
    cm_status m = RegistryStatus_Active \/ cm_status m = RegistryStatus_Slashed ->
    default 0 (PendingMinerRequests s !! id) = 0 ->
    e = current_block s + MinerExitCooldownBlocks -> e < 2 ^ 64 ->
    trans s (s <| Miners ::= <[id := with_miner_status id (RegistryStatus_Exiting e) m]> |>)
| trans_exit_validator s id v e :
    Validators s !! id = Some v ->
    cv_status v = RegistryStatus_Pending \/ cv_status v = RegistryStatus_Active
      \/ cv_status v = RegistryStatus_Slashed ->
    default 0 (PendingValidatorRequests s !! id) = 0 ->
    e = current_block s + ValidatorExitCooldownBlocks -> e < 2 ^ 64 ->
    trans s (s <| Validators ::=
                    <[id := with_validator_status id (RegistryStatus_Exiting e) v]> |>)
| trans_withdraw_miner s o id m e b c :
    Miners s !! id = Some m -> operator_commitment_matches (cm_operator_commitment m) o = true ->
    cm_status m = RegistryStatus_Exiting e -> e <= current_block s ->
    locked_miner_bond s id o = Ok b ->
    held_after HoldReason_MinerBond o (- b) (currency_state s) c ->
    trans s (s <| currency_state := c |> <| MinerLockedBond ::= delete id |>
               <| Miners ::= <[id := with_miner_status id RegistryStatus_Disabled m]> |>)
| trans_withdraw_validator s o id v e b c :
    Validators s !! id = Some v ->
    operator_commitment_matches (cv_operator_commitment v) o = true ->
    cv_status v = RegistryStatus_Exiting e -> e <= current_block s ->
    locked_validator_stake s id o = Ok b ->
    held_after HoldReason_ValidatorStake o (- b) (currency_state s) c ->
    trans s (s <| currency_state := c |> <| ValidatorLockedStake ::= delete id |>
               <| Validators ::=
                    <[id := with_validator_status id RegistryStatus_Disabled v]> |>)
| trans_slash_miner s o id m b bps x c st :
    Miners s !! id = Some m -> operator_commitment_matches (cm_operator_commitment m) o = true ->
    locked_miner_bond s id o = Ok b -> slash_bps_in_range bps = true ->
    PalletGuards.pro_rata b bps = Ok x -> x <= b ->
    burn_held HoldReason_MinerBond o x (currency_state s) = Ok (x, c) ->
    st = (if (b - x <? MinMinerBond) && negb (is_exiting (cm_status m))
          then RegistryStatus_Slashed else cm_status m) ->
    trans s (s <| currency_state := c |> <| MinerLockedBond ::= <[id := b - x]> |>
               <| Miners ::= <[id := with_miner_status id st m]> |>)
| trans_slash_validator s o id v b bps x c st :
    Validators s !! id = Some v ->
    operator_commitment_matches (cv_operator_commitment v) o = true ->
    locked_validator_stake s id o = Ok b -> slash_bps_in_range bps = true ->
    PalletGuards.pro_rata b bps = Ok x -> x <= b ->
    burn_held HoldReason_ValidatorStake o x (currency_state s) = Ok (x, c) ->
    st = (if (b - x <? MinValidatorStake) && negb (is_exiting (cv_status v))
          then RegistryStatus_Slashed else cv_status v) ->
    trans s (s <| currency_state := c |> <| ValidatorLockedStake ::= <[id := b - x]> |>
               <| Validators ::= <[id := with_validator_status id st v]> |>)
| trans_miner_identity s id m idc bundle challenge s' :
    Miners s !! id = Some m -> default 0 (PendingMinerRequests s !! id) = 0 ->
    s' = s <| MinerIdentityCommitments ::= <[id := idc]> |>
           <| MinerIdentitySignatureBundles ::= <[id := bundle]> |>
           <| MinerIdentitySignatureChallenges ::= <[id := challenge]> |> ->
    ensure_identity_signature_bundle_bound bundle challenge (cm_operator_commitment m)
      (shielded_identity_commitment idc) (endpoint_commitment idc) = Ok tt ->
    (cm_status m = RegistryStatus_Active ->
     insert_active_miner s' (cm_subnet_id m) id = Ok tt) ->
    trans s s'
| trans_miner_identity_clear s id :
    trans s (s <| MinerIdentityCommitments ::= delete id |>
               <| MinerIdentitySignatureBundles ::= delete id |>
               <| MinerIdentitySignatureChallenges ::= delete id |>)
| trans_validator_identity s id v idc bundle challenge s1 :
    Validators s !! id = Some v -> default 0 (PendingValidatorRequests s !! id) = 0 ->
    cv_status v = RegistryStatus_Active \/ cv_status v = RegistryStatus_Pending ->
    s1 = s <| ValidatorIdentityCommitments ::= <[id := idc]> |>
           <| ValidatorIdentitySignatureBundles ::= <[id := bundle]> |>
           <| ValidatorIdentitySignatureChallenges ::= <[id := challenge]> |> ->
    ensure_identity_signature_bundle_bound bundle challenge (cv_operator_commitment v)
      (shielded_identity_commitment idc) (endpoint_commitment idc) = Ok tt ->
    insert_active_validator s1 (cv_subnet_id v) id = Ok tt ->
    trans s (s1 <| Validators ::=
                     <[id := with_validator_status id RegistryStatus_Active v]> |>)
| trans_validator_identity_clear s id v :
    Validators s !! id = Some v -> default 0 (PendingValidatorRequests s !! id) = 0 ->
    trans s (s <| ValidatorIdentityCommitments ::= delete id |>
               <| ValidatorIdentitySignatureBundles ::= delete id |>
               <| ValidatorIdentitySignatureChallenges ::= delete id |>
               <| Validators ::= <[id :=
                    if is_active (cv_status v)
                    then with_validator_status id RegistryStatus_Pending v else v]> |>)
| trans_open s n input o c pm pv :
    opens s n o c pm pv -> trans s (opened_store s n input o c pm pv)
| trans_close s id r st u m v ab tw c pm pv :
    closes s id r st u m v ab tw c pm pv -> st <> InferenceRequestStatus_Settled ->
    trans s (closed_store s id r st c pm pv)
| trans_settle s sub policy r u ab tw c pm pv :
    closes s (request_id sub) r InferenceRequestStatus_Settled u (miner_id sub)
      (validator_id sub) ab tw c pm pv ->
    request_matches r sub = true ->
    proof_verify ProofVerifier sub policy = Ok VerificationOutcome_Valid ->
    trans s (closed_store s (request_id sub) r InferenceRequestStatus_Settled c pm pv
             <| ProofRecords ::= <[request_id sub := proof_record sub r (current_block s)]> |>).

(** A computation whose successful runs are sequences of transitions. *)
Definition refines {A} (m : pact C A) : Prop :=
  forall s a s', m s = Ok (a, s') -> rtc trans s s'.

Lemma refines_bind {A B} (m : pact C A) (k : A -> pact C B) :
  refines m -> (forall a, refines (k a)) -> refines (abind m k).
Proof. intros Hm Hk s a s' H. inv_run. etrans; [by eapply Hm|by eapply Hk]. Qed.

Lemma refines_check {A} (f : Store C -> dresult A) : refines (check f).
Proof. intros s a s' H. inv_run. reflexivity. Qed.

Lemma refines_asks {A} (f : Store C -> A) : refines (asks f).
Proof. intros s a s' H. inv_run. reflexivity. Qed.

Lemma refines_ret {A} (a : A) : refines (ret a).
Proof. intros s b s' H. inv_run. reflexivity. Qed.

Lemma refines_fail {A} e : refines (@fail _ _ A e).
Proof. intros s b s' H. inv_run. Qed.

Lemma zero_totals_note s : trans s (zero_totals s).
Proof. by apply trans_note. Qed.

Lemma refines_note (f : Store C -> Store C) :
  (forall s, same_registry s (f s)) -> refines (modify f).
Proof. intros Hf s a s' H. inv_run. apply rtc_once, trans_note, Hf. Qed.

End Transitions.

(** Equality of two stores that are written as updates of the same store: both sides are
    evaluated, field by field, to updates of its fields. *)
Ltac store_eq :=
  lazy beta iota zeta delta [set_field write_entry closed_store opened_store zero_totals
    opened_request op_user op_miner op_validator op_assignment_blinding op_timing op_terms
    op_payment created_at timing_blinding terms terms_blinding terms_payment
    terms_validator_fee_bps terms_treasury_fee_bps
    put_status_count status_count SubnetCount MinerCount ValidatorCount Subnets
    Miners Validators MinerIdentityCommitments MinerIdentitySignatureBundles
    MinerIdentitySignatureChallenges ValidatorIdentityCommitments
    ValidatorIdentitySignatureBundles ValidatorIdentitySignatureChallenges
    ProofRecords InferenceRequests RequestCount ActiveMinersBySubnet
    ActiveValidatorsBySubnet MinerLockedBond ValidatorLockedStake
    PendingMinerRequests PendingValidatorRequests PendingInferenceRequestCount
    SettledInferenceRequestCount CancelledInferenceRequestCount
    RejectedInferenceRequestCount ExpiredInferenceRequestCount TotalBurned
    TotalInferenceEscrowed TotalMinerPayouts TotalValidatorFees TotalTreasuryFees
    TotalInferenceRefunded LegacyAccountingMigrationFailures
    LegacyRoutingIndexMigrationFailures LegacyCapitalRecordMigrationFailures
    currency_state block_number events]; reflexivity.

Create HintDb refines.
#[export] Hint Resolve refines_check refines_asks refines_ret refines_fail : refines.
Ltac solve_refines :=
  repeat match goal with
  | |- refines (abind _ _) => apply refines_bind; [|intros ?]
  | |- refines (if ?b then _ else _) => destruct b
  | |- refines (modify _) => apply refines_note; intros ?; reflexivity
  | |- refines (match ?x with _ => _ end) => destruct x
  end; auto with refines.

(** ** Every dispatchable refines the transitions *)

Section Refinement.
Context {C : Type} `{CC : !Currency C} `{T : !Config} `{HH : !Hashing}.
Context `{Laws : !CurrencyLaws C}.
Implicit Types s : Store C.

Lemma deposit_event_refines e : refines (C := C) (deposit_event e).
Proof. unfold deposit_event. solve_refines. Qed.

Lemma deposit_all_refines l : refines (C := C) (deposit_all l).
Proof.
  induction l; simpl; [auto with refines|].
  apply refines_bind; auto using deposit_event_refines.
Qed.

Lemma deposit_activity_events_refines l : refines (C := C) (deposit_activity_events l).
Proof.
  unfold deposit_activity_events.
  destruct PrivateEventMetadata; auto using deposit_event_refines, deposit_all_refines.
Qed.

Lemma deposit_activity_event_refines e : refines (C := C) (deposit_activity_event e).
Proof. apply deposit_activity_events_refines. Qed.

Lemma burn_free_refines who x : refines (C := C) (burn_free who x).
Proof.
  intros s a s' Hrun. unfold burn_free, record_burned, clear_burned_total in Hrun.
  inv_call. eapply rtc_l; [by eapply trans_burn_free|].
  by apply rtc_once, trans_note.
Qed.

(** What a slash does: the share of the recorded capital is burned, the record is lowered
    by it, and a participant left below the minimum is marked, unless it is exiting. *)
Record slashes_miner s (id : Z) (o : AccountId) (bps x : Z) s' : Prop := {
  slashes_miner_record : exists m b c,
    Miners s !! id = Some m /\ operator_commitment_matches (cm_operator_commitment m) o = true
    /\ locked_miner_bond s id o = Ok b /\ slash_bps_in_range bps = true
    /\ PalletGuards.pro_rata b bps = Ok x /\ x <= b
    /\ burn_held HoldReason_MinerBond o x (currency_state s) = Ok (x, c)
    /\ s' = s <| currency_state := c |> <| MinerLockedBond ::= <[id := b - x]> |>
              <| Miners ::= <[id := with_miner_status id
                   (if (b - x <? MinMinerBond) && negb (is_exiting (cm_status m))
                    then RegistryStatus_Slashed else cm_status m) m]> |>
              <| TotalBurned := 0 |>;
}.

Record slashes_validator s (id : Z) (o : AccountId) (bps x : Z) s' : Prop := {
  slashes_validator_record : exists v b c,
    Validators s !! id = Some v
    /\ operator_commitment_matches (cv_operator_commitment v) o = true
    /\ locked_validator_stake s id o = Ok b /\ slash_bps_in_range bps = true
    /\ PalletGuards.pro_rata b bps = Ok x /\ x <= b
    /\ burn_held HoldReason_ValidatorStake o x (currency_state s) = Ok (x, c)
    /\ s' = s <| currency_state := c |> <| ValidatorLockedStake ::= <[id := b - x]> |>
              <| Validators ::= <[id := with_validator_status id
                   (if (b - x <? MinValidatorStake) && negb (is_exiting (cv_status v))
                    then RegistryStatus_Slashed else cv_status v) v]> |>
              <| TotalBurned := 0 |>;
}.

Lemma slash_miner_bond_Ok id o bps s x s' :
  slash_miner_bond id o bps s = Ok (x, s') -> slashes_miner s id o bps x s'.
Proof.
  intros Hrun. unfold slash_miner_bond, record_burned, clear_burned_total in Hrun.
  inv_call. unfold ensure_miner_operator in *. inv_run. cbn in *.
  match goal with H : burn_held _ _ _ _ = Ok _ |- _ =>
    destruct (burn_held_held _ _ _ _ _ _ H) as [-> _] end.
  boolprop. match goal with H : _ = _ - _ /\ _ |- _ => destruct H as [-> ?] end.
  split. do 3 eexists. do 7 (split; [done|]).
  unfold remove_active_miner. by destruct (_ && _).
Qed.

Lemma slash_validator_stake_Ok id o bps s x s' :
  slash_validator_stake id o bps s = Ok (x, s') -> slashes_validator s id o bps x s'.
Proof.
  intros Hrun. unfold slash_validator_stake, record_burned, clear_burned_total in Hrun.
  inv_call. unfold ensure_validator_operator in *. inv_run. cbn in *.
  match goal with H : burn_held _ _ _ _ = Ok _ |- _ =>
    destruct (burn_held_held _ _ _ _ _ _ H) as [-> _] end.
  boolprop. match goal with H : _ = _ - _ /\ _ |- _ => destruct H as [-> ?] end.
  split. do 3 eexists. do 7 (split; [done|]).
  unfold remove_active_validator. by destruct (_ && _).
Qed.

Lemma slash_miner_bond_refines id o bps : refines (C := C) (slash_miner_bond id o bps).
Proof.
  intros s x s' [(m & b & c & ? & ? & ? & ? & ? & ? & ? & ->)]%slash_miner_bond_Ok.
  eapply rtc_l; [by eapply trans_slash_miner|]. by apply rtc_once, trans_note.
Qed.

Lemma slash_validator_stake_refines id o bps :
  refines (C := C) (slash_validator_stake id o bps).
Proof.
  intros s x s' [(v & b & c & ? & ? & ? & ? & ? & ? & ? & ->)]%slash_validator_stake_Ok.
  eapply rtc_l; [by eapply trans_slash_validator|]. by apply rtc_once, trans_note.
Qed.

Lemma create_subnet_refines origin d ps : refines (C := C) (create_subnet origin d ps).
Proof.
  unfold create_subnet. apply refines_bind; [auto with refines|intros who].
  apply refines_bind; [auto with refines|intros _].
  apply refines_bind; [apply burn_free_refines|intros _].
  intros s a s' Hrun. unfold next_subnet_id in Hrun. inv_call. boolprop.
  match goal with H : _ = _ + 1 /\ _ |- _ => destruct H as [-> ?] end.
  eapply rtc_l; [|by eapply deposit_activity_event_refines].
  by apply trans_create_subnet.
Qed.

Lemma register_miner_refines origin n mc ps : refines (C := C) (register_miner origin n mc ps).
Proof.
  intros s a s' Hrun.
  unfold register_miner, burn_free, record_burned, clear_burned_total, next_miner_id in Hrun.
  inv_call. boolprop. match goal with H : _ = _ + 1 /\ _ |- _ => destruct H as [-> ?] end.
  eapply rtc_l; [by eapply trans_burn_free|].
  eapply rtc_l; [by apply (trans_note _ (s <| currency_state := c |> <| TotalBurned := 0 |>))|].
  eapply rtc_l; [|by eapply deposit_activity_event_refines].
  by eapply trans_register_miner.
Qed.

Lemma activate_miner_refines origin id b : refines (C := C) (activate_miner origin id b).
Proof.
  intros s a s' Hrun. unfold activate_miner, ensure_miner_operator in Hrun. inv_call. boolprop.
  eapply rtc_l; [|by eapply deposit_activity_event_refines]. cbn in *.
  by eapply trans_activate_miner.
Qed.

Lemma register_validator_refines origin n b : refines (C := C) (register_validator origin n b).
Proof.
  intros s a s' Hrun. unfold register_validator, next_validator_id in Hrun. inv_call. boolprop.
  match goal with H : _ = _ + 1 /\ _ |- _ => destruct H as [-> ?] end.
  eapply rtc_l; [|by eapply deposit_activity_event_refines]. cbn in *.
  by eapply (trans_register_validator s).
Qed.

Lemma deactivate_miner_refines origin id : refines (C := C) (deactivate_miner origin id).
Proof.
  intros s a s' Hrun. unfold deactivate_miner, ensure_miner_operator in Hrun. inv_call.
  boolprop. match goal with H : _ = _ + _ /\ _ |- _ => destruct H as [-> ?] end.
  eapply rtc_l; [|by eapply deposit_activity_event_refines]. cbn in *.
  eapply trans_exit_miner; eauto. destruct (cm_status _); auto; done.
Qed.

Lemma deactivate_validator_refines origin id :
  refines (C := C) (deactivate_validator origin id).
Proof.
  intros s a s' Hrun. unfold deactivate_validator, ensure_validator_operator in Hrun. inv_call.
  boolprop. match goal with H : _ = _ + _ /\ _ |- _ => destruct H as [-> ?] end.
  eapply rtc_l; [|by eapply deposit_activity_event_refines]. cbn in *.
  eapply trans_exit_validator; eauto. destruct (cv_status _); auto; done.
Qed.

(** A release that is skipped for a zero amount. *)
Lemma release_if_nonzero_Ok r o b s u s' :
  (if b =? 0 then ret tt else currency_do (release r o b)) s = Ok (u, s') ->
  exists c, s' = s <| currency_state := c |> /\ held_after r o (- b) (currency_state s) c.
Proof.
  destruct (Z.eqb_spec b 0) as [->|]; intros Hrun; inv_call.
  - exists (currency_state s). split; [by destruct s|]. apply held_after_zero.
  - eexists. split; [done|]. by eapply release_held.
Qed.

Lemma withdraw_miner_bond_refines origin id : refines (C := C) (withdraw_miner_bond origin id).
Proof.
  intros s a s' Hrun. unfold withdraw_miner_bond, ensure_miner_operator in Hrun.
  inv_call. destruct (cm_status _) eqn:Hst; try done; [].
  repeat match goal with H : (if _ =? 0 then _ else _) _ = Ok _ |- _ =>
    apply release_if_nonzero_Ok in H as (c & -> & ?) | _ => inv_run_step || inv_storage_step end.
  boolprop. eapply rtc_l; [|by eapply deposit_activity_event_refines]. cbn in *.
  by eapply trans_withdraw_miner.
Qed.

Lemma withdraw_validator_stake_refines origin id :
  refines (C := C) (withdraw_validator_stake origin id).
Proof.
  intros s a s' Hrun. unfold withdraw_validator_stake, ensure_validator_operator in Hrun.
  inv_call. destruct (cv_status _) eqn:Hst; try done; [].
  repeat match goal with H : (if _ =? 0 then _ else _) _ = Ok _ |- _ =>
    apply release_if_nonzero_Ok in H as (c & -> & ?) | _ => inv_run_step || inv_storage_step end.
  boolprop. eapply rtc_l; [|by eapply deposit_activity_event_refines]. cbn in *.
  by eapply trans_withdraw_validator.
Qed.

Lemma slash_miner_refines origin id o bps : refines (C := C) (slash_miner origin id o bps).
Proof.
  unfold slash_miner. solve_refines;
    auto using slash_miner_bond_refines, deposit_activity_event_refines.
Qed.

Lemma slash_validator_refines origin id o bps :
  refines (C := C) (slash_validator origin id o bps).
Proof.
  unfold slash_validator. solve_refines;
    auto using slash_validator_stake_refines, deposit_activity_event_refines.
Qed.

(** *** Requests *)

Lemma decrement_pending_assignment_Ok m v s u s' :
  decrement_pending_assignment m v s = Ok (u, s') ->
  exists pm pv, decrement_count m (PendingMinerRequests s) = Ok pm
    /\ decrement_count v (PendingValidatorRequests s) = Ok pv
    /\ s' = s <| PendingMinerRequests := pm |> <| PendingValidatorRequests := pv |>.
Proof. unfold decrement_pending_assignment. intros Hrun. inv_call. eauto. Qed.

Lemma increment_pending_assignment_Ok m v s u s' :
  increment_pending_assignment m v s = Ok (u, s') ->
  exists pm pv, increment_count m (PendingMinerRequests s) = Ok pm
    /\ increment_count v (PendingValidatorRequests s) = Ok pv
    /\ s' = s <| PendingMinerRequests := pm |> <| PendingValidatorRequests := pv |>.
Proof. unfold increment_pending_assignment. intros Hrun. inv_call. eauto. Qed.

Lemma transition_request_status_Ok st s u s' :
  st <> InferenceRequestStatus_Pending ->
  transition_request_status InferenceRequestStatus_Pending st s = Ok (u, s') ->
  1 <= PendingInferenceRequestCount s /\ status_count st s + 1 < 2 ^ 64
  /\ s' = put_status_count st (status_count st s + 1)
            (s <| PendingInferenceRequestCount := PendingInferenceRequestCount s - 1 |>).
Proof.
  intros Hst Hrun. unfold transition_request_status, decrement_request_status_count,
    increment_request_status_count, increment_request_count, decrement_request_count in Hrun.
  rewrite bool_decide_eq_false_2 in Hrun by done. inv_call. boolprop.
  destruct Hr0 as [-> ?], Hr1 as [-> ?]. split; [done|]. by destruct st.
Qed.

(** The bookkeeping that follows the payment of a request, as one update; the record
    itself is written before or after it. *)
Lemma close_bookkeeping st m v s s1 s2 u1 u2 :
  st <> InferenceRequestStatus_Pending ->
  decrement_pending_assignment m v s = Ok (u1, s1) ->
  transition_request_status InferenceRequestStatus_Pending st s1 = Ok (u2, s2) ->
  exists pm pv, decrement_count m (PendingMinerRequests s) = Ok pm
    /\ decrement_count v (PendingValidatorRequests s) = Ok pv
    /\ 1 <= PendingInferenceRequestCount s /\ status_count st s + 1 < 2 ^ 64
    /\ s2 = put_status_count st (status_count st s + 1)
        (s <| PendingMinerRequests := pm |> <| PendingValidatorRequests := pv |>
           <| PendingInferenceRequestCount := PendingInferenceRequestCount s - 1 |>).
Proof.
  intros Hst (pm & pv & Hm & Hv & ->)%decrement_pending_assignment_Ok
    (H1 & H2 & ->)%transition_request_status_Ok; [|done].
  exists pm, pv. destruct st; done.
Qed.

Lemma transfer_held_payment_Ok src dst x s u s' :
  transfer_held_payment src dst x s = Ok (u, s') ->
  exists c, s' = s <| currency_state := c |>
    /\ held_after HoldReason_InferencePayment src (- x) (currency_state s) c.
Proof.
  unfold transfer_held_payment. destruct (Z.eqb_spec x 0) as [->|]; intros Hrun; inv_call.
  - exists (currency_state s). split; [by destruct s|]. apply held_after_zero.
  - eexists. split; [done|]. by eapply transfer_on_hold_held.
Qed.

Lemma payment_split_sum p v t a b c :
  payment_split p v t = Ok (a, b, c) -> a + b + c = p.
Proof. unfold payment_split. intros Hrun. inv_run. boolprop. lia. Qed.

(** What a settlement does: the three parts of the payment leave the user's held
    funds for the miner's operator, the validator's operator and the treasury, and the
    request is closed. *)
Record settles s (sub : InferenceProofSubmission) (u mo vo : AccountId) (ab : Commitment)
    (tw : InferenceRequestTermsWitness) (parts : Z * Z * Z) s' : Prop := {
  settles_operators : exists m v,
    Miners s !! miner_id sub = Some m /\ Validators s !! validator_id sub = Some v
    /\ ensure_miner_operator m mo = Ok tt /\ ensure_validator_operator v vo = Ok tt;
  settles_split : payment_split (terms_payment (terms tw))
      (terms_validator_fee_bps (terms tw)) (terms_treasury_fee_bps (terms tw)) = Ok parts;
  settles_closes : exists r c1 c2 c3 pm pv,
    let '(mp, vf, tf) := parts in
    transfer_held_payment u mo mp s = Ok (tt, s <| currency_state := c1 |>)
    /\ transfer_held_payment u vo vf (s <| currency_state := c1 |>)
       = Ok (tt, s <| currency_state := c2 |>)
    /\ transfer_held_payment u ProtocolTreasury tf (s <| currency_state := c2 |>)
       = Ok (tt, s <| currency_state := c3 |>)
    /\ closes s (request_id sub) r InferenceRequestStatus_Settled u (miner_id sub)
         (validator_id sub) ab tw c3 pm pv
    /\ request_matches r sub = true
    /\ s' = zero_totals (closed_store s (request_id sub) r InferenceRequestStatus_Settled
                           c3 pm pv);
}.

Lemma is_pending_true r : is_pending r = true -> rq_status r = InferenceRequestStatus_Pending.
Proof. unfold is_pending. intros H. by boolprop. Qed.

Lemma settle_request_payment_Ok sub u mo vo ab tw s parts s' :
  settle_request_payment sub u mo vo ab tw s = Ok (parts, s') ->
  settles s sub u mo vo ab tw parts s'.
Proof.
  intros Hrun. unfold settle_request_payment, ensure_request_user,
    record_inference_settlement, clear_inference_accounting_totals in Hrun.
  inv_call. match goal with x : Z * Z * Z |- _ => destruct x as [[mp vf] tf] end. inv_call.
  match goal with H : payment_split _ _ _ = _ |- _ =>
    apply payment_split_sum in H as Hsum end.
  split; [by eauto 10|done|].
  match goal with H : InferenceRequests s !! _ = Some ?r |- _ => exists r end.
  match goal with H : transfer_held_payment u mo _ _ = _ |- _ =>
    apply transfer_held_payment_Ok in H as Hx; destruct Hx as (c1 & -> & Hh1) end.
  match goal with H : transfer_held_payment u vo _ _ = _ |- _ =>
    apply transfer_held_payment_Ok in H as Hx; destruct Hx as (c2 & -> & Hh2) end.
  match goal with H : transfer_held_payment u ProtocolTreasury _ _ = _ |- _ =>
    apply transfer_held_payment_Ok in H as Hx; destruct Hx as (c3 & -> & Hh3) end.
  match goal with Hd : decrement_pending_assignment _ _ _ = _,
                  Ht : transition_request_status _ _ _ = _ |- _ =>
    eapply (close_bookkeeping InferenceRequestStatus_Settled _ _ _ _ _ _ _
      ltac:(done) Hd) in Ht
      as (pm & pv & Hm & Hv & Hp & Hn & ->) end.
  exists c1, c2, c3, pm, pv. do 3 (split; [done|]). split; [|split; [done|store_eq]].
  split; auto using is_pending_true. cbn in *.
  replace (- terms_payment (terms tw)) with (- mp + - vf + - tf) by lia.
  eapply held_after_trans; [eapply held_after_trans|]; done.
Qed.

(** What a refund does: the payment is released to the user and the request closed. *)
Record refunds s (id : Z) (u : AccountId) (m v : Z) (ab : Commitment)
    (tw : InferenceRequestTermsWitness) (st : InferenceRequestStatus) s' : Prop := {
  refunds_closes : exists r c pm pv,
    release HoldReason_InferencePayment u (terms_payment (terms tw)) (currency_state s) = Ok c
    /\ closes s id r st u m v ab tw c pm pv
    /\ s' = zero_totals (closed_store s id r st c pm pv);
}.

Lemma refunds_trans s id u m v ab tw st s' :
  refunds s id u m v ab tw st s' -> st <> InferenceRequestStatus_Settled -> rtc trans s s'.
Proof.
  intros [(r & c & pm & pv & _ & Hcl & ->)] Hst.
  eapply rtc_l; [by eapply trans_close|]. apply rtc_once, zero_totals_note.
Qed.

Lemma refund_rejected_request_Ok sub u ab tw s p s' :
  refund_rejected_request sub u ab tw s = Ok (p, s') ->
  refunds s (request_id sub) u (miner_id sub) (validator_id sub) ab tw
    InferenceRequestStatus_Rejected s'.
Proof.
  intros Hrun. unfold refund_rejected_request, ensure_rejected_request_witnesses,
    ensure_request_user, record_inference_refund, clear_inference_accounting_totals in Hrun.
  inv_call. split.
  match goal with H : InferenceRequests s !! _ = Some ?r |- _ => exists r end.
  match goal with Hd : decrement_pending_assignment _ _ _ = _,
                  Ht : transition_request_status _ _ _ = _ |- _ =>
    eapply (close_bookkeeping InferenceRequestStatus_Rejected _ _ _ _ _ _ _
      ltac:(done) Hd) in Ht
      as (pm & pv & Hm & Hv & Hp & Hn & ->) end.
  exists c, pm, pv. split; [done|]. split; [|store_eq].
  split; auto using is_pending_true. by eapply release_held.
Qed.

(** The part [cancel_inference] and [expire_inference] share after the record was
    written. *)
Lemma refund_bookkeeping s id r c st u m v ab tw s1 s2 u1 u2 :
  InferenceRequests s !! id = Some r -> is_pending r = true ->
  st <> InferenceRequestStatus_Pending ->
  request_user_commitment_matches (rq_user_commitment r) u = true ->
  ensure_request_assignment_witness r m v ab = Ok tt ->
  ensure_request_terms_witness r tw = Ok tt ->
  release HoldReason_InferencePayment u (terms_payment (terms tw)) (currency_state s) = Ok c ->
  decrement_pending_assignment m v
    (s <| currency_state := c |>
       <| InferenceRequests ::= write_entry id (Some (r <| rq_status := st |>)) |>)
    = Ok (u1, s1) ->
  transition_request_status InferenceRequestStatus_Pending st s1 = Ok (u2, s2) ->
  refunds s id u m v ab tw st (zero_totals s2).
Proof.
  intros Hr Hpend Hst Hu Ha Ht Hc Hd Htr.
  eapply (close_bookkeeping st _ _ _ _ _ _ _ Hst Hd) in Htr
    as (pm & pv & Hm & Hv & Hp & Hn & ->).
  split. exists r, c, pm, pv. split; [done|]. split; [|destruct st; [done|store_eq..]].
  split; auto using is_pending_true; by eapply release_held.
Qed.

Lemma cancel_inference_Ok origin id m v ab ti tw s u s' :
  cancel_inference origin id m v ab ti tw s = Ok (u, s') ->
  exists user s1, ensure_payload_signer origin = Ok user
    /\ refunds s id user m v ab tw InferenceRequestStatus_Cancelled s1
    /\ deposit_activity_event Event_InferenceCancelled s1 = Ok (tt, s').
Proof.
  intros Hrun. unfold cancel_inference, ensure_request_user, record_inference_refund,
    clear_inference_accounting_totals in Hrun. inv_call.
  eexists _, _. split; [done|]. split; [|done]. by eapply refund_bookkeeping.
Qed.

Lemma expire_inference_Ok origin id user m v ab ti tw s u s' :
  expire_inference origin id user m v ab ti tw s = Ok (u, s') ->
  exists s1, refunds s id user m v ab tw InferenceRequestStatus_Expired s1
    /\ deposit_activity_event Event_InferenceExpired s1 = Ok (tt, s').
Proof.
  intros Hrun. unfold expire_inference, ensure_request_user, record_inference_refund,
    clear_inference_accounting_totals in Hrun. inv_call.
  eexists. split; [|done]. by eapply refund_bookkeeping.
Qed.

Lemma cancel_inference_refines origin id m v ab ti tw :
  refines (C := C) (cancel_inference origin id m v ab ti tw).
Proof.
  intros s a s' (u & s1 & _ & Hr & He)%cancel_inference_Ok.
  etrans; [by eapply refunds_trans; [exact Hr|]|by eapply deposit_activity_event_refines].
Qed.

Lemma expire_inference_refines origin id u m v ab ti tw :
  refines (C := C) (expire_inference origin id u m v ab ti tw).
Proof.
  intros s a s' (s1 & Hr & He)%expire_inference_Ok.
  etrans; [by eapply refunds_trans; [exact Hr|]|by eapply deposit_activity_event_refines].
Qed.

Lemma refund_rejected_request_refines sub u ab tw :
  refines (C := C) (refund_rejected_request sub u ab tw).
Proof. intros s a s' Hr%refund_rejected_request_Ok. by eapply refunds_trans; [exact Hr|]. Qed.

Lemma submission_assignment_commitment_Ok s sub ab r ac :
  InferenceRequests s !! request_id sub = Some r ->
  submission_assignment_commitment s sub ab = Ok ac -> ac = rq_assignment_commitment r.
Proof.
  intros Hr H. unfold submission_assignment_commitment, resolve_request_assignment_commitment in H.
  inv_run. by simplify_eq.
Qed.

(** An accepted proof: the settlement and its record are one transition. *)
Lemma accept_refines s sub policy u mo vo ab tw ac parts s1 :
  proof_verify ProofVerifier sub policy = Ok VerificationOutcome_Valid ->
  submission_assignment_commitment s sub ab = Ok ac ->
  settle_request_payment sub u mo vo ab tw s = Ok (parts, s1) ->
  rtc trans s (s1 <| ProofRecords ::= <[request_id sub := {|
    pr_request_id := request_id sub; pr_subnet_id := subnet_id sub;
    pr_assignment_commitment := ac;
    pr_audit_commitment := proof_audit_commitment_for_assignment sub (current_block s) ac;
    pr_proof_system := proof_system sub |}]> |>).
Proof.
  intros Hv Hac Hset. destruct parts as [[mp vf] tf].
  apply settle_request_payment_Ok in Hset
    as [_ _ (r & c1 & c2 & c3 & pm & pv & _ & _ & _ & Hcl & Hmatch & ->)].
  apply (submission_assignment_commitment_Ok _ _ _ r) in Hac as ->; [|apply Hcl].
  eapply rtc_l; [by eapply (trans_settle s sub policy r)|].
  fold (proof_record sub r (current_block s)).
  match goal with |- rtc trans ?s1 ?s2 =>
    replace s2 with (zero_totals s1) by store_eq end.
  apply rtc_once, zero_totals_note.
Qed.

Lemma submit_proof_refines origin sub u mo ab tw :
  refines (C := C) (submit_proof origin sub u mo ab tw).
Proof.
  intros s a s' Hrun. unfold submit_proof in Hrun.
  apply abind_Ok in Hrun as (vo & ? & [_ ->]%check_Ok & Hrun).
  apply abind_Ok in Hrun as (policy & ? & [_ ->]%check_Ok & Hrun).
  apply abind_Ok in Hrun as (outcome & ? & [Hout ->]%check_Ok & Hrun).
  destruct outcome as [|bps|].
  - apply abind_Ok in Hrun as (ac & ? & [Hac ->]%check_Ok & Hrun).
    apply abind_Ok in Hrun as (n & ? & [-> ->]%asks_Ok & Hrun).
    apply abind_Ok in Hrun as (parts & s1 & Hset & Hrun).
    apply abind_Ok in Hrun as (? & ? & ->%modify_Ok & Hrun).
    etrans; [by eapply accept_refines|by eapply deposit_activity_events_refines].
  - revert Hrun. match goal with |- ?m s = _ -> _ => cut (refines m); [by eauto|] end.
    solve_refines; auto using slash_miner_bond_refines,
      slash_validator_stake_refines, refund_rejected_request_refines,
      deposit_activity_events_refines.
  - inv_run.
Qed.

Lemma challenge_proof_refines origin sub u mo ab tw :
  refines (C := C) (challenge_proof origin sub u mo ab tw).
Proof.
  unfold challenge_proof. solve_refines; auto using slash_miner_bond_refines,
    refund_rejected_request_refines, deposit_activity_events_refines.
Qed.

Lemma open_inference_request_Ok user id n m v input ab ib eb p vb tb s u s' :
  ab <> zero_commitment -> ib <> zero_commitment -> eb <> zero_commitment -> 0 < p ->
  validate_fee_split vb tb = Ok tt -> InferenceRequests s !! id = None ->
  open_inference_request user id n m v input ab ib eb p vb tb s = Ok (u, s') ->
  let o := {| op_user := user; op_miner := m; op_validator := v;
              op_assignment_blinding := ab;
              op_timing := {| created_at := current_block s; timing_blinding := ib |};
              op_terms := {| terms := {| terms_payment := p; terms_validator_fee_bps := vb;
                                         terms_treasury_fee_bps := tb |};
                             terms_blinding := eb |} |} in
  exists c pm pv s1, RequestCount s = id /\ opens s n o c pm pv
    /\ s1 = zero_totals (opened_store s n input o c pm pv)
    /\ deposit_activity_event Event_InferenceRequested s1 = Ok (tt, s').
Proof.
  intros Hab Hib Heb Hp Hfee Hfresh Hrun o.
  unfold open_inference_request, open_inference_request_with_commitments,
    ensure_next_request_id, ensure_request_id_can_advance, ensure_request_id_matches_next,
    increment_request_status_count, increment_request_count, record_inference_escrow,
    clear_inference_accounting_totals in Hrun. inv_call.
  match goal with H : increment_pending_assignment _ _ _ = _ |- _ =>
    apply increment_pending_assignment_Ok in H as (pm & pv & Hm & Hv & ->) end.
  boolprop. cbn in *.
  repeat match goal with H : _ = _ + 1 /\ _ |- _ => destruct H as [-> ?] end. subst id.
  exists c, pm, pv. eexists. split; [done|]. split; [|split; [|exact Hrun]].
  - split; try done. repeat split; try done. simpl. by rewrite Hfee.
  - subst o. store_eq.
Qed.

Lemma pallet_ensure_commitment_Ok x u : ensure_commitment x = Ok u -> x <> zero_commitment.
Proof. unfold ensure_commitment. intros H. inv_run. by boolprop. Qed.

Lemma ensure_openable_Ok s id n input ab ib eb p vb tb u :
  ensure_inference_request_openable s id n input ab ib eb p vb tb = Ok u ->
  ab <> zero_commitment /\ ib <> zero_commitment /\ eb <> zero_commitment /\ 0 < p
  /\ validate_fee_split vb tb = Ok tt /\ InferenceRequests s !! id = None.
Proof.
  unfold ensure_inference_request_openable. intros H. inv_run.
  repeat match goal with H : ensure_commitment _ = _ |- _ => apply pallet_ensure_commitment_Ok in H end.
  by boolprop.
Qed.

Lemma open_inference_request_refines user id n m v input ab ib eb p vb tb s u s' w :
  ensure_inference_request_openable s id n input ab ib eb p vb tb = Ok u ->
  open_inference_request user id n m v input ab ib eb p vb tb s = Ok (w, s') ->
  rtc trans s s'.
Proof.
  intros (Hab & Hib & Heb & Hp & Hfee & Hfresh)%ensure_openable_Ok Hrun.
  eapply open_inference_request_Ok in Hrun as (c & pm & pv & s1 & _ & Hop & -> & He); [|done..].
  eapply rtc_l; [by eapply trans_open|]. eapply rtc_l; [|by eapply deposit_activity_event_refines].
  apply zero_totals_note.
Qed.

Lemma request_inference_refines origin id p : refines (C := C) (request_inference origin id p).
Proof.
  intros s a s' Hrun. unfold request_inference in Hrun. inv_call.
  by eapply open_inference_request_refines.
Qed.

Lemma request_inference_auto_route_refines origin id p :
  refines (C := C) (request_inference_auto_route origin id p).
Proof.
  intros s a s' Hrun. unfold request_inference_auto_route in Hrun. inv_call.
  by eapply open_inference_request_refines.
Qed.

Lemma set_miner_identity_commitments_refines origin id sh ep b :
  refines (C := C) (set_miner_identity_commitments origin id sh ep b).
Proof.
  intros s a s' Hrun. unfold set_miner_identity_commitments in Hrun.
  destruct (is_some sh || is_some ep); inv_call; boolprop.
  1,2: eapply rtc_l; [|by eapply deposit_activity_event_refines];
    eapply trans_miner_identity; eauto; intros Hst; unfold is_active in *; by boolprop.
  all: eapply rtc_l; [eapply (trans_miner_identity_clear _ id)|];
    unfold remove_active_miner in *; repeat case_match; by eapply deposit_activity_event_refines.
Qed.

(** The status a published identity leaves a validator in. *)
Lemma identity_status v :
  match cv_status v with
  | RegistryStatus_Active | RegistryStatus_Pending => true
  | _ => false
  end = true ->
  (cv_status v = RegistryStatus_Active \/ cv_status v = RegistryStatus_Pending)
  /\ (if bool_decide (cv_status v = RegistryStatus_Pending)
      then RegistryStatus_Active else cv_status v) = RegistryStatus_Active.
Proof. destruct (cv_status v); intros; split; auto; done. Qed.

Lemma Validators_insert_same s id v :
  Validators s !! id = Some v -> s <| Validators ::= <[id := v]> |> = s.
Proof. destruct s. unfold set_field; simpl. intros Hv. by rewrite insert_id. Qed.

Lemma set_validator_identity_commitments_refines origin id sh ep b :
  refines (C := C) (set_validator_identity_commitments origin id sh ep b).
Proof.
  intros s a s' Hrun. unfold set_validator_identity_commitments in Hrun.
  destruct (is_some sh || is_some ep).
  - inv_call; simpl in *; simplify_eq; boolprop;
      (eapply rtc_l; [|by eapply deposit_activity_event_refines]);
      match goal with H : match cv_status ?v with _ => _ end = true |- _ =>
        apply identity_status in H as [Hst ->] end;
      by eapply trans_validator_identity.
  - inv_call; simpl in *; simplify_eq; boolprop;
      match goal with Hv : Validators s !! id = Some ?v, Hp : default 0 _ = 0 |- _ =>
        pose proof (trans_validator_identity_clear s id v Hv Hp) as Ht;
        unfold remove_active_validator in *;
        match goal with H : is_active _ = _ |- _ => rewrite H in Ht end;
        try rewrite (Validators_insert_same _ id v) in Ht by exact Hv
      end; (eapply rtc_l; [exact Ht|by eapply deposit_activity_event_refines]).
Qed.

(** Every successful call is a sequence of transitions. *)
Lemma run_call_refines origin call : refines (C := C) (run_call origin call).
Proof.
  destruct call; simpl;
    auto using create_subnet_refines, register_miner_refines, activate_miner_refines,
      register_validator_refines, submit_proof_refines, challenge_proof_refines,
      slash_miner_refines, request_inference_refines, request_inference_auto_route_refines,
      cancel_inference_refines, deactivate_miner_refines, withdraw_miner_bond_refines,
      deactivate_validator_refines, withdraw_validator_stake_refines,
      slash_validator_refines, expire_inference_refines,
      set_miner_identity_commitments_refines, set_validator_identity_commitments_refines.
  unfold request_inference_commitments. solve_refines.
Qed.

End Refinement.
