(* ===== verification/PalletInvariants.v ===== *)
(** * The Qubitum pallet: invariants of the registries and requests

    The steps of a chain that runs the pallet, the invariants that relate the storage
    items to each other, and that every reachable state has them; nothing in this file
    depends on the hash or on the held balances. *)

From S2P Require Import Prelude Protocol PostQuantum Pallet PalletGuards PalletRouting.
From S2P Require Import PalletCalls PalletTransitions.
From stdpp Require Import base tactics list gmap strings list_numbers relations.
From Stdlib Require Import ZArith Lia.
Open Scope Z_scope.

(** What the theorems assume of the configured constants: they are unsigned numbers of
    their types, a slash is at most the whole, and routing sets are small enough to be
    indexed. *)
Record config_ok `{T : Config} : Prop := {
  ok_balance_bits : 16 <= balance_bits;
  ok_min_bond : 0 <= MinMinerBond;
  ok_min_stake : 0 <= MinValidatorStake;
  ok_min_slash : 0 <= MinInvalidProofSlashBps;
  ok_max_slash : MaxInvalidProofSlashBps <= BPS_DENOMINATOR;
  ok_max_miners : 0 <= MaxActiveMinersPerSubnet < 2 ^ 31;
  ok_max_validators : 0 <= MaxActiveValidatorsPerSubnet < 2 ^ 31;
}.

Section Steps.
Context {C : Type} `{CC : !Currency C} `{T : !Config} `{HH : !Hashing}.

(** The empty storage, over a currency state [c]. *)
Definition genesis_store (c : C) : Store C := {|
  SubnetCount := 0; MinerCount := 0; ValidatorCount := 0;
  Subnets := ∅; Miners := ∅; Validators := ∅;
  MinerIdentityCommitments := ∅; MinerIdentitySignatureBundles := ∅;
  MinerIdentitySignatureChallenges := ∅;
  ValidatorIdentityCommitments := ∅; ValidatorIdentitySignatureBundles := ∅;
  ValidatorIdentitySignatureChallenges := ∅;
  ProofRecords := ∅; InferenceRequests := ∅; RequestCount := 0;
  ActiveMinersBySubnet := ∅; ActiveValidatorsBySubnet := ∅;
  MinerLockedBond := ∅; ValidatorLockedStake := ∅;
  PendingMinerRequests := ∅; PendingValidatorRequests := ∅;
  PendingInferenceRequestCount := 0; SettledInferenceRequestCount := 0;
  CancelledInferenceRequestCount := 0; RejectedInferenceRequestCount := 0;
  ExpiredInferenceRequestCount := 0;
  TotalBurned := 0; TotalInferenceEscrowed := 0; TotalMinerPayouts := 0;
  TotalValidatorFees := 0; TotalTreasuryFees := 0; TotalInferenceRefunded := 0;
  LegacyAccountingMigrationFailures := 0; LegacyRoutingIndexMigrationFailures := 0;
  LegacyCapitalRecordMigrationFailures := 0;
  currency_state := c; block_number := 0; events := [];
|}.

(** One step of the chain: a call of any origin, successful or not; a new block; or a
    change of balances outside the pallet, which leaves the funds held under the
    pallet's reasons as they are. *)
Inductive step : Store C -> Store C -> Prop :=
| step_call s origin call : step s (fst (dispatch origin call s))
| step_block s n : block_number s <= n -> step s (s <| block_number := n |>)
| step_balances s c :
    (forall r a, balance_on_hold r a c = balance_on_hold r a (currency_state s)) ->
    step s (s <| currency_state := c |>).

(** Reachable from an empty storage with nothing on hold. *)
Definition reachable (s : Store C) : Prop :=
  exists c, (forall r a, balance_on_hold r a c = 0) /\ rtc step (genesis_store c) s.

(** An invariant of the transitions, of time and of outside balances holds in every
    reachable state. *)
Lemma reachable_ind (P : Store C -> Prop) `{Laws : !CurrencyLaws C} :
  (forall c, (forall r a, balance_on_hold r a c = 0) -> P (genesis_store c)) ->
  (forall s s', trans s s' -> P s -> P s') ->
  (forall s n, block_number s <= n -> P s -> P (s <| block_number := n |>)) ->
  (forall s c, (forall r a, balance_on_hold r a c = balance_on_hold r a (currency_state s)) ->
     P s -> P (s <| currency_state := c |>)) ->
  forall s, reachable s -> P s.
Proof.
  intros Hg Ht Hb Hc s (c & H0 & Hr). specialize (Hg c H0). revert Hg.
  induction Hr as [|s1 s2 s3 Hs _ IH]; [done|]. intros HP. apply IH.
  destruct Hs as [s origin call|s n Hn|s c' Hh]; auto.
  unfold dispatch. destruct (run_call origin call s) as [[u s']|] eqn:Hrun; [|done]. simpl.
  apply run_call_refines in Hrun. clear IH. induction Hrun; eauto.
Qed.

End Steps.

(** ** The registries *)

Section Registry.
Context {C : Type} `{CC : !Currency C} `{T : !Config} `{HH : !Hashing}.
Implicit Types s : Store C.

(** The bond record that goes with a miner's status. *)
Definition miner_capital s (id : Z) (status : RegistryStatus) : Prop :=
  match status with
  | RegistryStatus_Pending | RegistryStatus_Disabled => MinerLockedBond s !! id = None
  | RegistryStatus_Active => exists b, MinerLockedBond s !! id = Some b /\ MinMinerBond <= b
  | RegistryStatus_Slashed | RegistryStatus_Exiting _ =>
      exists b, MinerLockedBond s !! id = Some b /\ 0 <= b
  end.

(** The stake record that goes with a validator's status. *)
Definition validator_capital s (id : Z) (status : RegistryStatus) : Prop :=
  match status with
  | RegistryStatus_Disabled => ValidatorLockedStake s !! id = None
  | RegistryStatus_Pending | RegistryStatus_Active =>
      exists b, ValidatorLockedStake s !! id = Some b /\ MinValidatorStake <= b
  | RegistryStatus_Slashed | RegistryStatus_Exiting _ =>
      exists b, ValidatorLockedStake s !! id = Some b /\ 0 <= b
  end.

Definition busy_status (status : RegistryStatus) : Prop :=
  status = RegistryStatus_Active \/ status = RegistryStatus_Slashed.

Record registry_inv s : Prop := {
  ri_miner_count : 0 <= MinerCount s;
  ri_validator_count : 0 <= ValidatorCount s;
  ri_miner id m : Miners s !! id = Some m ->
    0 <= id < MinerCount s /\ cm_id m = id /\ is_Some (Subnets s !! cm_subnet_id m)
    /\ miner_capital s id (cm_status m);
  ri_bond id b : MinerLockedBond s !! id = Some b -> is_Some (Miners s !! id);
  ri_validator id v : Validators s !! id = Some v ->
    0 <= id < ValidatorCount s /\ cv_id v = id /\ is_Some (Subnets s !! cv_subnet_id v)
    /\ validator_capital s id (cv_status v);
  ri_stake id b : ValidatorLockedStake s !! id = Some b -> is_Some (Validators s !! id);
  ri_pending_miner id k : PendingMinerRequests s !! id = Some k ->
    0 < k /\ exists m, Miners s !! id = Some m /\ busy_status (cm_status m);
  ri_pending_validator id k : PendingValidatorRequests s !! id = Some k ->
    0 < k /\ exists v, Validators s !! id = Some v /\ busy_status (cv_status v);
  ri_miner_index : ActiveMinersBySubnet s = ∅;
  ri_validator_index : ActiveValidatorsBySubnet s = ∅;
}.

(** *** Counters of pending requests *)

Lemma increment_count_Ok id m m' :
  increment_count id m = Ok m' -> m' = <[id := default 0 (m !! id) + 1]> m.
Proof. unfold increment_count. intros H. inv_run. boolprop. naive_solver. Qed.

Lemma decrement_count_Ok id m m' :
  decrement_count id m = Ok m' ->
  exists k, m !! id = Some k /\ 1 <= k
    /\ m' = if k - 1 =? 0 then delete id m else <[id := k - 1]> m.
Proof. unfold decrement_count. intros H. inv_run. boolprop. naive_solver. Qed.

(** An entry after a decrement was there before, with at least its value. *)
Lemma decrement_count_lookup id m m' j k :
  decrement_count id m = Ok m' -> (forall i n, m !! i = Some n -> 0 < n) ->
  m' !! j = Some k -> 0 < k /\ exists n, m !! j = Some n.
Proof.
  intros (n & Hn & H1 & ->)%decrement_count_Ok Hpos.
  destruct (Z.eqb_spec (n - 1) 0); rewrite ?lookup_delete_Some, ?lookup_insert_Some.
  - intros [_ Hk]. eauto.
  - intros [[<- <-]|[_ Hk]]; [split; [lia|eauto]|eauto].
Qed.

(** *** Updates that keep the registry invariant *)

(** The fields the invariant reads. *)
Definition registry_view s :=
  (MinerCount s, ValidatorCount s, Miners s, Subnets s, MinerLockedBond s, Validators s,
   ValidatorLockedStake s, PendingMinerRequests s, PendingValidatorRequests s,
   ActiveMinersBySubnet s, ActiveValidatorsBySubnet s).

Lemma registry_inv_view s s' :
  registry_view s' = registry_view s -> registry_inv s -> registry_inv s'.
Proof.
  unfold registry_view. intros [= H1 H2 H3 H4 H5 H6 H7 H8 H9 H10 H11] [].
  unfold miner_capital, validator_capital in *.
  split; rewrite ?H1, ?H2, ?H3, ?H4, ?H5, ?H6, ?H7, ?H8, ?H9, ?H10, ?H11;
    unfold miner_capital, validator_capital; rewrite ?H5, ?H7; auto.
Qed.

Lemma registry_inv_records s f : registry_inv s -> registry_inv (s <| ProofRecords ::= f |>).
Proof. by apply registry_inv_view. Qed.

Lemma miner_capital_other s s' id st :
  MinerLockedBond s' !! id = MinerLockedBond s !! id ->
  miner_capital s id st -> miner_capital s' id st.
Proof. unfold miner_capital. intros ->. done. Qed.

Lemma validator_capital_other s s' id st :
  ValidatorLockedStake s' !! id = ValidatorLockedStake s !! id ->
  validator_capital s id st -> validator_capital s' id st.
Proof. unfold validator_capital. intros ->. done. Qed.

(** One miner record and its bond record change. *)
Lemma registry_update_miner s s' id m m' lb :
  registry_inv s -> Miners s !! id = Some m ->
  cm_id m' = cm_id m -> cm_subnet_id m' = cm_subnet_id m ->
  registry_view s' = registry_view (s <| MinerLockedBond := lb |>
                                      <| Miners ::= <[id := m']> |>) ->
  (forall j, j <> id -> lb !! j = MinerLockedBond s !! j) ->
  miner_capital s' id (cm_status m') ->
  (forall k, PendingMinerRequests s !! id = Some k -> busy_status (cm_status m')) ->
  registry_inv s'.
Proof.
  intros Hi Hm Hid Hsub Hview Hlb Hcap Hpend.
  apply (registry_inv_view _ _ Hview). unfold registry_view in Hview. simpl in Hview.
  injection Hview as _ _ _ _ Hb _ _ _ _ _ _. destruct Hi.
  destruct (ri_miner0 _ _ Hm) as (Hr & Hcid & Hs & _). split; simpl; auto.
  - intros j mj. rewrite lookup_insert_Some. intros [[<- <-]|[Hj Hmj]].
    + split; [done|]. rewrite Hid, Hsub. split; [done|]. split; [done|].
      eapply miner_capital_other; [|exact Hcap]. simpl. by rewrite Hb.
    + destruct (ri_miner0 _ _ Hmj) as (? & ? & ? & Hc). do 3 (split; [done|]).
      eapply miner_capital_other; [|exact Hc]. simpl. by apply Hlb.
  - intros j b Hj. destruct (decide (j = id)) as [->|Hne];
      [by rewrite lookup_insert_eq|rewrite lookup_insert_ne by done].
    rewrite Hlb in Hj by done. eauto.
  - intros j k Hj. destruct (ri_pending_miner0 _ _ Hj) as (Hk & mj & Hmj & Hbusy).
    split; [done|]. destruct (decide (id = j)) as [<-|Hne].
    + exists m'. rewrite lookup_insert_eq. eauto.
    + exists mj. by rewrite lookup_insert_ne.
Qed.

Lemma registry_update_validator s s' id v v' lb :
  registry_inv s -> Validators s !! id = Some v ->
  cv_id v' = cv_id v -> cv_subnet_id v' = cv_subnet_id v ->
  registry_view s' = registry_view (s <| ValidatorLockedStake := lb |>
                                      <| Validators ::= <[id := v']> |>) ->
  (forall j, j <> id -> lb !! j = ValidatorLockedStake s !! j) ->
  validator_capital s' id (cv_status v') ->
  (forall k, PendingValidatorRequests s !! id = Some k -> busy_status (cv_status v')) ->
  registry_inv s'.
Proof.
  intros Hi Hm Hid Hsub Hview Hlb Hcap Hpend.
  apply (registry_inv_view _ _ Hview). unfold registry_view in Hview. simpl in Hview.
  injection Hview as _ _ _ _ _ _ Hb _ _ _ _. destruct Hi.
  destruct (ri_validator0 _ _ Hm) as (Hr & Hcid & Hs & _). split; simpl; auto.
  - intros j mj. rewrite lookup_insert_Some. intros [[<- <-]|[Hj Hmj]].
    + split; [done|]. rewrite Hid, Hsub. split; [done|]. split; [done|].
      eapply validator_capital_other; [|exact Hcap]. simpl. by rewrite Hb.
    + destruct (ri_validator0 _ _ Hmj) as (? & ? & ? & Hc). do 3 (split; [done|]).
      eapply validator_capital_other; [|exact Hc]. simpl. by apply Hlb.
  - intros j b Hj. destruct (decide (j = id)) as [->|Hne];
      [by rewrite lookup_insert_eq|rewrite lookup_insert_ne by done].
    rewrite Hlb in Hj by done. eauto.
  - intros j k Hj. destruct (ri_pending_validator0 _ _ Hj) as (Hk & mj & Hmj & Hbusy).
    split; [done|]. destruct (decide (id = j)) as [<-|Hne].
    + exists v'. rewrite lookup_insert_eq. eauto.
    + exists mj. by rewrite lookup_insert_ne.
Qed.

(** *** Capital records *)

Lemma pallet_pro_rata_Ok b bps x :
  config_ok -> 0 <= b -> 0 <= bps <= BPS_DENOMINATOR ->
  PalletGuards.pro_rata b bps = Ok x ->
  x = b * bps / BPS_DENOMINATOR /\ 0 <= x <= b /\ b * bps < 2 ^ balance_bits.
Proof.
  intros Hok Hb Hbps H. pose proof (ok_balance_bits Hok).
  assert (2 ^ 16 <= 2 ^ balance_bits) by (apply Z.pow_le_mono_r; lia).
  unfold PalletGuards.pro_rata, saturated_into, uint_max in H.
  rewrite !Z.min_l in H by (unfold BPS_DENOMINATOR in *; lia). inv_run.
  apply and_then_Some in H as (y & Hy & Hd). boolprop.
  destruct Hy as [-> ?], Hd as [-> _]. split; [done|]. split; [|done].
  by apply share_le.
Qed.

Lemma slash_bps_in_range_Ok bps :
  config_ok -> slash_bps_in_range bps = true -> 0 <= bps <= BPS_DENOMINATOR.
Proof.
  unfold slash_bps_in_range. intros Hok H. pose proof (ok_min_slash Hok).
  pose proof (ok_max_slash Hok). boolprop. lia.
Qed.

(** With the invariant the fallback of [locked_miner_bond] for records without a bond
    entry is never taken. *)
Lemma locked_miner_bond_Some s id m o b :
  registry_inv s -> Miners s !! id = Some m -> locked_miner_bond s id o = Ok b ->
  MinerLockedBond s !! id = Some b.
Proof.
  intros Hi Hm H. unfold locked_miner_bond in H.
  destruct (ri_miner _ Hi _ _ Hm) as (_ & _ & _ & Hc).
  destruct (MinerLockedBond s !! id) as [b'|] eqn:Hb; [by inv_run|].
  exfalso. inv_run. boolprop. simplify_eq. unfold miner_capital in Hc. rewrite Hb in Hc.
  destruct (cm_status _); naive_solver.
Qed.

Lemma locked_validator_stake_Some s id v o b :
  registry_inv s -> Validators s !! id = Some v -> locked_validator_stake s id o = Ok b ->
  ValidatorLockedStake s !! id = Some b.
Proof.
  intros Hi Hv H. unfold locked_validator_stake in H.
  destruct (ri_validator _ Hi _ _ Hv) as (_ & _ & _ & Hc).
  destruct (ValidatorLockedStake s !! id) as [b'|] eqn:Hb; [by inv_run|].
  exfalso. inv_run. boolprop. simplify_eq. unfold validator_capital in Hc. rewrite Hb in Hc.
  destruct (cv_status _); naive_solver.
Qed.

Lemma miner_bond_nonneg s id b :
  config_ok -> registry_inv s -> MinerLockedBond s !! id = Some b -> 0 <= b.
Proof.
  intros Hok Hi Hb. destruct (ri_bond _ Hi _ _ Hb) as [m Hm].
  destruct (ri_miner _ Hi _ _ Hm) as (_ & _ & _ & Hc). unfold miner_capital in Hc.
  pose proof (ok_min_bond Hok). destruct (cm_status m); naive_solver lia.
Qed.

Lemma validator_stake_nonneg s id b :
  config_ok -> registry_inv s -> ValidatorLockedStake s !! id = Some b -> 0 <= b.
Proof.
  intros Hok Hi Hb. destruct (ri_stake _ Hi _ _ Hb) as [m Hm].
  destruct (ri_validator _ Hi _ _ Hm) as (_ & _ & _ & Hc). unfold validator_capital in Hc.
  pose proof (ok_min_stake Hok). destruct (cv_status m); naive_solver lia.
Qed.

(** *** New registrations *)

Lemma registry_new_miner s m :
  registry_inv s -> is_Some (Subnets s !! cm_subnet_id m) -> cm_id m = MinerCount s ->
  cm_status m = RegistryStatus_Pending ->
  registry_inv (s <| MinerCount := MinerCount s + 1 |>
                  <| Miners ::= <[MinerCount s := m]> |>).
Proof.
  intros [] Hs Hid Hst.
  assert (Hfresh : Miners s !! MinerCount s = None).
  { destruct (Miners s !! MinerCount s) eqn:E; [|done]. apply ri_miner0 in E. lia. }
  split; simpl; auto; [lia|..].
  - intros j mj. rewrite lookup_insert_Some. intros [[<- <-]|[Hj Hmj]].
    + rewrite Hst. split; [lia|]. do 2 (split; [done|]). simpl.
      destruct (MinerLockedBond s !! MinerCount s) eqn:E; [|done].
      apply ri_bond0 in E as []. congruence.
    + destruct (ri_miner0 _ _ Hmj) as (? & ? & ? & ?). split; [lia|done].
  - intros j b Hb. rewrite lookup_insert_is_Some'. right. eauto.
  - intros j k Hk. destruct (ri_pending_miner0 _ _ Hk) as (? & mj & Hmj & ?).
    split; [done|]. exists mj. split; [|done]. rewrite lookup_insert_ne; [done|congruence].
Qed.

Lemma registry_new_validator s v b :
  registry_inv s -> is_Some (Subnets s !! cv_subnet_id v) -> cv_id v = ValidatorCount s ->
  cv_status v = RegistryStatus_Pending -> MinValidatorStake <= b ->
  registry_inv (s <| ValidatorCount := ValidatorCount s + 1 |>
                  <| Validators ::= <[ValidatorCount s := v]> |>
                  <| ValidatorLockedStake ::= <[ValidatorCount s := b]> |>).
Proof.
  intros [] Hs Hid Hst Hb.
  assert (Hfresh : Validators s !! ValidatorCount s = None).
  { destruct (Validators s !! ValidatorCount s) eqn:E; [|done]. apply ri_validator0 in E. lia. }
  split; simpl; auto; [lia|..].
  - intros j vj. rewrite lookup_insert_Some. intros [[<- <-]|[Hj Hvj]].
    + rewrite Hst. split; [lia|]. do 2 (split; [done|]). simpl.
      rewrite lookup_insert_eq. eauto.
    + destruct (ri_validator0 _ _ Hvj) as (? & ? & ? & Hc). split; [lia|].
      do 2 (split; [done|]). eapply validator_capital_other; [|exact Hc]. simpl.
      by rewrite lookup_insert_ne.
  - intros j b'. rewrite lookup_insert_Some, lookup_insert_is_Some'.
    intros [[<- _]|[_ ?]]; [by left|right; eauto].
  - intros j k Hk. destruct (ri_pending_validator0 _ _ Hk) as (? & vj & Hvj & ?).
    split; [done|]. exists vj. split; [|done]. rewrite lookup_insert_ne; [done|congruence].
Qed.

(** *** Pending counters *)

Lemma registry_pending s s' pm pv :
  registry_inv s ->
  registry_view s' = registry_view (s <| PendingMinerRequests := pm |>
                                      <| PendingValidatorRequests := pv |>) ->
  (forall id k, pm !! id = Some k ->
     0 < k /\ exists m, Miners s !! id = Some m /\ busy_status (cm_status m)) ->
  (forall id k, pv !! id = Some k ->
     0 < k /\ exists v, Validators s !! id = Some v /\ busy_status (cv_status v)) ->
  registry_inv s'.
Proof. intros [] Hview Hm Hv. apply (registry_inv_view _ _ Hview). by split. Qed.

Lemma ensure_request_assignment_Ok s n m v u :
  ensure_request_assignment s n m v = Ok u ->
  exists mr vr, Miners s !! m = Some mr /\ Validators s !! v = Some vr
    /\ cm_status mr = RegistryStatus_Active /\ cv_status vr = RegistryStatus_Active
    /\ cm_subnet_id mr = n /\ cv_subnet_id vr = n
    /\ cm_operator_commitment mr <> cv_operator_commitment vr.
Proof.
  unfold ensure_request_assignment, ensure_distinct_operators, is_active. intros H.
  inv_run. boolprop. naive_solver.
Qed.

Lemma registry_slash_miner s o id m b bps x c st :
  config_ok -> registry_inv s -> Miners s !! id = Some m -> locked_miner_bond s id o = Ok b ->
  slash_bps_in_range bps = true -> PalletGuards.pro_rata b bps = Ok x ->
  st = (if (b - x <? MinMinerBond) && negb (is_exiting (cm_status m))
        then RegistryStatus_Slashed else cm_status m) ->
  registry_inv (s <| currency_state := c |> <| MinerLockedBond ::= <[id := b - x]> |>
                  <| Miners ::= <[id := with_miner_status id st m]> |>).
Proof.
  intros Hok Hi Hm Hb Hbps Hx Hst.
  pose proof (locked_miner_bond_Some _ _ _ _ _ Hi Hm Hb) as Hl.
  pose proof (miner_bond_nonneg _ _ _ Hok Hi Hl).
  destruct (pallet_pro_rata_Ok _ _ _ Hok ltac:(done) (slash_bps_in_range_Ok _ Hok Hbps) Hx)
    as (_ & Hxb & _).
  destruct (ri_miner _ Hi _ _ Hm) as (_ & _ & _ & Hc). unfold miner_capital in Hc.
  eapply (registry_update_miner s _ id m (with_miner_status id st m) (<[id := b - x]> (MinerLockedBond s)));
    try done.
  - intros j Hj. by rewrite lookup_insert_ne.
  - unfold miner_capital; simpl. rewrite lookup_insert_eq, Hst. rewrite Hl in Hc.
    destruct (Z.ltb_spec (b - x) MinMinerBond); simpl;
      destruct (cm_status m); simpl in *; naive_solver lia.
  - intros k Hk. destruct (ri_pending_miner _ Hi _ _ Hk) as (_ & m' & Hm' & Hbusy).
    simplify_eq. simpl. unfold busy_status in *. destruct (_ && _); auto.
Qed.

Lemma registry_slash_validator s o id v b bps x c st :
  config_ok -> registry_inv s -> Validators s !! id = Some v ->
  locked_validator_stake s id o = Ok b ->
  slash_bps_in_range bps = true -> PalletGuards.pro_rata b bps = Ok x ->
  st = (if (b - x <? MinValidatorStake) && negb (is_exiting (cv_status v))
        then RegistryStatus_Slashed else cv_status v) ->
  registry_inv (s <| currency_state := c |> <| ValidatorLockedStake ::= <[id := b - x]> |>
                  <| Validators ::= <[id := with_validator_status id st v]> |>).
Proof.
  intros Hok Hi Hv Hb Hbps Hx Hst.
  pose proof (locked_validator_stake_Some _ _ _ _ _ Hi Hv Hb) as Hl.
  pose proof (validator_stake_nonneg _ _ _ Hok Hi Hl).
  destruct (pallet_pro_rata_Ok _ _ _ Hok ltac:(done) (slash_bps_in_range_Ok _ Hok Hbps) Hx)
    as (_ & Hxb & _).
  destruct (ri_validator _ Hi _ _ Hv) as (_ & _ & _ & Hc). unfold validator_capital in Hc.
  eapply (registry_update_validator s _ id v (with_validator_status id st v) (<[id := b - x]> (ValidatorLockedStake s)));
    try done.
  - intros j Hj. by rewrite lookup_insert_ne.
  - unfold validator_capital; simpl. rewrite lookup_insert_eq, Hst. rewrite Hl in Hc.
    destruct (Z.ltb_spec (b - x) MinValidatorStake); simpl;
      destruct (cv_status v); simpl in *; naive_solver lia.
  - intros k Hk. destruct (ri_pending_validator _ Hi _ _ Hk) as (_ & v' & Hv' & Hbusy).
    simplify_eq. simpl. unfold busy_status in *. destruct (_ && _); auto.
Qed.

(** A miner status change that keeps the bond record. *)
Lemma registry_miner_status s id m st :
  registry_inv s -> Miners s !! id = Some m -> miner_capital s id st ->
  (forall k, PendingMinerRequests s !! id = Some k -> busy_status st) ->
  registry_inv (s <| Miners ::= <[id := with_miner_status id st m]> |>).
Proof.
  intros Hi Hm Hc Hp.
  by eapply (registry_update_miner s _ id m (with_miner_status id st m) (MinerLockedBond s)).
Qed.

Lemma registry_validator_status s s' id v st :
  registry_inv s -> Validators s !! id = Some v -> validator_capital s id st ->
  (forall k, PendingValidatorRequests s !! id = Some k -> busy_status st) ->
  registry_view s' =
    registry_view (s <| Validators ::= <[id := with_validator_status id st v]> |>) ->
  registry_inv s'.
Proof.
  intros Hi Hv Hc Hp Hview.
  eapply (registry_update_validator s s' id v (with_validator_status id st v)
    (ValidatorLockedStake s)); try done.
  eapply validator_capital_other; [|exact Hc]. unfold registry_view in Hview.
  simpl in Hview. by injection Hview as _ _ _ _ _ _ -> _ _ _ _.
Qed.

Lemma no_pending_miner s id k :
  registry_inv s -> default 0 (PendingMinerRequests s !! id) = 0 ->
  PendingMinerRequests s !! id <> Some k.
Proof. intros Hi Hd Hk. rewrite Hk in Hd. apply (ri_pending_miner _ Hi) in Hk. simpl in *. lia. Qed.

Lemma no_pending_validator s id k :
  registry_inv s -> default 0 (PendingValidatorRequests s !! id) = 0 ->
  PendingValidatorRequests s !! id <> Some k.
Proof.
  intros Hi Hd Hk. rewrite Hk in Hd. apply (ri_pending_validator _ Hi) in Hk. simpl in *. lia.
Qed.

Lemma registry_open s n input o c pm pv :
  registry_inv s -> opens s n o c pm pv -> registry_inv (opened_store s n input o c pm pv).
Proof.
  intros Hi [_ _ _ _ Ha _ Hm Hv _].
  apply ensure_request_assignment_Ok in Ha as (mr & vr & Hmr & Hvr & Hms & Hvs & _).
  apply increment_count_Ok in Hm. apply increment_count_Ok in Hv.
  eapply (registry_pending s _ pm pv); [done|done|..]; intros id k; rewrite ?Hm, ?Hv,
    lookup_insert_Some.
  - intros [[<- <-]|[_ Hk]]; [|by apply (ri_pending_miner _ Hi)]. split; [|exists mr; split; [done|by left]].
    destruct (PendingMinerRequests s !! _) eqn:E; simpl; [|lia].
    apply (ri_pending_miner _ Hi) in E. lia.
  - intros [[<- <-]|[_ Hk]]; [|by apply (ri_pending_validator _ Hi)]. split.
    + destruct (PendingValidatorRequests s !! _) eqn:E; simpl; [|lia].
      apply (ri_pending_validator _ Hi) in E. lia.
    + exists vr. split; [done|by left].
Qed.

Lemma registry_close s id r st u m v ab tw c pm pv :
  registry_inv s -> closes s id r st u m v ab tw c pm pv ->
  registry_inv (closed_store s id r st c pm pv).
Proof.
  intros Hi [_ _ _ _ _ _ _ Hm Hv _ _].
  eapply (registry_pending s _ pm pv); [done|by destruct st|..]; intros j k Hk.
  - destruct (decrement_count_lookup _ _ _ _ _ Hm
      (fun i n Hn => proj1 (ri_pending_miner _ Hi i n Hn)) Hk) as (Hpos & n & Hn).
    split; [done|]. by apply (ri_pending_miner _ Hi) in Hn as [_ ?].
  - destruct (decrement_count_lookup _ _ _ _ _ Hv
      (fun i n Hn => proj1 (ri_pending_validator _ Hi i n Hn)) Hk) as (Hpos & n & Hn).
    split; [done|]. by apply (ri_pending_validator _ Hi) in Hn as [_ ?].
Qed.

Lemma registry_same s s' : same_registry s s' -> registry_inv s -> registry_inv s'.
Proof. intros Hs Hi. apply (registry_inv_view s); [by rewrite Hs|done]. Qed.

Lemma registry_exit_miner s id m e :
  registry_inv s -> Miners s !! id = Some m -> busy_status (cm_status m) ->
  default 0 (PendingMinerRequests s !! id) = 0 -> config_ok ->
  registry_inv (s <| Miners ::= <[id := with_miner_status id (RegistryStatus_Exiting e) m]> |>).
Proof.
  intros Hi Hm Hst Hp Hok. apply registry_miner_status; try done.
  - destruct (ri_miner _ Hi _ _ Hm) as (_ & _ & _ & Hc). pose proof (ok_min_bond Hok).
    unfold miner_capital in *. destruct Hst as [Hst|Hst]; rewrite Hst in Hc; naive_solver lia.
  - intros k Hk. by destruct (no_pending_miner _ _ _ Hi Hp Hk).
Qed.

Lemma registry_exit_validator s id v e :
  registry_inv s -> Validators s !! id = Some v ->
  cv_status v = RegistryStatus_Pending \/ busy_status (cv_status v) ->
  default 0 (PendingValidatorRequests s !! id) = 0 -> config_ok ->
  registry_inv (s <| Validators ::=
                       <[id := with_validator_status id (RegistryStatus_Exiting e) v]> |>).
Proof.
  intros Hi Hv Hst Hp Hok. eapply (registry_validator_status s); try done.
  - destruct (ri_validator _ Hi _ _ Hv) as (_ & _ & _ & Hc). pose proof (ok_min_stake Hok).
    unfold validator_capital in *.
    destruct Hst as [Hst|[Hst|Hst]]; rewrite Hst in Hc; naive_solver lia.
  - intros k Hk. by destruct (no_pending_validator _ _ _ Hi Hp Hk).
Qed.

Lemma registry_withdraw_miner s id m e c :
  registry_inv s -> Miners s !! id = Some m -> cm_status m = RegistryStatus_Exiting e ->
  registry_inv (s <| currency_state := c |> <| MinerLockedBond ::= delete id |>
                  <| Miners ::= <[id := with_miner_status id RegistryStatus_Disabled m]> |>).
Proof.
  intros Hi Hm Hst.
  eapply (registry_update_miner s _ id m (with_miner_status id RegistryStatus_Disabled m)
    (delete id (MinerLockedBond s))); try done.
  - intros j Hj. by rewrite lookup_delete_ne.
  - simpl. by rewrite lookup_delete_eq.
  - intros k Hk. destruct (ri_pending_miner _ Hi _ _ Hk) as (_ & m' & Hm' & Hb).
    simplify_eq. rewrite Hst in Hb. by destruct Hb.
Qed.

Lemma registry_withdraw_validator s id v e c :
  registry_inv s -> Validators s !! id = Some v -> cv_status v = RegistryStatus_Exiting e ->
  registry_inv (s <| currency_state := c |> <| ValidatorLockedStake ::= delete id |>
                  <| Validators ::=
                       <[id := with_validator_status id RegistryStatus_Disabled v]> |>).
Proof.
  intros Hi Hv Hst.
  eapply (registry_update_validator s _ id v
    (with_validator_status id RegistryStatus_Disabled v)
    (delete id (ValidatorLockedStake s))); try done.
  - intros j Hj. by rewrite lookup_delete_ne.
  - simpl. by rewrite lookup_delete_eq.
  - intros k Hk. destruct (ri_pending_validator _ Hi _ _ Hk) as (_ & v' & Hv' & Hb).
    simplify_eq. rewrite Hst in Hb. by destruct Hb.
Qed.

Lemma registry_activate s id m b c :
  registry_inv s -> Miners s !! id = Some m -> cm_status m = RegistryStatus_Pending ->
  MinMinerBond <= b ->
  registry_inv (s <| currency_state := c |> <| MinerLockedBond ::= <[id := b]> |>
                  <| Miners ::= <[id := with_miner_status id RegistryStatus_Active m]> |>).
Proof.
  intros Hi Hm Hst Hb.
  eapply (registry_update_miner s _ id m (with_miner_status id RegistryStatus_Active m)
    (<[id := b]> (MinerLockedBond s))); try done.
  - intros j Hj. by rewrite lookup_insert_ne.
  - simpl. rewrite lookup_insert_eq. eauto.
  - intros. by left.
Qed.

(** The validator record after its identity was published or cleared. *)
Lemma registry_validator_identity s s' id v st :
  registry_inv s -> Validators s !! id = Some v ->
  default 0 (PendingValidatorRequests s !! id) = 0 ->
  cv_status v = RegistryStatus_Active \/ cv_status v = RegistryStatus_Pending ->
  st = RegistryStatus_Active \/ st = RegistryStatus_Pending ->
  registry_view s' =
    registry_view (s <| Validators ::= <[id := with_validator_status id st v]> |>) ->
  registry_inv s'.
Proof.
  intros Hi Hv Hp Hst Hst' Hview. eapply (registry_validator_status s); try done.
  - destruct (ri_validator _ Hi _ _ Hv) as (_ & _ & _ & Hc). unfold validator_capital in *.
    destruct Hst as [Hst|Hst], Hst' as [->| ->]; by rewrite Hst in Hc.
  - intros k Hk. by destruct (no_pending_validator _ _ _ Hi Hp Hk).
Qed.

Lemma trans_registry_inv s s' : config_ok -> trans s s' -> registry_inv s -> registry_inv s'.
Proof.
  intros Hok Ht Hi. destruct Ht; try (by apply (registry_inv_view s)).
  - by apply (registry_same s).
  - destruct Hi. split; simpl; auto.
    + intros j m Hm. destruct (ri_miner0 _ _ Hm) as (? & ? & ? & ?).
      rewrite lookup_insert_is_Some'. auto.
    + intros j v Hv. destruct (ri_validator0 _ _ Hv) as (? & ? & ? & ?).
      rewrite lookup_insert_is_Some'. auto.
  - by apply registry_new_miner.
  - apply registry_activate; tauto.
  - apply (registry_inv_view (s <| ValidatorCount := ValidatorCount s + 1 |>
      <| Validators ::= <[ValidatorCount s := v]> |>
      <| ValidatorLockedStake ::= <[ValidatorCount s := b]> |>)); [done|].
    by apply registry_new_validator.
  - by apply registry_exit_miner.
  - apply registry_exit_validator; auto.
  - by eapply registry_withdraw_miner.
  - by eapply registry_withdraw_validator.
  - by eapply registry_slash_miner.
  - by eapply registry_slash_validator.
  - subst. by apply (registry_inv_view s).
  - subst. eapply (registry_validator_identity s _ id v RegistryStatus_Active); auto.
  - destruct (is_active (cv_status v)) eqn:Ha; unfold is_active in Ha; boolprop.
    + by eapply (registry_validator_identity s _ id v RegistryStatus_Pending); auto.
    + eapply (registry_inv_view s); [|done]. unfold registry_view; simpl.
      by rewrite insert_id.
  - by apply registry_open.
  - by eapply registry_close.
  - apply registry_inv_records. by eapply registry_close.
Qed.

End Registry.

(** ** Requests and their counters *)

Section Requests.
Context {C : Type} `{CC : !Currency C} `{T : !Config} `{HH : !Hashing}.
Implicit Types s : Store C.

Definition count_status (st : InferenceRequestStatus) (m : gmap Z ChainInferenceRequest) : Z :=
  map_sum (fun _ r => if decide (rq_status r = st) then 1 else 0) m.

Definition total_count (m : gmap Z Z) : Z := map_sum (fun _ k => k) m.

(** Request ids are handed out in sequence and never reused; each status counter counts
    the stored requests of that status; the pending counters of the miners and of the
    validators both add up to the number of pending requests. *)
Record request_inv s : Prop := {
  qi_count : 0 <= RequestCount s < 2 ^ 64;
  qi_domain id : is_Some (InferenceRequests s !! id) <-> 0 <= id < RequestCount s;
  qi_id id r : InferenceRequests s !! id = Some r -> rq_request_id r = id;
  qi_status st : status_count st s = count_status st (InferenceRequests s);
  qi_miners : total_count (PendingMinerRequests s) = PendingInferenceRequestCount s;
  qi_validators : total_count (PendingValidatorRequests s) = PendingInferenceRequestCount s;
}.

Definition request_view s :=
  (RequestCount s, InferenceRequests s,
   (PendingInferenceRequestCount s, SettledInferenceRequestCount s,
    CancelledInferenceRequestCount s, RejectedInferenceRequestCount s,
    ExpiredInferenceRequestCount s),
   PendingMinerRequests s, PendingValidatorRequests s).

Lemma request_inv_view s s' :
  request_view s' = request_view s -> request_inv s -> request_inv s'.
Proof.
  unfold request_view. intros [= H1 H2 H3 H4 H5 H6 H7 H8 H9] [].
  split; rewrite ?H1, ?H2, ?H3, ?H4, ?H5, ?H6, ?H7, ?H8, ?H9; auto.
  intros st. rewrite <- qi_status0. destruct st; simpl; congruence.
Qed.

Lemma InferenceRequests_records s f :
  InferenceRequests (s <| ProofRecords ::= f |>) = InferenceRequests s.
Proof. done. Qed.

Lemma request_inv_records s f : request_inv s -> request_inv (s <| ProofRecords ::= f |>).
Proof. by apply request_inv_view. Qed.

Lemma total_count_increment id m m' :
  increment_count id m = Ok m' -> total_count m' = total_count m + 1.
Proof.
  intros ->%increment_count_Ok. unfold total_count. rewrite map_sum_insert.
  destruct (m !! id); simpl; lia.
Qed.

Lemma total_count_decrement id m m' :
  decrement_count id m = Ok m' -> total_count m' = total_count m - 1.
Proof.
  intros (k & Hk & _ & ->)%decrement_count_Ok. unfold total_count.
  destruct (Z.eqb_spec (k - 1) 0).
  - rewrite (map_sum_delete _ m id k Hk). lia.
  - rewrite map_sum_insert, Hk. lia.
Qed.

Lemma count_status_close st m id r st' :
  m !! id = Some r ->
  count_status st (<[id := r <| rq_status := st' |>]> m)
  = count_status st m + (if decide (st' = st) then 1 else 0)
    - (if decide (rq_status r = st) then 1 else 0).
Proof. intros Hr. unfold count_status. rewrite map_sum_insert, Hr. simpl. lia. Qed.

Lemma request_open s n input o c pm pv :
  opens s n o c pm pv -> request_inv s -> request_inv (opened_store s n input o c pm pv).
Proof.
  intros [Hfresh Hnext _ _ _ _ Hm Hv _] []. split; simpl.
  - lia.
  - intros id. rewrite lookup_insert_is_Some', qi_domain0. lia.
  - intros id r. rewrite lookup_insert_Some. intros [[<- <-]|[_ ?]]; eauto.
  - intros st. unfold count_status. rewrite map_sum_insert_None by done. simpl.
    fold (count_status st (InferenceRequests s)). rewrite <- qi_status0.
    destruct st; simpl; lia.
  - rewrite (total_count_increment _ _ _ Hm). lia.
  - rewrite (total_count_increment _ _ _ Hv). lia.
Qed.

Lemma request_close s id r st u m v ab tw c pm pv :
  closes s id r st u m v ab tw c pm pv -> request_inv s ->
  request_inv (closed_store s id r st c pm pv).
Proof.
  intros [Hr Hpend Hst _ _ _ _ Hm Hv _ _] [].
  assert (Hcs : forall x, status_count x (closed_store s id r st c pm pv)
    = status_count x s + (if decide (st = x) then 1 else 0)
      - (if decide (InferenceRequestStatus_Pending = x) then 1 else 0)).
  { intros x. destruct st, x; simpl; try done; repeat case_decide; try done; lia. }
  assert (Hreqs : InferenceRequests (closed_store s id r st c pm pv)
    = <[id := r <| rq_status := st |>]> (InferenceRequests s)) by (by destruct st).
  split; rewrite ?Hreqs.
  - by destruct st.
  - intros j. rewrite lookup_insert_is_Some'.
    replace (RequestCount (closed_store s id r st c pm pv)) with (RequestCount s)
      by (by destruct st). rewrite <- qi_domain0. naive_solver.
  - intros j rj. rewrite lookup_insert_Some. intros [[<- <-]|[_ ?]]; simpl; eauto.
  - intros x. rewrite Hcs, (count_status_close x _ _ _ _ Hr), qi_status0, Hpend.
    lia.
  - transitivity (total_count pm); [by destruct st|].
    rewrite (total_count_decrement _ _ _ Hm), qi_miners0. by destruct st.
  - transitivity (total_count pv); [by destruct st|].
    rewrite (total_count_decrement _ _ _ Hv), qi_validators0. by destruct st.
Qed.

Lemma trans_request_inv s s' : trans s s' -> request_inv s -> request_inv s'.
Proof.
  intros Ht Hi. destruct Ht; subst; try (by apply (request_inv_view s)).
  - apply (request_inv_view s); [|done]. match goal with H : same_registry _ _ |- _ => by rewrite H end.
  - by apply request_open.
  - by eapply request_close.
  - apply request_inv_records. by eapply request_close.
Qed.

(** A request that left the pending state never changes again, and while it is pending
    its commitments stay as they were written. *)
Lemma close_request_final s id r st c pm pv id' r0 :
  InferenceRequests s !! id' = Some r0 -> rq_status r0 = InferenceRequestStatus_Pending ->
  InferenceRequests s !! id = Some r ->
  exists r', InferenceRequests (closed_store s id' r0 st c pm pv) !! id = Some r'
    /\ r' = r <| rq_status := rq_status r' |>
    /\ (rq_status r <> InferenceRequestStatus_Pending -> r' = r).
Proof.
  intros Hr' Hpend Hr.
  replace (InferenceRequests (closed_store s id' r0 st c pm pv))
    with (<[id' := r0 <| rq_status := st |>]> (InferenceRequests s)) by (by destruct st).
  destruct (decide (id' = id)) as [->|Hne].
  - rewrite lookup_insert_eq. simplify_eq. eexists. split; [done|]. split; [done|].
    by rewrite Hpend.
  - rewrite lookup_insert_ne by done. exists r. split; [done|]. by destruct r.
Qed.

Lemma trans_request_final s s' id r :
  trans s s' -> InferenceRequests s !! id = Some r ->
  exists r', InferenceRequests s' !! id = Some r' /\ r' = r <| rq_status := rq_status r' |>
    /\ (rq_status r <> InferenceRequestStatus_Pending -> r' = r).
Proof.
  intros Ht Hr. destruct Ht; subst; try (exists r; split; [done|]; by destruct r).
  - exists r. match goal with H : same_registry _ _ |- _ => rewrite H end. by destruct r.
  - exists r. split; [|by destruct r]. simpl. rewrite lookup_insert_ne; [done|].
    intros <-. destruct H as [Hf]. congruence.
  - destruct H. by eapply close_request_final.
  - rewrite InferenceRequests_records. destruct H. by eapply close_request_final.
Qed.

End Requests.
