(* ===== verification/PalletCapacity.v ===== *)
(** * The Qubitum pallet: routing sets and their capacity

    The routing sets are recomputed from the registries at every use; this file proves
    that they never outgrow the configured capacities, so that the indices of the rotated
    search never overflow. *)

From S2P Require Import Prelude Protocol PostQuantum Pallet PalletGuards PalletRouting.
From S2P Require Import PalletCalls PalletTransitions PalletInvariants.
From stdpp Require Import base tactics list gmap strings list_numbers relations.
From Stdlib Require Import ZArith Lia.
Open Scope Z_scope.

(** ** Lists without duplicates *)

Section Lengths.
Context {A : Type} `{EqDecision A}.
Implicit Types l k : list A.

Lemma NoDup_incl_length l k :
  NoDup l -> (forall x, x ∈ l -> x ∈ k) -> Z.of_nat (length l) <= Z.of_nat (length k).
Proof. intros Hl Hin. apply Nat2Z.inj_le, submseteq_length, NoDup_submseteq; auto. Qed.

Lemma NoDup_incl_cons_length l k x :
  NoDup l -> (forall y, y ∈ l -> y = x \/ y ∈ k) ->
  Z.of_nat (length l) <= Z.of_nat (length k) + 1.
Proof.
  intros Hl Hin. transitivity (Z.of_nat (length (x :: k))); [|simpl; lia].
  apply NoDup_incl_length; [done|]. intros y Hy. apply elem_of_cons. auto.
Qed.

End Lengths.

Section Capacity.
Context {C : Type} `{CC : !Currency C} `{T : !Config} `{HH : !Hashing}.
Implicit Types s : Store C.

(** A set that passed the capacity check for [id] may take [id]. *)
Lemma route_capacity_insert ids ids' id max e u :
  ensure_route_capacity ids (Some id) max e = Ok u ->
  NoDup ids' -> (forall x, x ∈ ids' -> x = id \/ x ∈ ids) ->
  Z.of_nat (length ids) < 2 ^ 32 -> Z.of_nat (length ids') <= max.
Proof.
  unfold ensure_route_capacity, len_u32. intros H Hd Hin Hl.
  rewrite Z.mod_small in H by lia. case_bool_decide as Hid; inv_run; boolprop.
  - transitivity (Z.of_nat (length ids)); [|done]. apply NoDup_incl_length; [done|].
    intros x [->|?]%Hin; done.
  - pose proof (NoDup_incl_cons_length _ _ _ Hd Hin). lia.
Qed.

(** ** Which ids a change can add *)

Definition same_miner s s' (id : Z) : Prop :=
  (0 <= id < MinerCount s' -> 0 <= id < MinerCount s)
  /\ Miners s' !! id = Miners s !! id
  /\ MinerLockedBond s' !! id = MinerLockedBond s !! id
  /\ MinerIdentityCommitments s' !! id = MinerIdentityCommitments s !! id
  /\ MinerIdentitySignatureBundles s' !! id = MinerIdentitySignatureBundles s !! id
  /\ MinerIdentitySignatureChallenges s' !! id = MinerIdentitySignatureChallenges s !! id.

Definition same_validator s s' (id : Z) : Prop :=
  (0 <= id < ValidatorCount s' -> 0 <= id < ValidatorCount s)
  /\ Validators s' !! id = Validators s !! id
  /\ ValidatorLockedStake s' !! id = ValidatorLockedStake s !! id
  /\ ValidatorIdentityCommitments s' !! id = ValidatorIdentityCommitments s !! id
  /\ ValidatorIdentitySignatureBundles s' !! id = ValidatorIdentitySignatureBundles s !! id
  /\ ValidatorIdentitySignatureChallenges s' !! id
     = ValidatorIdentitySignatureChallenges s !! id.

Lemma eligible_same_miner s s' n id m :
  same_miner s s' id -> eligible_miner s' n id m -> eligible_miner s n id m.
Proof.
  intros (Hc & Hm & Hb & H1 & H2 & H3) (Hr & Hl & Hn & He).
  split; [auto|]. split; [by rewrite <- Hm|]. split; [done|].
  revert He. unfold miner_is_route_eligible, miner_has_active_locked_bond_record,
    ensure_miner_signature_bundle_bound. by rewrite Hb, H1, H2, H3.
Qed.

Lemma eligible_same_validator s s' n id v :
  same_validator s s' id -> eligible_validator s' n id v -> eligible_validator s n id v.
Proof.
  intros (Hc & Hm & Hb & H1 & H2 & H3) (Hr & Hl & Hn & He).
  split; [auto|]. split; [by rewrite <- Hm|]. split; [done|].
  revert He. unfold validator_is_route_eligible, validator_has_active_locked_stake_record,
    ensure_validator_signature_bundle_bound. by rewrite Hb, H1, H2, H3.
Qed.

(** The routing sets of [s'] are those of [s], except that [x] may have joined. *)
Lemma miner_ids_but_one s s' x n id :
  (forall j, j <> x -> same_miner s s' j) ->
  id ∈ active_miner_route_ids s' n -> id = x \/ id ∈ active_miner_route_ids s n.
Proof.
  intros Hs. rewrite !elem_of_active_miner_route_ids. intros [m Hm].
  destruct (decide (id = x)) as [->|Hne]; [by left|right].
  exists m. by eapply eligible_same_miner; [apply Hs|].
Qed.

Lemma validator_ids_but_one s s' x n id :
  (forall j, j <> x -> same_validator s s' j) ->
  id ∈ active_validator_route_ids s' n -> id = x \/ id ∈ active_validator_route_ids s n.
Proof.
  intros Hs. rewrite !elem_of_active_validator_route_ids. intros [m Hm].
  destruct (decide (id = x)) as [->|Hne]; [by left|right].
  exists m. by eapply eligible_same_validator; [apply Hs|].
Qed.

(** ** The invariant *)

Definition miner_capacity s : Prop := forall n,
  Z.of_nat (length (active_miner_route_ids s n)) <= MaxActiveMinersPerSubnet.

Definition validator_capacity s : Prop := forall n,
  Z.of_nat (length (active_validator_route_ids s n)) <= MaxActiveValidatorsPerSubnet.

(** A change of one miner that does not make it eligible. *)
Lemma miner_capacity_no_new s s' x :
  (forall j, j <> x -> same_miner s s' j) ->
  (forall n m, eligible_miner s' n x m -> exists m0, eligible_miner s n x m0) ->
  miner_capacity s -> miner_capacity s'.
Proof.
  intros Hs Hx Hc n. etrans; [|apply (Hc n)].
  apply NoDup_incl_length; [apply active_miner_route_ids_NoDup|].
  intros id Hid. destruct (miner_ids_but_one s s' x n id Hs Hid) as [->|?]; [|done].
  apply elem_of_active_miner_route_ids in Hid as [m Hm].
  apply elem_of_active_miner_route_ids. eauto.
Qed.

Lemma validator_capacity_no_new s s' x :
  (forall j, j <> x -> same_validator s s' j) ->
  (forall n v, eligible_validator s' n x v -> exists v0, eligible_validator s n x v0) ->
  validator_capacity s -> validator_capacity s'.
Proof.
  intros Hs Hx Hc n. etrans; [|apply (Hc n)].
  apply NoDup_incl_length; [apply active_validator_route_ids_NoDup|].
  intros id Hid. destruct (validator_ids_but_one s s' x n id Hs Hid) as [->|?]; [|done].
  apply elem_of_active_validator_route_ids in Hid as [m Hm].
  apply elem_of_active_validator_route_ids. eauto.
Qed.

(** No miner changed at all. *)
Lemma miner_capacity_same s s' :
  (forall j, same_miner s s' j) -> miner_capacity s -> miner_capacity s'.
Proof.
  intros Hs. apply (miner_capacity_no_new s s' 0); [auto|].
  intros n m Hm. exists m. by eapply eligible_same_miner.
Qed.

Lemma validator_capacity_same s s' :
  (forall j, same_validator s s' j) -> validator_capacity s -> validator_capacity s'.
Proof.
  intros Hs. apply (validator_capacity_no_new s s' 0); [auto|].
  intros n v Hv. exists v. by eapply eligible_same_validator.
Qed.

(** One miner joins its subnet's set after [insert_active_miner] allowed it at [s1], a
    state between [s] and [s'] that also differs in that miner only. *)
Lemma miner_capacity_join s s1 s' x m :
  config_ok -> (forall j, j <> x -> same_miner s s1 j) ->
  (forall j, j <> x -> same_miner s1 s' j) -> (forall j, j <> x -> same_miner s s' j) ->
  (forall n m', eligible_miner s' n x m' -> n = cm_subnet_id m) ->
  insert_active_miner s1 (cm_subnet_id m) x = Ok tt ->
  miner_capacity s -> miner_capacity s'.
Proof.
  intros Hok H1 H1' Hs Hx Hins Hc n. pose proof (ok_max_miners Hok).
  destruct (decide (n = cm_subnet_id m)) as [->|Hn].
  - eapply route_capacity_insert; [exact Hins|apply active_miner_route_ids_NoDup|..].
    + intros id. by apply miner_ids_but_one.
    + pose proof (NoDup_incl_cons_length _ _ x (active_miner_route_ids_NoDup s1 (cm_subnet_id m))
        (fun id => miner_ids_but_one s s1 x (cm_subnet_id m) id H1)).
      specialize (Hc (cm_subnet_id m)). lia.
  - etrans; [|apply (Hc n)]. apply NoDup_incl_length; [apply active_miner_route_ids_NoDup|].
    intros id Hid. destruct (miner_ids_but_one s s' x n id Hs Hid) as [->|?]; [|done].
    apply elem_of_active_miner_route_ids in Hid as [m' Hm']. by apply Hx in Hm'.
Qed.

Lemma validator_capacity_join s s1 s' x v :
  config_ok -> (forall j, j <> x -> same_validator s s1 j) ->
  (forall j, j <> x -> same_validator s1 s' j) ->
  (forall j, j <> x -> same_validator s s' j) ->
  (forall n v', eligible_validator s' n x v' -> n = cv_subnet_id v) ->
  insert_active_validator s1 (cv_subnet_id v) x = Ok tt ->
  validator_capacity s -> validator_capacity s'.
Proof.
  intros Hok H1 H1' Hs Hx Hins Hc n. pose proof (ok_max_validators Hok).
  destruct (decide (n = cv_subnet_id v)) as [->|Hn].
  - eapply route_capacity_insert; [exact Hins|apply active_validator_route_ids_NoDup|..].
    + intros id. by apply validator_ids_but_one.
    + pose proof (NoDup_incl_cons_length _ _ x
        (active_validator_route_ids_NoDup s1 (cv_subnet_id v))
        (fun id => validator_ids_but_one s s1 x (cv_subnet_id v) id H1)).
      specialize (Hc (cv_subnet_id v)). lia.
  - etrans; [|apply (Hc n)]. apply NoDup_incl_length; [apply active_validator_route_ids_NoDup|].
    intros id Hid. destruct (validator_ids_but_one s s' x n id Hs Hid) as [->|?]; [|done].
    apply elem_of_active_validator_route_ids in Hid as [m' Hm']. by apply Hx in Hm'.
Qed.

Lemma slash_share b bps x :
  config_ok -> 0 <= b -> slash_bps_in_range bps = true -> PalletGuards.pro_rata b bps = Ok x ->
  0 <= x <= b.
Proof. intros Hok Hb Hbps%slash_bps_in_range_Ok Hx; [|done]. by eapply pallet_pro_rata_Ok. Qed.

(** A slash never makes a miner eligible: it lowers the bond and either keeps the status
    or leaves the active one. *)
Lemma slashed_miner_eligible s s' n id m b x c m' :
  registry_inv s -> Miners s !! id = Some m -> MinerLockedBond s !! id = Some b -> 0 <= x ->
  s' = s <| currency_state := c |> <| MinerLockedBond ::= <[id := b - x]> |>
         <| Miners ::= <[id := with_miner_status id
              (if (b - x <? MinMinerBond) && negb (is_exiting (cm_status m))
               then RegistryStatus_Slashed else cm_status m) m]> |> ->
  eligible_miner s' n id m' -> eligible_miner s n id m.
Proof.
  intros Hi Hm Hb Hx -> (Hr & Hm' & Hn & He). simpl in *.
  rewrite lookup_insert_eq in Hm'. injection Hm' as <-. split; [done|]. split; [done|].
  split; [done|]. revert He. unfold miner_is_route_eligible, miner_has_active_locked_bond_record.
  simpl. rewrite lookup_insert_eq, Hb. unfold is_active.
  intros H. boolprop. destruct H as [[Hst Hle] Hsig]. split; [split; [|lia]|done].
  revert Hst. by destruct (_ && _).
Qed.

Lemma slashed_validator_eligible s s' n id v b x c v' :
  registry_inv s -> Validators s !! id = Some v -> ValidatorLockedStake s !! id = Some b ->
  0 <= x ->
  s' = s <| currency_state := c |> <| ValidatorLockedStake ::= <[id := b - x]> |>
         <| Validators ::= <[id := with_validator_status id
              (if (b - x <? MinValidatorStake) && negb (is_exiting (cv_status v))
               then RegistryStatus_Slashed else cv_status v) v]> |> ->
  eligible_validator s' n id v' -> eligible_validator s n id v.
Proof.
  intros Hi Hm Hb Hx -> (Hr & Hm' & Hn & He). simpl in *.
  rewrite lookup_insert_eq in Hm'. injection Hm' as <-. split; [done|]. split; [done|].
  split; [done|].
  revert He. unfold validator_is_route_eligible, validator_has_active_locked_stake_record.
  simpl. rewrite lookup_insert_eq, Hb. unfold is_active.
  intros H. boolprop. destruct H as [[Hst Hle] Hsig]. split; [split; [|lia]|done].
  revert Hst. by destruct (_ && _).
Qed.

Lemma inactive_not_eligible_miner s n id m :
  Miners s !! id = Some m -> cm_status m <> RegistryStatus_Active ->
  forall m', ~ eligible_miner s n id m'.
Proof.
  intros Hm Hst m' (_ & Hm' & _ & He). simplify_eq.
  unfold miner_is_route_eligible, is_active in He. boolprop. tauto.
Qed.

Lemma inactive_not_eligible_validator s n id v :
  Validators s !! id = Some v -> cv_status v <> RegistryStatus_Active ->
  forall v', ~ eligible_validator s n id v'.
Proof.
  intros Hv Hst v' (_ & Hv' & _ & He). simplify_eq.
  unfold validator_is_route_eligible, is_active in He. boolprop. tauto.
Qed.

(** Storage updates of one participant leave the others as they are. *)
Ltac solve_same :=
  intros; unfold same_miner, same_validator; simpl;
  rewrite ?lookup_insert_ne, ?lookup_delete_ne by done; split; [lia|by repeat split].

(** The changed miner is not active afterwards. *)
Ltac not_eligible :=
  let H := fresh in intros ? ? H; exfalso; revert H;
  first [eapply inactive_not_eligible_miner | eapply inactive_not_eligible_validator];
  simpl; [by rewrite lookup_insert_eq|simpl; done].

Lemma trans_miner_capacity s s' :
  config_ok -> trans s s' -> registry_inv s -> miner_capacity s -> miner_capacity s'.
Proof.
  intros Hok Ht Hi Hc. destruct Ht; subst; try (by apply (miner_capacity_same s); [solve_same|]).
  - apply (miner_capacity_same s); [|done]. intros j.
    match goal with H : same_registry _ _ |- _ => rewrite H end. solve_same.
  - apply (miner_capacity_no_new s _ (MinerCount s)); [solve_same| |done].
    intros n' m' He. exfalso. revert He.
    eapply inactive_not_eligible_miner; simpl; [by rewrite lookup_insert_eq|congruence].
  - eapply (miner_capacity_join s (s <| currency_state := c |>) _ id m);
      [done|solve_same|solve_same|solve_same| |done|done].
    intros n m' (_ & Hm' & Hn & _). simpl in *. rewrite lookup_insert_eq in Hm'.
    by simplify_eq.
  - apply (miner_capacity_no_new s _ id); [solve_same|not_eligible|done].
  - apply (miner_capacity_no_new s _ id); [solve_same|not_eligible|done].
  - match goal with H : locked_miner_bond _ _ _ = _ |- _ =>
      eapply locked_miner_bond_Some in H; [|done..] end.
    match goal with Hb : _ !! id = Some b, Hs : slash_bps_in_range _ = _, Hx : _ = Ok x |- _ =>
      pose proof (slash_share _ _ _ Hok (miner_bond_nonneg _ _ _ Hok Hi Hb) Hs Hx) as [Hpos _] end.
    apply (miner_capacity_no_new s _ id); [solve_same| |done].
    intros n m' He. exists m. by eapply (slashed_miner_eligible s _ n id m b x).
  - match goal with H : _ -> insert_active_miner ?s1 _ _ = _ |- _ =>
      destruct (decide (cm_status m = RegistryStatus_Active)) as [Ha|Ha];
      [specialize (H Ha); eapply (miner_capacity_join s s1 s1 id m)|
       apply (miner_capacity_no_new s s1 id)] end;
      try done; try solve_same.
    + intros n m' (_ & Hm' & Hn & _). simpl in *. by simplify_eq.
    + intros n m' He. exfalso. revert He. by eapply inactive_not_eligible_miner.
  - apply (miner_capacity_no_new s _ id); [solve_same| |done].
    intros n m (_ & _ & _ & He). exfalso. revert He.
    unfold miner_is_route_eligible, ensure_miner_signature_bundle_bound. simpl.
    rewrite lookup_delete_eq. simpl. by rewrite andb_false_r.
  - apply (miner_capacity_same s); [|done]. destruct st; solve_same.
Qed.

Lemma trans_validator_capacity s s' :
  config_ok -> trans s s' -> registry_inv s -> validator_capacity s -> validator_capacity s'.
Proof.
  intros Hok Ht Hi Hc. destruct Ht; subst; try (by apply (validator_capacity_same s); [solve_same|]).
  - apply (validator_capacity_same s); [|done]. intros j.
    match goal with H : same_registry _ _ |- _ => rewrite H end. solve_same.
  - apply (validator_capacity_no_new s _ (ValidatorCount s)); [solve_same| |done].
    intros n' m' He. exfalso. revert He.
    eapply inactive_not_eligible_validator; simpl; [by rewrite lookup_insert_eq|congruence].
  - apply (validator_capacity_no_new s _ id); [solve_same|not_eligible|done].
  - apply (validator_capacity_no_new s _ id); [solve_same|not_eligible|done].
  - match goal with H : locked_validator_stake _ _ _ = _ |- _ =>
      eapply locked_validator_stake_Some in H; [|done..] end.
    match goal with Hb : _ !! id = Some b, Hs : slash_bps_in_range _ = _, Hx : _ = Ok x |- _ =>
      pose proof (slash_share _ _ _ Hok (validator_stake_nonneg _ _ _ Hok Hi Hb) Hs Hx) as [Hpos _] end.
    apply (validator_capacity_no_new s _ id); [solve_same| |done].
    intros n v' He. exists v. by eapply (slashed_validator_eligible s _ n id v b x).
  - match goal with H : insert_active_validator ?s1 _ _ = _ |- _ =>
      eapply (validator_capacity_join s s1 _ id v) end; try done; try solve_same.
    intros n v' (_ & Hv' & Hn & _). simpl in *. rewrite lookup_insert_eq in Hv'.
    by simplify_eq.
  - apply (validator_capacity_no_new s _ id); [solve_same| |done].
    intros n v' (_ & _ & _ & He). exfalso. revert He.
    unfold validator_is_route_eligible, ensure_validator_signature_bundle_bound. simpl.
    rewrite lookup_delete_eq. simpl. by rewrite andb_false_r.
  - apply (validator_capacity_same s); [|done]. destruct st; solve_same.
Qed.

(** ** Reachable states *)

Context `{Laws : !CurrencyLaws C}.

(** The registries of a reachable state, with the capacity of their routing sets. *)
Record chain_inv s : Prop := {
  ci_registry : registry_inv s;
  ci_requests : request_inv s;
  ci_miners : miner_capacity s;
  ci_validators : validator_capacity s;
}.

Lemma trans_chain_inv s s' : config_ok -> trans s s' -> chain_inv s -> chain_inv s'.
Proof.
  intros Hok Ht []. split; eauto using trans_registry_inv, trans_request_inv,
    trans_miner_capacity, trans_validator_capacity.
Qed.

Lemma chain_inv_frame s s' :
  registry_view s' = registry_view s -> request_view s' = request_view s ->
  (forall j, same_miner s s' j) -> (forall j, same_validator s s' j) ->
  chain_inv s -> chain_inv s'.
Proof.
  intros H1 H2 H3 H4 []. split; [by apply (registry_inv_view s)|by apply (request_inv_view s)|..].
  - by apply (miner_capacity_same s).
  - by apply (validator_capacity_same s).
Qed.

Lemma genesis_registry_inv (c : C) : registry_inv (genesis_store c).
Proof. by split; simpl; try lia; try (intros ? ?; rewrite lookup_empty). Qed.

Lemma genesis_request_inv (c : C) : request_inv (genesis_store c).
Proof.
  split; simpl; try done.
  - intros id. rewrite lookup_empty, is_Some_alt. split; [done|lia].
  - by intros [].
Qed.

Lemma genesis_chain_inv (c : C) : config_ok -> chain_inv (genesis_store c).
Proof.
  intros Hok. split; [apply genesis_registry_inv|apply genesis_request_inv|..].
  - intros n. apply (ok_max_miners Hok).
  - intros n. apply (ok_max_validators Hok).
Qed.

Lemma chain_inv_time s n : chain_inv s -> chain_inv (s <| block_number := n |>).
Proof. apply chain_inv_frame; try done; solve_same. Qed.

Lemma chain_inv_balances s c : chain_inv s -> chain_inv (s <| currency_state := c |>).
Proof. apply chain_inv_frame; try done; solve_same. Qed.

Lemma reachable_chain_inv s : config_ok -> reachable s -> chain_inv s.
Proof.
  intros Hok. apply reachable_ind; [done|..].
  - intros c _. by apply genesis_chain_inv.
  - intros s1 s2. by apply trans_chain_inv.
  - intros s1 n _. apply chain_inv_time.
  - intros s1 c _. apply chain_inv_balances.
Qed.

End Capacity.
