(* ===== verification/PalletQueries.v ===== *)
(** * The Qubitum pallet: queries and the try-runtime check

    The read-only side of [pallets/qubitum/src/lib.rs]: the redacted public queries, the
    accounting and health records, the protocol parameters with their readiness blockers,
    and [ensure_active_routing_indexes_match], the consistency check [try_state] runs. *)

From S2P Require Import Prelude Protocol PostQuantum Pallet PalletGuards PalletRouting.
From S2P Require Import PalletCalls PalletTransitions PalletInvariants PalletCapacity.
From stdpp Require Import base tactics list gmap strings list_numbers relations.
From Stdlib Require Import ZArith Lia.
Open Scope Z_scope.

(** ** Public records *)

Record ChainPublicSubnet : Type := {
  public_domain : SubnetDomain;
  public_subnet_proof_system : ProofSystem;
  public_active : bool;
}.

Inductive PublicRegistryStatus : Type :=
| PublicRegistryStatus_Pending
| PublicRegistryStatus_Active
| PublicRegistryStatus_Exiting
| PublicRegistryStatus_Slashed
| PublicRegistryStatus_Disabled.

Definition PublicRegistryStatus_from (status : RegistryStatus) : PublicRegistryStatus :=
  match status with
  | RegistryStatus_Pending => PublicRegistryStatus_Pending
  | RegistryStatus_Active => PublicRegistryStatus_Active
  | RegistryStatus_Exiting _ => PublicRegistryStatus_Exiting
  | RegistryStatus_Slashed => PublicRegistryStatus_Slashed
  | RegistryStatus_Disabled => PublicRegistryStatus_Disabled
  end.

Record ChainPublicMiner : Type := {
  public_miner_proof_system : ProofSystem;
  public_miner_status : PublicRegistryStatus;
}.

Record ChainPublicValidator : Type := { public_validator_status : PublicRegistryStatus }.

Record ChainPublicIdentity : Type := {
  has_shielded_identity_commitment : bool;
  has_endpoint_commitment : bool;
  signature_commitment_recorded : bool;
  signature_challenge_bound : bool;
  signature_verified : bool;
}.

Record ChainPublicInferenceRequest : Type := {
  public_request_status : InferenceRequestStatus;
}.

Record ChainPublicProofRecord : Type := { public_proof_system : ProofSystem }.

Record ChainRouteAvailability : Type := { available : bool }.

Record ChainAccounting : Type := {
  total_inference_escrowed : Z;
  total_miner_payouts : Z;
  total_validator_fees : Z;
  total_treasury_fees : Z;
  total_inference_refunded : Z;
  legacy_migration_failures : Z;
}.

Record ChainMigrationHealth : Type := {
  legacy_accounting_failures : Z;
  legacy_routing_index_failures : Z;
  legacy_capital_record_failures : Z;
}.

Record ChainRequestStatusCounts : Type := mk_ChainRequestStatusCounts {
  pending : Z;
  settled : Z;
  cancelled : Z;
  rejected : Z;
  expired : Z;
}.
#[export] Instance ChainRequestStatusCounts_eq_dec : EqDecision ChainRequestStatusCounts.
Proof. solve_decision. Defined.
#[export] Instance eta_ChainRequestStatusCounts : Eta ChainRequestStatusCounts := fun r =>
  mk_ChainRequestStatusCounts (pending r) (settled r) (cancelled r) (rejected r) (expired r).

(** ** Readiness *)

Record ChainReadinessBlockers : Type := {
  proof_settlement_disabled : bool;
  production_zk_verifier_missing : bool;
  committed_request_payloads_missing : bool;
  shielded_call_payloads_missing : bool;
  shield_submitter_origin_privacy_missing : bool;
  shield_key_window_privacy_missing : bool;
  private_route_selection_missing : bool;
  account_commitment_blinding_missing : bool;
  private_routing_indexes_missing : bool;
  private_storage_keys_missing : bool;
  private_capital_accounting_missing : bool;
  private_event_metadata_missing : bool;
  signature_mode_not_full_post_quantum : bool;
  post_quantum_account_signatures_missing : bool;
  post_quantum_signature_crypto_verification_missing : bool;
  identity_signature_verification_missing : bool;
  external_audit_missing : bool;
}.

Definition privacy_blocked (self : ChainReadinessBlockers) : bool :=
  committed_request_payloads_missing self
  || shielded_call_payloads_missing self
  || shield_submitter_origin_privacy_missing self
  || shield_key_window_privacy_missing self
  || private_route_selection_missing self
  || account_commitment_blinding_missing self
  || private_routing_indexes_missing self
  || private_storage_keys_missing self
  || private_capital_accounting_missing self
  || private_event_metadata_missing self.

Definition post_quantum_blocked (self : ChainReadinessBlockers) : bool :=
  signature_mode_not_full_post_quantum self
  || post_quantum_account_signatures_missing self
  || post_quantum_signature_crypto_verification_missing self
  || identity_signature_verification_missing self.

Definition production_blocked (self : ChainReadinessBlockers) : bool :=
  proof_settlement_disabled self
  || production_zk_verifier_missing self
  || privacy_blocked self
  || post_quantum_blocked self
  || external_audit_missing self.

Record ChainProtocolParams : Type := {
  pp_subnet_creation_burn : Z;
  pp_miner_registration_burn : Z;
  pp_min_miner_bond : Z;
  pp_max_miner_bond : Z;
  pp_max_active_miners_per_subnet : Z;
  pp_max_active_validators_per_subnet : Z;
  pp_min_validator_stake : Z;
  pp_min_invalid_proof_slash_bps : Z;
  pp_max_invalid_proof_slash_bps : Z;
  pp_min_proof_size_bytes : Z;
  pp_max_proof_size_bytes : Z;
  pp_max_verification_latency_ms : Z;
  pp_max_proof_submission_age_blocks : Z;
  pp_proof_verifier_mode : ProofVerifierMode;
  pp_proof_settlement_enabled : bool;
  pp_production_zk_verifier : bool;
  pp_signature_mode : SignatureMode;
  pp_committed_request_payloads : bool;
  pp_shielded_call_payloads : bool;
  pp_shield_submitter_origin_privacy : bool;
  pp_shield_key_window_privacy : bool;
  pp_private_route_selection : bool;
  pp_account_commitment_blinding : bool;
  pp_private_routing_indexes : bool;
  pp_private_storage_keys : bool;
  pp_private_capital_accounting : bool;
  pp_private_event_metadata : bool;
  pp_public_event_payloads_redacted : bool;
  pp_public_query_ids_redacted : bool;
  pp_public_subnet_records_redacted : bool;
  pp_route_availability_ids_redacted : bool;
  pp_public_route_availability_redacted : bool;
  pp_public_accounting_totals_redacted : bool;
  pp_public_accounting_migration_failures_redacted : bool;
  pp_public_migration_health_redacted : bool;
  pp_public_request_status_counts_redacted : bool;
  pp_public_registry_records_redacted : bool;
  pp_public_request_records_redacted : bool;
  pp_public_proof_records_redacted : bool;
  pp_public_next_request_id_redacted : bool;
  pp_public_registry_counts_redacted : bool;
  pp_public_total_burned_redacted : bool;
  pp_public_identity_metadata_redacted : bool;
  pp_post_quantum_account_signatures : bool;
  pp_post_quantum_signature_crypto_verification : bool;
  pp_privacy_complete : bool;
  pp_post_quantum_complete : bool;
  pp_production_ready : bool;
  pp_identity_signature_commitment_policy : bool;
  pp_identity_signature_challenge_binding : bool;
  pp_identity_signature_verification : bool;
  pp_readiness_blockers : ChainReadinessBlockers;
  pp_miner_exit_cooldown_blocks : Z;
  pp_validator_exit_cooldown_blocks : Z;
  pp_request_cancel_delay_blocks : Z;
}.

Section Queries.
Context {C : Type} `{CC : !Currency C} `{T : !Config} `{HH : !Hashing}.
Implicit Types s : Store C.

Definition protocol_params : ChainProtocolParams :=
  let proof_verifier_mode := proof_mode ProofVerifier in
  let proof_settlement_enabled := proof_settlement_enabled proof_verifier_mode in
  let production_zk_verifier := production_zk_verifier proof_verifier_mode in
  let signature_mode := cfg_SignatureMode in
  let identity_signature_verifier_mode := identity_mode IdentitySignatureVerifier in
  let committed_request_payloads := false in
  let shielded_call_payloads := ShieldedCallPayloads in
  let shielded_call_payload_execution :=
    shielded_call_payloads && ShieldedCallPayloadExecution in
  let shield_submitter_origin_privacy := false in
  let shield_key_window_privacy := false in
  let account_commitment_blinding := false in
  let private_routing_indexes := true in
  let private_storage_keys := true in
  let private_capital_accounting := false in
  let private_event_metadata := PrivateEventMetadata in
  let public_event_payloads_redacted := true in
  let public_query_ids_redacted := true in
  let public_subnet_records_redacted := true in
  let route_availability_ids_redacted := true in
  let public_route_availability_redacted := true in
  let public_accounting_totals_redacted := true in
  let public_accounting_migration_failures_redacted := true in
  let public_migration_health_redacted := true in
  let public_request_status_counts_redacted := true in
  let public_registry_records_redacted := true in
  let public_request_records_redacted := true in
  let public_proof_records_redacted := true in
  let public_next_request_id_redacted := true in
  let public_registry_counts_redacted := true in
  let public_total_burned_redacted := true in
  let public_identity_metadata_redacted := true in
  let private_route_selection :=
    shielded_call_payload_execution && shield_submitter_origin_privacy
    && shield_key_window_privacy && account_commitment_blinding && private_routing_indexes
    && private_storage_keys && private_event_metadata && public_route_availability_redacted
    && public_request_records_redacted && public_proof_records_redacted in
  let post_quantum_account_signatures := false in
  let post_quantum_signature_crypto_verification :=
    production_crypto_verification identity_signature_verifier_mode in
  let identity_signature_commitment_policy := true in
  let identity_signature_challenge_binding := true in
  let identity_signature_verification :=
    identity_signature_verification identity_signature_verifier_mode in
  let readiness_blockers := {|
    proof_settlement_disabled := negb proof_settlement_enabled;
    production_zk_verifier_missing := negb production_zk_verifier;
    committed_request_payloads_missing := negb committed_request_payloads;
    shielded_call_payloads_missing := negb shielded_call_payload_execution;
    shield_submitter_origin_privacy_missing := negb shield_submitter_origin_privacy;
    shield_key_window_privacy_missing := negb shield_key_window_privacy;
    private_route_selection_missing := negb private_route_selection;
    account_commitment_blinding_missing := negb account_commitment_blinding;
    private_routing_indexes_missing := negb private_routing_indexes;
    private_storage_keys_missing := negb private_storage_keys;
    private_capital_accounting_missing := negb private_capital_accounting;
    private_event_metadata_missing := negb private_event_metadata;
    signature_mode_not_full_post_quantum :=
      negb (bool_decide (signature_mode = SignatureMode_FullPostQuantum));
    post_quantum_account_signatures_missing := negb post_quantum_account_signatures;
    post_quantum_signature_crypto_verification_missing :=
      negb post_quantum_signature_crypto_verification;
    identity_signature_verification_missing := negb identity_signature_verification;
    external_audit_missing := true;
  |} in
  let privacy_complete := negb (privacy_blocked readiness_blockers) in
  let post_quantum_complete := negb (post_quantum_blocked readiness_blockers) in
  let production_ready := negb (production_blocked readiness_blockers) in
  {|
    pp_subnet_creation_burn := SubnetCreationBurn;
    pp_miner_registration_burn := MinerRegistrationBurn;
    pp_min_miner_bond := MinMinerBond;
    pp_max_miner_bond := MaxMinerBond;
    pp_max_active_miners_per_subnet := MaxActiveMinersPerSubnet;
    pp_max_active_validators_per_subnet := MaxActiveValidatorsPerSubnet;
    pp_min_validator_stake := MinValidatorStake;
    pp_min_invalid_proof_slash_bps := MinInvalidProofSlashBps;
    pp_max_invalid_proof_slash_bps := MaxInvalidProofSlashBps;
    pp_min_proof_size_bytes := MinProofSizeBytes;
    pp_max_proof_size_bytes := MaxProofSizeBytes;
    pp_max_verification_latency_ms := MaxVerificationLatencyMs;
    pp_max_proof_submission_age_blocks := MaxProofSubmissionAgeBlocks;
    pp_proof_verifier_mode := proof_verifier_mode;
    pp_proof_settlement_enabled := proof_settlement_enabled;
    pp_production_zk_verifier := production_zk_verifier;
    pp_signature_mode := signature_mode;
    pp_committed_request_payloads := committed_request_payloads;
    pp_shielded_call_payloads := shielded_call_payloads;
    pp_shield_submitter_origin_privacy := shield_submitter_origin_privacy;
    pp_shield_key_window_privacy := shield_key_window_privacy;
    pp_private_route_selection := private_route_selection;
    pp_account_commitment_blinding := account_commitment_blinding;
    pp_private_routing_indexes := private_routing_indexes;
    pp_private_storage_keys := private_storage_keys;
    pp_private_capital_accounting := private_capital_accounting;
    pp_private_event_metadata := private_event_metadata;
    pp_public_event_payloads_redacted := public_event_payloads_redacted;
    pp_public_query_ids_redacted := public_query_ids_redacted;
    pp_public_subnet_records_redacted := public_subnet_records_redacted;
    pp_route_availability_ids_redacted := route_availability_ids_redacted;
    pp_public_route_availability_redacted := public_route_availability_redacted;
    pp_public_accounting_totals_redacted := public_accounting_totals_redacted;
    pp_public_accounting_migration_failures_redacted :=
      public_accounting_migration_failures_redacted;
    pp_public_migration_health_redacted := public_migration_health_redacted;
    pp_public_request_status_counts_redacted := public_request_status_counts_redacted;
    pp_public_registry_records_redacted := public_registry_records_redacted;
    pp_public_request_records_redacted := public_request_records_redacted;
    pp_public_proof_records_redacted := public_proof_records_redacted;
    pp_public_next_request_id_redacted := public_next_request_id_redacted;
    pp_public_registry_counts_redacted := public_registry_counts_redacted;
    pp_public_total_burned_redacted := public_total_burned_redacted;
    pp_public_identity_metadata_redacted := public_identity_metadata_redacted;
    pp_post_quantum_account_signatures := post_quantum_account_signatures;
    pp_post_quantum_signature_crypto_verification :=
      post_quantum_signature_crypto_verification;
    pp_privacy_complete := privacy_complete;
    pp_post_quantum_complete := post_quantum_complete;
    pp_production_ready := production_ready;
    pp_identity_signature_commitment_policy := identity_signature_commitment_policy;
    pp_identity_signature_challenge_binding := identity_signature_challenge_binding;
    pp_identity_signature_verification := identity_signature_verification;
    pp_readiness_blockers := readiness_blockers;
    pp_miner_exit_cooldown_blocks := MinerExitCooldownBlocks;
    pp_validator_exit_cooldown_blocks := ValidatorExitCooldownBlocks;
    pp_request_cancel_delay_blocks := RequestCancelDelayBlocks;
  |}.

(** ** Redacted queries *)

Definition accounting : ChainAccounting := {|
  total_inference_escrowed := 0; total_miner_payouts := 0; total_validator_fees := 0;
  total_treasury_fees := 0; total_inference_refunded := 0; legacy_migration_failures := 0;
|}.

Definition raw_accounting s : ChainAccounting := {|
  total_inference_escrowed := TotalInferenceEscrowed s;
  total_miner_payouts := TotalMinerPayouts s;
  total_validator_fees := TotalValidatorFees s;
  total_treasury_fees := TotalTreasuryFees s;
  total_inference_refunded := TotalInferenceRefunded s;
  legacy_migration_failures := LegacyAccountingMigrationFailures s;
|}.

Definition raw_migration_health s : ChainMigrationHealth := {|
  legacy_accounting_failures := LegacyAccountingMigrationFailures s;
  legacy_routing_index_failures := LegacyRoutingIndexMigrationFailures s;
  legacy_capital_record_failures := LegacyCapitalRecordMigrationFailures s;
|}.

Definition migration_health : ChainMigrationHealth := {|
  legacy_accounting_failures := 0; legacy_routing_index_failures := 0;
  legacy_capital_record_failures := 0;
|}.

Definition raw_request_status_counts s : ChainRequestStatusCounts := {|
  pending := PendingInferenceRequestCount s;
  settled := SettledInferenceRequestCount s;
  cancelled := CancelledInferenceRequestCount s;
  rejected := RejectedInferenceRequestCount s;
  expired := ExpiredInferenceRequestCount s;
|}.

Definition request_status_counts : ChainRequestStatusCounts := {|
  pending := 0; settled := 0; cancelled := 0; rejected := 0; expired := 0;
|}.

Definition next_route_assignment s (subnet_id : Z) (assignment_blinding : Commitment) :
    option ChainAssignment :=
  route_assignment s subnet_id (RequestCount s) assignment_blinding.

Definition next_route_availability (subnet_id : Z) : ChainRouteAvailability :=
  {| available := false |}.

Definition public_subnet (subnet_id : Z) : option ChainPublicSubnet := None.
Definition public_miner (miner_id : Z) : option ChainPublicMiner := None.
Definition public_validator (validator_id : Z) : option ChainPublicValidator := None.
Definition public_miner_identity (miner_id : Z) : option ChainPublicIdentity := None.
Definition public_validator_identity (validator_id : Z) : option ChainPublicIdentity := None.
Definition public_inference_request (request_id : Z) : option ChainPublicInferenceRequest :=
  None.
Definition public_proof_record (request_id : Z) : option ChainPublicProofRecord := None.

(** ** The try-runtime check *)

Definition ensure_subnet_routes s (subnet_id : Z) : result string unit :=
  try! ensure (bool_decide (default [] (ActiveMinersBySubnet s !! subnet_id) = []))
         "Qubitum active miner route index publishes participant ids";
  try! ensure (bool_decide (default [] (ActiveValidatorsBySubnet s !! subnet_id) = []))
         "Qubitum active validator route index publishes participant ids";
  try! ensure (len_u32 (active_miner_route_ids s subnet_id) <=? MaxActiveMinersPerSubnet)
         "Qubitum active miner route set exceeds configured capacity";
  ensure (len_u32 (active_validator_route_ids s subnet_id) <=? MaxActiveValidatorsPerSubnet)
    "Qubitum active validator route set exceeds configured capacity".

Definition ensure_miner_pending_counter s (miner_id : Z) : result string unit :=
  let count := default 0 (PendingMinerRequests s !! miner_id) in
  if count =? 0 then Ok tt else
  try! ensure (0 <? count) "Qubitum pending miner counter is zero";
  miner <-? ok_or (Miners s !! miner_id)
              "Qubitum pending miner counter references missing miner";
  ensure (match cm_status miner with
          | RegistryStatus_Active | RegistryStatus_Slashed | RegistryStatus_Exiting _ => true
          | _ => false
          end) "Qubitum pending miner counter references invalid miner status".

Definition ensure_validator_pending_counter s (validator_id : Z) : result string unit :=
  let count := default 0 (PendingValidatorRequests s !! validator_id) in
  if count =? 0 then Ok tt else
  try! ensure (0 <? count) "Qubitum pending validator counter is zero";
  validator <-? ok_or (Validators s !! validator_id)
                  "Qubitum pending validator counter references missing validator";
  ensure (match cv_status validator with
          | RegistryStatus_Active | RegistryStatus_Slashed | RegistryStatus_Exiting _ => true
          | _ => false
          end) "Qubitum pending validator counter references invalid validator status".

Definition count_request (counts : ChainRequestStatusCounts) (status : InferenceRequestStatus) :
    ChainRequestStatusCounts :=
  match status with
  | InferenceRequestStatus_Pending => counts <| pending ::= fun x => saturating_add 64 x 1 |>
  | InferenceRequestStatus_Settled => counts <| settled ::= fun x => saturating_add 64 x 1 |>
  | InferenceRequestStatus_Cancelled =>
      counts <| cancelled ::= fun x => saturating_add 64 x 1 |>
  | InferenceRequestStatus_Rejected => counts <| rejected ::= fun x => saturating_add 64 x 1 |>
  | InferenceRequestStatus_Expired => counts <| expired ::= fun x => saturating_add 64 x 1 |>
  end.

Definition expected_status_counts s : ChainRequestStatusCounts :=
  foldl (fun counts '(_, request) => count_request counts (rq_status request))
    (mk_ChainRequestStatusCounts 0 0 0 0 0) (request_records s).

Definition ensure_active_routing_indexes_match s : result string unit :=
  try! for_each (ensure_subnet_routes s) (seqZ 0 (SubnetCount s));
  try! for_each (fun '(miner_id, _) => ensure_miner_pending_counter s miner_id)
         (miner_records s);
  try! for_each (fun '(validator_id, _) => ensure_validator_pending_counter s validator_id)
         (validator_records s);
  ensure (bool_decide (raw_request_status_counts s = expected_status_counts s))
    "Qubitum request status counter mismatch".

Definition try_state s : result string unit :=
  try! ensure_active_routing_indexes_match s;
  Ok tt.

End Queries.

(** ** The check passes *)

Section Check.
Context {C : Type} `{CC : !Currency C} `{T : !Config} `{HH : !Hashing}.
Implicit Types s : Store C.

Definition count_of (st : InferenceRequestStatus) (counts : ChainRequestStatusCounts) : Z :=
  match st with
  | InferenceRequestStatus_Pending => pending counts
  | InferenceRequestStatus_Settled => settled counts
  | InferenceRequestStatus_Cancelled => cancelled counts
  | InferenceRequestStatus_Rejected => rejected counts
  | InferenceRequestStatus_Expired => expired counts
  end.

Lemma count_of_ext a b : (forall st, count_of st a = count_of st b) -> a = b.
Proof.
  intros H. destruct a, b.
  pose proof (H InferenceRequestStatus_Pending). pose proof (H InferenceRequestStatus_Settled).
  pose proof (H InferenceRequestStatus_Cancelled). pose proof (H InferenceRequestStatus_Rejected).
  pose proof (H InferenceRequestStatus_Expired). simpl in *. by subst.
Qed.

Lemma count_of_request st st' c :
  count_of st c + 1 < 2 ^ 64 ->
  count_of st (count_request c st') = count_of st c + (if decide (st' = st) then 1 else 0).
Proof.
  unfold count_request, saturating_add, uint_max. intros Hb.
  destruct st, st'; simpl in *; rewrite ?Z.min_l by lia; repeat case_decide; try done; lia.
Qed.

(** How many entries of a list have a status. *)
Fixpoint tally (st : InferenceRequestStatus) (l : list (Z * ChainInferenceRequest)) : Z :=
  match l with
  | [] => 0
  | (_, r) :: rest => (if decide (rq_status r = st) then 1 else 0) + tally st rest
  end.

Lemma tally_bounds st l : 0 <= tally st l <= Z.of_nat (length l).
Proof. induction l as [|[id r] l IH]; simpl; [lia|]. case_decide; lia. Qed.

Lemma tally_two st st' l : st <> st' -> tally st l + tally st' l <= Z.of_nat (length l).
Proof. intros Hne. induction l as [|[id r] l IH]; simpl; [lia|]. repeat case_decide; naive_solver lia. Qed.

Lemma tally_foldl st l c :
  count_of st c + Z.of_nat (length l) < 2 ^ 64 ->
  count_of st (foldl (fun counts '(_, request) => count_request counts (rq_status request)) c l)
  = count_of st c + tally st l.
Proof.
  revert c. induction l as [|[id r] l IH]; intros c Hb; simpl in *; [lia|].
  rewrite IH; rewrite count_of_request by lia; [lia|]. case_decide; lia.
Qed.

Lemma tally_Permutation st l l' : l ≡ₚ l' -> tally st l = tally st l'.
Proof.
  induction 1 as [|[id r] l l' _ IH|[i r] [j q] l|l1 l2 l3 _ IH1 _ IH2]; simpl; lia.
Qed.

Lemma tally_map st (m : gmap Z ChainInferenceRequest) :
  tally st (map_to_list m) = count_status st m.
Proof.
  unfold count_status. induction m as [|id r m Hid IH] using map_ind.
  - by rewrite map_to_list_empty.
  - rewrite (tally_Permutation _ _ _ (map_to_list_insert m id r Hid)). simpl.
    by rewrite map_sum_insert_None, IH.
Qed.

(** The records the check walks over are the requests of the map. *)
Lemma request_records_map s :
  request_inv s -> request_records s ≡ₚ map_to_list (InferenceRequests s).
Proof.
  intros Hi. apply NoDup_Permutation.
  - apply (NoDup_fmap_1 fst), omap_fst_NoDup, NoDup_seqZ.
  - apply NoDup_map_to_list.
  - intros [id r]. rewrite elem_of_map_to_list. unfold request_records.
    rewrite list_elem_of_omap. split.
    + intros (id' & _ & Hr). destruct (InferenceRequests s !! id') eqn:E; by simplify_eq/=.
    + intros Hr. exists id. rewrite elem_of_seqZ, Hr. split; [|done].
      pose proof (proj1 (qi_domain _ Hi id) ltac:(eauto)). lia.
Qed.

Lemma omap_length_le {A B} (f : A -> option B) (l : list A) :
  (length (omap f l) <= length l)%nat.
Proof. induction l as [|x l IH]; csimpl; [lia|]. destruct (f x); simpl; lia. Qed.

Lemma request_records_length s :
  request_inv s -> Z.of_nat (length (request_records s)) <= RequestCount s.
Proof.
  intros Hi. pose proof (qi_count _ Hi). unfold request_records.
  etrans; [apply Nat2Z.inj_le, omap_length_le|]. rewrite length_seqZ. lia.
Qed.

Lemma expected_status_counts_eq s :
  request_inv s -> expected_status_counts s = raw_request_status_counts s.
Proof.
  intros Hi. apply count_of_ext. intros st. unfold expected_status_counts.
  pose proof (request_records_length s Hi). pose proof (qi_count _ Hi).
  rewrite tally_foldl by (destruct st; simpl; lia).
  rewrite (tally_Permutation _ _ _ (request_records_map s Hi)), tally_map, <- (qi_status _ Hi).
  by destruct st.
Qed.

Lemma len_u32_small ids max :
  Z.of_nat (length ids) <= max -> max < 2 ^ 31 -> (len_u32 ids <=? max) = true.
Proof. intros. unfold len_u32. rewrite Z.mod_small by lia. by apply Z.leb_le. Qed.

Lemma ensure_subnet_routes_Ok s n :
  config_ok -> chain_inv s -> ensure_subnet_routes s n = Ok tt.
Proof.
  intros Hok [Hr _ Hm Hv]. unfold ensure_subnet_routes.
  rewrite (ri_miner_index _ Hr), (ri_validator_index _ Hr), !lookup_empty. simpl.
  rewrite !len_u32_small; try done; apply Hok.
Qed.

Lemma ensure_miner_pending_counter_Ok s id :
  registry_inv s -> ensure_miner_pending_counter s id = Ok tt.
Proof.
  intros Hr. unfold ensure_miner_pending_counter.
  destruct (PendingMinerRequests s !! id) as [k|] eqn:Hk; simpl; [|done].
  destruct (ri_pending_miner _ Hr _ _ Hk) as (Hpos & m & Hm & Hb).
  rewrite (proj2 (Z.eqb_neq _ _)), (proj2 (Z.ltb_lt _ _)) by lia. simpl. rewrite Hm. simpl.
  by destruct Hb as [-> | ->].
Qed.

Lemma ensure_validator_pending_counter_Ok s id :
  registry_inv s -> ensure_validator_pending_counter s id = Ok tt.
Proof.
  intros Hr. unfold ensure_validator_pending_counter.
  destruct (PendingValidatorRequests s !! id) as [k|] eqn:Hk; simpl; [|done].
  destruct (ri_pending_validator _ Hr _ _ Hk) as (Hpos & m & Hm & Hb).
  rewrite (proj2 (Z.eqb_neq _ _)), (proj2 (Z.ltb_lt _ _)) by lia. simpl. rewrite Hm. simpl.
  by destruct Hb as [-> | ->].
Qed.

(** C10 The consistency check of [try_state] passes in every reachable state: the routing
    indexes stay empty, the routing sets fit their capacities, the pending counters
    belong to participants that may have pending requests, and the five status counters
    count the stored requests. *)
Theorem try_state_reachable `{Laws : !CurrencyLaws C} s
    (Hok : config_ok) (Hs : reachable s) : try_state s = Ok tt.
Proof.
  apply (reachable_chain_inv s Hok) in Hs as Hi. unfold try_state,
    ensure_active_routing_indexes_match.
  rewrite (proj2 (for_each_Ok _ _)) by (intros; by apply ensure_subnet_routes_Ok). simpl.
  rewrite (proj2 (for_each_Ok _ _))
    by (intros [id m] _; apply ensure_miner_pending_counter_Ok, Hi). simpl.
  rewrite (proj2 (for_each_Ok _ _))
    by (intros [id v] _; apply ensure_validator_pending_counter_Ok, Hi). simpl.
  by rewrite expected_status_counts_eq, bool_decide_true by (done || apply Hi).
Qed.

(** Whatever the configuration, the published parameters never claim a finished
    system: privacy, post-quantum security and production readiness are all reported as
    incomplete, and the blockers that are not configurable say why. *)
Theorem protocol_params_never_ready :
  pp_production_ready protocol_params = false
  /\ pp_privacy_complete protocol_params = false
  /\ pp_post_quantum_complete protocol_params = false
  /\ external_audit_missing (pp_readiness_blockers protocol_params) = true
  /\ committed_request_payloads_missing (pp_readiness_blockers protocol_params) = true
  /\ post_quantum_account_signatures_missing (pp_readiness_blockers protocol_params) = true.
Proof.
  split; [|split; [|split; [|done]]]; simpl;
    unfold production_blocked, privacy_blocked, post_quantum_blocked; simpl;
    rewrite ?orb_true_r; done.
Qed.

End Check.
