(* ===== verification/PalletEscrow.v ===== *)
(** * The Qubitum pallet: openings, escrow and bonds

    What the commitments of a request hide, and what is held for whom: under the
    assumption that the hash has no collisions, the witnesses a call presents are the
    ones the request was opened with, the funds held for inference payments are the
    payments of the pending requests, and the funds held as bonds and stakes are the
    recorded ones. *)

From S2P Require Import Prelude Protocol PostQuantum Pallet PalletGuards PalletRouting.
From S2P Require Import PalletCalls PalletTransitions PalletInvariants PalletCapacity.
From S2P Require Import PalletQueries.
From stdpp Require Import base tactics list gmap strings list_numbers relations.
From Stdlib Require Import ZArith Lia.
Open Scope Z_scope.

(** ** Commitments bind *)

Section Binding.
Context {C : Type} `{CC : !Currency C} `{T : !Config} `{HH : !Hashing}.
Hypothesis Hash : collision_free.

Lemma commit_eq p q : commit p = commit q <-> p = q.
Proof. split; [apply Hash|by intros ->]. Qed.

(** [r] is the record an opening wrote under [id], up to its status. *)
Definition record_of (id : Z) (o : Opening) (r : ChainInferenceRequest) : Prop :=
  exists n input, r = opened_request id n input o <| rq_status := rq_status r |>.

Lemma operator_commitment_inj a b : operator_commitment a = operator_commitment b -> a = b.
Proof. intros H%Hash. by simplify_eq. Qed.

Lemma operator_matches o a :
  operator_commitment_matches (operator_commitment o) a = true <-> a = o.
Proof.
  unfold operator_commitment_matches, operator_commitment, account_commitment,
    role_account_commitment.
  rewrite orb_true_iff, !bool_decide_eq_true, !commit_eq. naive_solver.
Qed.

Lemma user_matches id o r a :
  record_of id o r ->
  request_user_commitment_matches (rq_user_commitment r) a = true <-> a = op_user o.
Proof.
  intros (n & input & ->). simpl.
  unfold request_user_commitment_matches, request_user_commitment, account_commitment,
    role_account_commitment.
  rewrite orb_true_iff, !bool_decide_eq_true, !commit_eq. naive_solver.
Qed.

Lemma assignment_matches id o r m v ab :
  record_of id o r -> opening_ok o ->
  ensure_request_assignment_witness r m v ab = Ok tt
  <-> m = op_miner o /\ v = op_validator o /\ ab = op_assignment_blinding o.
Proof.
  intros (n & input & ->) (Hab & _).
  unfold ensure_request_assignment_witness, resolve_request_assignment_commitment; simpl.
  unfold request_assignment_commitment, legacy_request_assignment_commitment,
    LEGACY_ASSIGNMENT_BLINDING. split.
  - intros H. inv_run. boolprop. rewrite !commit_eq in *. naive_solver.
  - intros (-> & -> & ->). rewrite bool_decide_true by done. simpl.
    by rewrite bool_decide_false by done.
Qed.

Lemma timing_matches id o r t :
  record_of id o r -> opening_ok o ->
  ensure_request_timing_witness r t = Ok tt <-> t = op_timing o.
Proof.
  intros (n & input & ->) (_ & Htb & _). unfold ensure_request_timing_witness; simpl.
  unfold request_timing_commitment, legacy_request_timing_commitment,
    LEGACY_TIMING_BLINDING. split.
  - intros H. inv_run. boolprop. rewrite !commit_eq in *. destruct t, (op_timing o); simpl in *.
    naive_solver.
  - intros ->. rewrite bool_decide_true by done. simpl. by rewrite bool_decide_false by done.
Qed.

Lemma terms_matches id o r t :
  record_of id o r -> opening_ok o ->
  ensure_request_terms_witness r t = Ok tt <-> t = op_terms o.
Proof.
  intros (n & input & ->) (_ & _ & Heb & Hp & Hfee).
  apply is_ok_true in Hfee as [[] Hfee]. unfold ensure_request_terms_witness, op_payment in *.
  simpl. unfold request_terms_commitment, legacy_request_terms_commitment,
    LEGACY_TERMS_BLINDING. split.
  - intros H. inv_run. boolprop. rewrite !commit_eq in *. unfold op_payment in *.
    destruct t as [[]], (op_terms o) as [[]]; simpl in *. naive_solver.
  - intros ->. rewrite (proj2 (Z.ltb_lt _ _) Hp), Hfee. simpl.
    rewrite bool_decide_true by done. simpl. by rewrite bool_decide_false by done.
Qed.

End Binding.

(** ** Escrow *)

Section Escrow.
Context {C : Type} `{CC : !Currency C} `{T : !Config} `{HH : !Hashing}.
Context `{Laws : !CurrencyLaws C}.
Hypothesis Hash : collision_free.
Implicit Types (s : Store C) (om : gmap Z Opening) (f : Opening -> Z).

Definition pending_in s (id : Z) : bool :=
  match InferenceRequests s !! id with Some r => is_pending r | None => false end.

(** The sum of [f] over the openings of the pending requests. *)
Definition pending_sum s om f : Z :=
  map_sum (fun id o => if pending_in s id then f o else 0) om.

Definition paid_by (a : AccountId) (o : Opening) : Z :=
  if decide (op_user o = a) then op_payment o else 0.

Definition assigned_miner (m : Z) (o : Opening) : Z := if decide (op_miner o = m) then 1 else 0.

Definition assigned_validator (v : Z) (o : Opening) : Z :=
  if decide (op_validator o = v) then 1 else 0.

(** [om] records what every request was opened with: each stored record is the one its
    opening wrote, the held payments are those of the pending requests, and the pending
    counters count the pending requests assigned to each participant. *)
Record escrow_inv s om : Prop := {
  ei_domain id : is_Some (om !! id) <-> is_Some (InferenceRequests s !! id);
  ei_record id o r : om !! id = Some o -> InferenceRequests s !! id = Some r ->
    record_of id o r /\ opening_ok o;
  ei_held a : balance_on_hold HoldReason_InferencePayment a (currency_state s)
              = pending_sum s om (paid_by a);
  ei_miner m : default 0 (PendingMinerRequests s !! m) = pending_sum s om (assigned_miner m);
  ei_validator v :
    default 0 (PendingValidatorRequests s !! v) = pending_sum s om (assigned_validator v);
}.

Lemma pending_sum_same s s' om f :
  InferenceRequests s' = InferenceRequests s -> pending_sum s' om f = pending_sum s om f.
Proof. intros H. apply map_sum_ext. intros id o _. unfold pending_in. by rewrite H. Qed.

Lemma pending_sum_other s s' om f id r :
  InferenceRequests s' = <[id := r]> (InferenceRequests s) -> om !! id = None ->
  pending_sum s' om f = pending_sum s om f.
Proof.
  intros Hreq Hid. apply map_sum_ext. intros j o Hj. unfold pending_in.
  rewrite Hreq, lookup_insert_ne; [done|congruence].
Qed.

Lemma pending_sum_open s s' om f id o r :
  InferenceRequests s' = <[id := r]> (InferenceRequests s) -> is_pending r = true ->
  om !! id = None -> pending_sum s' (<[id := o]> om) f = f o + pending_sum s om f.
Proof.
  intros Hreq Hr Hid. unfold pending_sum. rewrite map_sum_insert_None by done.
  unfold pending_in at 1. rewrite Hreq, lookup_insert_eq, Hr.
  f_equal. by eapply pending_sum_other.
Qed.

Lemma pending_sum_close s s' om f id o r r' :
  InferenceRequests s !! id = Some r -> is_pending r = true -> is_pending r' = false ->
  InferenceRequests s' = <[id := r']> (InferenceRequests s) -> om !! id = Some o ->
  pending_sum s' om f = pending_sum s om f - f o.
Proof.
  intros Hr Hp Hp' Hreq Hid. unfold pending_sum. rewrite !(map_sum_delete _ om id o Hid).
  unfold pending_in at 1 3. rewrite Hreq, lookup_insert_eq, Hr, Hp, Hp'.
  assert (H : pending_sum s' (delete id om) f = pending_sum s (delete id om) f).
  { eapply pending_sum_other; [done|apply lookup_delete_eq]. }
  unfold pending_sum in H. lia.
Qed.

Lemma pending_sum_nonneg s om f :
  (forall id o, om !! id = Some o -> 0 <= f o) -> 0 <= pending_sum s om f.
Proof.
  intros Hf. apply map_sum_nonneg. intros id o Ho. destruct (pending_in s id); [eauto|lia].
Qed.

Lemma pending_sum_le s om f id o :
  (forall id o, om !! id = Some o -> 0 <= f o) -> om !! id = Some o ->
  pending_in s id = true -> f o <= pending_sum s om f.
Proof.
  intros Hf Ho Hp.
  pose proof (map_sum_lookup_le (fun id o => if pending_in s id then f o else 0) om id o) as H.
  simpl in H. rewrite Hp in H. apply H; [|done].
  intros j oj Hj. destruct (pending_in s j); [eauto|lia].
Qed.

Lemma paid_by_nonneg s om a id o : escrow_inv s om -> om !! id = Some o -> 0 <= paid_by a o.
Proof.
  intros Hi Ho. destruct (proj1 (ei_domain _ _ Hi id) ltac:(eauto)) as [r Hr].
  destruct (ei_record _ _ Hi _ _ _ Ho Hr) as [_ (_ & _ & _ & Hp & _)].
  unfold paid_by. case_decide; lia.
Qed.

(** Everything the invariant reads is unchanged. *)
Lemma escrow_frame s s' om :
  InferenceRequests s' = InferenceRequests s ->
  PendingMinerRequests s' = PendingMinerRequests s ->
  PendingValidatorRequests s' = PendingValidatorRequests s ->
  (forall a, balance_on_hold HoldReason_InferencePayment a (currency_state s')
             = balance_on_hold HoldReason_InferencePayment a (currency_state s)) ->
  escrow_inv s om -> escrow_inv s' om.
Proof.
  intros H1 H2 H3 H4 []. split; rewrite ?H1, ?H2, ?H3; auto; intros x;
    rewrite ?H4, (pending_sum_same s s' om _ H1); auto.
Qed.

Lemma held_other r a x c c' r' :
  held_after r a x c c' -> r' <> r ->
  forall a', balance_on_hold r' a' c' = balance_on_hold r' a' c.
Proof. intros H Hr a'. rewrite H, decide_False by naive_solver. lia. Qed.

(** *** Opening *)

Lemma increment_count_default id m m' j :
  increment_count id m = Ok m' ->
  default 0 (m' !! j) = default 0 (m !! j) + if decide (id = j) then 1 else 0.
Proof.
  intros ->%increment_count_Ok. case_decide as Hj.
  - subst. rewrite lookup_insert_eq. done.
  - rewrite lookup_insert_ne by done. lia.
Qed.

Lemma decrement_count_default id m m' j :
  decrement_count id m = Ok m' ->
  default 0 (m' !! j) = default 0 (m !! j) - if decide (id = j) then 1 else 0.
Proof.
  intros (k & Hk & H1 & ->)%decrement_count_Ok. destruct (Z.eqb_spec (k - 1) 0);
    case_decide as Hj; subst;
    rewrite ?lookup_delete_eq, ?lookup_insert_eq, ?lookup_delete_ne, ?lookup_insert_ne,
      ?Hk by done; simpl; lia.
Qed.

Lemma escrow_open s om n input o c pm pv :
  escrow_inv s om -> opens s n o c pm pv ->
  escrow_inv (opened_store s n input o c pm pv) (<[RequestCount s := o]> om).
Proof.
  intros Hi [Hfresh _ Hok _ _ Hhold Hm Hv _]. destruct Hi.
  set (id := RequestCount s) in *. set (s' := opened_store s n input o c pm pv).
  assert (Hid : om !! id = None).
  { apply eq_None_not_Some. rewrite ei_domain0, Hfresh. by intros [? ?]. }
  assert (Hsum : forall f, pending_sum s' (<[id := o]> om) f = f o + pending_sum s om f).
  { intros f. by apply (pending_sum_open s s' om f id o (opened_request id n input o)). }
  split; simpl.
  - intros j. rewrite !lookup_insert_is_Some', ei_domain0. done.
  - intros j oj r. rewrite !lookup_insert_Some.
    intros [[<- <-]|[Hj Ho]] [[? <-]|[Hj' Hr]]; try done; [|by eauto].
    split; [|done]. by exists n, input.
  - intros a. rewrite Hsum, <- ei_held0. apply hold_held in Hhold. rewrite Hhold.
    unfold paid_by. repeat case_decide; naive_solver lia.
  - intros m. rewrite Hsum, <- ei_miner0, (increment_count_default _ _ _ m Hm).
    unfold assigned_miner. lia.
  - intros v. rewrite Hsum, <- ei_validator0, (increment_count_default _ _ _ v Hv).
    unfold assigned_validator. lia.
Qed.

(** *** Closing *)

(** What a close presents is what the request was opened with. *)
Lemma closes_opening s om id r st u m v ab tw c pm pv :
  escrow_inv s om -> closes s id r st u m v ab tw c pm pv ->
  exists o, om !! id = Some o /\ record_of id o r /\ opening_ok o /\ u = op_user o
    /\ m = op_miner o /\ v = op_validator o /\ ab = op_assignment_blinding o
    /\ tw = op_terms o.
Proof.
  intros Hi Hc. destruct (proj2 (ei_domain _ _ Hi id)) as [o Ho];
    [rewrite (closes_request _ _ _ _ _ _ _ _ _ _ _ _ Hc); eauto|].
  destruct (ei_record _ _ Hi _ _ _ Ho (closes_request _ _ _ _ _ _ _ _ _ _ _ _ Hc)) as [Hr Hok].
  exists o. do 3 (split; [done|]).
  pose proof (proj1 (user_matches Hash _ _ _ _ Hr) (closes_user _ _ _ _ _ _ _ _ _ _ _ _ Hc)).
  pose proof (proj1 (assignment_matches Hash _ _ _ _ _ _ Hr Hok)
    (closes_assignment _ _ _ _ _ _ _ _ _ _ _ _ Hc)).
  pose proof (proj1 (terms_matches Hash _ _ _ _ Hr Hok) (closes_terms _ _ _ _ _ _ _ _ _ _ _ _ Hc)).
  tauto.
Qed.

Lemma escrow_close s om id r st u m v ab tw c pm pv :
  escrow_inv s om -> closes s id r st u m v ab tw c pm pv ->
  escrow_inv (closed_store s id r st c pm pv) om.
Proof.
  intros Hi Hc. destruct (closes_opening _ _ _ _ _ _ _ _ _ _ _ _ _ Hi Hc)
    as (o & Ho & Hrec & Hok & -> & -> & -> & -> & ->).
  destruct Hc as [Hr Hpend Hst _ _ _ Hheld Hm Hv _ _]. destruct Hi.
  set (s' := closed_store s id r st c pm pv).
  assert (Hreq : InferenceRequests s' = <[id := r <| rq_status := st |>]> (InferenceRequests s))
    by (by destruct st).
  assert (Hsum : forall f, pending_sum s' om f = pending_sum s om f - f o).
  { intros f. eapply pending_sum_close; eauto; unfold is_pending.
    - by rewrite bool_decide_true.
    - by rewrite bool_decide_false. }
  split; rewrite ?Hreq.
  - intros j. rewrite lookup_insert_is_Some', ei_domain0. naive_solver.
  - intros j oj rj Hoj. rewrite lookup_insert_Some. intros [[<- <-]|[Hj Hrj]]; [|by eauto].
    simplify_eq. split; [|done]. destruct Hrec as (n & input & ->). by exists n, input.
  - intros a. replace (currency_state s') with c by (by destruct st).
    rewrite Hsum, Hheld, <- ei_held0. unfold paid_by, op_payment.
    repeat case_decide; naive_solver lia.
  - intros j. replace (PendingMinerRequests s') with pm by (by destruct st).
    rewrite Hsum, (decrement_count_default _ _ _ j Hm), <- ei_miner0.
    unfold assigned_miner. lia.
  - intros j. replace (PendingValidatorRequests s') with pv by (by destruct st).
    rewrite Hsum, (decrement_count_default _ _ _ j Hv), <- ei_validator0.
    unfold assigned_validator. lia.
Qed.

Lemma escrow_records s om g : escrow_inv s om -> escrow_inv (s <| ProofRecords ::= g |>) om.
Proof. by apply escrow_frame. Qed.

(** Every transition keeps the invariant, and never forgets an opening. *)
Lemma trans_escrow s s' om :
  trans s s' -> escrow_inv s om -> exists om', om ⊆ om' /\ escrow_inv s' om'.
Proof.
  intros Ht Hi. destruct Ht; subst;
    try (exists om; split; [done|]; by apply (escrow_frame s)).
  - exists om. split; [done|]. match goal with H : same_registry _ _ |- _ => rewrite H end.
    by apply (escrow_frame s).
  - exists om. split; [done|]. apply (escrow_frame s); try done. intros a. simpl.
    by eapply burn_from_held.
  - exists om. split; [done|]. apply (escrow_frame s); try done. intros a. simpl.
    eapply held_other; [by eapply hold_held|done].
  - exists om. split; [done|]. apply (escrow_frame s); try done. intros a. simpl.
    eapply held_other; [by eapply hold_held|done].
  - exists om. split; [done|]. apply (escrow_frame s); try done. intros a. simpl.
    by eapply held_other.
  - exists om. split; [done|]. apply (escrow_frame s); try done. intros a. simpl.
    by eapply held_other.
  - exists om. split; [done|]. apply (escrow_frame s); try done. intros a. simpl.
    eapply held_other; [by eapply burn_held_held|done].
  - exists om. split; [done|]. apply (escrow_frame s); try done. intros a. simpl.
    eapply held_other; [by eapply burn_held_held|done].
  - exists (<[RequestCount s := o]> om). split; [|by apply escrow_open].
    apply insert_subseteq. apply eq_None_not_Some. rewrite (ei_domain _ _ Hi).
    match goal with H : opens _ _ _ _ _ _ |- _ => rewrite (opens_fresh _ _ _ _ _ _ H) end.
    by intros [? ?].
  - exists om. split; [done|]. by eapply escrow_close.
  - exists om. split; [done|]. apply escrow_records. by eapply escrow_close.
Qed.

End Escrow.

(** ** Bonds and stakes *)

(** The part of the recorded capital that belongs to an account, for records whose
    operators are given by [op]. *)
Definition held_sum `{Hashing} (op : Z -> option Commitment) (locked : gmap Z Z)
    (a : AccountId) : Z :=
  map_sum (fun id b => if decide (op id = Some (operator_commitment a)) then b else 0) locked.

Section HeldSum.
Context `{HH : !Hashing}.
Hypothesis Hash : collision_free.

Lemma held_sum_ext op op' locked a :
  (forall id b, locked !! id = Some b -> op' id = op id) ->
  held_sum op' locked a = held_sum op locked a.
Proof. intros H. apply map_sum_ext. intros id b Hb. by rewrite (H _ _ Hb). Qed.

Lemma held_sum_insert op locked id b o a :
  op id = Some (operator_commitment o) ->
  held_sum op (<[id := b]> locked) a
  = held_sum op locked a + if decide (a = o) then b - default 0 (locked !! id) else 0.
Proof.
  intros Ho. unfold held_sum. rewrite map_sum_insert, Ho.
  destruct (decide (a = o)) as [->|Hne].
  - destruct (locked !! id); rewrite !decide_True by done; simpl; lia.
  - assert (Hc : Some (operator_commitment o) <> Some (operator_commitment a)).
    { intros [= H]. apply (operator_commitment_inj Hash) in H. congruence. }
    destruct (locked !! id); rewrite !decide_False by done; lia.
Qed.

Lemma held_sum_delete op locked id b o a :
  op id = Some (operator_commitment o) -> locked !! id = Some b ->
  held_sum op (delete id locked) a
  = held_sum op locked a + if decide (a = o) then - b else 0.
Proof.
  intros Ho Hb. pose proof (held_sum_insert op (delete id locked) id b o a Ho) as H.
  rewrite insert_delete_id, lookup_delete_eq in H by done. simpl in H.
  case_decide; lia.
Qed.

Lemma held_sum_le op locked id b o :
  (forall j x, locked !! j = Some x -> 0 <= x) ->
  op id = Some (operator_commitment o) -> locked !! id = Some b ->
  b <= held_sum op locked o.
Proof.
  intros Hpos Ho Hb.
  pose proof (map_sum_lookup_le
    (fun id b => if decide (op id = Some (operator_commitment o)) then b else 0) locked id b) as H.
  simpl in H. rewrite decide_True in H by done. apply H; [|done].
  intros j x Hj. case_decide; [eauto|lia].
Qed.

End HeldSum.

Section Capital.
Context {C : Type} `{CC : !Currency C} `{T : !Config} `{HH : !Hashing}.
Context `{Laws : !CurrencyLaws C}.
Hypothesis Hash : collision_free.
Implicit Types (s : Store C).

Definition miner_op s (id : Z) : option Commitment :=
  cm_operator_commitment <$> Miners s !! id.

Definition validator_op s (id : Z) : option Commitment :=
  cv_operator_commitment <$> Validators s !! id.

(** Every participant has an operator, and what the currency holds as bond or stake for
    an account is what the records of its participants add up to. *)
Record capital_inv s : Prop := {
  bi_miner_op id oc : miner_op s id = Some oc -> exists o, oc = operator_commitment o;
  bi_validator_op id oc : validator_op s id = Some oc -> exists o, oc = operator_commitment o;
  bi_bond a : balance_on_hold HoldReason_MinerBond a (currency_state s)
              = held_sum (miner_op s) (MinerLockedBond s) a;
  bi_stake a : balance_on_hold HoldReason_ValidatorStake a (currency_state s)
               = held_sum (validator_op s) (ValidatorLockedStake s) a;
}.

Lemma miner_op_insert s s' id m m' :
  Miners s' = <[id := m']> (Miners s) -> Miners s !! id = Some m ->
  cm_operator_commitment m' = cm_operator_commitment m ->
  forall j, miner_op s' j = miner_op s j.
Proof.
  intros H Hm Hop j. unfold miner_op. rewrite H.
  destruct (decide (id = j)) as [<-|Hne]; [|by rewrite lookup_insert_ne].
  rewrite lookup_insert_eq, Hm. simpl. by rewrite Hop.
Qed.

Lemma validator_op_insert s s' id v v' :
  Validators s' = <[id := v']> (Validators s) -> Validators s !! id = Some v ->
  cv_operator_commitment v' = cv_operator_commitment v ->
  forall j, validator_op s' j = validator_op s j.
Proof.
  intros H Hm Hop j. unfold validator_op. rewrite H.
  destruct (decide (id = j)) as [<-|Hne]; [|by rewrite lookup_insert_ne].
  rewrite lookup_insert_eq, Hm. simpl. by rewrite Hop.
Qed.

(** Operators stay, the records may change; the held funds must follow them. *)
Lemma capital_change s s' :
  (forall j, miner_op s' j = miner_op s j) ->
  (forall j, validator_op s' j = validator_op s j) ->
  (forall a, balance_on_hold HoldReason_MinerBond a (currency_state s')
     - balance_on_hold HoldReason_MinerBond a (currency_state s)
     = held_sum (miner_op s) (MinerLockedBond s') a
       - held_sum (miner_op s) (MinerLockedBond s) a) ->
  (forall a, balance_on_hold HoldReason_ValidatorStake a (currency_state s')
     - balance_on_hold HoldReason_ValidatorStake a (currency_state s)
     = held_sum (validator_op s) (ValidatorLockedStake s') a
       - held_sum (validator_op s) (ValidatorLockedStake s) a) ->
  capital_inv s -> capital_inv s'.
Proof.
  intros Hm Hv Hb Hst []. split.
  - intros id oc. rewrite Hm. eauto.
  - intros id oc. rewrite Hv. eauto.
  - intros a. rewrite (held_sum_ext (miner_op s)) by auto. specialize (Hb a).
    rewrite bi_bond0 in Hb. lia.
  - intros a. rewrite (held_sum_ext (validator_op s)) by auto. specialize (Hst a).
    rewrite bi_stake0 in Hst. lia.
Qed.

(** The bond of one miner changes from what it was to [b], and the held funds by the
    difference. *)
Lemma capital_bond s s' id m m' o c b :
  capital_inv s -> Miners s !! id = Some m ->
  cm_operator_commitment m' = cm_operator_commitment m ->
  operator_commitment_matches (cm_operator_commitment m) o = true ->
  Miners s' = <[id := m']> (Miners s) -> Validators s' = Validators s ->
  currency_state s' = c -> ValidatorLockedStake s' = ValidatorLockedStake s ->
  (MinerLockedBond s' = <[id := b]> (MinerLockedBond s)
   \/ MinerLockedBond s' = delete id (MinerLockedBond s) /\ b = 0) ->
  held_after HoldReason_MinerBond o (b - default 0 (MinerLockedBond s !! id))
    (currency_state s) c ->
  capital_inv s'.
Proof.
  intros Hi Hm Hop Ho Hms Hvs <- Hst Hlb Hheld.
  assert (Hoc : miner_op s id = Some (operator_commitment o)).
  { unfold miner_op. rewrite Hm. simpl. f_equal.
    destruct (bi_miner_op _ Hi id (cm_operator_commitment m)) as [o' Ho'];
      [by unfold miner_op; rewrite Hm|].
    rewrite Ho' in *. apply (operator_matches Hash) in Ho. by subst. }
  apply (capital_change s); try done.
  - by eapply miner_op_insert.
  - intros j. unfold validator_op. by rewrite Hvs.
  - intros a. rewrite Hheld. destruct Hlb as [->|[-> ->]].
    + rewrite (held_sum_insert Hash _ _ _ _ _ a Hoc). repeat case_decide; naive_solver lia.
    + destruct (MinerLockedBond s !! id) as [b|] eqn:Hb.
      * rewrite (held_sum_delete Hash _ _ _ _ _ a Hoc Hb). simpl.
        repeat case_decide; naive_solver lia.
      * rewrite delete_id by done. simpl. repeat case_decide; lia.
  - intros a. rewrite Hst, (held_other _ _ _ _ _ _ Hheld) by done. lia.
Qed.

Lemma capital_stake s s' id v v' o c b :
  capital_inv s -> Validators s !! id = Some v ->
  cv_operator_commitment v' = cv_operator_commitment v ->
  operator_commitment_matches (cv_operator_commitment v) o = true ->
  Validators s' = <[id := v']> (Validators s) -> Miners s' = Miners s ->
  currency_state s' = c -> MinerLockedBond s' = MinerLockedBond s ->
  (ValidatorLockedStake s' = <[id := b]> (ValidatorLockedStake s)
   \/ ValidatorLockedStake s' = delete id (ValidatorLockedStake s) /\ b = 0) ->
  held_after HoldReason_ValidatorStake o (b - default 0 (ValidatorLockedStake s !! id))
    (currency_state s) c ->
  capital_inv s'.
Proof.
  intros Hi Hm Hop Ho Hms Hvs <- Hst Hlb Hheld.
  assert (Hoc : validator_op s id = Some (operator_commitment o)).
  { unfold validator_op. rewrite Hm. simpl. f_equal.
    destruct (bi_validator_op _ Hi id (cv_operator_commitment v)) as [o' Ho'];
      [by unfold validator_op; rewrite Hm|].
    rewrite Ho' in *. apply (operator_matches Hash) in Ho. by subst. }
  apply (capital_change s); try done.
  - intros j. unfold miner_op. by rewrite Hvs.
  - by eapply validator_op_insert.
  - intros a. rewrite Hst, (held_other _ _ _ _ _ _ Hheld) by done. lia.
  - intros a. rewrite Hheld. destruct Hlb as [->|[-> ->]].
    + rewrite (held_sum_insert Hash _ _ _ _ _ a Hoc). repeat case_decide; naive_solver lia.
    + destruct (ValidatorLockedStake s !! id) as [b|] eqn:Hb.
      * rewrite (held_sum_delete Hash _ _ _ _ _ a Hoc Hb). simpl.
        repeat case_decide; naive_solver lia.
      * rewrite delete_id by done. simpl. repeat case_decide; lia.
Qed.

(** Neither the records nor the funds held for them change. *)
Lemma capital_frame s s' :
  (forall j, miner_op s' j = miner_op s j) ->
  (forall j, validator_op s' j = validator_op s j) ->
  MinerLockedBond s' = MinerLockedBond s -> ValidatorLockedStake s' = ValidatorLockedStake s ->
  (forall r a, r <> HoldReason_InferencePayment ->
     balance_on_hold r a (currency_state s') = balance_on_hold r a (currency_state s)) ->
  capital_inv s -> capital_inv s'.
Proof.
  intros H1 H2 H3 H4 H5. apply capital_change; [done|done|..]; intros a;
    rewrite ?H3, ?H4, H5 by done; lia.
Qed.

(** A new miner has no bond yet. *)
Lemma capital_new_miner s m o :
  registry_inv s -> capital_inv s -> cm_operator_commitment m = operator_commitment o ->
  capital_inv (s <| MinerCount := MinerCount s + 1 |> <| Miners ::= <[MinerCount s := m]> |>).
Proof.
  intros Hr [] Hop. split; simpl; auto.
  - intros id oc. unfold miner_op; simpl.
    destruct (decide (MinerCount s = id)) as [<-|Hne].
    + rewrite lookup_insert_eq. intros [= <-]. by exists o.
    + rewrite lookup_insert_ne by done. apply bi_miner_op0.
  - intros a. rewrite bi_bond0. symmetry. apply held_sum_ext. intros id b Hb.
    unfold miner_op; simpl. rewrite lookup_insert_ne; [done|].
    intros <-. destruct (ri_bond _ Hr _ _ Hb) as [m' Hm'].
    destruct (ri_miner _ Hr _ _ Hm') as [? _]. lia.
Qed.

Lemma capital_new_validator s v o b c :
  registry_inv s -> capital_inv s -> cv_operator_commitment v = operator_commitment o ->
  held_after HoldReason_ValidatorStake o b (currency_state s) c ->
  capital_inv (s <| currency_state := c |> <| ValidatorCount := ValidatorCount s + 1 |>
                 <| Validators ::= <[ValidatorCount s := v]> |>
                 <| ValidatorLockedStake ::= <[ValidatorCount s := b]> |>).
Proof.
  intros Hr [] Hop Hheld.
  assert (Hnew : ValidatorLockedStake s !! ValidatorCount s = None).
  { apply eq_None_not_Some. intros [b' Hb]. destruct (ri_stake _ Hr _ _ Hb) as [v' Hv'].
    destruct (ri_validator _ Hr _ _ Hv') as [? _]. lia. }
  split; simpl.
  - done.
  - intros id oc. unfold validator_op; simpl.
    destruct (decide (ValidatorCount s = id)) as [<-|Hne].
    + rewrite lookup_insert_eq. intros [= <-]. by exists o.
    + rewrite lookup_insert_ne by done. apply bi_validator_op0.
  - intros a. by rewrite (held_other _ _ _ _ _ _ Hheld), bi_bond0 by done.
  - intros a. rewrite Hheld, bi_stake0, (held_sum_insert Hash _ _ _ _ o), Hnew;
      [|unfold validator_op; simpl; by rewrite lookup_insert_eq, <- Hop].
    match goal with |- _ = held_sum ?op _ _ + _ => rewrite (held_sum_ext (validator_op s) op) end.
    + simpl. repeat case_decide; naive_solver lia.
    + intros id b' Hb. unfold validator_op; simpl. rewrite lookup_insert_ne; [done|].
      intros <-. congruence.
Qed.

Lemma inference_held_other u x c c' r a :
  held_after HoldReason_InferencePayment u x c c' -> r <> HoldReason_InferencePayment ->
  balance_on_hold r a c' = balance_on_hold r a c.
Proof. intros H Hr. by rewrite (held_other _ _ _ _ _ _ H). Qed.

Lemma capital_activate s id m o b c :
  registry_inv s -> capital_inv s -> Miners s !! id = Some m ->
  operator_commitment_matches (cm_operator_commitment m) o = true ->
  cm_status m = RegistryStatus_Pending ->
  hold HoldReason_MinerBond o b (currency_state s) = Ok c ->
  capital_inv (s <| currency_state := c |> <| MinerLockedBond ::= <[id := b]> |>
                 <| Miners ::= <[id := with_miner_status id RegistryStatus_Active m]> |>).
Proof.
  intros Hr Hi Hm Hop Hst Hh. destruct (ri_miner _ Hr _ _ Hm) as (_ & _ & _ & Hcap).
  rewrite Hst in Hcap. simpl in Hcap.
  eapply (capital_bond s _ id m (with_miner_status id RegistryStatus_Active m) o c b); try done; [by left|].
  rewrite Hcap. simpl. rewrite Z.sub_0_r. by apply hold_held.
Qed.

Lemma capital_records s f : capital_inv s -> capital_inv (s <| ProofRecords ::= f |>).
Proof. by apply capital_frame. Qed.

(** Operators, records and held funds after each transition. *)
Lemma trans_capital s s' :
  trans s s' -> registry_inv s -> capital_inv s -> capital_inv s'.
Proof.
  intros Ht Hr Hi. destruct Ht; subst; try (by apply (capital_frame s)).
  - match goal with H : same_registry _ _ |- _ => rewrite H end. by apply (capital_frame s).
  - apply (capital_frame s); try done. intros r a _. simpl. by eapply burn_from_held.
  - by eapply capital_new_miner.
  - by apply capital_activate with o.
  - eapply capital_new_validator; eauto using hold_held.
  - apply (capital_frame s); try done. by eapply miner_op_insert.
  - apply (capital_frame s); try done. by eapply validator_op_insert.
  - match goal with H : locked_miner_bond _ _ _ = _ |- _ =>
      eapply locked_miner_bond_Some in H as Hb; [|done..] end.
    eapply (capital_bond s _ id m (with_miner_status id RegistryStatus_Disabled m) o c 0); try done; [by right|].
    rewrite Hb. by replace (0 - default 0 (Some b)) with (- b) by (simpl; lia).
  - match goal with H : locked_validator_stake _ _ _ = _ |- _ =>
      eapply locked_validator_stake_Some in H as Hb; [|done..] end.
    eapply (capital_stake s _ id v (with_validator_status id RegistryStatus_Disabled v) o c 0);
      try done; [by right|].
    rewrite Hb. by replace (0 - default 0 (Some b)) with (- b) by (simpl; lia).
  - match goal with H : locked_miner_bond _ _ _ = _ |- _ =>
      eapply locked_miner_bond_Some in H as Hb; [|done..] end.
    match goal with |- context [with_miner_status id ?st m] =>
      eapply (capital_bond s _ id m (with_miner_status id st m) o c (b - x)) end; try done; [by left|].
    rewrite Hb. replace (b - x - default 0 (Some b)) with (- x) by (simpl; lia).
    by eapply burn_held_held.
  - match goal with H : locked_validator_stake _ _ _ = _ |- _ =>
      eapply locked_validator_stake_Some in H as Hb; [|done..] end.
    match goal with |- context [with_validator_status id ?st v] =>
      eapply (capital_stake s _ id v (with_validator_status id st v) o c (b - x)) end; try done; [by left|].
    rewrite Hb. replace (b - x - default 0 (Some b)) with (- x) by (simpl; lia).
    by eapply burn_held_held.
  - apply (capital_frame s); try done. by eapply validator_op_insert.
  - apply (capital_frame s); try done. eapply validator_op_insert; eauto.
    by destruct (is_active _).
  - apply (capital_frame s); try done. intros r a Hne. simpl.
    eapply inference_held_other; [|done].
    match goal with H : opens _ _ _ _ _ _ |- _ => eapply hold_held, (opens_hold _ _ _ _ _ _ H) end.
  - apply (capital_frame s); try (by destruct st). intros r' a Hne.
    replace (currency_state (closed_store s id r st c pm pv)) with c by (by destruct st).
    eapply inference_held_other; [|done].
    match goal with H : closes _ _ _ _ _ _ _ _ _ _ _ _ |- _ =>
      apply (closes_held _ _ _ _ _ _ _ _ _ _ _ _ H) end.
  - apply capital_records, (capital_frame s); try done. intros r' a Hne. simpl.
    eapply inference_held_other; [|done].
    match goal with H : closes _ _ _ _ _ _ _ _ _ _ _ _ |- _ =>
      apply (closes_held _ _ _ _ _ _ _ _ _ _ _ _ H) end.
Qed.

End Capital.
