(* ===== verification/PalletFunds.v ===== *)
(** * The Qubitum pallet: funds of reachable states

    The theorems about money: what is held is accounted for, every pending request can be
    refunded and every bond withdrawn, and a settlement or a rejection moves exactly the
    amounts it should. *)

From S2P Require Import Prelude Protocol PostQuantum Pallet PalletGuards PalletRouting.
From S2P Require Import PalletCalls PalletTransitions PalletInvariants PalletCapacity.
From S2P Require Import PalletQueries PalletEscrow.
From stdpp Require Import base tactics list gmap strings list_numbers relations.
From Stdlib Require Import ZArith Lia.
Open Scope Z_scope.

(** ** Running a computation forwards *)

Section Forward.
Context {S E A B : Type}.

Lemma abind_run (m : act S E A) (k : A -> act S E B) s a s1 :
  m s = Ok (a, s1) -> abind m k s = k a s1.
Proof. unfold abind. by intros ->. Qed.

Lemma check_run (f : S -> result E A) s a : f s = Ok a -> check f s = Ok (a, s).
Proof. unfold check. by intros ->. Qed.

Lemma ensure_run (c : bool) (e : E) : c = true -> ensure c e = Ok tt.
Proof. by intros ->. Qed.

Lemma ok_or_run (o : option A) (e : E) a : o = Some a -> ok_or o e = Ok a.
Proof. by intros ->. Qed.

End Forward.

Lemma currency_do_run {C} (f : C -> dresult C) (s : Store C) c :
  f (currency_state s) = Ok c -> currency_do f s = Ok (tt, s <| currency_state := c |>).
Proof. unfold currency_do. by intros ->. Qed.

Lemma currency_get_run {C} (f : C -> dresult (Z * C)) (s : Store C) x c :
  f (currency_state s) = Ok (x, c) ->
  currency_get f s = Ok (x, s <| currency_state := c |>).
Proof. unfold currency_get. by intros ->. Qed.

Section Funds.
Context {C : Type} `{CC : !Currency C} `{T : !Config} `{HH : !Hashing}.
Context `{Laws : !CurrencyLaws C}.
Hypothesis Hash : collision_free.
Hypothesis Hok : config_ok.
Implicit Types s : Store C.

(** ** Reachable states *)

Record funds_inv s : Prop := {
  fi_chain : chain_inv s;
  fi_escrow : exists om, escrow_inv s om;
  fi_capital : capital_inv s;
}.

Lemma reachable_funds s : reachable s -> funds_inv s.
Proof.
  apply reachable_ind; [done|..].
  - intros c Hc. split; [by apply genesis_chain_inv| |].
    + exists ∅. split; simpl; intros; rewrite ?lookup_empty; done.
    + split; simpl.
      * intros id oc. unfold miner_op. simpl. by rewrite lookup_empty.
      * intros id oc. unfold validator_op. simpl. by rewrite lookup_empty.
      * intros a. by rewrite Hc.
      * intros a. by rewrite Hc.
  - intros s1 s2 Ht [Hc [om He] Hb]. split.
    + by eapply trans_chain_inv.
    + destruct (trans_escrow Hash _ _ _ Ht He) as (om' & _ & ?). eauto.
    + eapply trans_capital; eauto. apply Hc.
  - intros s1 n _ [Hc [om He] Hb]. split.
    + by eapply chain_inv_time.
    + exists om. by apply (escrow_frame s1).
    + by apply (capital_frame s1).
  - intros s1 c Hh [Hc [om He] Hb]. split.
    + by eapply chain_inv_balances.
    + exists om. by apply (escrow_frame s1).
    + by apply (capital_frame s1).
Qed.

(** ** Refunds *)

(** [cancel_inference] and [expire_inference] after their origin check: what they do with
    the entry of the request, and the bookkeeping around it. *)
Definition refund_entry (status : InferenceRequestStatus) (user : AccountId)
    (miner_id validator_id : Z) (assignment_blinding : Commitment)
    (timing_witness : InferenceRequestTimingWitness)
    (terms_witness : InferenceRequestTermsWitness)
    (maybe_request : option ChainInferenceRequest) :
    pact C (Z * option ChainInferenceRequest) :=
  request <-! check (fun _ => ok_orE maybe_request Error_UnknownRequest);
  do! check (fun _ => ensure_request_user request user);
  do! check (fun _ => ensure_request_assignment_witness request miner_id validator_id
                        assignment_blinding);
  do! check (fun _ => ensure_request_timing_witness request timing_witness);
  do! check (fun _ => ensure_request_terms_witness request terms_witness);
  do! check (fun _ => ensureE (is_pending request) Error_RequestAlreadySettled);
  cancel_available_at <-! check (fun _ =>
    ok_orE (checked_add 64 (created_at timing_witness) RequestCancelDelayBlocks)
      Error_ArithmeticOverflow);
  do! check (fun s => ensureE (cancel_available_at <=? current_block s)
                        Error_RequestCancelUnavailable);
  let payment := terms_payment (terms terms_witness) in
  do! check (fun _ => ensure_inference_refund_can_record payment);
  do! currency_do (release HoldReason_InferencePayment user payment);
  ret (payment, Some (request <| rq_status := status |>)).

Definition refund_body (status : InferenceRequestStatus) (event : Event) (user : AccountId)
    (request_id miner_id validator_id : Z) (assignment_blinding : Commitment)
    (timing_witness : InferenceRequestTimingWitness)
    (terms_witness : InferenceRequestTermsWitness) : pact C unit :=
  payment <-! InferenceRequests_try_mutate request_id
    (refund_entry status user miner_id validator_id assignment_blinding timing_witness
       terms_witness);
  do! decrement_pending_assignment miner_id validator_id;
  do! transition_request_status InferenceRequestStatus_Pending status;
  do! record_inference_refund payment;
  deposit_activity_event event.

Lemma cancel_inference_body origin id m v ab ti tw :
  cancel_inference origin id m v ab ti tw =
  (user <-! check (fun _ => ensure_payload_signer origin);
   refund_body InferenceRequestStatus_Cancelled Event_InferenceCancelled user id m v ab ti tw).
Proof. reflexivity. Qed.

Lemma expire_inference_body origin id user m v ab ti tw :
  expire_inference origin id user m v ab ti tw =
  (do! check (fun _ => ensure_payload_signer origin);
   refund_body InferenceRequestStatus_Expired Event_InferenceExpired user id m v ab ti tw).
Proof. reflexivity. Qed.

Lemma deposit_run e s : exists s', deposit_activity_event e s = Ok (tt, s').
Proof.
  unfold deposit_activity_event, deposit_activity_events. destruct PrivateEventMetadata.
  - by eexists.
  - by eexists.
Qed.

Lemma decrement_count_run id m : 1 <= default 0 (m !! id) -> exists m', decrement_count id m = Ok m'.
Proof.
  unfold decrement_count. intros H. destruct (m !! id) as [k|]; simpl in *; [|lia].
  unfold checked_sub. rewrite (proj2 (Z.leb_le _ _) H). by eexists.
Qed.

(** There is room for one more request of any closed status while one is pending. *)
Lemma status_count_room s id r st :
  request_inv s -> InferenceRequests s !! id = Some r -> is_pending r = true ->
  st <> InferenceRequestStatus_Pending ->
  1 <= PendingInferenceRequestCount s /\ status_count st s + 1 < 2 ^ 64.
Proof.
  intros Hi Hr Hp%is_pending_true Hst.
  assert (Hone : 1 <= count_status InferenceRequestStatus_Pending (InferenceRequests s)).
  { pose proof (map_sum_lookup_le
      (fun _ r => if decide (rq_status r = InferenceRequestStatus_Pending) then 1 else 0)
      (InferenceRequests s) id r) as H. simpl in H. rewrite decide_True in H by done.
    apply H; [|done]. intros. case_decide; lia. }
  split; [by rewrite <- (qi_status _ Hi InferenceRequestStatus_Pending) in Hone|].
  rewrite (qi_status _ Hi st).
  assert (Htot : count_status st (InferenceRequests s)
    + count_status InferenceRequestStatus_Pending (InferenceRequests s) <= RequestCount s).
  { rewrite <- !tally_map, <- !(tally_Permutation _ _ _ (request_records_map s Hi)).
    etrans; [apply (tally_two _ _ _ Hst)|]. by apply request_records_length. }
  pose proof (qi_count _ Hi). lia.
Qed.

Lemma current_block_bound s : current_block s < 2 ^ 64.
Proof. unfold current_block, saturated_into, uint_max. lia. Qed.

Lemma decrement_pending_assignment_run m v s :
  1 <= default 0 (PendingMinerRequests s !! m) ->
  1 <= default 0 (PendingValidatorRequests s !! v) ->
  exists pm pv, decrement_pending_assignment m v s
    = Ok (tt, s <| PendingMinerRequests := pm |> <| PendingValidatorRequests := pv |>).
Proof.
  intros (pm & Hpm)%decrement_count_run (pv & Hpv)%decrement_count_run.
  exists pm, pv. unfold decrement_pending_assignment.
  erewrite abind_run by (by apply check_run). erewrite abind_run by done.
  by erewrite abind_run by (by apply check_run).
Qed.

Lemma transition_request_status_run st s :
  st <> InferenceRequestStatus_Pending -> 1 <= PendingInferenceRequestCount s ->
  status_count st s + 1 < 2 ^ 64 ->
  exists s', transition_request_status InferenceRequestStatus_Pending st s = Ok (tt, s').
Proof.
  intros Hst Hp Hn. unfold transition_request_status. rewrite bool_decide_false by done.
  unfold decrement_request_status_count, increment_request_status_count,
    decrement_request_count, increment_request_count, abind, check, modify, checked_sub.
  simpl. rewrite (proj2 (Z.leb_le _ _) Hp). simpl.
  match goal with |- context [checked_add 64 ?x 1] => replace x with (status_count st s)
    by (by destruct st) end.
  unfold checked_add. rewrite (proj2 (Z.ltb_lt _ _) Hn). simpl. by eexists.
Qed.

(** The bookkeeping after a payment left the escrow, for the opening of a pending
    request. *)
Lemma pending_counters s om id r o :
  escrow_inv s om -> InferenceRequests s !! id = Some r -> is_pending r = true ->
  om !! id = Some o ->
  1 <= default 0 (PendingMinerRequests s !! op_miner o)
  /\ 1 <= default 0 (PendingValidatorRequests s !! op_validator o)
  /\ 0 < op_payment o
     <= balance_on_hold HoldReason_InferencePayment (op_user o) (currency_state s).
Proof.
  intros He Hr Hp Ho. assert (Hin : pending_in s id = true) by (unfold pending_in; by rewrite Hr).
  destruct (ei_record _ _ He _ _ _ Ho Hr) as [_ (_ & _ & _ & Hpos & _)].
  rewrite (ei_miner _ _ He), (ei_validator _ _ He), (ei_held _ _ He).
  pose proof (pending_sum_le s om (assigned_miner (op_miner o)) id o) as H1.
  pose proof (pending_sum_le s om (assigned_validator (op_validator o)) id o) as H2.
  pose proof (pending_sum_le s om (paid_by (op_user o)) id o) as H3.
  unfold assigned_miner in H1 at 2. unfold assigned_validator in H2 at 2.
  unfold paid_by in H3 at 2. rewrite decide_True in H1 by done.
  rewrite decide_True in H2 by done. rewrite decide_True in H3 by done.
  split; [|split; [|split; [done|]]]; eauto using paid_by_nonneg.
  - apply H1; [|done..]. intros. unfold assigned_miner. case_decide; lia.
  - apply H2; [|done..]. intros. unfold assigned_validator. case_decide; lia.
Qed.

Lemma refund_entry_run st s id r o c :
  record_of id o r -> opening_ok o -> is_pending r = true ->
  created_at (op_timing o) + RequestCancelDelayBlocks <= current_block s ->
  release HoldReason_InferencePayment (op_user o) (op_payment o) (currency_state s) = Ok c ->
  refund_entry st (op_user o) (op_miner o) (op_validator o) (op_assignment_blinding o)
    (op_timing o) (op_terms o) (Some r) s
  = Ok ((op_payment o, Some (r <| rq_status := st |>)), s <| currency_state := c |>).
Proof.
  intros Hrec Hoo Hp Hnow Hrel. pose proof (current_block_bound s). unfold refund_entry.
  erewrite abind_run by (by apply check_run).
  erewrite abind_run by (apply check_run, ensure_run, (user_matches Hash _ _ _ _ Hrec); done).
  erewrite abind_run by (apply check_run, (assignment_matches Hash _ _ _ _ _ _ Hrec Hoo); done).
  erewrite abind_run by (apply check_run, (timing_matches Hash _ _ _ _ Hrec Hoo); done).
  erewrite abind_run by (apply check_run, (terms_matches Hash _ _ _ _ Hrec Hoo); done).
  erewrite abind_run by (by apply check_run, ensure_run).
  erewrite abind_run by (apply check_run, ok_or_run, checked_add_Some; split; [done|lia]).
  erewrite abind_run by (apply check_run, ensure_run, Z.leb_le; done).
  erewrite abind_run by (by apply check_run).
  by erewrite abind_run by (apply currency_do_run; exact Hrel).
Qed.

Lemma refund_body_run st e s om id r o :
  chain_inv s -> escrow_inv s om -> InferenceRequests s !! id = Some r ->
  is_pending r = true -> om !! id = Some o -> st <> InferenceRequestStatus_Pending ->
  created_at (op_timing o) + RequestCancelDelayBlocks <= current_block s ->
  exists s', refund_body st e (op_user o) id (op_miner o) (op_validator o)
    (op_assignment_blinding o) (op_timing o) (op_terms o) s = Ok (tt, s').
Proof.
  intros Hc He Hr Hp Ho Hst Hnow.
  destruct (ei_record _ _ He _ _ _ Ho Hr) as [Hrec Hoo].
  destruct (pending_counters _ _ _ _ _ He Hr Hp Ho) as (H1 & H2 & H3).
  destruct (status_count_room _ _ _ st (ci_requests _ Hc) Hr Hp Hst) as [H4 H5].
  destruct (release_total HoldReason_InferencePayment (op_user o) (op_payment o)
    (currency_state s)) as [c Hrel]; [lia|].
  unfold refund_body. set (s1 := s <| currency_state := c |>
    <| InferenceRequests ::= write_entry id (Some (r <| rq_status := st |>)) |>).
  erewrite (abind_run _ _ s _ s1); cycle 1.
  { apply try_mutate_Ok. eexists _, _. split; [rewrite Hr; by eapply refund_entry_run|done]. }
  destruct (decrement_pending_assignment_run (op_miner o) (op_validator o) s1)
    as (pm & pv & Hd); [done..|].
  erewrite abind_run by exact Hd.
  destruct (transition_request_status_run st
    (s1 <| PendingMinerRequests := pm |> <| PendingValidatorRequests := pv |>))
    as (s2 & Ht); [done|done|by destruct st|].
  erewrite abind_run by exact Ht. erewrite abind_run by done.
  apply deposit_run.
Qed.

(** Depositing events changes nothing else. *)
Lemma deposit_frame e s u s' :
  deposit_activity_event e s = Ok (u, s') -> s' = s <| events := events s' |>.
Proof.
  unfold deposit_activity_event, deposit_activity_events.
  destruct PrivateEventMetadata; simpl; unfold deposit_event; intros H; inv_run; by destruct s.
Qed.

(** What a refund leaves behind. *)
Lemma refunds_effect s id u m v ab tw st s1 e s' :
  refunds s id u m v ab tw st s1 -> deposit_activity_event e s1 = Ok (tt, s') ->
  exists r, InferenceRequests s !! id = Some r
    /\ InferenceRequests s' = <[id := r <| rq_status := st |>]> (InferenceRequests s)
    /\ balance_after u (terms_payment (terms tw)) (currency_state s) (currency_state s')
    /\ held_after HoldReason_InferencePayment u (- terms_payment (terms tw))
         (currency_state s) (currency_state s').
Proof.
  intros [(r & c & pm & pv & Hrel & Hcl & ->)] Hd%deposit_frame.
  assert (Hcs : currency_state s' = c) by (rewrite Hd; by destruct st).
  exists r. split; [apply Hcl|]. split; [rewrite Hd; by destruct st|]. rewrite Hcs.
  split; [by eapply release_balance|by eapply release_held].
Qed.

(** C2 Escrow of a reachable state: there are openings for exactly the stored requests
    such that every record is the one its opening wrote, the balance on hold for
    inference payments of each account is the sum of the payments of its pending
    requests, and the pending counter of each miner and validator is the number of
    pending requests assigned to it. *)
Theorem reachable_escrow s (Hs : reachable s) : exists om, escrow_inv s om.
Proof. apply (reachable_funds s Hs). Qed.

(** C5 Bonds and stakes of a reachable state: every participant has an operator account,
    and the balance on hold as bond (as stake) of each account is the sum of the recorded
    bonds of its miners (stakes of its validators). *)
Theorem reachable_capital s (Hs : reachable s) : capital_inv s.
Proof. apply (reachable_funds s Hs). Qed.

Lemma refund_cases st e s om id r o user m v ab ti tw s' :
  escrow_inv s om -> InferenceRequests s !! id = Some r -> om !! id = Some o ->
  refund_body st e user id m v ab ti tw s = Ok (tt, s') ->
  user = op_user o /\ m = op_miner o /\ v = op_validator o
  /\ ab = op_assignment_blinding o /\ ti = op_timing o /\ tw = op_terms o
  /\ created_at ti + RequestCancelDelayBlocks <= current_block s.
Proof.
  intros He Hr Ho Hrun. destruct (ei_record _ _ He _ _ _ Ho Hr) as [Hrec Hoo].
  unfold refund_body, refund_entry, ensure_request_user in Hrun. inv_call. simplify_eq.
  repeat match goal with
  | H : request_user_commitment_matches _ _ = true |- _ => apply (user_matches Hash _ _ _ _ Hrec) in H
  | H : ensure_request_assignment_witness _ _ _ _ = Ok _ |- _ =>
      apply (assignment_matches Hash _ _ _ _ _ _ Hrec Hoo) in H as (? & ? & ?)
  | H : ensure_request_timing_witness _ _ = Ok _ |- _ =>
      apply (timing_matches Hash _ _ _ _ Hrec Hoo) in H
  | H : ensure_request_terms_witness _ _ = Ok _ |- _ =>
      apply (terms_matches Hash _ _ _ _ Hrec Hoo) in H
  end. subst. boolprop. destruct_and?. subst. done.
Qed.

(** C4 A pending request can be cancelled by its owner, and by nobody else: there is an
    opening such that [cancel_inference] succeeds exactly when it is signed by the
    account of the opening, presents its witnesses, and the cancellation delay has passed
    since the request was created; the request is then cancelled and the whole payment
    is back in the owner's free balance. *)
Theorem cancel_inference_refunds s id r
    (Hs : reachable s) (Hr : InferenceRequests s !! id = Some r)
    (Hp : rq_status r = InferenceRequestStatus_Pending) :
  exists o, record_of id o r /\ forall origin m v ab ti tw,
    (exists s', cancel_inference origin id m v ab ti tw s = Ok (tt, s')
       /\ InferenceRequests s'
          = <[id := r <| rq_status := InferenceRequestStatus_Cancelled |>]> (InferenceRequests s)
       /\ balance_after (op_user o) (op_payment o) (currency_state s) (currency_state s'))
    <-> ensure_payload_signer origin = Ok (op_user o) /\ m = op_miner o /\ v = op_validator o
        /\ ab = op_assignment_blinding o /\ ti = op_timing o /\ tw = op_terms o
        /\ created_at ti + RequestCancelDelayBlocks <= current_block s.
Proof.
  destruct (reachable_funds s Hs) as [Hc [om He] _].
  destruct (proj2 (ei_domain _ _ He id) ltac:(eauto)) as [o Ho]. exists o.
  split; [by destruct (ei_record _ _ He _ _ _ Ho Hr)|]. intros origin m v ab ti tw. split.
  - intros (s' & Hrun & _). rewrite cancel_inference_body in Hrun. inv_run.
    by destruct (refund_cases _ _ _ _ _ _ _ _ _ _ _ _ _ _ He Hr Ho Hrun) as (-> & ?).
  - intros (Ho' & -> & -> & -> & -> & -> & Hnow).
    destruct (refund_body_run InferenceRequestStatus_Cancelled Event_InferenceCancelled
      s om id r o) as [s' Hs']; try done; [unfold is_pending; by rewrite Hp|].
    assert (Hrun : cancel_inference origin id (op_miner o) (op_validator o)
      (op_assignment_blinding o) (op_timing o) (op_terms o) s = Ok (tt, s')).
    { rewrite cancel_inference_body. by erewrite abind_run by (by apply check_run). }
    exists s'. split; [done|].
    apply cancel_inference_Ok in Hrun as (user & s1 & Hu & Href & Hd).
    rewrite Ho' in Hu. injection Hu as <-.
    destruct (refunds_effect _ _ _ _ _ _ _ _ _ _ _ Href Hd) as (r' & Hr' & H1 & H2 & _).
    by simplify_eq.
Qed.

(** A pending request can be expired by anyone who is allowed to call the pallet, once
    the delay has passed, with the witnesses of its opening; the whole payment goes back
    to the owner whoever called. *)
Theorem expire_inference_refunds s id r
    (Hs : reachable s) (Hr : InferenceRequests s !! id = Some r)
    (Hp : rq_status r = InferenceRequestStatus_Pending) :
  exists o, record_of id o r /\ forall origin caller u m v ab ti tw,
    ensure_payload_signer origin = Ok caller ->
    (exists s', expire_inference origin id u m v ab ti tw s = Ok (tt, s')
       /\ InferenceRequests s'
          = <[id := r <| rq_status := InferenceRequestStatus_Expired |>]> (InferenceRequests s)
       /\ balance_after (op_user o) (op_payment o) (currency_state s) (currency_state s'))
    <-> u = op_user o /\ m = op_miner o /\ v = op_validator o
        /\ ab = op_assignment_blinding o /\ ti = op_timing o /\ tw = op_terms o
        /\ created_at ti + RequestCancelDelayBlocks <= current_block s.
Proof.
  destruct (reachable_funds s Hs) as [Hc [om He] _].
  destruct (proj2 (ei_domain _ _ He id) ltac:(eauto)) as [o Ho]. exists o.
  split; [by destruct (ei_record _ _ He _ _ _ Ho Hr)|]. intros origin caller u m v ab ti tw Hcall.
  split.
  - intros (s' & Hrun & _). rewrite expire_inference_body in Hrun. inv_run.
    by destruct (refund_cases _ _ _ _ _ _ _ _ _ _ _ _ _ _ He Hr Ho Hrun) as (-> & ?).
  - intros (-> & -> & -> & -> & -> & -> & Hnow).
    destruct (refund_body_run InferenceRequestStatus_Expired Event_InferenceExpired
      s om id r o) as [s' Hs']; try done; [unfold is_pending; by rewrite Hp|].
    assert (Hrun : expire_inference origin id (op_user o) (op_miner o) (op_validator o)
      (op_assignment_blinding o) (op_timing o) (op_terms o) s = Ok (tt, s')).
    { rewrite expire_inference_body. by erewrite abind_run by (by apply check_run). }
    exists s'. split; [done|].
    apply expire_inference_Ok in Hrun as (s1 & Href & Hd).
    destruct (refunds_effect _ _ _ _ _ _ _ _ _ _ _ Href Hd) as (r' & Hr' & H1 & H2 & _).
    by simplify_eq.
Qed.

End Funds.
