(* ===== verification/PalletSettlement.v ===== *)
(** * The Qubitum pallet: settlement and rejection

    What an accepted and a rejected proof do: who is paid, refunded and slashed, and by
    how much. *)

From S2P Require Import Prelude Protocol PostQuantum Pallet PalletGuards PalletRouting.
From S2P Require Import PalletCalls PalletTransitions PalletInvariants PalletCapacity.
From S2P Require Import PalletQueries PalletEscrow PalletFunds.
From stdpp Require Import base tactics list gmap strings list_numbers relations.
From Stdlib Require Import ZArith Lia.
Open Scope Z_scope.

(** ** The split of a payment *)

Section Split.
Context `{T : !Config}.

(** [payment_split] on every branch, for a balance type of at least 16 bits: it
    refuses fees above the whole payment, fails with an overflow exactly when the sum of
    the fees leaves [u16] or a product leaves the balance type, and otherwise gives both
    fees as rounded-down shares and the rest to the miner. *)
Theorem payment_split_cases p v t
    (Hbits : 16 <= balance_bits) (Hp : in_range balance_bits p)
    (Hv : in_range 16 v) (Ht : in_range 16 t) :
  match payment_split p v t with
  | Ok (mp, vf, tf) => v + t <= BPS_DENOMINATOR /\ vf = p * v / BPS_DENOMINATOR
      /\ tf = p * t / BPS_DENOMINATOR /\ mp = p - vf - tf /\ 0 <= mp /\ 0 <= vf /\ 0 <= tf
  | Err (DispatchError_Module Error_InvalidFeeSplit) => BPS_DENOMINATOR < v + t < 2 ^ 16
  | Err (DispatchError_Module Error_ArithmeticOverflow) =>
      2 ^ 16 <= v + t \/ v + t <= BPS_DENOMINATOR
        /\ (2 ^ balance_bits <= p * v \/ 2 ^ balance_bits <= p * t)
  | Err _ => False
  end.
Proof.
  unfold in_range in *. assert (2 ^ 16 <= 2 ^ balance_bits) by (apply Z.pow_le_mono_r; lia).
  unfold payment_split, validate_fee_split, PalletGuards.pro_rata, saturated_into, uint_max.
  change BPS_DENOMINATOR with 10000. rewrite !Z.min_l by lia.
  unfold checked_add at 1. destruct (Z.ltb_spec (v + t) (2 ^ 16)); simpl; [|lia].
  destruct (Z.leb_spec (v + t) 10000); simpl; [|lia].
  unfold checked_mul, checked_div. destruct (Z.ltb_spec (p * v) (2 ^ balance_bits)); simpl; [|lia].
  destruct (Z.ltb_spec (p * t) (2 ^ balance_bits)); simpl; [|lia].
  pose proof (share_le p v ltac:(lia) ltac:(unfold BPS_DENOMINATOR; lia)) as Hs1.
  pose proof (shares_le p v t ltac:(lia) ltac:(lia) ltac:(lia) ltac:(unfold BPS_DENOMINATOR; lia)) as Hs2.
  pose proof (share_le p t ltac:(lia) ltac:(unfold BPS_DENOMINATOR; lia)) as Hs3.
  change BPS_DENOMINATOR with 10000 in *.
  unfold checked_add. rewrite (proj2 (Z.ltb_lt _ _)) by lia. simpl.
  unfold checked_sub. rewrite (proj2 (Z.leb_le _ _)) by lia. simpl. lia.
Qed.

End Split.

Section Settlement.
Context {C : Type} `{CC : !Currency C} `{T : !Config} `{HH : !Hashing}.
Context `{Laws : !CurrencyLaws C}.
Hypothesis Hash : collision_free.
Hypothesis Hok : config_ok.
Implicit Types s : Store C.

Lemma transfer_held_balance src dst x s u s' :
  transfer_held_payment src dst x s = Ok (u, s') ->
  balance_after dst x (currency_state s) (currency_state s').
Proof.
  unfold transfer_held_payment. destruct (Z.eqb_spec x 0) as [->|]; intros Hrun; inv_call.
  - intros a. case_decide; lia.
  - by eapply transfer_on_hold_balance.
Qed.

Lemma events_frame l s u s' :
  deposit_activity_events l s = Ok (u, s') -> s' = s <| events := events s' |>.
Proof.
  unfold deposit_activity_events. destruct PrivateEventMetadata.
  - unfold deposit_event. intros H. inv_run. by destruct s.
  - revert s. induction l as [|e l IH]; simpl; intros s H; [inv_run; by destruct s|].
    unfold deposit_event in H. inv_run. rewrite (IH _ H). by destruct s.
Qed.

(** The account behind the operator commitment of a record. *)
Lemma miner_operator_account s id m a :
  capital_inv s -> Miners s !! id = Some m -> ensure_miner_operator m a = Ok tt ->
  cm_operator_commitment m = operator_commitment a.
Proof.
  intros Hi Hm H. unfold ensure_miner_operator in H. inv_run.
  destruct (bi_miner_op _ Hi id (cm_operator_commitment m)) as [o Ho];
    [by unfold miner_op; rewrite Hm|].
  rewrite Ho in *. by apply (operator_matches Hash) in H as ->.
Qed.

Lemma validator_operator_account s id v a :
  capital_inv s -> Validators s !! id = Some v -> ensure_validator_operator v a = Ok tt ->
  cv_operator_commitment v = operator_commitment a.
Proof.
  intros Hi Hv H. unfold ensure_validator_operator in H. inv_run.
  destruct (bi_validator_op _ Hi id (cv_operator_commitment v)) as [o Ho];
    [by unfold validator_op; rewrite Hv|].
  rewrite Ho in *. by apply (operator_matches Hash) in H as ->.
Qed.

(** [s'] is [s] after the request of [sub], opened with [o], was settled: [mo] and [vo]
    operate its miner and its validator, and the payment of the opening was taken out of
    the owner's escrow and handed to them and to the treasury. *)
Record settled_request s s' (sub : InferenceProofSubmission) (o : Opening)
    (mo vo : AccountId) (mp vf tf : Z) : Prop := {
  sr_record : exists r, InferenceRequests s !! request_id sub = Some r
    /\ rq_status r = InferenceRequestStatus_Pending /\ record_of (request_id sub) o r
    /\ InferenceRequests s'
       = <[request_id sub := r <| rq_status := InferenceRequestStatus_Settled |>]>
           (InferenceRequests s);
  sr_assigned : op_miner o = miner_id sub /\ op_validator o = validator_id sub;
  sr_miner : exists m, Miners s !! miner_id sub = Some m
    /\ cm_operator_commitment m = operator_commitment mo;
  sr_validator : exists v, Validators s !! validator_id sub = Some v
    /\ cv_operator_commitment v = operator_commitment vo;
  sr_split : payment_split (op_payment o) (terms_validator_fee_bps (terms (op_terms o)))
               (terms_treasury_fee_bps (terms (op_terms o))) = Ok (mp, vf, tf);
  sr_sum : mp + vf + tf = op_payment o;
  sr_held : held_after HoldReason_InferencePayment (op_user o) (- op_payment o)
              (currency_state s) (currency_state s');
  sr_paid a : balance a (currency_state s') = balance a (currency_state s)
    + (if decide (a = mo) then mp else 0) + (if decide (a = vo) then vf else 0)
    + (if decide (a = ProtocolTreasury) then tf else 0);
}.

Lemma settles_settled s om sub u mo vo ab tw mp vf tf s' :
  escrow_inv s om -> capital_inv s -> settles s sub u mo vo ab tw (mp, vf, tf) s' ->
  exists o, u = op_user o /\ tw = op_terms o /\ settled_request s s' sub o mo vo mp vf tf.
Proof.
  intros He Hcap [(m & v & Hm & Hv & Hmo & Hvo) Hsplit
    (r & c1 & c2 & c3 & pm & pv & Ht1 & Ht2 & Ht3 & Hcl & _ & ->)].
  destruct (closes_opening Hash _ _ _ _ _ _ _ _ _ _ _ _ _ He Hcl)
    as (o & Ho & Hrec & Hoo & -> & Hmid & Hvid & -> & ->).
  exists o. do 2 (split; [done|]). pose proof (payment_split_sum _ _ _ _ _ _ Hsplit) as Hsum.
  split; auto.
  - exists r. split; [apply Hcl|]. by split; [apply Hcl|].
  - eauto using miner_operator_account.
  - eauto using validator_operator_account.
  - apply Hcl.
  - intros a. apply transfer_held_balance in Ht1, Ht2, Ht3. simpl in *.
    rewrite (Ht3 a), (Ht2 a), (Ht1 a). lia.
Qed.

(** C3 An accepted proof settles its request: if the verifier finds the submission valid
    and [submit_proof] succeeds, the request was pending, the caller operates its
    validator and the named account its miner, the payment the owner committed to leaves
    the owner's escrow and is split between them and the treasury without gain or loss,
    no other balance changes, and the proof record is stored with an audit commitment to
    the submission. *)
Theorem submit_proof_settles s s' origin vo sub user mo ab tw policy
    (Hs : reachable s) (Hsigner : ensure_payload_signer origin = Ok vo)
    (Hpolicy : validate_submission s sub vo mo ab = Ok policy)
    (Hvalid : proof_verify ProofVerifier sub policy = Ok VerificationOutcome_Valid)
    (Hrun : submit_proof origin sub user mo ab tw s = Ok (tt, s')) :
  exists o mp vf tf, user = op_user o /\ tw = op_terms o
    /\ settled_request s s' sub o mo vo mp vf tf
    /\ exists ac, submission_assignment_commitment s sub ab = Ok ac
       /\ ProofRecords s' !! request_id sub = Some {|
            pr_request_id := request_id sub; pr_subnet_id := subnet_id sub;
            pr_assignment_commitment := ac;
            pr_audit_commitment :=
              proof_audit_commitment_for_assignment sub (current_block s) ac;
            pr_proof_system := proof_system sub |}.
Proof.
  destruct (reachable_funds Hash Hok s Hs) as [_ [om He] Hcap].
  unfold submit_proof in Hrun. rewrite (abind_run _ _ s vo s) in Hrun by (by apply check_run).
  rewrite (abind_run _ _ s policy s) in Hrun by (by apply check_run).
  rewrite (abind_run _ _ s VerificationOutcome_Valid s) in Hrun by (by apply check_run).
  inv_call.
  match goal with x : Z * Z * Z |- _ => destruct x as [[mp vf] tf] end.
  match goal with H : settle_request_payment _ _ _ _ _ _ _ = Ok _ |- _ =>
    apply settle_request_payment_Ok in H as Hset end.
  destruct (settles_settled _ _ _ _ _ _ _ _ _ _ _ _ He Hcap Hset) as (o & -> & -> & Hsr).
  match goal with H : deposit_activity_events _ _ = Ok _ |- _ => apply events_frame in H as -> end.
  exists o, mp, vf, tf. do 2 (split; [done|]). split; [by destruct Hsr|].
  eexists. split; [done|]. simpl. by rewrite lookup_insert_eq.
Qed.

(** [s'] is [s] after the request of [sub], opened with [o], was rejected: [xm] was burned
    from the bond of its miner, operated by [mo], and [xs] from the stake of its
    validator, operated by [vo]; the owner has the whole payment back. *)
Record rejected_request s s' (sub : InferenceProofSubmission) (o : Opening)
    (mo vo : AccountId) (xm xs : Z) : Prop := {
  rj_record : exists r, InferenceRequests s !! request_id sub = Some r
    /\ rq_status r = InferenceRequestStatus_Pending /\ record_of (request_id sub) o r
    /\ InferenceRequests s'
       = <[request_id sub := r <| rq_status := InferenceRequestStatus_Rejected |>]>
           (InferenceRequests s);
  rj_assigned : op_miner o = miner_id sub /\ op_validator o = validator_id sub;
  rj_refund : balance_after (op_user o) (op_payment o) (currency_state s) (currency_state s');
  rj_held r a : balance_on_hold r a (currency_state s')
    = balance_on_hold r a (currency_state s)
      - (if decide (r = HoldReason_MinerBond /\ a = mo) then xm else 0)
      - (if decide (r = HoldReason_ValidatorStake /\ a = vo) then xs else 0)
      - (if decide (r = HoldReason_InferencePayment /\ a = op_user o)
         then op_payment o else 0);
}.

(** The bond of the miner of [sub] was lowered by [xm], the share [bps] of it. *)
Definition bond_slashed s s' (sub : InferenceProofSubmission) (mo : AccountId) (bps xm : Z) :
    Prop :=
  exists m b, Miners s !! miner_id sub = Some m
    /\ cm_operator_commitment m = operator_commitment mo
    /\ MinerLockedBond s !! miner_id sub = Some b /\ xm = b * bps / BPS_DENOMINATOR
    /\ MinerLockedBond s' = <[miner_id sub := b - xm]> (MinerLockedBond s).

Definition stake_slashed s s' (sub : InferenceProofSubmission) (vo : AccountId) (bps xs : Z) :
    Prop :=
  exists v b, Validators s !! validator_id sub = Some v
    /\ cv_operator_commitment v = operator_commitment vo
    /\ ValidatorLockedStake s !! validator_id sub = Some b /\ xs = b * bps / BPS_DENOMINATOR
    /\ ValidatorLockedStake s' = <[validator_id sub := b - xs]> (ValidatorLockedStake s).

(** What one slash changes. *)
Lemma slashes_miner_effect s id o bps x s1 :
  registry_inv s -> slashes_miner s id o bps x s1 ->
  exists m b, Miners s !! id = Some m
    /\ operator_commitment_matches (cm_operator_commitment m) o = true
    /\ MinerLockedBond s !! id = Some b /\ x = b * bps / BPS_DENOMINATOR
    /\ MinerLockedBond s1 = <[id := b - x]> (MinerLockedBond s)
    /\ (forall a, balance a (currency_state s1) = balance a (currency_state s))
    /\ held_after HoldReason_MinerBond o (- x) (currency_state s) (currency_state s1)
    /\ InferenceRequests s1 = InferenceRequests s
    /\ PendingMinerRequests s1 = PendingMinerRequests s
    /\ PendingValidatorRequests s1 = PendingValidatorRequests s
    /\ Validators s1 = Validators s /\ ValidatorLockedStake s1 = ValidatorLockedStake s.
Proof.
  intros Hr [(m & b & c & Hm & Hop & Hb & Hbps & Hx & _ & Hburn & ->)].
  eapply locked_miner_bond_Some in Hb; [|done..].
  apply slash_bps_in_range_Ok in Hbps; [|done].
  destruct (pallet_pro_rata_Ok _ _ _ Hok (miner_bond_nonneg _ _ _ Hok Hr Hb) Hbps Hx) as [-> _].
  exists m, b. do 5 (split; [done|]). split; [by eapply burn_held_balance|].
  split; [by eapply burn_held_held|done].
Qed.

Lemma slashes_validator_effect s id o bps x s1 :
  registry_inv s -> slashes_validator s id o bps x s1 ->
  exists v b, Validators s !! id = Some v
    /\ operator_commitment_matches (cv_operator_commitment v) o = true
    /\ ValidatorLockedStake s !! id = Some b /\ x = b * bps / BPS_DENOMINATOR
    /\ ValidatorLockedStake s1 = <[id := b - x]> (ValidatorLockedStake s)
    /\ (forall a, balance a (currency_state s1) = balance a (currency_state s))
    /\ held_after HoldReason_ValidatorStake o (- x) (currency_state s) (currency_state s1)
    /\ InferenceRequests s1 = InferenceRequests s
    /\ PendingMinerRequests s1 = PendingMinerRequests s
    /\ PendingValidatorRequests s1 = PendingValidatorRequests s
    /\ MinerLockedBond s1 = MinerLockedBond s.
Proof.
  intros Hr [(v & b & c & Hv & Hop & Hb & Hbps & Hx & _ & Hburn & ->)].
  eapply locked_validator_stake_Some in Hb; [|done..].
  apply slash_bps_in_range_Ok in Hbps; [|done].
  destruct (pallet_pro_rata_Ok _ _ _ Hok (validator_stake_nonneg _ _ _ Hok Hr Hb) Hbps Hx)
    as [-> _].
  exists v, b. do 5 (split; [done|]). split; [by eapply burn_held_balance|].
  split; [by eapply burn_held_held|done].
Qed.

(** The refund of a rejected request, in a state whose requests and escrow are still those
    of [s]. *)
Lemma refunds_rejected s om s2 sub u ab tw p s3 :
  escrow_inv s om -> InferenceRequests s2 = InferenceRequests s ->
  PendingMinerRequests s2 = PendingMinerRequests s ->
  PendingValidatorRequests s2 = PendingValidatorRequests s ->
  (forall a, balance_on_hold HoldReason_InferencePayment a (currency_state s2)
             = balance_on_hold HoldReason_InferencePayment a (currency_state s)) ->
  refund_rejected_request sub u ab tw s2 = Ok (p, s3) ->
  exists o r, u = op_user o /\ tw = op_terms o /\ InferenceRequests s !! request_id sub = Some r
    /\ rq_status r = InferenceRequestStatus_Pending /\ record_of (request_id sub) o r
    /\ op_miner o = miner_id sub /\ op_validator o = validator_id sub
    /\ InferenceRequests s3
       = <[request_id sub := r <| rq_status := InferenceRequestStatus_Rejected |>]>
           (InferenceRequests s)
    /\ balance_after u (op_payment o) (currency_state s2) (currency_state s3)
    /\ held_after HoldReason_InferencePayment u (- op_payment o)
         (currency_state s2) (currency_state s3)
    /\ MinerLockedBond s3 = MinerLockedBond s2
    /\ ValidatorLockedStake s3 = ValidatorLockedStake s2.
Proof.
  intros He H1 H2 H3 H4 [(r & c & pm & pv & Hrel & Hcl & ->)]%refund_rejected_request_Ok.
  assert (He2 : escrow_inv s2 om) by (by apply (escrow_frame s)).
  destruct (closes_opening Hash _ _ _ _ _ _ _ _ _ _ _ _ _ He2 Hcl)
    as (o & Ho & Hrec & Hoo & -> & Hmid & Hvid & -> & ->).
  exists o, r. do 2 (split; [done|]). rewrite <- H1. split; [apply Hcl|].
  split; [apply Hcl|]. do 4 (split; [done|]).
  split; [by eapply release_balance|]. split; [by eapply release_held|done].
Qed.

Lemma rtc_registry_inv s s' : rtc trans s s' -> registry_inv s -> registry_inv s'.
Proof. induction 1; eauto using trans_registry_inv. Qed.

(** C6 A proof found invalid punishes both participants and refunds the owner: when
    [submit_proof] succeeds on an invalid submission, exactly the verifier's percentage,
    rounded down, is burned from the recorded bond of the miner and from the recorded
    stake of the validator, the request is rejected, the owner gets the whole payment
    back, and no other free or held balance changes. *)
Theorem submit_proof_rejects s s' origin vo sub user mo ab tw policy bps
    (Hs : reachable s) (Hsigner : ensure_payload_signer origin = Ok vo)
    (Hpolicy : validate_submission s sub vo mo ab = Ok policy)
    (Hinvalid : proof_verify ProofVerifier sub policy = Ok (VerificationOutcome_Invalid bps))
    (Hrun : submit_proof origin sub user mo ab tw s = Ok (tt, s')) :
  exists o xm xs, user = op_user o /\ tw = op_terms o
    /\ rejected_request s s' sub o mo vo xm xs
    /\ bond_slashed s s' sub mo bps xm /\ stake_slashed s s' sub vo bps xs.
Proof.
  destruct (reachable_funds Hash Hok s Hs) as [Hci [om He] Hcap].
  unfold submit_proof in Hrun. rewrite (abind_run _ _ s vo s) in Hrun by (by apply check_run).
  rewrite (abind_run _ _ s policy s) in Hrun by (by apply check_run).
  rewrite (abind_run _ _ s (VerificationOutcome_Invalid bps) s) in Hrun by (by apply check_run).
  apply abind_Ok in Hrun as (? & ? & [_ ->]%check_Ok & Hrun).
  apply abind_Ok in Hrun as (xm & s1 & Hsm & Hrun).
  apply abind_Ok in Hrun as (xs & s2 & Hsv & Hrun).
  apply abind_Ok in Hrun as (p & s3 & Href & ->%events_frame).
  pose proof (rtc_registry_inv _ _ (slash_miner_bond_refines _ _ _ _ _ _ Hsm) (ci_registry _ Hci))
    as Hr1.
  apply slash_miner_bond_Ok, slashes_miner_effect in Hsm
    as (m & b & Hm & Hmo & Hb & Hx & Hb' & Hbal1 & Hh1 & Hi1 & Hp1 & Hq1 & Hv1 & Hl1);
    [|apply Hci].
  apply slash_validator_stake_Ok, slashes_validator_effect in Hsv
    as (v & b2 & Hv & Hvo & Hb2 & Hx2 & Hb2' & Hbal2 & Hh2 & Hi2 & Hp2 & Hq2 & Hl2); [|done].
  eapply (refunds_rejected s om) in Href
    as (o & r & -> & -> & Hr & Hpend & Hrec & Ho1 & Ho2 & Hreq & Hbal3 & Hh3 & Hl3 & Hl3');
    [|done|congruence..|].
  2: { intros a. rewrite (held_other _ _ _ _ _ _ Hh2), (held_other _ _ _ _ _ _ Hh1) by done. done. }
  exists o, xm, xs. do 2 (split; [done|]). split; [|split].
  - split; simpl; [by exists r|done| |].
    + intros a. by rewrite (Hbal3 a), Hbal2, Hbal1.
    + intros r' a. rewrite (Hh3 r' a), (Hh2 r' a), (Hh1 r' a). repeat case_decide; lia.
  - exists m, b. simpl. split; [done|]. split; [|by rewrite Hl3, Hl2].
    eapply miner_operator_account; eauto. unfold ensure_miner_operator. by rewrite Hmo.
  - rewrite Hv1 in Hv. exists v, b2. simpl. split; [done|]. rewrite Hl1 in Hb2, Hb2'.
    split; [|by rewrite Hl3'].
    eapply validator_operator_account; eauto. unfold ensure_validator_operator. by rewrite Hvo.
Qed.

(** A successful challenge punishes the miner alone: the percentage of the verifier is
    burned from the recorded bond, the request is rejected and the owner refunded in
    full; the stake of the validator and every other balance stay as they were. *)
Theorem challenge_proof_rejects s s' origin who sub user mo ab tw policy bps
    (Hs : reachable s) (Hsigner : ensure_payload_signer origin = Ok who)
    (Hpolicy : validate_challenge_submission s sub mo ab = Ok policy)
    (Hinvalid : proof_verify ProofVerifier sub policy = Ok (VerificationOutcome_Invalid bps))
    (Hrun : challenge_proof origin sub user mo ab tw s = Ok (tt, s')) :
  exists o xm, user = op_user o /\ tw = op_terms o
    /\ rejected_request s s' sub o mo mo xm 0 /\ bond_slashed s s' sub mo bps xm
    /\ ValidatorLockedStake s' = ValidatorLockedStake s.
Proof.
  destruct (reachable_funds Hash Hok s Hs) as [Hci [om He] Hcap].
  unfold challenge_proof in Hrun. rewrite (abind_run _ _ s who s) in Hrun by (by apply check_run).
  rewrite (abind_run _ _ s policy s) in Hrun by (by apply check_run).
  rewrite (abind_run _ _ s (VerificationOutcome_Invalid bps) s) in Hrun by (by apply check_run).
  apply abind_Ok in Hrun as (? & ? & [_ ->]%check_Ok & Hrun).
  apply abind_Ok in Hrun as (xm & s1 & Hsm & Hrun).
  apply abind_Ok in Hrun as (p & s3 & Href & ->%events_frame).
  apply slash_miner_bond_Ok, slashes_miner_effect in Hsm
    as (m & b & Hm & Hmo & Hb & Hx & Hb' & Hbal1 & Hh1 & Hi1 & Hp1 & Hq1 & Hv1 & Hl1);
    [|apply Hci].
  eapply (refunds_rejected s om) in Href
    as (o & r & -> & -> & Hr & Hpend & Hrec & Ho1 & Ho2 & Hreq & Hbal3 & Hh3 & Hl3 & Hl3');
    [|done|congruence..|].
  2: { intros a. by rewrite (held_other _ _ _ _ _ _ Hh1). }
  exists o, xm. do 2 (split; [done|]). split; [|split].
  - split; simpl; [by exists r|done| |].
    + intros a. by rewrite (Hbal3 a), Hbal1.
    + intros r' a. rewrite (Hh3 r' a), (Hh1 r' a). repeat case_decide; lia.
  - exists m, b. simpl. split; [done|]. split; [|by rewrite Hl3].
    eapply miner_operator_account; eauto. unfold ensure_miner_operator. by rewrite Hmo.
  - simpl. by rewrite Hl3', Hl1.
Qed.

End Settlement.
