(* ===== verification/PalletBonds.v ===== *)
(** * The Qubitum pallet: bonds and stakes

    The way out for miners and validators: an exit can be started while no request is
    assigned, the capital can be withdrawn after the cooldown, and what is slashed of it
    is bounded by the width of the balance type. *)

From S2P Require Import Prelude Protocol PostQuantum Pallet PalletGuards PalletRouting.
From S2P Require Import PalletCalls PalletTransitions PalletInvariants PalletCapacity.
From S2P Require Import PalletQueries PalletEscrow PalletFunds.
From stdpp Require Import base tactics list gmap strings list_numbers relations.
From Stdlib Require Import ZArith Lia.
Open Scope Z_scope.

Section Bonds.
Context {C : Type} `{CC : !Currency C} `{T : !Config} `{HH : !Hashing}.
Context `{Laws : !CurrencyLaws C}.
Hypothesis Hash : collision_free.
Hypothesis Hok : config_ok.
Implicit Types s : Store C.

(** ** Withdrawals *)

(** Releasing an amount that may be zero. *)
Lemma release_or_skip r a x s :
  0 <= x <= balance_on_hold r a (currency_state s) ->
  exists c, (if x =? 0 then ret tt else currency_do (release r a x)) s
            = Ok (tt, s <| currency_state := c |>)
    /\ balance_after a x (currency_state s) c.
Proof.
  intros Hx. destruct (Z.eqb_spec x 0) as [->|Hne].
  - exists (currency_state s). split; [by destruct s|]. intros b. case_decide; lia.
  - destruct (release_total r a x (currency_state s) Hx) as [c Hc]. exists c.
    split; [by apply currency_do_run|by eapply release_balance].
Qed.

(** The recorded bond of a miner is on hold for its operator. *)
Lemma bond_on_hold s id m o b :
  registry_inv s -> capital_inv s -> Miners s !! id = Some m ->
  cm_operator_commitment m = operator_commitment o -> MinerLockedBond s !! id = Some b ->
  0 <= b <= balance_on_hold HoldReason_MinerBond o (currency_state s).
Proof.
  intros Hr Hi Hm Ho Hb. split; [by eapply miner_bond_nonneg|].
  rewrite (bi_bond _ Hi). eapply held_sum_le; [|by unfold miner_op; rewrite Hm; simpl; rewrite Ho|done].
  intros j x Hj. by eapply miner_bond_nonneg.
Qed.

Lemma stake_on_hold s id v o b :
  registry_inv s -> capital_inv s -> Validators s !! id = Some v ->
  cv_operator_commitment v = operator_commitment o -> ValidatorLockedStake s !! id = Some b ->
  0 <= b <= balance_on_hold HoldReason_ValidatorStake o (currency_state s).
Proof.
  intros Hr Hi Hm Ho Hb. split; [by eapply validator_stake_nonneg|].
  rewrite (bi_stake _ Hi).
  eapply held_sum_le; [|by unfold validator_op; rewrite Hm; simpl; rewrite Ho|done].
  intros j x Hj. by eapply validator_stake_nonneg.
Qed.

(** A miner that is leaving gets its bond: [withdraw_miner_bond] succeeds exactly when
    the operator signs it and the cooldown is over; the whole recorded bond, whatever
    slashing left of it, is then back in the operator's free balance, the record is gone
    and the miner is disabled. *)
Theorem withdraw_miner_bond_releases s id m o e origin
    (Hs : reachable s) (Hm : Miners s !! id = Some m)
    (Ho : cm_operator_commitment m = operator_commitment o)
    (Hst : cm_status m = RegistryStatus_Exiting e) :
  (exists b s', MinerLockedBond s !! id = Some b
     /\ withdraw_miner_bond origin id s = Ok (tt, s')
     /\ balance_after o b (currency_state s) (currency_state s')
     /\ MinerLockedBond s' = delete id (MinerLockedBond s)
     /\ Miners s' = <[id := with_miner_status id RegistryStatus_Disabled m]> (Miners s))
  <-> ensure_payload_signer origin = Ok o /\ e <= current_block s.
Proof.
  destruct (reachable_funds Hash Hok s Hs) as [Hc _ Hi]. pose proof (ci_registry _ Hc) as Hr.
  destruct (ri_miner _ Hr _ _ Hm) as (_ & _ & _ & Hcap). rewrite Hst in Hcap.
  destruct Hcap as (b & Hb & _). split.
  - intros (b' & s' & _ & Hrun & _). unfold withdraw_miner_bond, ensure_miner_operator in Hrun.
    inv_call. simplify_eq. match goal with H : operator_commitment_matches _ _ = true |- _ =>
      rewrite Ho in H; apply (operator_matches Hash) in H; subst end.
    rewrite Hst in *. inv_call; boolprop; done.
  - intros [Hsig Hnow]. pose proof (bond_on_hold _ _ _ _ _ Hr Hi Hm Ho Hb) as Hheld.
    destruct (release_or_skip _ _ _ s Hheld) as (c & Hrel & Hbal).
    unfold withdraw_miner_bond, ensure_miner_operator.
    rewrite (abind_run _ _ s o s) by (by apply check_run).
    erewrite abind_run; cycle 1.
    { apply try_mutate_Ok. eexists _, _. split; [|done].
      rewrite Hm. erewrite abind_run by (by apply check_run).
      erewrite abind_run by (apply check_run, ensure_run; rewrite Ho; by apply (operator_matches Hash)).
      rewrite Hst. erewrite abind_run by (apply check_run, ensure_run, Z.leb_le; done).
      rewrite (abind_run _ _ s b s) by (apply check_run; unfold locked_miner_bond; by rewrite Hb).
      erewrite abind_run by exact Hrel. by erewrite abind_run. }
    destruct (deposit_run Event_MinerBondWithdrawn (s <| currency_state := c |>
      <| MinerLockedBond ::= delete id |>
      <| Miners ::= write_entry id (Some (with_miner_status id RegistryStatus_Disabled m)) |>))
      as [s' Hd].
    exists b, s'. split; [done|]. split; [exact Hd|].
    apply deposit_frame in Hd. rewrite Hd. done.
Qed.

(** A validator that is leaving gets its stake: [withdraw_validator_stake] succeeds
    exactly when the operator signs it and the cooldown is over; the whole recorded stake
    is then back in the operator's free balance, the record is gone and the validator is
    disabled. *)
Theorem withdraw_validator_stake_releases s id v o e origin
    (Hs : reachable s) (Hv : Validators s !! id = Some v)
    (Ho : cv_operator_commitment v = operator_commitment o)
    (Hst : cv_status v = RegistryStatus_Exiting e) :
  (exists b s', ValidatorLockedStake s !! id = Some b
     /\ withdraw_validator_stake origin id s = Ok (tt, s')
     /\ balance_after o b (currency_state s) (currency_state s')
     /\ ValidatorLockedStake s' = delete id (ValidatorLockedStake s)
     /\ Validators s'
        = <[id := with_validator_status id RegistryStatus_Disabled v]> (Validators s))
  <-> ensure_payload_signer origin = Ok o /\ e <= current_block s.
Proof.
  destruct (reachable_funds Hash Hok s Hs) as [Hc _ Hi]. pose proof (ci_registry _ Hc) as Hr.
  destruct (ri_validator _ Hr _ _ Hv) as (_ & _ & _ & Hcap). rewrite Hst in Hcap.
  destruct Hcap as (b & Hb & _). split.
  - intros (b' & s' & _ & Hrun & _).
    unfold withdraw_validator_stake, ensure_validator_operator in Hrun.
    inv_call. simplify_eq. match goal with H : operator_commitment_matches _ _ = true |- _ =>
      rewrite Ho in H; apply (operator_matches Hash) in H; subst end.
    rewrite Hst in *. inv_call; boolprop; done.
  - intros [Hsig Hnow]. pose proof (stake_on_hold _ _ _ _ _ Hr Hi Hv Ho Hb) as Hheld.
    destruct (release_or_skip _ _ _ s Hheld) as (c & Hrel & Hbal).
    unfold withdraw_validator_stake, ensure_validator_operator.
    rewrite (abind_run _ _ s o s) by (by apply check_run).
    erewrite abind_run; cycle 1.
    { apply try_mutate_Ok. eexists _, _. split; [|done].
      rewrite Hv. erewrite abind_run by (by apply check_run).
      erewrite abind_run by (apply check_run, ensure_run; rewrite Ho; by apply (operator_matches Hash)).
      rewrite Hst. erewrite abind_run by (apply check_run, ensure_run, Z.leb_le; done).
      rewrite (abind_run _ _ s b s) by (apply check_run; unfold locked_validator_stake; by rewrite Hb).
      erewrite abind_run by exact Hrel. by erewrite abind_run. }
    destruct (deposit_run Event_ValidatorStakeWithdrawn (s <| currency_state := c |>
      <| ValidatorLockedStake ::= delete id |>
      <| Validators ::= write_entry id
           (Some (with_validator_status id RegistryStatus_Disabled v)) |>)) as [s' Hd].
    exists b, s'. split; [done|]. split; [exact Hd|].
    apply deposit_frame in Hd. rewrite Hd. done.
Qed.

(** ** The limit of slashing *)

(** A slash multiplies before it divides, at the width of the balance: when the
    recorded stake times the percentage leaves the balance type, the slash fails with an
    overflow and burns nothing; otherwise, in a reachable state, it succeeds and burns
    the rounded-down share. *)
Theorem slash_validator_stake_overflow s id v o bps b
    (Hs : reachable s) (Hv : Validators s !! id = Some v)
    (Ho : cv_operator_commitment v = operator_commitment o)
    (Hb : ValidatorLockedStake s !! id = Some b) (Hbps : slash_bps_in_range bps = true) :
  match slash_validator_stake id o bps s with
  | Err e => e = DispatchError_Module Error_ArithmeticOverflow /\ 2 ^ balance_bits <= b * bps
  | Ok (x, s') => b * bps < 2 ^ balance_bits /\ x = b * bps / BPS_DENOMINATOR
      /\ ValidatorLockedStake s' !! id = Some (b - x)
      /\ held_after HoldReason_ValidatorStake o (- x) (currency_state s) (currency_state s')
  end.
Proof.
  destruct (reachable_funds Hash Hok s Hs) as [Hc _ Hi]. pose proof (ci_registry _ Hc) as Hr.
  pose proof (stake_on_hold _ _ _ _ _ Hr Hi Hv Ho Hb) as Hheld.
  pose proof (slash_bps_in_range_Ok _ Hok Hbps) as Hrange. pose proof (ok_balance_bits Hok).
  assert (2 ^ 16 <= 2 ^ balance_bits) by (apply Z.pow_le_mono_r; lia).
  pose proof (share_le b bps ltac:(lia) Hrange) as Hshare.
  destruct (burn_held_total HoldReason_ValidatorStake o (b * bps / BPS_DENOMINATOR)
    (currency_state s)) as [c Hburn]; [lia|].
  assert (Hpr : PalletGuards.pro_rata b bps
    = if b * bps <? 2 ^ balance_bits then Ok (b * bps / BPS_DENOMINATOR)
      else Err (DispatchError_Module Error_ArithmeticOverflow)).
  { unfold PalletGuards.pro_rata, saturated_into, uint_max.
    rewrite !Z.min_l by (unfold BPS_DENOMINATOR in *; lia). unfold checked_mul.
    by destruct (_ <? _). }
  unfold slash_validator_stake, ensure_validator_operator. rewrite Hbps. simpl.
  unfold Validators_try_mutate, try_mutate, abind, check, asks. simpl. rewrite Hv. simpl.
  rewrite Ho, (proj2 (operator_matches Hash o o) eq_refl). simpl.
  unfold locked_validator_stake. rewrite Hb. simpl. rewrite Hpr.
  destruct (Z.ltb_spec (b * bps) (2 ^ balance_bits)); [|done]. simpl.
  unfold currency_get. rewrite Hburn. simpl. unfold checked_sub.
  rewrite (proj2 (Z.leb_le _ _)) by lia. simpl.
  split; [done|]. split; [done|]. unfold remove_active_validator.
  destruct (_ && _); simpl; rewrite lookup_insert_eq;
    (split; [done|by eapply burn_held_held]).
Qed.

End Bonds.
