(* ===== verification/PalletSafety.v ===== *)
(** * The Qubitum pallet: safety of reachable states

    The theorems about every state a chain can reach, whatever calls are made: the
    dispatchables implement the abstract transitions, the registries and the requests are
    consistent, closed requests are final, payment needs an accepted proof, and routing
    finds an assignment exactly when there is one. *)

From S2P Require Import Prelude Protocol PostQuantum Pallet PalletGuards PalletRouting.
From S2P Require Import PalletCalls PalletTransitions PalletInvariants PalletCapacity.
From stdpp Require Import base tactics list gmap strings list_numbers relations.
From Stdlib Require Import ZArith Lia.
Open Scope Z_scope.

(** ** Accepted proofs *)

Section Proofs.
Context {C : Type} `{CC : !Currency C} `{T : !Config} `{HH : !Hashing}.
Implicit Types s : Store C.

(** Exactly the settled requests have a proof record, and each record comes from a
    submission for that request which the verifier accepted. *)
Record proof_inv s : Prop := {
  pi_settled id : is_Some (ProofRecords s !! id)
    <-> exists r, InferenceRequests s !! id = Some r
                  /\ rq_status r = InferenceRequestStatus_Settled;
  pi_verified id p : ProofRecords s !! id = Some p ->
    exists r sub policy n, InferenceRequests s !! id = Some r /\ p = proof_record sub r n
      /\ request_id sub = id /\ subnet_id sub = rq_subnet_id r
      /\ input_commitment sub = rq_input_commitment r
      /\ proof_verify ProofVerifier sub policy = Ok VerificationOutcome_Valid;
}.

Lemma proof_inv_frame s s' :
  ProofRecords s' = ProofRecords s -> InferenceRequests s' = InferenceRequests s ->
  proof_inv s -> proof_inv s'.
Proof. intros H1 H2 []. split; rewrite H1, H2; auto. Qed.

(** A request is written that is not settled, over none or over a pending one. *)
Lemma proof_inv_write s s' id r :
  ProofRecords s' = ProofRecords s ->
  InferenceRequests s' = <[id := r]> (InferenceRequests s) ->
  rq_status r <> InferenceRequestStatus_Settled ->
  (forall r0, InferenceRequests s !! id = Some r0 ->
     rq_status r0 = InferenceRequestStatus_Pending) ->
  proof_inv s -> proof_inv s'.
Proof.
  intros H1 H2 Hst Hold [Hset Hver].
  assert (Hnone : ProofRecords s !! id = None).
  { apply eq_None_not_Some. rewrite Hset. intros (r0 & Hr0 & Hs0).
    rewrite (Hold _ Hr0) in Hs0. done. }
  split; rewrite H1, H2.
  - intros j. rewrite Hset. destruct (decide (id = j)) as [<-|Hne].
    + rewrite lookup_insert_eq. split; [|naive_solver].
      intros (r0 & Hr0 & Hs0). rewrite (Hold _ Hr0) in Hs0. done.
    + by rewrite lookup_insert_ne.
  - intros j p Hp. rewrite lookup_insert_ne; [by apply Hver|congruence].
Qed.

Lemma proof_inv_settle s sub policy r c pm pv :
  InferenceRequests s !! request_id sub = Some r ->
  request_matches r sub = true ->
  proof_verify ProofVerifier sub policy = Ok VerificationOutcome_Valid ->
  proof_inv s ->
  proof_inv (closed_store s (request_id sub) r InferenceRequestStatus_Settled c pm pv
             <| ProofRecords ::= <[request_id sub := proof_record sub r (current_block s)]> |>).
Proof.
  intros Hr Hm Hv [Hset Hver]. unfold request_matches in Hm. boolprop. destruct Hm as [Hn Hin].
  split; simpl.
  - intros j. rewrite !lookup_insert_is_Some', Hset. split.
    + intros [<-|(rj & Hrj & Hsj)].
      * eexists. by rewrite lookup_insert_eq.
      * destruct (decide (request_id sub = j)) as [<-|Hne]; [eexists; by rewrite lookup_insert_eq|].
        exists rj. by rewrite lookup_insert_ne.
    + intros (rj & [[<- _]|[_ Hrj]]%lookup_insert_Some & Hsj); eauto.
  - intros j p [[<- <-]|[Hne Hp]]%lookup_insert_Some.
    + eexists _, sub, policy, (current_block s). rewrite lookup_insert_eq. by split.
    + rewrite lookup_insert_ne by done. by apply Hver.
Qed.

Lemma trans_proof_inv s s' : trans s s' -> proof_inv s -> proof_inv s'.
Proof.
  intros Ht Hi. destruct Ht; subst; try (by apply (proof_inv_frame s)).
  - match goal with H : same_registry _ _ |- _ => rewrite H end. by apply (proof_inv_frame s).
  - eapply (proof_inv_write s); [done|done|done| |done]. intros r0.
    destruct H as [Hf]. congruence.
  - destruct H as [Hr Hp]. eapply (proof_inv_write s _ id (r <| rq_status := st |>));
      [by destruct st|by destruct st|done|congruence|done].
  - destruct H as [Hr _]. by eapply proof_inv_settle.
Qed.

End Proofs.

(** ** Theorems *)

Section Safety.
Context {C : Type} `{CC : !Currency C} `{T : !Config} `{HH : !Hashing}.
Context `{Laws : !CurrencyLaws C}.
Implicit Types s : Store C.

(** C1 Refinement: every dispatchable, from any origin and in any state, is a sequence of
    the guarded transitions of the abstract machine when it succeeds, and leaves the
    state as it was when it fails. *)
Theorem dispatch_refines_transitions origin call s :
  match dispatch origin call s with
  | (s', Ok _) => rtc trans s s'
  | (s', Err _) => s' = s
  end.
Proof.
  unfold dispatch. destruct (run_call origin call s) as [[u s']|] eqn:Hrun; [|done].
  by eapply run_call_refines.
Qed.

(** The registries of a reachable state are consistent: identifiers are below their
    counters and match the records, every participant belongs to a subnet, the capital
    records fit the status of each participant (an active miner has at least the minimum
    bond, a disabled one none), pending requests belong to participants that cannot have
    left, and the public routing indexes are empty. *)
Theorem reachable_registry s (Hok : config_ok) (Hs : reachable s) : registry_inv s.
Proof. by apply reachable_chain_inv. Qed.

(** The requests of a reachable state: identifiers are handed out in sequence without
    gaps, the five status counters are exact, and the pending counters of the miners and
    of the validators both add up to the number of pending requests. *)
Theorem reachable_requests s (Hok : config_ok) (Hs : reachable s) : request_inv s.
Proof. by apply reachable_chain_inv. Qed.

Lemma request_kept_trans (r1 r2 r3 : ChainInferenceRequest) :
  r2 = r1 <| rq_status := rq_status r2 |> ->
  (rq_status r1 <> InferenceRequestStatus_Pending -> r2 = r1) ->
  r3 = r2 <| rq_status := rq_status r3 |> ->
  (rq_status r2 <> InferenceRequestStatus_Pending -> r3 = r2) ->
  r3 = r1 <| rq_status := rq_status r3 |>
  /\ (rq_status r1 <> InferenceRequestStatus_Pending -> r3 = r1).
Proof.
  intros H12 F12 H23 F23. split.
  - rewrite H23 at 1. by rewrite H12 at 1.
  - intros H. pose proof (F12 H). subst. auto.
Qed.

(** C8 Requests are final: along any run, a stored request keeps its identifier, its owner
    and all its commitments for ever, and once it is no longer pending it never changes
    again. *)
Theorem request_final s s' id r (Hrun : rtc step s s')
    (Hr : InferenceRequests s !! id = Some r) :
  exists r', InferenceRequests s' !! id = Some r' /\ r' = r <| rq_status := rq_status r' |>
    /\ (rq_status r <> InferenceRequestStatus_Pending -> r' = r).
Proof.
  revert r Hr. induction Hrun as [s|s1 s2 s3 Hstep _ IH]; intros r Hr.
  { exists r. split; [done|]. by destruct r. }
  assert (exists r2, InferenceRequests s2 !! id = Some r2 /\ r2 = r <| rq_status := rq_status r2 |>
    /\ (rq_status r <> InferenceRequestStatus_Pending -> r2 = r)) as (r2 & Hr2 & Heq & Hfin).
  { destruct Hstep as [s origin call|s n _|s c _]; [|exists r; by destruct r..].
    unfold dispatch. destruct (run_call origin call s) as [[u s2]|] eqn:Hc; simpl;
      [|exists r; by destruct r].
    apply run_call_refines in Hc. clear -Hc Hr. revert r Hr.
    induction Hc as [s|s1 s2 s3 Ht _ IH]; intros r Hr; [exists r; by destruct r|].
    destruct (trans_request_final _ _ _ _ Ht Hr) as (r2 & Hr2 & Heq & Hfin).
    destruct (IH _ Hr2) as (r3 & Hr3 & Heq3 & Hfin3). exists r3. split; [done|].
    by eapply request_kept_trans. }
  destruct (IH _ Hr2) as (r3 & Hr3 & Heq3 & Hfin3). exists r3. split; [done|].
  by eapply request_kept_trans.
Qed.

(** C7 No payment without a proof: in a reachable state exactly the settled requests have
    a proof record, and every record was made for a submission to that request, with its
    subnet and input, which the configured verifier found valid. *)
Theorem settled_iff_proved s (Hs : reachable s) : proof_inv s.
Proof.
  revert s Hs. apply reachable_ind; [done|..].
  - intros c _. split; simpl.
    + intros id. rewrite !lookup_empty. split; [by intros []|naive_solver].
    + intros id p. by rewrite lookup_empty.
  - intros s s'. apply trans_proof_inv.
  - intros s n _. by apply proof_inv_frame.
  - intros s c _. by apply proof_inv_frame.
Qed.

(** C9 Routing is sound and complete: in a reachable state [route_assignment] answers with
    an eligible miner and an eligible validator of the active subnet under different
    operators, and answers nothing only if the subnet is missing or inactive or no such
    pair exists. *)
Theorem route_assignment_correct s n request_id blinding
    (Hok : config_ok) (Hs : reachable s) :
  match route_assignment s n request_id blinding with
  | Some a => as_request_id a = request_id /\ as_subnet_id a = n
      /\ (exists sub, Subnets s !! n = Some sub /\ cs_active sub = true)
      /\ routable s n (as_miner_id a) (as_validator_id a)
  | None => (forall sub, Subnets s !! n = Some sub -> cs_active sub = false)
      \/ forall m v, ~ routable s n m v
  end.
Proof.
  apply (reachable_chain_inv s Hok) in Hs as [_ _ Hm Hv].
  pose proof (ok_max_miners Hok). pose proof (ok_max_validators Hok).
  specialize (Hm n). specialize (Hv n).
  apply route_assignment_cases; lia.
Qed.

End Safety.
