(* ===== verification/Runtime.v ===== *)
(** * The runtime's configuration of the Qubitum pallet

    [runtime/src/lib.rs], the [parameter_types!] of the pallet and the implementation of
    [pallet_qubitum::Config] for the runtime.  The two features that select a different
    configuration, [runtime-benchmarks] and the one read by [prod_or_fast!], are
    arguments; so is the treasury account, derived from a [PalletId] by code outside the
    repository. *)

From S2P Require Import Prelude Protocol PostQuantum Pallet PalletInvariants.
From stdpp Require Import base tactics list gmap strings.
From Stdlib Require Import ZArith Lia.
Open Scope Z_scope.

Definition QubitumSubnetCreationBurn : Z := 10_000_000_000.
Definition QubitumMinerRegistrationBurn : Z := 10_000_000_000.
Definition QubitumMinMinerBond : Z := 100_000_000_000.
Definition QubitumMaxMinerBond : Z := 10_000_000_000_000.
Definition QubitumMaxActiveMinersPerSubnet : Z := 4096.
Definition QubitumMaxActiveValidatorsPerSubnet : Z := 4096.
Definition QubitumMinValidatorStake : Z := 100_000_000_000.
Definition QubitumMaxProofSubmissionAgeBlocks : Z := 50.
Definition QubitumRequestCancelDelayBlocks : Z := 50.

Definition prod_or_fast {A} (fast_runtime : bool) (prod fast : A) : A :=
  if fast_runtime then fast else prod.

Definition QubitumMinerExitCooldownBlocks (fast_runtime : bool) : Z :=
  prod_or_fast fast_runtime (7 * 24 * 60 * 60 / 12) 50.

Definition QubitumValidatorExitCooldownBlocks (fast_runtime : bool) : Z :=
  prod_or_fast fast_runtime (7 * 24 * 60 * 60 / 12) 50.

(** The implementation of [Config], for given verifiers. *)
Definition runtime_config_with (identity : VerifyIdentitySignature) (proof : VerifyProof)
    (fast_runtime : bool) (QubitumProtocolTreasury : AccountId) : Config := {|
  balance_bits := 64;
  SubnetCreationBurn := QubitumSubnetCreationBurn;
  MinerRegistrationBurn := QubitumMinerRegistrationBurn;
  MinMinerBond := QubitumMinMinerBond;
  MaxMinerBond := QubitumMaxMinerBond;
  MaxActiveMinersPerSubnet := QubitumMaxActiveMinersPerSubnet;
  MaxActiveValidatorsPerSubnet := QubitumMaxActiveValidatorsPerSubnet;
  MinValidatorStake := QubitumMinValidatorStake;
  MinInvalidProofSlashBps := MIN_INVALID_PROOF_SLASH_BPS;
  MaxInvalidProofSlashBps := MAX_INVALID_PROOF_SLASH_BPS;
  MinProofSizeBytes := TARGET_PROOF_SIZE_MIN_BYTES;
  MaxProofSizeBytes := TARGET_PROOF_SIZE_MAX_BYTES;
  MaxVerificationLatencyMs := TARGET_VERIFICATION_MS;
  MaxProofSubmissionAgeBlocks := QubitumMaxProofSubmissionAgeBlocks;
  cfg_SignatureMode := SignatureMode_FullPostQuantum;
  IdentitySignatureVerifier := identity;
  ShieldedCallPayloads := true;
  ShieldedCallPayloadExecution := true;
  PrivateEventMetadata := true;
  ShieldedOrigin := EnsureShieldedQubitumOrigin;
  ProofVerifier := proof;
  ProtocolTreasury := QubitumProtocolTreasury;
  MinerExitCooldownBlocks := QubitumMinerExitCooldownBlocks fast_runtime;
  ValidatorExitCooldownBlocks := QubitumValidatorExitCooldownBlocks fast_runtime;
  RequestCancelDelayBlocks := QubitumRequestCancelDelayBlocks;
|}.

Definition runtime_config `{Hashing} (runtime_benchmarks fast_runtime : bool)
    (QubitumProtocolTreasury : AccountId) : Config :=
  runtime_config_with
    (if runtime_benchmarks then CommitmentBindingIdentitySignatureVerifier
     else FailClosedIdentitySignatureVerifier)
    (if runtime_benchmarks then ShapeProofVerifier else FailClosedProofVerifier)
    fast_runtime QubitumProtocolTreasury.

Lemma runtime_config_with_ok identity proof fast treasury :
  config_ok (T := runtime_config_with identity proof fast treasury).
Proof. by split. Qed.
