(* ===== verification/PalletPrivacy.v ===== *)
(** * The Qubitum pallet: call privacy and the fail-closed configuration

    The consequences of the privacy settings and of the verifiers in the runtime's
    configuration of the pallet ([runtime/src/lib.rs]): calls arrive through the shielded
    origin only, the events of the pallet do not say which call was made, and without production
    verifiers nothing is ever served or paid. *)

From S2P Require Import Prelude Protocol PostQuantum Pallet PalletGuards PalletRouting.
From S2P Require Import PalletCalls PalletTransitions PalletInvariants PalletCapacity Runtime.
From stdpp Require Import base tactics list gmap strings relations.
From Stdlib Require Import ZArith Lia.
Open Scope Z_scope.

(** ** Shielded calls *)

Section Shielded.
Context {C : Type} `{CC : !Currency C} `{T : !Config} `{HH : !Hashing}.
Implicit Types s : Store C.

(** The calls of the root origin. *)
Definition governance_call (c : Call) : bool :=
  match c with Call_slash_miner _ _ _ | Call_slash_validator _ _ _ => true | _ => false end.

Lemma check_Err {A B} (f : Store C -> dresult A) (k : A -> pact C B) s e :
  f s = Err e -> abind (check f) k s = Err e.
Proof. unfold abind, check. by intros ->. Qed.

(** C12 With shielded call payloads, which the runtime configures, a call that does not
    come from the shielded origin is refused before anything else is looked at and leaves
    the state alone; the two governance slashes are refused from every origin, the root
    origin included. *)
Theorem public_calls_refused origin call s
    (Hshielded : ShieldedCallPayloads = true)
    (Hpublic : ShieldedOrigin origin = None \/ governance_call call = true) :
  dispatch origin call s = (s, Err (DispatchError_Module Error_PublicCallPayloadDisallowed)).
Proof.
  assert (Hg : ensure_public_call_payload_allowed
               = Err (DispatchError_Module Error_PublicCallPayloadDisallowed))
    by (unfold ensure_public_call_payload_allowed; by rewrite Hshielded).
  assert (Hs : ShieldedOrigin origin = None -> ensure_payload_signer origin
               = Err (DispatchError_Module Error_PublicCallPayloadDisallowed))
    by (intros Ho; unfold ensure_payload_signer; by rewrite Hshielded, Ho).
  unfold dispatch, run_call. destruct call; simpl in Hpublic;
    try (destruct Hpublic as [Ho|Ho]; [|discriminate]; specialize (Hs Ho));
    unfold create_subnet, register_miner, activate_miner, register_validator, submit_proof,
      challenge_proof, slash_miner, slash_validator, request_inference,
      request_inference_auto_route, request_inference_commitments, cancel_inference,
      expire_inference, deactivate_miner, withdraw_miner_bond, deactivate_validator,
      withdraw_validator_stake, set_miner_identity_commitments,
      set_validator_identity_commitments;
    (by rewrite (check_Err _ _ s _ Hs)) || by rewrite (check_Err _ _ s _ Hg).
Qed.

End Shielded.

(** ** Events *)

Section Events.
Context {C : Type} `{CC : !Currency C} `{T : !Config} `{HH : !Hashing}.
Implicit Types s : Store C.

(** A successful run appends exactly the events [l] to the log. *)
Definition emits {A} (l : list Event) (m : pact C A) : Prop :=
  forall s a s', m s = Ok (a, s') -> events s' = events s ++ l.

Lemma emits_bind {A B} l (m : pact C A) (k : A -> pact C B) :
  emits [] m -> (forall a, emits l (k a)) -> emits l (abind m k).
Proof. intros Hm Hk s b s' H. inv_run. apply Hm in Hr. apply Hk in H. rewrite H, Hr. by rewrite app_nil_r. Qed.

Lemma emits_check {A} (f : Store C -> dresult A) : emits [] (check f).
Proof. intros s a s' H. inv_run. by rewrite app_nil_r. Qed.

Lemma emits_asks {A} (f : Store C -> A) : emits [] (asks f).
Proof. intros s a s' H. inv_run. by rewrite app_nil_r. Qed.

Lemma emits_ret {A} (a : A) : emits [] (ret a).
Proof. intros s b s' H. inv_run. by rewrite app_nil_r. Qed.

Lemma emits_fail {A} l e : emits l (@fail _ _ A e).
Proof. intros s b s' H. inv_run. Qed.

Lemma emits_modify (f : Store C -> Store C) :
  (forall s, events (f s) = events s) -> emits [] (modify f).
Proof. intros Hf s a s' H. inv_run. by rewrite Hf, app_nil_r. Qed.

Lemma emits_currency_do (op : C -> dresult C) : emits [] (currency_do op).
Proof. intros s a s' H. inv_call. by rewrite app_nil_r. Qed.

Lemma emits_currency_get (op : C -> dresult (Z * C)) : emits [] (currency_get op).
Proof. intros s a s' H. inv_call. by rewrite app_nil_r. Qed.

Lemma emits_deposit l :
  PrivateEventMetadata = true -> emits [Event_PrivateActivity] (deposit_activity_events l).
Proof.
  intros Hp s a s' H. unfold deposit_activity_events, deposit_event in H. rewrite Hp in H.
  by inv_run.
Qed.

End Events.

Create HintDb emits discriminated.
#[export] Hint Constants Opaque : emits.
#[export] Hint Resolve emits_check emits_asks emits_ret emits_fail emits_currency_do
  emits_currency_get : emits.

Ltac solve_emits :=
  repeat match goal with
  | |- emits _ (abind _ _) => apply emits_bind; [|intros ?]
  | |- emits _ (if ?b then _ else _) => destruct b
  | |- emits _ (modify _) => apply emits_modify; intros ?; try done
  | |- emits _ (match ?x with _ => _ end) => destruct x
  end; auto with emits.

Section Operations.
Context {C : Type} `{CC : !Currency C} `{T : !Config} `{HH : !Hashing}.
Implicit Types s : Store C.

Lemma emits_try_mutate {V A} (lk : Store C -> option V) w (f : option V -> pact C (A * option V)) :
  (forall o s, events (w o s) = events s) -> (forall o, emits [] (f o)) ->
  emits [] (try_mutate lk w f).
Proof. intros Hw Hf. unfold try_mutate. solve_emits. Qed.

Lemma emits_burn_free who x : emits (C := C) [] (burn_free who x).
Proof. unfold burn_free, record_burned, clear_burned_total. solve_emits. Qed.

Lemma emits_slash_miner_bond id o bps : emits (C := C) [] (slash_miner_bond id o bps).
Proof.
  unfold slash_miner_bond, record_burned, clear_burned_total. solve_emits.
  apply emits_try_mutate; [done|intros ?]. solve_emits. by destruct (_ && _).
Qed.

Lemma emits_slash_validator_stake id o bps : emits (C := C) [] (slash_validator_stake id o bps).
Proof.
  unfold slash_validator_stake, record_burned, clear_burned_total. solve_emits.
  apply emits_try_mutate; [done|intros ?]. solve_emits. by destruct (_ && _).
Qed.

Lemma put_status_count_events st n s : events (put_status_count st n s) = events s.
Proof. by destruct st. Qed.

Lemma emits_pending m v st :
  emits (C := C) [] (decrement_pending_assignment m v)
  /\ emits (C := C) [] (increment_pending_assignment m v)
  /\ emits (C := C) [] (increment_request_status_count st).
Proof.
  unfold decrement_pending_assignment, increment_pending_assignment,
    increment_request_status_count.
  repeat split; solve_emits. apply put_status_count_events.
Qed.

Lemma emits_transition a b : emits (C := C) [] (transition_request_status a b).
Proof.
  unfold transition_request_status, decrement_request_status_count,
    increment_request_status_count. solve_emits; apply put_status_count_events.
Qed.

Lemma emits_transfer a b x : emits (C := C) [] (transfer_held_payment a b x).
Proof. unfold transfer_held_payment. solve_emits. Qed.

Lemma emits_accounting p x y z :
  emits (C := C) [] (record_inference_refund p)
  /\ emits (C := C) [] (record_inference_settlement x y z)
  /\ emits (C := C) [] (record_inference_escrow p).
Proof. repeat split; by apply emits_modify. Qed.

End Operations.

#[export] Hint Resolve emits_burn_free emits_slash_miner_bond emits_slash_validator_stake
  emits_transition emits_transfer emits_deposit : emits.
#[export] Hint Extern 1 (emits _ (decrement_pending_assignment _ _)) =>
  apply (emits_pending _ _ InferenceRequestStatus_Pending) : emits.
#[export] Hint Extern 1 (emits _ (increment_pending_assignment _ _)) =>
  apply (emits_pending _ _ InferenceRequestStatus_Pending) : emits.
#[export] Hint Extern 1 (emits _ (increment_request_status_count _)) =>
  apply (emits_pending 0 0) : emits.
#[export] Hint Extern 1 (emits _ (record_inference_refund _)) =>
  apply (emits_accounting _ 0 0 0) : emits.
#[export] Hint Extern 1 (emits _ (record_inference_settlement _ _ _)) =>
  apply (emits_accounting 0) : emits.
#[export] Hint Extern 1 (emits _ (record_inference_escrow _)) =>
  apply (emits_accounting _ 0 0 0) : emits.

Section EventLog.
Context {C : Type} `{CC : !Currency C} `{T : !Config} `{HH : !Hashing}.
Hypothesis Hprivate : PrivateEventMetadata = true.
Implicit Types s : Store C.

Lemma emits_open user id n m v i ab ib eb p vb tb :
  emits (C := C) [Event_PrivateActivity]
    (open_inference_request user id n m v i ab ib eb p vb tb).
Proof.
  unfold open_inference_request, open_inference_request_with_commitments,
    ensure_next_request_id, deposit_activity_event. solve_emits.
Qed.

Lemma emits_settle sub u mo vo ab tw :
  emits (C := C) [] (settle_request_payment sub u mo vo ab tw).
Proof.
  unfold settle_request_payment. apply emits_try_mutate; [done|intros ?]. solve_emits.
Qed.

Lemma emits_refund sub u ab tw : emits (C := C) [] (refund_rejected_request sub u ab tw).
Proof.
  unfold refund_rejected_request. apply emits_try_mutate; [done|intros ?]. solve_emits.
Qed.

Lemma emits_proof_calls origin sub u mo ab tw :
  emits (C := C) [Event_PrivateActivity] (submit_proof origin sub u mo ab tw)
  /\ emits (C := C) [Event_PrivateActivity] (challenge_proof origin sub u mo ab tw).
Proof.
  split; unfold submit_proof, challenge_proof; solve_emits;
    auto using emits_settle, emits_refund.
Qed.

Lemma emits_identity_calls origin id sh ep b :
  emits (C := C) [Event_PrivateActivity] (set_miner_identity_commitments origin id sh ep b)
  /\ emits (C := C) [Event_PrivateActivity]
       (set_validator_identity_commitments origin id sh ep b).
Proof.
  split; unfold set_miner_identity_commitments, set_validator_identity_commitments,
    Validators_try_mutate, deposit_activity_event; solve_emits;
    try (apply emits_try_mutate; [done|intros ?]); solve_emits; by destruct (is_active _).
Qed.

Lemma run_call_emits origin call : emits (C := C) [Event_PrivateActivity] (run_call origin call).
Proof.
  destruct call; unfold run_call;
    match goal with
    | |- emits _ (submit_proof _ _ _ _ _ _) =>
        apply (proj1 (emits_proof_calls _ _ _ _ _ _))
    | |- emits _ (challenge_proof _ _ _ _ _ _) =>
        apply (proj2 (emits_proof_calls _ _ _ _ _ _))
    | |- emits _ (set_miner_identity_commitments _ _ _ _ _) =>
        apply (proj1 (emits_identity_calls _ _ _ _ _))
    | |- emits _ (set_validator_identity_commitments _ _ _ _ _) =>
        apply (proj2 (emits_identity_calls _ _ _ _ _))
    | _ => idtac
    end;
    unfold create_subnet, next_subnet_id, register_miner, next_miner_id, activate_miner,
      register_validator, next_validator_id, slash_miner, slash_validator, request_inference,
      request_inference_auto_route, request_inference_commitments, cancel_inference,
      expire_inference, deactivate_miner, withdraw_miner_bond, deactivate_validator,
      withdraw_validator_stake, Miners_try_mutate, Validators_try_mutate,
      InferenceRequests_try_mutate, deposit_activity_event;
    solve_emits; (apply emits_open || (apply emits_try_mutate; [done|intros ?]; solve_emits)).
Qed.

(** C13 The events of the pallet do not reveal calls: with private event metadata a successful
    call, whichever it is and whoever makes it, appends the one event [PrivateActivity] to the
    events of the pallet, and a failing call appends nothing.  Events of other pallets, such as
    those the currency deposits for the transfers and burns of the same call, are not covered. *)
Theorem dispatch_events_private origin call s :
  events (fst (dispatch origin call s))
  = events s ++ (if is_ok (snd (dispatch origin call s)) then [Event_PrivateActivity] else []).
Proof.
  unfold dispatch. destruct (run_call origin call s) as [[u s']|] eqn:Hrun; simpl.
  - by apply run_call_emits in Hrun.
  - by rewrite app_nil_r.
Qed.

End EventLog.

(** ** The fail-closed configuration *)

Section FailClosed.
Context {C : Type} `{CC : !Currency C} `{T : !Config} `{HH : !Hashing}.
Context `{Laws : !CurrencyLaws C}.
Hypothesis Hclosed : forall signature context,
  identity_verify IdentitySignatureVerifier signature context = false.
Implicit Types s : Store C.

Lemma identity_never_bound b ch o sh ep u :
  ensure_identity_signature_bundle_bound b ch o sh ep <> Ok u.
Proof.
  unfold ensure_identity_signature_bundle_bound, ensure_signature_bundle_bound_to_challenge,
    ensure_signature_bundle, ensure_signature_commitment_bound_to_challenge. intros H.
  rewrite rbind_Ok in H. destruct H as (u1 & H & _). rewrite rbind_Ok in H.
  destruct H as (u2 & Hv & H). destruct (SignaturePolicy_validate _ _) eqn:Hs; [|done].
  rewrite rbind_Ok in H. destruct H as (u3 & H1 & H2).
  destruct b as [[c|] [d|]]; simpl in *; rewrite ?Hclosed in *; try done.
  unfold SignaturePolicy_validate in Hs. by destruct cfg_SignatureMode.
Qed.

(** No participant is ever activated, so no request is ever opened. *)
Record dormant s : Prop := {
  dormant_miners id m : Miners s !! id = Some m -> cm_status m = RegistryStatus_Pending;
  dormant_bonds : MinerLockedBond s = ∅;
  dormant_validators id v : Validators s !! id = Some v -> cv_status v <> RegistryStatus_Active;
  dormant_requests : InferenceRequests s = ∅;
  dormant_proofs : ProofRecords s = ∅;
}.

Lemma dormant_frame s s' :
  Miners s' = Miners s -> MinerLockedBond s' = MinerLockedBond s ->
  Validators s' = Validators s -> InferenceRequests s' = InferenceRequests s ->
  ProofRecords s' = ProofRecords s -> dormant s -> dormant s'.
Proof. intros H1 H2 H3 H4 H5 []. split; rewrite ?H1, ?H2, ?H3, ?H4, ?H5; auto. Qed.

Lemma dormant_validator s s' id v :
  Miners s' = Miners s -> MinerLockedBond s' = MinerLockedBond s ->
  Validators s' = <[id := v]> (Validators s) -> InferenceRequests s' = InferenceRequests s ->
  ProofRecords s' = ProofRecords s -> cv_status v <> RegistryStatus_Active ->
  dormant s -> dormant s'.
Proof.
  intros H1 H2 H3 H4 H5 Hv []. split; rewrite ?H1, ?H2, ?H3, ?H4, ?H5; auto.
  intros j w [[_ <-]|[_ Hw]]%lookup_insert_Some; eauto.
Qed.

Lemma trans_dormant s s' : trans s s' -> dormant s -> dormant s'.
Proof.
  intros Ht Hd. pose proof Hd as [Hm Hb Hv Hr Hp].
  destruct Ht; subst; try (by apply (dormant_frame s)).
  - match goal with H : same_registry _ _ |- _ => rewrite H end. by apply (dormant_frame s).
  - split; simpl; auto.
    intros j w [[_ <-]|[_ Hw]]%lookup_insert_Some; eauto.
  - unfold ensure_miner_signature_bundle_bound in *. inv_run. by edestruct identity_never_bound.
  - eapply (dormant_validator s); [done..|congruence|done].
  - specialize (Hm _ _ ltac:(eassumption)). match goal with H : _ \/ _ |- _ => destruct H end; congruence.
  - by eapply (dormant_validator s).
  - specialize (Hm _ _ ltac:(eassumption)). congruence.
  - by eapply (dormant_validator s).
  - specialize (Hm _ _ ltac:(eassumption)). unfold locked_miner_bond in *.
    rewrite Hb, lookup_empty in *. inv_run. simplify_eq. rewrite Hm in *. done.
  - eapply (dormant_validator s); [done..| |done]. simpl. destruct (_ && _); [done|eauto].
  - by edestruct identity_never_bound.
  - eapply (dormant_validator s); [done..| |done]. destruct (is_active (cv_status v)); eauto.
  - destruct H as [_ _ _ _ Ha]. unfold ensure_request_assignment in Ha. inv_run. boolprop.
    unfold is_active in *. boolprop. naive_solver.
  - destruct H as [Hq]. by rewrite Hr, lookup_empty in Hq.
  - destruct H as [Hq]. by rewrite Hr, lookup_empty in Hq.
Qed.

Lemma reachable_dormant s : reachable s -> dormant s.
Proof.
  apply reachable_ind; [done|..].
  - intros c _. by split; simpl; try (intros ? ?; rewrite lookup_empty).
  - apply trans_dormant.
  - intros s0 n _. by apply dormant_frame.
  - intros s0 c _. by apply dormant_frame.
Qed.

Lemma dormant_no_route s n request_id blinding :
  config_ok -> reachable s -> dormant s -> route_assignment s n request_id blinding = None.
Proof.
  intros Hok Hs Hd. apply (reachable_chain_inv s Hok) in Hs as [_ _ Hm Hv].
  pose proof (ok_max_miners Hok). pose proof (ok_max_validators Hok).
  specialize (Hm n). specialize (Hv n).
  unshelve epose proof (route_assignment_cases s n _ _ request_id blinding) as Hc; [lia..|].
  destruct (route_assignment s n request_id blinding) as [a|]; [|done].
  destruct Hc as (_ & _ & _ & mr & vr & (_ & Hmr & _ & He) & _).
  apply (dormant_miners s Hd) in Hmr. unfold miner_is_route_eligible in He.
  by rewrite Hmr in He.
Qed.

End FailClosed.

Section Production.
Context {C : Type} `{CC : !Currency C} `{HH : !Hashing} `{Laws : !CurrencyLaws C}.

(** C11 The runtime as it is built for production fails closed: its identity verifier
    accepts no signature and its proof verifier no proof, so in every reachable state all
    miners are pending, no validator is active, no bond is locked and there is no request
    and no proof record; no route is found, and proof submissions and challenges fail. *)
Theorem production_runtime_dormant (fast : bool) (treasury : AccountId)
    (T := runtime_config false fast treasury) (s : Store C) (Hs : reachable s) :
  dormant s
  /\ (forall n request_id blinding, route_assignment s n request_id blinding = None)
  /\ (forall origin sub user miner blinding terms,
        is_ok (submit_proof origin sub user miner blinding terms s) = false
        /\ is_ok (challenge_proof origin sub user miner blinding terms s) = false).
Proof.
  assert (Hd : dormant s) by (by apply reachable_dormant).
  split; [done|]. split; [by intros; apply dormant_no_route; [apply runtime_config_with_ok|..]|].
  intros origin sub user miner blinding terms.
  split; apply not_true_is_false; rewrite is_ok_true; intros ([u s'] & Hrun);
    unfold submit_proof, challenge_proof in Hrun; rewrite abind_Ok in Hrun;
    destruct Hrun as (vo & s1 & _ & Hrun); rewrite abind_Ok in Hrun;
    destruct Hrun as (policy & s2 & _ & Hrun); rewrite abind_Ok in Hrun;
    destruct Hrun as (outcome & s3 & Ho & Hrun); apply check_Ok in Ho as [[= <-] ->];
    by apply fail_Ok in Hrun.
Qed.

End Production.
