(* ===== verification/PalletDemo.v ===== *)
(** * The Qubitum pallet: a concrete instance

    Instances of the interfaces the pallet is parametric in, used to run the model on
    concrete inputs: a ledger of free and held balances that satisfies the laws of the
    currency, an injective commitment function, and a configuration with the runtime's
    amounts, a verifier with a fixed outcome and the commitment-binding identity verifier;
    and a run with one subnet, one miner, one validator and one request. *)

From S2P Require Import Prelude Protocol PostQuantum Pallet PalletGuards PalletRouting.
From S2P Require Import PalletCalls PalletTransitions PalletInvariants Runtime.
From stdpp Require Import base tactics list gmap strings list_numbers relations.
From Stdlib Require Import ZArith Lia.
Open Scope Z_scope.

(** ** A ledger *)

Module DemoLedger.

Definition reason_code (r : HoldReason) : Z :=
  match r with
  | HoldReason_MinerBond => 0
  | HoldReason_ValidatorStake => 1
  | HoldReason_InferencePayment => 2
  end.

(** Held amounts are natural numbers, free balances any integer. *)
Record ledger : Type := mk_ledger {
  free_of : gmap AccountId Z;
  held_of : gmap (Z * AccountId) N;
}.

Definition get_free (a : AccountId) (c : ledger) : Z := default 0 (free_of c !! a).

Definition get_held (r : HoldReason) (a : AccountId) (c : ledger) : Z :=
  Z.of_N (default 0%N (held_of c !! (reason_code r, a))).

Definition put_free (a : AccountId) (x : Z) (c : ledger) : ledger :=
  mk_ledger (<[a := x]> (free_of c)) (held_of c).

Definition put_held (r : HoldReason) (a : AccountId) (x : Z) (c : ledger) : ledger :=
  mk_ledger (free_of c) (<[(reason_code r, a) := Z.to_N x]> (held_of c)).

(** [x] is an amount that is there. *)
Definition covered (x available : Z) : bool := (0 <=? x) && (x <=? available).

Definition refused {A} : dresult A := Err (DispatchError_Currency 0).

#[export] Instance ledger_currency : Currency ledger := {
  balance := get_free;
  balance_on_hold := get_held;
  hold r a x c :=
    if covered x (get_free a c)
    then Ok (put_free a (get_free a c - x) (put_held r a (get_held r a c + x) c))
    else refused;
  release r a x c :=
    if covered x (get_held r a c)
    then Ok (put_free a (get_free a c + x) (put_held r a (get_held r a c - x) c))
    else refused;
  burn_held r a x c :=
    if covered x (get_held r a c)
    then Ok (x, put_held r a (get_held r a c - x) c) else refused;
  burn_from a x c :=
    if covered x (get_free a c) then Ok (x, put_free a (get_free a c - x) c) else refused;
  transfer_on_hold r a b x c :=
    if covered x (get_held r a c)
    then Ok (put_free b (get_free b c + x) (put_held r a (get_held r a c - x) c))
    else refused;
}.

Lemma reason_code_inj r r' : reason_code r = reason_code r' -> r = r'.
Proof. by destruct r, r'. Qed.

Lemma get_held_put r a x c r' a' : 0 <= x ->
  get_held r' a' (put_held r a x c) = if decide (r' = r /\ a' = a) then x else get_held r' a' c.
Proof.
  intros Hx. unfold get_held, put_held; simpl. case_decide as Hd.
  - destruct Hd as [-> ->]. rewrite lookup_insert_eq. simpl. lia.
  - rewrite lookup_insert_ne; [done|]. intros [= H1%reason_code_inj H2]. naive_solver.
Qed.

Lemma get_free_put a x c a' :
  get_free a' (put_free a x c) = if decide (a' = a) then x else get_free a' c.
Proof.
  unfold get_free, put_free; simpl. case_decide as Hd.
  - subst. by rewrite lookup_insert_eq.
  - by rewrite lookup_insert_ne.
Qed.

Lemma held_put_free r a' a x c : get_held r a' (put_free a x c) = get_held r a' c.
Proof. done. Qed.

Lemma free_put_held r a' a x c : get_free a' (put_held r a x c) = get_free a' c.
Proof. done. Qed.

Lemma get_held_nonneg r a c : 0 <= get_held r a c.
Proof. unfold get_held. lia. Qed.

Ltac ledger_law :=
  simpl; intros; unfold covered in *; repeat case_match; simplify_eq; boolprop;
  unfold held_after, balance_after; simpl; try split; try done; intros;
  rewrite ?held_put_free, ?free_put_held, ?get_free_put, ?free_put_held;
  repeat match goal with |- context [get_held ?r ?a ?c] =>
    lazymatch goal with H : 0 <= get_held r a c |- _ => fail
    | _ => pose proof (get_held_nonneg r a c) end end;
  rewrite ?get_held_put by lia; repeat case_decide; naive_solver lia.

#[export] Instance ledger_laws : CurrencyLaws ledger.
Proof.
  split.
  - apply get_held_nonneg.
  - ledger_law.
  - ledger_law.
  - intros r a x c [H1 H2]. simpl in *. unfold covered.
    rewrite (proj2 (Z.leb_le _ _) H1), (proj2 (Z.leb_le _ _) H2). eauto.
  - ledger_law.
  - intros r a x c [H1 H2]. simpl in *. unfold covered.
    rewrite (proj2 (Z.leb_le _ _) H1), (proj2 (Z.leb_le _ _) H2). eauto.
  - ledger_law.
  - ledger_law.
  - ledger_law.
  - ledger_law.
  - ledger_law.
  - ledger_law.
Qed.

End DemoLedger.

(** ** An injective commitment function *)

Module DemoHash.

Definition proof_system_code (p : ProofSystem) : list Z :=
  match p with
  | ProofSystem_Mock => [0] | ProofSystem_RiscZeroStark => [1] | ProofSystem_Stark => [2]
  | ProofSystem_External id => [3; id]
  end.

Definition version_code (v : ProofVerifierVersion) : list Z :=
  match v with
  | ProofVerifierVersion_Mock => [0] | ProofVerifierVersion_RiscZeroV1 => [1]
  | ProofVerifierVersion_RiscZeroV2 => [2] | ProofVerifierVersion_StarkV1 => [3]
  | ProofVerifierVersion_External id => [4; id]
  end.

Definition mode_code (m : SignatureMode) : list Z :=
  match m with
  | SignatureMode_ClassicalEcdsa => [0] | SignatureMode_HybridDilithium => [1]
  | SignatureMode_FullPostQuantum => [2]
  end.

Definition domain_code (d : SubnetDomain) : list Z :=
  match d with
  | SubnetDomain_General => [0] | SubnetDomain_Vision => [1] | SubnetDomain_Code => [2]
  | SubnetDomain_Biology => [3] | SubnetDomain_Custom c => 4 :: c
  end.

Definition status_code (s : RegistryStatus) : list Z :=
  match s with
  | RegistryStatus_Pending => [0] | RegistryStatus_Active => [1]
  | RegistryStatus_Exiting e => [2; e] | RegistryStatus_Slashed => [3]
  | RegistryStatus_Disabled => [4]
  end.

Definition algorithm_code (a : SignatureAlgorithm) : list Z :=
  match a with
  | SignatureAlgorithm_Ecdsa => [0] | SignatureAlgorithm_Sr25519 => [1]
  | SignatureAlgorithm_Ed25519 => [2] | SignatureAlgorithm_Dilithium3 => [3]
  | SignatureAlgorithm_Dilithium5 => [4] | SignatureAlgorithm_Falcon512 => [5]
  | SignatureAlgorithm_SphincsPlus => [6]
  end.

Definition option_code (o : option Commitment) : list Z :=
  match o with None => [] | Some c => 0 :: c end.

Definition string_code (s : string) : list Z := [Z.pos (encode s)].

(** The fields of a tuple, after a tag for its shape. *)
Definition fields (p : Preimage) : list (list Z) :=
  match p with
  | Pre_account who => [[0]; who]
  | Pre_role_account d who => [[1]; string_code d; who]
  | Pre_participant_capital d id oc st => [[2]; string_code d; [id]; oc; status_code st]
  | Pre_identity_challenge d id oc sh ep m =>
      [[3]; string_code d; [id]; oc; option_code sh; option_code ep; mode_code m]
  | Pre_identity_binding ch a pk m => [[4]; ch; algorithm_code a; pk; mode_code m]
  | Pre_subnet_policy n d ps x1 x2 x3 x4 x5 x6 x7 =>
      [[5]; [n]; domain_code d; proof_system_code ps; [x1]; [x2]; [x3]; [x4]; [x5]; [x6]; [x7]]
  | Pre_request_assignment r n m v b => [[6]; [r]; [n]; [m]; [v]; b]
  | Pre_legacy_request_assignment r n m v => [[7]; [r]; [n]; [m]; [v]]
  | Pre_request_timing r t b => [[8]; [r]; [t]; b]
  | Pre_legacy_request_timing r t => [[9]; [r]; [t]]
  | Pre_request_terms r p v t b => [[10]; [r]; [p]; [v]; [t]; b]
  | Pre_legacy_request_terms r p v t => [[11]; [r]; [p]; [v]; [t]]
  | Pre_proof_audit r n ac i o m pf ps z l sa aa =>
      [[12]; [r]; [n]; ac; i; o; m; proof_commitment pf; journal_commitment pf; image_id pf;
       version_code (verifier_version pf); proof_system_code ps; [z]; [l]; [sa]; [aa]]
  | Pre_proof_transcript r n m v i o mc ps pc im ver z l sa =>
      [[13]; [r]; [n]; [m]; [v]; i; o; mc; proof_system_code ps; pc; im; version_code ver;
       [z]; [l]; [sa]]
  | Pre_route_seed d r n b => [[14]; string_code d; [r]; [n]; b]
  end.

#[export] Instance demo_hashing : Hashing := {
  commit p := [Z.pos (encode (fields p))];
}.

#[export] Instance string_code_inj : Inj eq eq string_code.
Proof. intros s t [= H]. by apply encode_inj in H. Qed.
#[export] Instance proof_system_code_inj : Inj eq eq proof_system_code.
Proof. intros [] []; simpl; intros; by simplify_eq. Qed.
#[export] Instance version_code_inj : Inj eq eq version_code.
Proof. intros [] []; simpl; intros; by simplify_eq. Qed.
#[export] Instance mode_code_inj : Inj eq eq mode_code.
Proof. intros [] []; simpl; intros; by simplify_eq. Qed.
#[export] Instance domain_code_inj : Inj eq eq domain_code.
Proof. intros [] []; simpl; intros; by simplify_eq. Qed.
#[export] Instance status_code_inj : Inj eq eq status_code.
Proof. intros [] []; simpl; intros; by simplify_eq. Qed.
#[export] Instance algorithm_code_inj : Inj eq eq algorithm_code.
Proof. intros [] []; simpl; intros; by simplify_eq. Qed.
#[export] Instance option_code_inj : Inj eq eq option_code.
Proof. intros [] []; simpl; intros; by simplify_eq. Qed.

Lemma fields_inj p q : fields p = fields q -> p = q.
Proof.
  destruct p; destruct q; intros H; try discriminate H; simpl in H;
    repeat match goal with
    | pf : ProofEnvelope |- _ => destruct pf
    end; simpl in H; injection H; intros;
    repeat match goal with
    | E : string_code _ = string_code _ |- _ => apply (inj string_code) in E
    | E : encode _ = encode _ |- _ => apply encode_inj in E
    | E : proof_system_code _ = proof_system_code _ |- _ => apply (inj proof_system_code) in E
    | E : version_code _ = version_code _ |- _ => apply (inj version_code) in E
    | E : mode_code _ = mode_code _ |- _ => apply (inj mode_code) in E
    | E : domain_code _ = domain_code _ |- _ => apply (inj domain_code) in E
    | E : status_code _ = status_code _ |- _ => apply (inj status_code) in E
    | E : algorithm_code _ = algorithm_code _ |- _ => apply (inj algorithm_code) in E
    | E : option_code _ = option_code _ |- _ => apply (inj option_code) in E
    end; by subst.
Qed.

Lemma demo_collision_free : collision_free (H := demo_hashing).
Proof. intros p q [= H]. apply encode_inj in H. by apply fields_inj. Qed.

End DemoHash.

(** ** A run *)

Module Demo.
Export DemoLedger DemoHash.

Definition owner : AccountId := [1].
Definition miner_account : AccountId := [2].
Definition validator_account : AccountId := [3].
Definition user : AccountId := [4].
Definition treasury : AccountId := [9].

(** A verifier with a fixed outcome, and the configuration of the runtime with it and
    with the identity verifier of its benchmark build. *)
Definition constant_verifier (outcome : VerificationOutcome) : VerifyProof := {|
  proof_mode := ProofVerifierMode_TestOnly;
  proof_verify _ _ := Ok outcome;
|}.

Section Run.
Context (outcome : VerificationOutcome).

Definition demo_config : Config :=
  runtime_config_with CommitmentBindingIdentitySignatureVerifier (constant_verifier outcome)
    false treasury.
Local Existing Instance demo_config.

Definition funds : ledger :=
  mk_ledger (list_to_map (map (fun a => (a, 10 ^ 15))
    [owner; miner_account; validator_account; user])) ∅.

(** A Dilithium signature over the challenge. *)
Definition bundle_for (challenge : Commitment) : SignatureBundle :=
  let sig sc := {| algorithm := SignatureAlgorithm_Dilithium3; public_key_commitment := [77];
                   signature_commitment := sc |} in
  {| classical := None;
     post_quantum := Some (sig (identity_signature_binding_for_mode
       SignatureMode_FullPostQuantum challenge (sig []))) |}.

Definition miner_bundle : SignatureBundle :=
  bundle_for (miner_identity_signature_challenge 0 (operator_commitment miner_account)
                (Some [55]) None).

Definition validator_bundle : SignatureBundle :=
  bundle_for (validator_identity_signature_challenge 0
                (operator_commitment validator_account) (Some [66]) None).

Definition payment : Z := 1_000_000.

Definition route_params : AutoRouteInferenceRequestParams := {|
  ar_subnet_id := 0; ar_input_commitment := [11]; ar_assignment_blinding := [12];
  ar_timing_blinding := [13]; ar_terms_blinding := [14]; ar_payment := payment;
  ar_validator_fee_bps := 1_000; ar_treasury_fee_bps := 500;
|}.

Definition setup_calls : list (AccountId * Call) := [
  (owner, Call_create_subnet SubnetDomain_General ProofSystem_RiscZeroStark);
  (miner_account, Call_register_miner 0 [10] ProofSystem_RiscZeroStark);
  (miner_account, Call_set_miner_identity_commitments 0 (Some [55]) None miner_bundle);
  (miner_account, Call_activate_miner 0 QubitumMinMinerBond);
  (validator_account, Call_register_validator 0 QubitumMinValidatorStake);
  (validator_account,
   Call_set_validator_identity_commitments 0 (Some [66]) None validator_bundle)
].

Definition request_calls : list (AccountId * Call) :=
  [(user, Call_request_inference_auto_route 0 route_params)].

Definition run_calls (calls : list (AccountId * Call)) (s : Store ledger) : Store ledger :=
  foldl (fun s '(who, call) => fst (dispatch (Origin_Shielded who) call s)) s calls.

(** An active miner and validator; a pending request; and the block at which the request
    can be cancelled. *)
Definition ready : Store ledger := run_calls setup_calls (genesis_store funds).
Definition requested : Store ledger := run_calls request_calls ready.
Definition later : Store ledger := requested <| block_number := 50 |>.

Definition timing : InferenceRequestTimingWitness :=
  {| created_at := 0; timing_blinding := [13] |}.
Definition terms_of : InferenceRequestTermsWitness := {|
  terms := {| terms_payment := payment; terms_validator_fee_bps := 1_000;
              terms_treasury_fee_bps := 500 |};
  terms_blinding := [14] |}.

Definition submission_with (journal : Commitment) : InferenceProofSubmission := {|
  request_id := 0; subnet_id := 0; miner_id := 0; validator_id := 0;
  input_commitment := [11]; output_commitment := [21]; model_commitment := [10];
  proof := {| proof_commitment := [22]; journal_commitment := journal; image_id := [23];
              verifier_version := ProofVerifierVersion_RiscZeroV1 |};
  proof_system := ProofSystem_RiscZeroStark;
  proof_size_bytes := TARGET_PROOF_SIZE_MIN_BYTES;
  verification_latency_ms := 1; submitted_at := 0;
|}.
Definition submission : InferenceProofSubmission :=
  submission_with (proof_transcript_commitment (submission_with [])).

Definition settle_calls : list (AccountId * Call) :=
  [(validator_account, Call_submit_proof submission user miner_account [12] terms_of)].
Definition settled : Store ledger := run_calls settle_calls requested.

Definition cancel_calls : list (AccountId * Call) :=
  [(user, Call_cancel_inference 0 0 0 [12] timing terms_of)].
Definition cancelled : Store ledger := run_calls cancel_calls later.

Lemma run_calls_reachable calls s : reachable s -> reachable (run_calls calls s).
Proof.
  intros (c & Hc & Hs). exists c. split; [done|]. revert s Hs.
  induction calls as [|[who call] calls IH]; intros s Hs; [done|].
  apply IH. eapply rtc_r; [exact Hs|]. apply step_call.
Qed.

Lemma ready_reachable : reachable ready.
Proof.
  apply run_calls_reachable. exists funds. split; [done|]. reflexivity.
Qed.

Lemma requested_reachable : reachable requested.
Proof. apply run_calls_reachable, ready_reachable. Qed.

Lemma later_reachable : reachable later.
Proof.
  destruct requested_reachable as (c & Hc & Hs). exists c. split; [done|].
  eapply rtc_r; [exact Hs|]. apply step_block. vm_compute. discriminate.
Qed.

End Run.

End Demo.
