(* ===== verification/PalletWitnesses.v ===== *)
(** * The Qubitum pallet: the theorems on a concrete run

    Each theorem about the pallet that has hypotheses, applied to the run of [PalletDemo]:
    one subnet, one miner, one validator and one request, under the runtime's amounts, with
    a verifier that accepts or one that rejects. *)

From S2P Require Import Prelude Protocol PostQuantum Pallet PalletGuards PalletRouting.
From S2P Require Import PalletCalls PalletTransitions PalletInvariants PalletCapacity.
From S2P Require Import PalletQueries PalletEscrow PalletFunds PalletSettlement PalletBonds.
From S2P Require Import PalletSafety Runtime PalletPrivacy PalletDemo.
From stdpp Require Import base tactics list gmap strings list_numbers relations.
From Stdlib Require Import ZArith Lia.
Open Scope Z_scope.
Import Demo.

(** ** With a verifier that accepts *)

Module Accepting.

Definition accepting_config : Config := demo_config VerificationOutcome_Valid.
#[local] Existing Instance accepting_config.

Definition chain_ready : Store ledger := ready VerificationOutcome_Valid.
Definition chain_requested : Store ledger := requested VerificationOutcome_Valid.
Definition chain_later : Store ledger := later VerificationOutcome_Valid.
Definition chain_settled : Store ledger := settled VerificationOutcome_Valid.

(** Both participants leave, and the cooldown passes. *)
Definition exit_calls : list (AccountId * Call) :=
  [(miner_account, Call_deactivate_miner 0); (validator_account, Call_deactivate_validator 0)].
Definition chain_left : Store ledger :=
  run_calls VerificationOutcome_Valid exit_calls chain_ready <| block_number := 50_400 |>.

Lemma config_accepting_ok : config_ok.
Proof. apply runtime_config_with_ok. Qed.

Lemma chain_settled_reachable : reachable chain_settled.
Proof.
  exact (run_calls_reachable VerificationOutcome_Valid settle_calls _
    (requested_reachable VerificationOutcome_Valid)).
Qed.

Lemma chain_left_reachable : reachable chain_left.
Proof.
  destruct (run_calls_reachable VerificationOutcome_Valid exit_calls _
    (ready_reachable VerificationOutcome_Valid)) as (c & Hc & Hs).
  exists c. split; [done|]. eapply rtc_r; [exact Hs|]. apply step_block. vm_compute. discriminate.
Qed.

Lemma later_pending : exists r, InferenceRequests chain_later !! 0 = Some r
  /\ rq_status r = InferenceRequestStatus_Pending.
Proof.
  destruct (InferenceRequests chain_later !! 0) as [r|] eqn:E.
  - exists r. split; [done|].
    assert (option_map rq_status (InferenceRequests chain_later !! 0)
            = Some InferenceRequestStatus_Pending) as H by (vm_compute; reflexivity).
    rewrite E in H. by injection H.
  - vm_compute in E. discriminate.
Qed.

Lemma dispatch_refines_transitions_witness : rtc trans chain_requested chain_settled.
Proof.
  pose proof (dispatch_refines_transitions (Origin_Shielded validator_account)
    (Call_submit_proof submission user miner_account [12] terms_of) chain_requested) as H.
  assert (is_ok (snd (dispatch (Origin_Shielded validator_account)
    (Call_submit_proof submission user miner_account [12] terms_of) chain_requested)) = true)
    as Hok by (vm_compute; reflexivity).
  change chain_settled with (fst (dispatch (Origin_Shielded validator_account)
    (Call_submit_proof submission user miner_account [12] terms_of) chain_requested)).
  destruct (dispatch _ _ _) as [s' [u|e]]; [exact H|discriminate Hok].
Defined.

Lemma reachable_registry_witness : registry_inv chain_settled.
Proof.
  apply reachable_registry; [apply config_accepting_ok|apply chain_settled_reachable].
Defined.

Lemma reachable_requests_witness :
  SettledInferenceRequestCount chain_settled = 1 /\ request_inv chain_settled.
Proof.
  split; [vm_compute; reflexivity|].
  apply reachable_requests; [apply config_accepting_ok|apply chain_settled_reachable].
Defined.

Lemma request_final_witness : exists r r', InferenceRequests chain_requested !! 0 = Some r
  /\ InferenceRequests chain_settled !! 0 = Some r' /\ r' = r <| rq_status := rq_status r' |>.
Proof.
  destruct (InferenceRequests chain_requested !! 0) as [r|] eqn:E;
    [|vm_compute in E; discriminate].
  destruct (request_final chain_requested chain_settled 0 r) as (r' & Hr' & Heq & _).
  - exact (rtc_once _ _ (step_call chain_requested (Origin_Shielded validator_account)
      (Call_submit_proof submission user miner_account [12] terms_of))).
  - exact E.
  - exists r, r'. auto.
Defined.

Lemma settled_iff_proved_witness :
  is_Some (ProofRecords chain_settled !! 0) /\ proof_inv chain_settled.
Proof.
  split; [vm_compute; eauto|]. apply settled_iff_proved, chain_settled_reachable.
Defined.

Lemma route_assignment_correct_witness : exists a,
  route_assignment chain_ready 0 0 [12] = Some a
  /\ routable chain_ready 0 (as_miner_id a) (as_validator_id a).
Proof.
  pose proof (route_assignment_correct chain_ready 0 0 [12] config_accepting_ok
    (ready_reachable VerificationOutcome_Valid)) as H.
  destruct (route_assignment chain_ready 0 0 [12]) as [a|] eqn:E;
    [|vm_compute in E; discriminate].
  exists a. split; [done|]. apply H.
Defined.

Lemma try_state_reachable_witness : try_state chain_settled = Ok tt.
Proof.
  apply try_state_reachable; [apply config_accepting_ok|apply chain_settled_reachable].
Defined.

Lemma reachable_escrow_witness :
  balance_on_hold HoldReason_InferencePayment user (currency_state chain_requested) = payment
  /\ exists om, escrow_inv chain_requested om.
Proof.
  split; [vm_compute; reflexivity|].
  apply reachable_escrow; [apply demo_collision_free|apply config_accepting_ok|].
  apply (requested_reachable VerificationOutcome_Valid).
Defined.

Lemma reachable_capital_witness :
  balance_on_hold HoldReason_MinerBond miner_account (currency_state chain_ready)
    = QubitumMinMinerBond
  /\ capital_inv chain_ready.
Proof.
  split; [vm_compute; reflexivity|].
  apply reachable_capital; [apply demo_collision_free|apply config_accepting_ok|].
  apply (ready_reachable VerificationOutcome_Valid).
Defined.

Lemma cancel_inference_refunds_witness : exists r o,
  InferenceRequests chain_later !! 0 = Some r /\ record_of 0 o r
  /\ (ensure_payload_signer (Origin_Shielded user) = Ok (op_user o)
      /\ 0 = op_miner o /\ 0 = op_validator o /\ [12] = op_assignment_blinding o
      /\ timing = op_timing o /\ terms_of = op_terms o
      /\ created_at timing + RequestCancelDelayBlocks <= current_block chain_later ->
      is_ok (cancel_inference (Origin_Shielded user) 0 0 0 [12] timing terms_of chain_later)
      = true).
Proof.
  destruct later_pending as (r & Hr & Hp).
  destruct (cancel_inference_refunds demo_collision_free config_accepting_ok chain_later 0 r
    (later_reachable VerificationOutcome_Valid) Hr Hp) as (o & Ho & Hiff).
  exists r, o. split; [exact Hr|]. split; [exact Ho|]. intros H.
  apply Hiff in H as (s' & Hrun & _). by rewrite Hrun.
Defined.

Lemma expire_inference_refunds_witness : exists r o,
  InferenceRequests chain_later !! 0 = Some r /\ record_of 0 o r
  /\ (user = op_user o /\ 0 = op_miner o /\ 0 = op_validator o
      /\ [12] = op_assignment_blinding o /\ timing = op_timing o /\ terms_of = op_terms o
      /\ created_at timing + RequestCancelDelayBlocks <= current_block chain_later ->
      is_ok (expire_inference (Origin_Shielded owner) 0 user 0 0 [12] timing terms_of
               chain_later) = true).
Proof.
  destruct later_pending as (r & Hr & Hp).
  destruct (expire_inference_refunds demo_collision_free config_accepting_ok chain_later 0 r
    (later_reachable VerificationOutcome_Valid) Hr Hp) as (o & Ho & Hiff).
  exists r, o. split; [exact Hr|]. split; [exact Ho|]. intros H.
  apply (Hiff (Origin_Shielded owner) owner) in H as (s' & Hrun & _); [|reflexivity].
  by rewrite Hrun.
Defined.

Lemma payment_split_cases_witness :
  match payment_split 1_000_000 1_000 500 with
  | Ok (mp, vf, tf) => vf = 100_000 /\ tf = 50_000 /\ mp = 1_000_000 - vf - tf
  | Err _ => False
  end.
Proof.
  pose proof (payment_split_cases 1_000_000 1_000 500) as H.
  destruct (payment_split 1_000_000 1_000 500) as [[[mp vf] tf]|e] eqn:E;
    [|vm_compute in E; discriminate].
  destruct H as (_ & Hv & Ht & Hm & _); [vm_compute; discriminate|solve_range..|].
  repeat split; [exact Hv|exact Ht|exact Hm].
Defined.

Lemma submit_proof_settles_witness : exists s' o mp vf tf,
  submit_proof (Origin_Shielded validator_account) submission user miner_account [12] terms_of
    chain_requested = Ok (tt, s')
  /\ settled_request chain_requested s' submission o miner_account validator_account mp vf tf.
Proof.
  destruct (validate_submission chain_requested submission validator_account miner_account [12])
    as [policy|] eqn:Hpolicy; [|vm_compute in Hpolicy; discriminate].
  destruct (submit_proof (Origin_Shielded validator_account) submission user miner_account [12]
    terms_of chain_requested) as [[[] s']|] eqn:Hrun; [|vm_compute in Hrun; discriminate].
  destruct (submit_proof_settles demo_collision_free config_accepting_ok chain_requested s'
    (Origin_Shielded validator_account) validator_account submission user miner_account [12]
    terms_of policy (requested_reachable VerificationOutcome_Valid) eq_refl Hpolicy eq_refl Hrun)
    as (o & mp & vf & tf & _ & _ & H & _).
  exists s', o, mp, vf, tf. split; [reflexivity|exact H].
Defined.

Lemma withdraw_miner_bond_releases_witness : exists b s',
  withdraw_miner_bond (Origin_Shielded miner_account) 0 chain_left = Ok (tt, s')
  /\ balance_after miner_account b (currency_state chain_left) (currency_state s').
Proof.
  destruct (Miners chain_left !! 0) as [m|] eqn:Hm; [|vm_compute in Hm; discriminate].
  assert (option_map (fun m => (cm_operator_commitment m, cm_status m)) (Miners chain_left !! 0)
    = Some (operator_commitment miner_account, RegistryStatus_Exiting 50_400)) as Hf
    by (vm_compute; reflexivity).
  rewrite Hm in Hf. injection Hf as Ho Hst.
  destruct (proj2 (withdraw_miner_bond_releases demo_collision_free config_accepting_ok chain_left
    0 m miner_account 50_400 (Origin_Shielded miner_account) chain_left_reachable Hm Ho Hst))
    as (b & s' & _ & Hrun & Hb & _).
  - split; [reflexivity|vm_compute; discriminate].
  - exists b, s'. split; [exact Hrun|exact Hb].
Defined.

Lemma withdraw_validator_stake_releases_witness : exists b s',
  withdraw_validator_stake (Origin_Shielded validator_account) 0 chain_left = Ok (tt, s')
  /\ balance_after validator_account b (currency_state chain_left) (currency_state s').
Proof.
  destruct (Validators chain_left !! 0) as [v|] eqn:Hv; [|vm_compute in Hv; discriminate].
  assert (option_map (fun v => (cv_operator_commitment v, cv_status v))
      (Validators chain_left !! 0)
    = Some (operator_commitment validator_account, RegistryStatus_Exiting 50_400)) as Hf
    by (vm_compute; reflexivity).
  rewrite Hv in Hf. injection Hf as Ho Hst.
  destruct (proj2 (withdraw_validator_stake_releases demo_collision_free config_accepting_ok
    chain_left 0 v validator_account 50_400 (Origin_Shielded validator_account)
    chain_left_reachable Hv Ho Hst)) as (b & s' & _ & Hrun & Hb & _).
  - split; [reflexivity|vm_compute; discriminate].
  - exists b, s'. split; [exact Hrun|exact Hb].
Defined.

Lemma slash_validator_stake_overflow_witness : exists x s',
  slash_validator_stake 0 validator_account 1_000 chain_ready = Ok (x, s')
  /\ x = QubitumMinValidatorStake / 10.
Proof.
  destruct (Validators chain_ready !! 0) as [v|] eqn:Hv; [|vm_compute in Hv; discriminate].
  assert (option_map cv_operator_commitment (Validators chain_ready !! 0)
    = Some (operator_commitment validator_account)) as Hf by (vm_compute; reflexivity).
  rewrite Hv in Hf. injection Hf as Ho.
  assert (ValidatorLockedStake chain_ready !! 0 = Some QubitumMinValidatorStake) as Hb
    by (vm_compute; reflexivity).
  pose proof (slash_validator_stake_overflow demo_collision_free config_accepting_ok chain_ready
    0 v validator_account 1_000 _ (ready_reachable VerificationOutcome_Valid) Hv Ho Hb eq_refl) as H.
  destruct (slash_validator_stake 0 validator_account 1_000 chain_ready) as [[x s']|e].
  - exists x, s'. split; [reflexivity|]. destruct H as (_ & -> & _). reflexivity.
  - destruct H as [_ H]. exfalso. apply H. reflexivity.
Defined.

Lemma public_calls_refused_witness :
  dispatch (Origin_Signed owner)
    (Call_create_subnet SubnetDomain_General ProofSystem_RiscZeroStark) chain_ready
  = (chain_ready, Err (DispatchError_Module Error_PublicCallPayloadDisallowed))
  /\ dispatch Origin_Root (Call_slash_miner 0 miner_account 1_000) chain_ready
  = (chain_ready, Err (DispatchError_Module Error_PublicCallPayloadDisallowed)).
Proof.
  split; apply public_calls_refused; [reflexivity|left; reflexivity|reflexivity|].
  right. reflexivity.
Defined.

Lemma dispatch_events_private_witness :
  events chain_settled = events chain_requested ++ [Event_PrivateActivity].
Proof.
  pose proof (dispatch_events_private eq_refl (Origin_Shielded validator_account)
    (Call_submit_proof submission user miner_account [12] terms_of) chain_requested) as H.
  assert (is_ok (snd (dispatch (Origin_Shielded validator_account)
    (Call_submit_proof submission user miner_account [12] terms_of) chain_requested)) = true)
    as Hok by (vm_compute; reflexivity).
  rewrite Hok in H. exact H.
Defined.

End Accepting.

(** ** With a verifier that rejects, at ten percent *)

Module Rejecting.

Definition rejecting_outcome : VerificationOutcome := VerificationOutcome_Invalid 1_000.
Definition rejecting_config : Config := demo_config rejecting_outcome.
#[local] Existing Instance rejecting_config.

Definition chain_disputed : Store ledger := requested rejecting_outcome.

Lemma submit_proof_rejects_witness : exists s' o xm xs,
  submit_proof (Origin_Shielded validator_account) submission user miner_account [12] terms_of
    chain_disputed = Ok (tt, s')
  /\ rejected_request chain_disputed s' submission o miner_account validator_account xm xs.
Proof.
  destruct (validate_submission chain_disputed submission validator_account miner_account [12])
    as [policy|] eqn:Hpolicy; [|vm_compute in Hpolicy; discriminate].
  destruct (submit_proof (Origin_Shielded validator_account) submission user miner_account [12]
    terms_of chain_disputed) as [[[] s']|] eqn:Hrun; [|vm_compute in Hrun; discriminate].
  destruct (submit_proof_rejects demo_collision_free (runtime_config_with_ok _ _ _ _)
    chain_disputed s' (Origin_Shielded validator_account) validator_account submission user
    miner_account [12] terms_of policy 1_000 (requested_reachable rejecting_outcome) eq_refl
    Hpolicy eq_refl Hrun) as (o & xm & xs & _ & _ & H & _).
  exists s', o, xm, xs. split; [reflexivity|exact H].
Defined.

Lemma challenge_proof_rejects_witness : exists s' o xm,
  challenge_proof (Origin_Shielded owner) submission user miner_account [12] terms_of
    chain_disputed = Ok (tt, s')
  /\ rejected_request chain_disputed s' submission o miner_account miner_account xm 0.
Proof.
  destruct (validate_challenge_submission chain_disputed submission miner_account [12])
    as [policy|] eqn:Hpolicy; [|vm_compute in Hpolicy; discriminate].
  destruct (challenge_proof (Origin_Shielded owner) submission user miner_account [12]
    terms_of chain_disputed) as [[[] s']|] eqn:Hrun; [|vm_compute in Hrun; discriminate].
  destruct (challenge_proof_rejects demo_collision_free (runtime_config_with_ok _ _ _ _)
    chain_disputed s' (Origin_Shielded owner) owner submission user miner_account [12] terms_of
    policy 1_000 (requested_reachable rejecting_outcome) eq_refl Hpolicy eq_refl Hrun)
    as (o & xm & _ & _ & H & _).
  exists s', o, xm. split; [reflexivity|exact H].
Defined.

End Rejecting.

(** ** The production configuration *)

Module Production.

Definition production_config : Config := runtime_config false false treasury.
#[local] Existing Instance production_config.

Definition chain_one_subnet : Store ledger :=
  fst (dispatch (Origin_Shielded owner)
    (Call_create_subnet SubnetDomain_General ProofSystem_RiscZeroStark) (genesis_store funds)).

Lemma chain_one_subnet_reachable : reachable chain_one_subnet.
Proof.
  exists funds. split; [reflexivity|]. exact (rtc_once _ _ (step_call _ _ _)).
Qed.

Lemma production_runtime_dormant_witness :
  is_Some (Subnets chain_one_subnet !! 0) /\ dormant chain_one_subnet.
Proof.
  split; [vm_compute; eauto|].
  apply (production_runtime_dormant false treasury chain_one_subnet chain_one_subnet_reachable).
Defined.

End Production.
