(* ===== verification/Shield.v ===== *)
(** * The shield pallet

    [pallets/shield/src/lib.rs] and [extension.rs]: encryption keys that rotate with the
    block authors, encrypted submissions, and the queue of encrypted calls which is
    processed at the start of every block.

    Cryptography, the decryption of queued calls, their weights and their dispatch are code
    of other crates and enter as the classes [ShieldCrypto] and [ShieldRuntime].  The state
    of all other pallets is [world]. *)

From S2P Require Import Prelude Protocol PostQuantum Pallet.
From stdpp Require Import base tactics list gmap strings list_numbers relations.
From Stdlib Require Import ZArith Lia.
Open Scope Z_scope.

(** ** Ciphertexts *)

Definition Bytes : Type := list Z.

(** The parts of a submitted ciphertext. *)
Record ShieldedTransaction : Type := {
  key_hash : Bytes;
  kem_ct : Bytes;
  nonce : Bytes;
  aead_ct : Bytes;
}.

Class ShieldCrypto := {
  ShieldedTransaction_parse : Bytes -> option ShieldedTransaction;
  kem_ciphertext_ok : Bytes -> bool;
  twox_128 : Bytes -> Bytes;
  MLKEM768_ENC_KEY_LEN : Z;
}.

Definition MIN_AEAD_CIPHERTEXT_LEN : Z := 16.

Definition parse_valid_submit_encrypted_ciphertext `{ShieldCrypto} (ciphertext : Bytes) :
    option ShieldedTransaction :=
  shielded_tx ← ShieldedTransaction_parse ciphertext;
  if kem_ciphertext_ok (kem_ct shielded_tx)
     && (MIN_AEAD_CIPHERTEXT_LEN <=? Z.of_nat (length (aead_ct shielded_tx)))
  then Some shielded_tx else None.

(** [common/src/transaction_error.rs] *)
Inductive CustomTransactionError : Type :=
| CustomTransactionError_ColdkeyInSwapSchedule
| CustomTransactionError_StakeAmountTooLow
| CustomTransactionError_BalanceTooLow
| CustomTransactionError_SubnetNotExists
| CustomTransactionError_HotkeyAccountDoesntExist
| CustomTransactionError_NotEnoughStakeToWithdraw
| CustomTransactionError_RateLimitExceeded
| CustomTransactionError_InsufficientLiquidity
| CustomTransactionError_SlippageTooHigh
| CustomTransactionError_TransferDisallowed
| CustomTransactionError_HotKeyNotRegisteredInNetwork
| CustomTransactionError_InvalidIpAddress
| CustomTransactionError_ServingRateLimitExceeded
| CustomTransactionError_InvalidPort
| CustomTransactionError_BadRequest
| CustomTransactionError_ZeroMaxAmount
| CustomTransactionError_InvalidRevealRound
| CustomTransactionError_CommitNotFound
| CustomTransactionError_CommitBlockNotInRevealRange
| CustomTransactionError_InputLengthsUnequal
| CustomTransactionError_UidNotFound
| CustomTransactionError_EvmKeyAssociateRateLimitExceeded
| CustomTransactionError_ColdkeySwapDisputed
| CustomTransactionError_InvalidRealAccount
| CustomTransactionError_FailedShieldedTxParsing
| CustomTransactionError_InvalidShieldedTxPubKeyHash
| CustomTransactionError_QubitumCallMustBeShielded
| CustomTransactionError_ShieldStoreEncryptedDisabled.

(** ** Weights *)

Record Weight : Type := { ref_time : Z; proof_size : Z }.

Definition from_parts (r p : Z) : Weight := {| ref_time := r; proof_size := p |}.

Definition weight_saturating_add (a b : Weight) : Weight := {|
  ref_time := saturating_add 64 (ref_time a) (ref_time b);
  proof_size := saturating_add 64 (proof_size a) (proof_size b);
|}.

Definition any_gt (a b : Weight) : bool :=
  (ref_time b <? ref_time a) || (proof_size b <? proof_size a).

(** ** State *)

Record PendingExtrinsic : Type := {
  pe_who : AccountId;
  encrypted_call : Bytes;
  pe_submitted_at : Z;
}.

Inductive ShieldError : Type :=
| ShieldError_BadEncKeyLen
| ShieldError_BadCiphertext
| ShieldError_InvalidShieldedTxPubKeyHash
| ShieldError_Unreachable
| ShieldError_TooManyPendingExtrinsics
| ShieldError_WeightExceedsAbsoluteMax
| ShieldError_RecursiveShieldCall.

Inductive ShieldDispatchError : Type :=
| ShieldDispatchError_Module (e : ShieldError)
| ShieldDispatchError_BadOrigin.

(** [DE] is the type of the errors of dispatched calls. *)
Inductive ShieldEvent (DE : Type) : Type :=
| ShieldEvent_EncryptedSubmitted
| ShieldEvent_ExtrinsicStored (index : Z)
| ShieldEvent_ExtrinsicDecodeFailed (index : Z)
| ShieldEvent_ExtrinsicDispatchFailed (index : Z) (error : DE)
| ShieldEvent_ExtrinsicDispatched (index : Z)
| ShieldEvent_ExtrinsicExpired (index : Z)
| ShieldEvent_ExtrinsicPostponed (index : Z)
| ShieldEvent_MaxPendingExtrinsicsNumberSet (value : Z)
| ShieldEvent_OnInitializeWeightSet (value : Z)
| ShieldEvent_ExtrinsicLifetimeSet (value : Z)
| ShieldEvent_MaxExtrinsicWeightSet (value : Z)
| ShieldEvent_ExtrinsicWeightExceeded (index : Z).
Arguments ShieldEvent_EncryptedSubmitted {DE}.
Arguments ShieldEvent_ExtrinsicStored {DE} index.
Arguments ShieldEvent_ExtrinsicDecodeFailed {DE} index.
Arguments ShieldEvent_ExtrinsicDispatchFailed {DE} index error.
Arguments ShieldEvent_ExtrinsicDispatched {DE} index.
Arguments ShieldEvent_ExtrinsicExpired {DE} index.
Arguments ShieldEvent_ExtrinsicPostponed {DE} index.
Arguments ShieldEvent_MaxPendingExtrinsicsNumberSet {DE} value.
Arguments ShieldEvent_OnInitializeWeightSet {DE} value.
Arguments ShieldEvent_ExtrinsicLifetimeSet {DE} value.
Arguments ShieldEvent_MaxExtrinsicWeightSet {DE} value.
Arguments ShieldEvent_ExtrinsicWeightExceeded {DE} index.

(** The counter of the [CountedStorageMap] is the size of the map. *)
Record ShieldStore (W DE : Type) : Type := mk_ShieldStore {
  CurrentKey : option Bytes;
  PendingKey : option Bytes;
  NextKey : option Bytes;
  AuthorKeys : gmap Z Bytes;
  PendingKeyExpiresAt : option Z;
  NextKeyExpiresAt : option Z;
  MaxPendingExtrinsicsLimit : Z;
  ExtrinsicLifetime : Z;
  OnInitializeWeight : Z;
  MaxExtrinsicWeight : Z;
  PendingExtrinsics : gmap Z PendingExtrinsic;
  NextPendingExtrinsicIndex : Z;
  shield_block : Z;
  shield_events : list (ShieldEvent DE);
  world : W;
}.
Arguments mk_ShieldStore {W DE}.
Arguments CurrentKey {W DE} _.
Arguments PendingKey {W DE} _.
Arguments NextKey {W DE} _.
Arguments AuthorKeys {W DE} _.
Arguments PendingKeyExpiresAt {W DE} _.
Arguments NextKeyExpiresAt {W DE} _.
Arguments MaxPendingExtrinsicsLimit {W DE} _.
Arguments ExtrinsicLifetime {W DE} _.
Arguments OnInitializeWeight {W DE} _.
Arguments MaxExtrinsicWeight {W DE} _.
Arguments PendingExtrinsics {W DE} _.
Arguments NextPendingExtrinsicIndex {W DE} _.
Arguments shield_block {W DE} _.
Arguments shield_events {W DE} _.
Arguments world {W DE} _.
#[export] Instance eta_ShieldStore W DE : Eta (ShieldStore W DE) := fun r => mk_ShieldStore
  (CurrentKey r) (PendingKey r) (NextKey r) (AuthorKeys r) (PendingKeyExpiresAt r)
  (NextKeyExpiresAt r) (MaxPendingExtrinsicsLimit r) (ExtrinsicLifetime r)
  (OnInitializeWeight r) (MaxExtrinsicWeight r) (PendingExtrinsics r)
  (NextPendingExtrinsicIndex r) (shield_block r) (shield_events r) (world r).

Inductive ShieldCall : Type :=
| ShieldCall_announce_next_key (enc_key : option Bytes)
| ShieldCall_submit_encrypted (ciphertext : Bytes)
| ShieldCall_store_encrypted (call : Bytes)
| ShieldCall_set_max_pending_extrinsics_number (value : Z)
| ShieldCall_set_on_initialize_weight (value : Z)
| ShieldCall_set_stored_extrinsic_lifetime (value : Z)
| ShieldCall_set_max_extrinsic_weight (value : Z).

(** The code the pallet calls: [T::ExtrinsicDecryptor] (whose error is dropped),
    [T::QueueCallFilter] and [T::QueueOrigin] (which may read the state), the sub-type test of the call, its weight, its
    dispatch, the conversion of the pallet's errors, [T::DbWeight], and
    [T::FindAuthors], which reads the state of the consensus pallet. *)
Class ShieldRuntime (RC W DE : Type) := {
  decrypt : Bytes -> option RC;
  QueueCallFilter : ShieldStore W DE -> RC -> bool;
  origin_for : ShieldStore W DE -> AccountId -> RC -> RuntimeOrigin;
  is_sub_type : RC -> option ShieldCall;
  call_weight : RC -> Weight;
  dispatch_call : RC -> RuntimeOrigin -> ShieldStore W DE ->
                  ShieldStore W DE * result DE (option Weight);
  module_error : ShieldError -> DE;
  db_read : Z;
  db_write : Z;
  find_current_author : ShieldStore W DE -> option Z;
  find_next_next_author : ShieldStore W DE -> option Z;
}.

Definition DEFAULT_MAX_PENDING_EXTRINSICS : Z := 100.
Definition DEFAULT_EXTRINSIC_LIFETIME : Z := 10.
Definition DEFAULT_ON_INITIALIZE_WEIGHT : Z := 500_000_000_000.
Definition MAX_ON_INITIALIZE_WEIGHT : Z := 2_000_000_000_000.
Definition DEFAULT_MAX_EXTRINSIC_WEIGHT : Z := 50_000_000_000.

Abbreviation sact W DE := (act (ShieldStore W DE) ShieldDispatchError).
Abbreviation ensureS c e := (ensure c (ShieldDispatchError_Module e)).

Section Operations.
Context {RC W DE : Type} `{SC : !ShieldCrypto} `{SR : !ShieldRuntime RC W DE}.
Implicit Types s : ShieldStore W DE.

Definition shield_genesis (w : W) : ShieldStore W DE :=
  mk_ShieldStore None None None ∅ None None DEFAULT_MAX_PENDING_EXTRINSICS
    DEFAULT_EXTRINSIC_LIFETIME DEFAULT_ON_INITIALIZE_WEIGHT DEFAULT_MAX_EXTRINSIC_WEIGHT
    ∅ 0 0 [] w.

(** ** Dispatchables *)

Definition shield_event (e : ShieldEvent DE) s : ShieldStore W DE :=
  s <| shield_events ::= fun l => l ++ [e] |>.

Definition ensure_none_origin (origin : RuntimeOrigin) : result ShieldDispatchError unit :=
  match origin with Origin_None => Ok tt | _ => Err ShieldDispatchError_BadOrigin end.

Definition ensure_signed_origin (origin : RuntimeOrigin) :
    result ShieldDispatchError AccountId :=
  match origin with Origin_Signed who => Ok who | _ => Err ShieldDispatchError_BadOrigin end.

Definition ensure_root_origin (origin : RuntimeOrigin) : result ShieldDispatchError unit :=
  match origin with Origin_Root => Ok tt | _ => Err ShieldDispatchError_BadOrigin end.

Definition announce_next_key (origin : RuntimeOrigin) (enc_key : option Bytes) :
    sact W DE unit :=
  do! check (fun _ => ensure_none_origin origin);
  author <-! check (fun s => ok_or (find_current_author s)
                               (ShieldDispatchError_Module ShieldError_Unreachable));
  now <-! asks shield_block;
  do! modify (fun s => s <| CurrentKey := PendingKey s |> <| PendingKey := None |>);
  do! modify (fun s => s <| PendingKey := NextKey s |> <| NextKey := None |>);
  do! modify (fun s => s <| NextKey :=
                              next_next_author ← find_next_next_author s;
                              AuthorKeys s !! next_next_author |>);
  do! (match enc_key with
       | Some enc_key =>
           do! check (fun _ => ensureS (Z.of_nat (length enc_key) =? MLKEM768_ENC_KEY_LEN)
                                 ShieldError_BadEncKeyLen);
           modify (fun s => s <| AuthorKeys ::= <[author := enc_key]> |>)
       | None => modify (fun s => s <| AuthorKeys ::= delete author |>)
       end);
  do! modify (fun s => s <| PendingKeyExpiresAt :=
                              if decide (is_Some (PendingKey s)) then Some (now + 2) else None |>);
  modify (fun s => s <| NextKeyExpiresAt :=
                          if decide (is_Some (NextKey s)) then Some (now + 3) else None |>).

Definition is_shielded_using_current_key s (key_hash : Bytes) : bool :=
  let pending := PendingKey s in
  let pending_hash := twox_128 <$> pending in
  bool_decide (pending_hash = Some key_hash).

Definition submit_encrypted (origin : RuntimeOrigin) (ciphertext : Bytes) : sact W DE unit :=
  do! check (fun _ => ensure_signed_origin origin);
  shielded_tx <-! check (fun _ =>
    ok_or (parse_valid_submit_encrypted_ciphertext ciphertext)
      (ShieldDispatchError_Module ShieldError_BadCiphertext));
  do! check (fun s => ensureS (is_shielded_using_current_key s (key_hash shielded_tx))
                        ShieldError_InvalidShieldedTxPubKeyHash);
  modify (shield_event ShieldEvent_EncryptedSubmitted).

Definition pending_count s : Z := Z.of_nat (size (PendingExtrinsics s)).

Definition store_encrypted (origin : RuntimeOrigin) (call : Bytes) : sact W DE unit :=
  who <-! check (fun _ => ensure_signed_origin origin);
  do! check (fun s => ensureS (pending_count s <? MaxPendingExtrinsicsLimit s)
                        ShieldError_TooManyPendingExtrinsics);
  index <-! asks NextPendingExtrinsicIndex;
  do! modify (fun s => s <| PendingExtrinsics ::= <[index := {|
        pe_who := who; encrypted_call := call; pe_submitted_at := shield_block s |}]> |>);
  do! modify (fun s => s <| NextPendingExtrinsicIndex := saturating_add 32 index 1 |>);
  modify (shield_event (ShieldEvent_ExtrinsicStored index)).

Definition set_max_pending_extrinsics_number (origin : RuntimeOrigin) (value : Z) :
    sact W DE unit :=
  do! check (fun _ => ensure_root_origin origin);
  do! modify (fun s => s <| MaxPendingExtrinsicsLimit := value |>);
  modify (shield_event (ShieldEvent_MaxPendingExtrinsicsNumberSet value)).

Definition set_on_initialize_weight (origin : RuntimeOrigin) (value : Z) : sact W DE unit :=
  do! check (fun _ => ensure_root_origin origin);
  do! check (fun _ => ensureS (value <=? MAX_ON_INITIALIZE_WEIGHT)
                        ShieldError_WeightExceedsAbsoluteMax);
  do! modify (fun s => s <| OnInitializeWeight := value |>);
  modify (shield_event (ShieldEvent_OnInitializeWeightSet value)).

Definition set_stored_extrinsic_lifetime (origin : RuntimeOrigin) (value : Z) :
    sact W DE unit :=
  do! check (fun _ => ensure_root_origin origin);
  do! modify (fun s => s <| ExtrinsicLifetime := value |>);
  modify (shield_event (ShieldEvent_ExtrinsicLifetimeSet value)).

Definition set_max_extrinsic_weight (origin : RuntimeOrigin) (value : Z) : sact W DE unit :=
  do! check (fun _ => ensure_root_origin origin);
  do! check (fun _ => ensureS (value <=? MAX_ON_INITIALIZE_WEIGHT)
                        ShieldError_WeightExceedsAbsoluteMax);
  do! modify (fun s => s <| MaxExtrinsicWeight := value |>);
  modify (shield_event (ShieldEvent_MaxExtrinsicWeightSet value)).

Definition run_shield_call (origin : RuntimeOrigin) (c : ShieldCall) : sact W DE unit :=
  match c with
  | ShieldCall_announce_next_key k => announce_next_key origin k
  | ShieldCall_submit_encrypted ct => submit_encrypted origin ct
  | ShieldCall_store_encrypted call => store_encrypted origin call
  | ShieldCall_set_max_pending_extrinsics_number v => set_max_pending_extrinsics_number origin v
  | ShieldCall_set_on_initialize_weight v => set_on_initialize_weight origin v
  | ShieldCall_set_stored_extrinsic_lifetime v => set_stored_extrinsic_lifetime origin v
  | ShieldCall_set_max_extrinsic_weight v => set_max_extrinsic_weight origin v
  end.

(** ** The queue *)

Definition is_recursive_shield_call (call : RC) : bool :=
  match is_sub_type call with
  | Some (ShieldCall_submit_encrypted _ | ShieldCall_store_encrypted _) => true
  | _ => false
  end.

Definition reads (n : Z) : Weight := from_parts (Z.min (db_read * n) (uint_max 64)) 0.
Definition writes (n : Z) : Weight := from_parts (Z.min (db_write * n) (uint_max 64)) 0.
Definition reads_writes (r w : Z) : Weight := weight_saturating_add (reads r) (writes w).

(** Whether the loop over the queue goes on, the weight so far, and the state. *)
Inductive QueueFlow : Type :=
| Next_index (weight : Weight) (s : ShieldStore W DE)
| Stop_queue (weight : Weight) (s : ShieldStore W DE).

Definition drop_pending (index : Z) (e : ShieldEvent DE) s : ShieldStore W DE :=
  shield_event e (s <| PendingExtrinsics ::= delete index |>).

(** The body of the loop in [process_pending_extrinsics]. *)
Definition process_index (current_block index : Z) (weight : Weight) s : QueueFlow :=
  match PendingExtrinsics s !! index with
  | None => Next_index (weight_saturating_add weight (reads 1)) s
  | Some pending =>
    let remove_weight := reads_writes 1 2 in
    let age := saturating_sub current_block (pe_submitted_at pending) in
    if ExtrinsicLifetime s <? age then
      Next_index (weight_saturating_add weight remove_weight)
        (drop_pending index (ShieldEvent_ExtrinsicExpired index) s)
    else
    match decrypt (encrypted_call pending) with
    | None =>
        Next_index (weight_saturating_add weight remove_weight)
          (drop_pending index (ShieldEvent_ExtrinsicDecodeFailed index) s)
    | Some call =>
      if is_recursive_shield_call call || negb (QueueCallFilter s call) then
        Next_index (weight_saturating_add weight remove_weight)
          (drop_pending index (ShieldEvent_ExtrinsicDispatchFailed index
             (module_error ShieldError_RecursiveShieldCall)) s)
      else
      let dispatch_weight := weight_saturating_add (writes 2) (call_weight call) in
      if any_gt (call_weight call) (from_parts (MaxExtrinsicWeight s) 0) then
        Next_index (weight_saturating_add weight remove_weight)
          (drop_pending index (ShieldEvent_ExtrinsicWeightExceeded index) s)
      else if any_gt (weight_saturating_add weight dispatch_weight)
                (from_parts (OnInitializeWeight s) 0) then
        Stop_queue weight (shield_event (ShieldEvent_ExtrinsicPostponed index) s)
      else
      let s := s <| PendingExtrinsics ::= delete index |> in
      let weight := weight_saturating_add weight remove_weight in
      match dispatch_call call (origin_for s (pe_who pending) call) s with
      | (s, Ok actual_weight) =>
          Next_index (weight_saturating_add weight (default (call_weight call) actual_weight))
            (shield_event (ShieldEvent_ExtrinsicDispatched index) s)
      | (s, Err e) =>
          Next_index (weight_saturating_add weight (call_weight call))
            (shield_event (ShieldEvent_ExtrinsicDispatchFailed index e) s)
      end
    end
  end.

Fixpoint process_range (current_block : Z) (indexes : list Z) (weight : Weight) s :
    Weight * ShieldStore W DE :=
  match indexes with
  | [] => (weight, s)
  | index :: rest =>
      match process_index current_block index weight s with
      | Next_index weight s => process_range current_block rest weight s
      | Stop_queue weight s => (weight, s)
      end
  end.

Definition process_pending_extrinsics s : Weight * ShieldStore W DE :=
  let next_index := NextPendingExtrinsicIndex s in
  let count := pending_count s in
  let weight := reads 2 in
  if count =? 0 then (weight, s) else
  let start_index := saturating_sub next_index count in
  process_range (shield_block s) (seqZ start_index (next_index - start_index)) weight s.

(** A new block: the number is set, then [on_initialize] runs. *)
Definition on_initialize (block : Z) s : ShieldStore W DE :=
  snd (process_pending_extrinsics (s <| shield_block := block |>)).

(** ** The transaction extension

    [CheckShieldedTxValidity]: [validate] and [prepare] make the same checks. *)
Definition CheckShieldedTxValidity_validate s (call : RC) : result CustomTransactionError unit :=
  match is_sub_type call with
  | Some (ShieldCall_submit_encrypted ciphertext) =>
      shielded_tx <-? ok_or (parse_valid_submit_encrypted_ciphertext ciphertext)
                        CustomTransactionError_FailedShieldedTxParsing;
      if negb (is_shielded_using_current_key s (key_hash shielded_tx))
      then Err CustomTransactionError_InvalidShieldedTxPubKeyHash else Ok tt
  | _ => Ok tt
  end.

End Operations.
