(* ===== verification/ShieldQueue.v ===== *)
(** * The shield pallet: the queue of encrypted calls

    The queue is an interval of indexes in the order of submission; the loop at the start
    of a block works it off from the front, and leaves nothing behind that is older than
    the lifetime of an entry. *)

From S2P Require Import Prelude Protocol PostQuantum Pallet Shield.
From stdpp Require Import base tactics list gmap strings list_numbers relations.
From Stdlib Require Import ZArith Lia.
Open Scope Z_scope.

Section Queue.
Context {RC W DE : Type} `{SC : !ShieldCrypto} `{SR : !ShieldRuntime RC W DE}.
Implicit Types s : ShieldStore W DE.

(** ** Steps of the chain *)

(** What a dispatched call can do to the state: calls of this pallet, and changes to the
    state of the others. *)
Inductive shield_step : ShieldStore W DE -> ShieldStore W DE -> Prop :=
| shield_step_call s origin c s' :
    run_shield_call origin c s = Ok (tt, s') -> shield_step s s'
| shield_step_world s w : shield_step s (s <| world := w |>).

Inductive shield_chain_step : ShieldStore W DE -> ShieldStore W DE -> Prop :=
| shield_chain_call s s' : shield_step s s' -> shield_chain_step s s'
| shield_chain_block s n : shield_block s <= n -> shield_chain_step s (on_initialize n s).

Definition shield_reachable s : Prop :=
  exists w, rtc shield_chain_step (shield_genesis w) s.

(** ** The queue as an interval *)

(** The last index; [NextPendingExtrinsicIndex] saturates there. *)
Definition last_index : Z := uint_max 32.

Record interval (lo : Z) s : Prop := {
  iv_bounds : 0 <= lo <= NextPendingExtrinsicIndex s;
  iv_domain i : is_Some (PendingExtrinsics s !! i) <-> lo <= i < NextPendingExtrinsicIndex s;
  iv_sorted i j p q : PendingExtrinsics s !! i = Some p -> PendingExtrinsics s !! j = Some q ->
    i <= j -> pe_submitted_at p <= pe_submitted_at q;
  iv_past i p : PendingExtrinsics s !! i = Some p -> pe_submitted_at p <= shield_block s;
}.

(** The queue starts at [lo], unless the index has saturated. *)
Definition queue_from (lo : Z) s : Prop :=
  0 <= NextPendingExtrinsicIndex s <= last_index
  /\ (NextPendingExtrinsicIndex s < last_index -> interval lo s).

(** Entries at and after [n] were submitted in this block. *)
Definition fresh_from (n : Z) s : Prop := forall i p,
  PendingExtrinsics s !! i = Some p -> n <= i -> pe_submitted_at p = shield_block s.

Lemma interval_ext lo s s' :
  PendingExtrinsics s' = PendingExtrinsics s ->
  NextPendingExtrinsicIndex s' = NextPendingExtrinsicIndex s ->
  shield_block s <= shield_block s' -> interval lo s -> interval lo s'.
Proof.
  intros H1 H2 H3 [Hb Hd Hs Hp]. split; rewrite ?H1, ?H2; try done.
  intros i p Hi. specialize (Hp i p Hi). lia.
Qed.

Lemma queue_from_ext lo s s' :
  PendingExtrinsics s' = PendingExtrinsics s ->
  NextPendingExtrinsicIndex s' = NextPendingExtrinsicIndex s ->
  shield_block s <= shield_block s' -> queue_from lo s -> queue_from lo s'.
Proof.
  intros H1 H2 H3 [Hr Hi]. split; rewrite H2; [done|]. intros Hlt.
  apply (interval_ext _ s); auto.
Qed.

(** The entry a stored call makes. *)
Definition appended s s' (p : PendingExtrinsic) : Prop :=
  PendingExtrinsics s' = <[NextPendingExtrinsicIndex s := p]> (PendingExtrinsics s)
  /\ NextPendingExtrinsicIndex s' = saturating_add 32 (NextPendingExtrinsicIndex s) 1
  /\ shield_block s' = shield_block s /\ pe_submitted_at p = shield_block s.

Definition same_queue s s' : Prop :=
  PendingExtrinsics s' = PendingExtrinsics s
  /\ NextPendingExtrinsicIndex s' = NextPendingExtrinsicIndex s
  /\ shield_block s' = shield_block s.

Lemma run_shield_call_queue origin c s u s' :
  run_shield_call origin c s = Ok (u, s') -> same_queue s s' \/ exists p, appended s s' p.
Proof.
  destruct c as [[k|]| | | | | |]; simpl; intros H;
    unfold announce_next_key, submit_encrypted, store_encrypted,
      set_max_pending_extrinsics_number, set_on_initialize_weight,
      set_stored_extrinsic_lifetime, set_max_extrinsic_weight in H; inv_run;
    try (left; by repeat split).
  right. eexists. by repeat split.
Qed.

Lemma shield_step_queue s s' : shield_step s s' -> same_queue s s' \/ exists p, appended s s' p.
Proof.
  intros [? origin c ? H|]; [by eapply run_shield_call_queue|]. left. by repeat split.
Qed.

Lemma append_interval lo s s' p :
  NextPendingExtrinsicIndex s < last_index -> appended s s' p ->
  interval lo s -> interval lo s'.
Proof.
  intros Hlt (HP & HN & HB & Hp) [Hb Hd Hs Hpast].
  assert (HN' : NextPendingExtrinsicIndex s' = NextPendingExtrinsicIndex s + 1)
    by (rewrite HN; unfold saturating_add, last_index in *; lia).
  split; rewrite ?HP, ?HN', ?HB.
  - lia.
  - intros i. rewrite lookup_insert_is_Some', Hd. lia.
  - intros i j q1 q2 [[<- <-]|[? H1]]%lookup_insert_Some [[<- <-]|[? H2]]%lookup_insert_Some Hij;
      [done| | |by eapply Hs].
    + assert (is_Some (PendingExtrinsics s !! j)) as Hj by eauto. apply Hd in Hj. lia.
    + rewrite Hp. by eapply Hpast.
  - intros i q [[_ <-]|[_ H1]]%lookup_insert_Some; [lia|by eapply Hpast].
Qed.

Lemma append_queue lo s s' p : appended s s' p -> queue_from lo s -> queue_from lo s'.
Proof.
  intros Ha [Hr Hi]. pose proof Ha as (_ & HN & _). split.
  - rewrite HN. unfold saturating_add, last_index, uint_max in *. lia.
  - intros Hlt. assert (NextPendingExtrinsicIndex s < last_index).
    { rewrite HN in Hlt. unfold saturating_add, last_index in *. lia. }
    eapply append_interval; eauto.
Qed.

Lemma step_queue lo n s s' :
  shield_step s s' -> queue_from lo s -> fresh_from n s ->
  queue_from lo s' /\ fresh_from n s' /\ shield_block s' = shield_block s
  /\ NextPendingExtrinsicIndex s <= NextPendingExtrinsicIndex s'.
Proof.
  intros [(H1 & H2 & H3)|(p & Ha)]%shield_step_queue Hq Hf.
  - split; [eapply (queue_from_ext _ s); try done; lia|].
    split; [|lia]. unfold fresh_from. by rewrite H1, H3.
  - split; [by eapply append_queue|]. pose proof Ha as (HP & HN & HB & Hp).
    pose proof Hq as [Hr _]. split; [|split; [done|]].
    + intros i q. rewrite HP, HB.
      intros [[_ <-]|[_ Hi]]%lookup_insert_Some Hn; [done|by eapply Hf].
    + rewrite HN. unfold saturating_add, last_index in *. lia.
Qed.

Lemma steps_queue lo n s s' :
  rtc shield_step s s' -> queue_from lo s -> fresh_from n s ->
  queue_from lo s' /\ fresh_from n s' /\ shield_block s' = shield_block s
  /\ NextPendingExtrinsicIndex s <= NextPendingExtrinsicIndex s'.
Proof.
  induction 1 as [s|s1 s2 s3 Hs _ IH]; intros Hq Hf; [done|].
  destruct (step_queue _ _ _ _ Hs Hq Hf) as (Hq2 & Hf2 & Hb2 & Hn2).
  destruct (IH Hq2 Hf2) as (Hq3 & Hf3 & Hb3 & Hn3). split; [done|]. split; [done|]. lia.
Qed.

(** ** The loop *)

(** The runtime dispatches calls as steps of the chain. *)
Hypothesis Hdispatch : forall call origin s s' r,
  dispatch_call call origin s = (s', r) -> rtc shield_step s s'.

Lemma delete_front lo s s' :
  PendingExtrinsics s' = delete lo (PendingExtrinsics s) ->
  NextPendingExtrinsicIndex s' = NextPendingExtrinsicIndex s ->
  shield_block s' = shield_block s ->
  lo < NextPendingExtrinsicIndex s -> queue_from lo s -> queue_from (lo + 1) s'.
Proof.
  intros HP HN HB Hlo [Hr Hi]. split; rewrite HN; [done|]. intros Hlt.
  destruct (Hi Hlt) as [Hb Hd Hs Hp]. split; rewrite ?HP, ?HN, ?HB.
  - lia.
  - intros i. rewrite lookup_delete_is_Some, Hd. lia.
  - intros i j p q [_ H1]%lookup_delete_Some [_ H2]%lookup_delete_Some. by apply Hs.
  - intros i p [_ H1]%lookup_delete_Some. by eapply Hp.
Qed.

Lemma delete_fresh n lo s s' :
  PendingExtrinsics s' = delete lo (PendingExtrinsics s) -> shield_block s' = shield_block s ->
  fresh_from n s -> fresh_from n s'.
Proof.
  intros HP HB Hf i p. rewrite HP, HB. intros [_ Hi]%lookup_delete_Some. by apply Hf.
Qed.

(** The index only grows. *)
Definition index_grows s s' : Prop :=
  0 <= NextPendingExtrinsicIndex s <= last_index ->
  NextPendingExtrinsicIndex s <= NextPendingExtrinsicIndex s' <= last_index.

Lemma steps_index s s' : rtc shield_step s s' -> index_grows s s'.
Proof.
  unfold index_grows. induction 1 as [s|s1 s2 s3 Hs _ IH]; intros Hr; [lia|].
  apply shield_step_queue in Hs as [(_ & HN & _)|(p & _ & HN & _)].
  - rewrite HN in IH. auto.
  - unfold saturating_add, last_index in *. lia.
Qed.

Lemma index_grows_eq s s1 s' :
  NextPendingExtrinsicIndex s1 = NextPendingExtrinsicIndex s -> index_grows s1 s' ->
  index_grows s s'.
Proof. unfold index_grows. by intros ->. Qed.

Lemma index_grows_trans s s1 s' : index_grows s s1 -> index_grows s1 s' -> index_grows s s'.
Proof. unfold index_grows. lia. Qed.

Lemma process_range_index b l w s : index_grows s (snd (process_range b l w s)).
Proof.
  revert w s. induction l as [|i l IH]; intros w s; simpl; [unfold index_grows; lia|].
  unfold process_index. destruct (PendingExtrinsics s !! i) as [pe|]; [|apply IH].
  destruct (_ <? _); [by eapply index_grows_eq, IH|].
  destruct (decrypt (encrypted_call pe)) as [call|]; [|by eapply index_grows_eq, IH].
  destruct (_ || _); [by eapply index_grows_eq, IH|].
  destruct (any_gt (call_weight call) _); [by eapply index_grows_eq, IH|].
  destruct (any_gt _ _); [unfold index_grows; simpl; lia|].
  destruct (dispatch_call call _ _) as [s' [x|x]] eqn:Hd; apply Hdispatch, steps_index in Hd;
    apply (index_grows_eq _ (s <| PendingExtrinsics ::= delete i |>)); try done;
    (eapply index_grows_trans; [exact Hd|]); by eapply index_grows_eq, IH.
Qed.

(** What the body of the loop does at the front of the queue. *)
Definition index_spec (n lo : Z) s (r : QueueFlow) : Prop :=
  match r with
  | Next_index _ s' => queue_from (lo + 1) s' /\ fresh_from n s'
      /\ shield_block s' = shield_block s
      /\ NextPendingExtrinsicIndex s <= NextPendingExtrinsicIndex s'
  | Stop_queue _ s' => same_queue s s' /\ exists p, PendingExtrinsics s' !! lo = Some p
      /\ saturating_sub (shield_block s) (pe_submitted_at p) <= ExtrinsicLifetime s'
  end.

Lemma drop_spec n lo s w e :
  lo < NextPendingExtrinsicIndex s -> queue_from lo s -> fresh_from n s ->
  index_spec n lo s (Next_index w (drop_pending lo e s)).
Proof.
  intros Hlo Hq Hf. simpl. split; [by apply (delete_front _ s)|].
  split; [by apply (delete_fresh _ lo s)|]. done.
Qed.

Lemma dispatched_spec n lo s call origin s' r e w :
  lo < NextPendingExtrinsicIndex s -> queue_from lo s -> fresh_from n s ->
  dispatch_call call origin (s <| PendingExtrinsics ::= delete lo |>) = (s', r) ->
  index_spec n lo s (Next_index w (shield_event e s')).
Proof.
  intros Hlo Hq Hf Hd. apply Hdispatch in Hd.
  destruct (steps_queue (lo + 1) n _ _ Hd) as (Hq' & Hf' & Hb' & Hn').
  - by apply (delete_front _ s).
  - by apply (delete_fresh _ lo s).
  - simpl. split; [by apply (queue_from_ext _ s')|]. done.
Qed.

Lemma process_index_spec n lo w s :
  lo < NextPendingExtrinsicIndex s < last_index -> queue_from lo s -> fresh_from n s ->
  index_spec n lo s (process_index (shield_block s) lo w s).
Proof.
  intros [Hlo Hlt] Hq Hf. unfold process_index.
  destruct (PendingExtrinsics s !! lo) as [pe|] eqn:Hpe.
  2: { destruct Hq as [_ Hi]. destruct (Hi Hlt) as [Hb Hd _ _].
       assert (is_Some (PendingExtrinsics s !! lo)) as [? ?] by (apply Hd; lia). congruence. }
  destruct (ExtrinsicLifetime s <? _) eqn:Hage; [by apply drop_spec|].
  destruct (decrypt (encrypted_call pe)) as [call|]; [|by apply drop_spec].
  destruct (_ || _); [by apply drop_spec|].
  destruct (any_gt (call_weight call) _); [by apply drop_spec|].
  destruct (any_gt _ _).
  - split; [by repeat split|]. exists pe. split; [done|]. simpl. by apply Z.ltb_ge.
  - destruct (dispatch_call call _ _) as [s' [x|x]] eqn:Hd; by eapply dispatched_spec.
Qed.

(** The loop from the front [lo] of the queue to [n]. *)
Definition range_spec (n : Z) s s' : Prop := exists lo,
  queue_from lo s' /\ fresh_from n s' /\ shield_block s' = shield_block s
  /\ NextPendingExtrinsicIndex s <= NextPendingExtrinsicIndex s'
  /\ (lo = n \/ exists p, PendingExtrinsics s' !! lo = Some p
       /\ saturating_sub (shield_block s') (pe_submitted_at p) <= ExtrinsicLifetime s').

Lemma process_range_spec (k : nat) lo n w s :
  n = lo + Z.of_nat k -> n <= NextPendingExtrinsicIndex s ->
  NextPendingExtrinsicIndex (snd (process_range (shield_block s) (seqZ lo (Z.of_nat k)) w s))
    < last_index ->
  queue_from lo s -> fresh_from n s ->
  range_spec n s (snd (process_range (shield_block s) (seqZ lo (Z.of_nat k)) w s)).
Proof.
  revert lo w s. induction k as [|k IH]; intros lo w s Hn Hle Hlt Hq Hf.
  { exists lo. simpl in *. split; [done|]. split; [done|]. split; [done|]. split; [lia|].
    left. lia. }
  rewrite seqZ_cons in * by lia. replace (Z.pred (Z.of_nat (S k))) with (Z.of_nat k) in * by lia.
  simpl in *.
  assert (Hsat : NextPendingExtrinsicIndex s < last_index).
  { pose proof (process_range_index (shield_block s) (lo :: seqZ (Z.succ lo) (Z.of_nat k)) w s)
      as Hg. destruct Hq as [Hr _]. specialize (Hg Hr). simpl in Hg. lia. }
  assert (Hspec : index_spec n lo s (process_index (shield_block s) lo w s))
    by (apply process_index_spec; [lia|done..]).
  destruct (process_index (shield_block s) lo w s) as [w' s'|w' s'] eqn:Hpi; simpl in *.
  - destruct Hspec as (Hq' & Hf' & Hb' & Hn'). rewrite <- Hb' in Hlt |- *.
    destruct (IH (Z.succ lo) w' s') as (lo' & H1 & H2 & H3 & H4 & H5); try done; [lia|lia|].
    exists lo'. split; [done|]. split; [done|]. split; [lia|]. split; [lia|done].
  - destruct Hspec as ((H1 & H2 & H3) & p & Hp & Hage). exists lo.
    split; [apply (queue_from_ext _ s); [done..|lia|done]|].
    split; [unfold fresh_from; by rewrite H1, H3|]. split; [done|]. split; [lia|].
    right. exists p. by rewrite H3.
Qed.

(** The size of the queue is the length of the interval. *)
Lemma interval_count lo s :
  interval lo s -> pending_count s = NextPendingExtrinsicIndex s - lo.
Proof.
  intros [Hb Hd _ _]. unfold pending_count. rewrite <- size_dom.
  assert (dom (PendingExtrinsics s)
          = list_to_set (C := gset Z) (seqZ lo (NextPendingExtrinsicIndex s - lo))) as ->.
  { apply set_eq. intros i. rewrite elem_of_dom, Hd, elem_of_list_to_set, elem_of_seqZ. lia. }
  rewrite size_list_to_set by apply NoDup_seqZ. rewrite length_seqZ. lia.
Qed.

Lemma on_initialize_spec lo n s :
  shield_block s <= n -> NextPendingExtrinsicIndex (on_initialize n s) < last_index ->
  queue_from lo s -> range_spec (NextPendingExtrinsicIndex s) (s <| shield_block := n |>)
                       (on_initialize n s).
Proof.
  intros Hn Hlt Hq. unfold on_initialize, process_pending_extrinsics in *.
  set (s0 := s <| shield_block := n |>) in *.
  assert (Hq0 : queue_from lo s0) by (by apply (queue_from_ext _ s)).
  assert (Hsat : NextPendingExtrinsicIndex s0 < last_index).
  { destruct (pending_count s0 =? 0); [done|].
    match type of Hlt with context [process_range ?b ?l ?w _] =>
      pose proof (process_range_index b l w s0) as Hg end.
    destruct Hq0 as [Hr _]. specialize (Hg Hr). lia. }
  assert (Hi : interval lo s0) by (by apply Hq0).
  pose proof (interval_count lo s0 Hi) as Hc. pose proof (iv_bounds lo s0 Hi) as Hb.
  destruct (Z.eqb_spec (pending_count s0) 0) as [Hz|Hnz].
  - exists lo. split; [done|]. split; [|split; [done|split; [simpl; lia|left]]].
    + intros i p Hp Hle. assert (is_Some (PendingExtrinsics s0 !! i)) as Hs by eauto.
      apply (iv_domain lo s0 Hi) in Hs. simpl in *. lia.
    + simpl in *. lia.
  - unfold saturating_sub in *.
    replace (Z.max (NextPendingExtrinsicIndex s0 - pending_count s0) 0) with lo in * by lia.
    replace (NextPendingExtrinsicIndex s0 - lo)
      with (Z.of_nat (Z.to_nat (NextPendingExtrinsicIndex s0 - lo))) in * by lia.
    apply (process_range_spec _ lo); try done; [simpl in *; lia|].
    intros i p Hp Hle. assert (is_Some (PendingExtrinsics s0 !! i)) as Hs by eauto.
    apply (iv_domain lo s0 Hi) in Hs. simpl in *. lia.
Qed.

Lemma chain_step_queue lo s s' :
  shield_chain_step s s' -> queue_from lo s -> exists lo', queue_from lo' s'.
Proof.
  intros [s1 s2 Hs|s1 n Hn] Hq.
  - apply shield_step_queue in Hs as [(H1 & H2 & H3)|(p & Ha)]; exists lo;
      [apply (queue_from_ext _ s1); [done..|lia|done]|by eapply append_queue].
  - destruct (decide (NextPendingExtrinsicIndex (on_initialize n s1) < last_index)) as [Hlt|Hge].
    + destruct (on_initialize_spec lo n s1 Hn Hlt Hq) as (lo' & ? & _). eauto.
    + exists 0. split; [|lia].
      unfold on_initialize, process_pending_extrinsics in *.
      destruct (_ =? 0); [apply Hq|]. simpl in *.
      match goal with |- context [process_range ?b ?l ?w ?x] =>
        pose proof (process_range_index b l w x) as Hg end.
      destruct Hq as [Hr _]. specialize (Hg Hr). simpl in *. lia.
Qed.

Lemma reachable_queue s : shield_reachable s -> exists lo, queue_from lo s.
Proof.
  intros (w & Hr). assert (Hg : queue_from 0 (shield_genesis (DE := DE) w)).
  { split; [done|]. intros _. split; simpl.
    - lia.
    - intros i. rewrite lookup_empty. split; [by intros []|lia].
    - intros i j p q. by rewrite lookup_empty.
    - intros i p. by rewrite lookup_empty. }
  remember (shield_genesis w) as s0 eqn:E. clear E. revert Hg. generalize 0.
  induction Hr as [s|s1 s2 s3 Hs _ IH]; intros lo Hg; [by exists lo|].
  destruct (chain_step_queue _ _ _ Hs Hg) as (lo' & Hlo'). by eapply IH.
Qed.

(** C18 The queue of the shield pallet is first in, first out and has no gaps: as long as the
    index has not saturated, the stored entries of a reachable state are exactly those
    with the last [count] indexes, in the order of their submission, so the loop at the
    start of a block meets every entry. *)
Theorem queue_is_interval s (Hs : shield_reachable s)
    (Hsat : NextPendingExtrinsicIndex s < last_index) :
  interval (NextPendingExtrinsicIndex s - pending_count s) s.
Proof.
  apply reachable_queue in Hs as (lo & _ & Hi). specialize (Hi Hsat).
  rewrite (interval_count lo s Hi). by replace (_ - _) with lo by lia.
Qed.

(** C19 No entry outlives its lifetime, as long as the submission index has not saturated:
    after the start of a block whose number is at least that of the last one, no pending entry
    is older than [ExtrinsicLifetime] (a non-negative number), so each is executed or dropped
    at the latest in the first block in which it is too old, however heavy the entries before
    it are. *)
Theorem on_initialize_drops_stale s n i p (Hs : shield_reachable s)
    (Hn : shield_block s <= n) (Hlife : 0 <= ExtrinsicLifetime (on_initialize n s))
    (Hsat : NextPendingExtrinsicIndex (on_initialize n s) < last_index)
    (Hp : PendingExtrinsics (on_initialize n s) !! i = Some p) :
  n - pe_submitted_at p <= ExtrinsicLifetime (on_initialize n s).
Proof.
  apply reachable_queue in Hs as (lo & Hq).
  destruct (on_initialize_spec lo n s Hn Hsat Hq) as (lo' & Hq' & Hf & Hb & Hle & Hend).
  destruct Hq' as [_ Hi]. specialize (Hi Hsat). simpl in Hb.
  assert (is_Some (PendingExtrinsics (on_initialize n s) !! i)) as Hs' by eauto.
  apply (iv_domain _ _ Hi) in Hs'. destruct Hend as [->|(q & Hq0 & Hage)].
  - specialize (Hf i p Hp ltac:(lia)). lia.
  - pose proof (iv_sorted _ _ Hi _ _ _ _ Hq0 Hp ltac:(lia)).
    rewrite Hb in Hage. unfold saturating_sub in Hage. lia.
Qed.

End Queue.

(** ** Without a decryptor *)

Section NoDecryptor.
Context {RC W DE : Type} `{SC : !ShieldCrypto} `{SR : !ShieldRuntime RC W DE}.
Implicit Types s : ShieldStore W DE.

(** The implementation [()] of [ExtrinsicDecryptor], which the runtime configures. *)
Definition no_decryptor (data : Bytes) : option RC := None.

Hypothesis Hdispatch : forall call origin s s' r,
  dispatch_call call origin s = (s', r) -> rtc shield_step s s'.
Hypothesis Hnone : forall data, decrypt data = no_decryptor data.

Lemma process_range_no_decryptor b l w s :
  let s' := snd (process_range b l w s) in
  world s' = world s /\ NextPendingExtrinsicIndex s' = NextPendingExtrinsicIndex s
  /\ forall i, PendingExtrinsics s' !! i
               = if decide (i ∈ l) then None else PendingExtrinsics s !! i.
Proof.
  revert w s. induction l as [|j l IH]; intros w s; simpl.
  { by repeat split. }
  assert (Hpi : exists w' s1, process_index b j w s = Next_index w' s1
    /\ world s1 = world s /\ NextPendingExtrinsicIndex s1 = NextPendingExtrinsicIndex s
    /\ PendingExtrinsics s1 = delete j (PendingExtrinsics s)).
  { unfold process_index. destruct (PendingExtrinsics s !! j) as [pe|] eqn:Hj.
    - rewrite Hnone. destruct (_ <? _); eexists _, _; by repeat split.
    - eexists _, _. split; [done|]. repeat split. by rewrite delete_id. }
  destruct Hpi as (w' & s1 & -> & Hw & Hn & Hp). destruct (IH w' s1) as (Hw' & Hn' & Hp').
  split; [congruence|]. split; [congruence|]. intros i. rewrite Hp', Hp.
  destruct (decide (i = j)) as [->|Hne].
  - rewrite lookup_delete_eq. repeat case_decide; rewrite ?elem_of_cons in *; naive_solver.
  - rewrite lookup_delete_ne by done.
    assert (Hin : i ∈ j :: l <-> i ∈ l) by (rewrite elem_of_cons; tauto).
    repeat case_decide; tauto.
Qed.

(** The runtime has no decryptor for queued calls, and then the queue dispatches
    nothing: at the start of each block every entry is dropped and no other pallet's state
    changes, so no call ever gets the shielded origin. *)
Theorem queue_without_decryptor_inert s n (Hs : shield_reachable s)
    (Hn : shield_block s <= n) (Hsat : NextPendingExtrinsicIndex s < last_index) :
  PendingExtrinsics (on_initialize n s) = ∅ /\ world (on_initialize n s) = world s.
Proof.
  apply (reachable_queue Hdispatch) in Hs as (lo & _ & Hi). specialize (Hi Hsat).
  apply (interval_ext _ _ (s <| shield_block := n |>)) in Hi; [|done..].
  pose proof (interval_count _ _ Hi) as Hc. pose proof (iv_bounds _ _ Hi) as Hb.
  unfold on_initialize, process_pending_extrinsics.
  destruct (Z.eqb_spec (pending_count (s <| shield_block := n |>)) 0) as [Hz|Hnz].
  - split; [|done]. apply map_size_empty_inv. unfold pending_count in Hz. simpl in *. lia.
  - match goal with |- context [process_range ?b ?l ?w ?x] =>
      destruct (process_range_no_decryptor b l w x) as (Hw & _ & Hp) end.
    split; [|exact Hw]. apply map_eq. intros i. rewrite Hp, lookup_empty.
    case_decide as Hin; [done|]. apply eq_None_not_Some. intros Hsome.
    apply (iv_domain _ _ Hi) in Hsome. apply Hin, elem_of_seqZ.
    unfold saturating_sub. lia.
Qed.

End NoDecryptor.
