(* ===== verification/RuntimeCalls.v ===== *)
(** * The calls of the runtime and their privacy filters

    [runtime/src/qubitum_privacy.rs], [check_mortality.rs] and the filters of
    [runtime/src/lib.rs]: scans of a call and of the calls inside it, which keep calls of the
    Qubitum pallet inside the shield envelope.

    [RuntimeCall] has the constructors the filters tell apart; the remaining calls of a
    pallet, and the remaining pallets, are one constructor each.  Decoding of bytes as a
    call is generated code and enters as the class [RuntimeCodec].  A scan carries
    [remaining], the number of levels left before [MAX_CALL_SCAN_DEPTH]. *)

From S2P Require Import Prelude Protocol PostQuantum Pallet PalletCalls Shield.
From stdpp Require Import base tactics list gmap strings list_numbers relations.
From Stdlib Require Import ZArith Lia.
Open Scope Z_scope.

(** ** Calls *)

(** [common/src/lib.rs] *)
Inductive ProxyType : Type :=
| ProxyType_Any
| ProxyType_Owner
| ProxyType_NonCritical
| ProxyType_NonTransfer
| ProxyType_Senate
| ProxyType_NonFungible
| ProxyType_Triumvirate
| ProxyType_Governance
| ProxyType_Staking
| ProxyType_Registration
| ProxyType_Transfer
| ProxyType_SmallTransfer
| ProxyType_RootWeights
| ProxyType_ChildKeys
| ProxyType_SudoUncheckedSetCode
| ProxyType_SwapHotkey
| ProxyType_SubnetLeaseBeneficiary
| ProxyType_RootClaim.
#[export] Instance ProxyType_eq_dec : EqDecision ProxyType.
Proof. solve_decision. Defined.

Inductive SystemCall : Type :=
| SystemCall_set_code
| SystemCall_other (index : Z).

Inductive BalancesCall : Type :=
| BalancesCall_transfer_allow_death (dest : AccountId) (value : Z)
| BalancesCall_transfer_keep_alive (dest : AccountId) (value : Z)
| BalancesCall_transfer_all (dest : AccountId)
| BalancesCall_other (index : Z).

Inductive SubtensorCall : Type :=
| SubtensorCall_set_weights
| SubtensorCall_serve_axon
| SubtensorCall_add_stake
| SubtensorCall_add_stake_limit
| SubtensorCall_remove_stake
| SubtensorCall_remove_stake_limit
| SubtensorCall_remove_stake_full_limit
| SubtensorCall_unstake_all
| SubtensorCall_unstake_all_alpha
| SubtensorCall_swap_stake
| SubtensorCall_swap_stake_limit
| SubtensorCall_move_stake
| SubtensorCall_transfer_stake (alpha_amount : Z)
| SubtensorCall_burned_register
| SubtensorCall_root_register
| SubtensorCall_register
| SubtensorCall_register_limit
| SubtensorCall_schedule_swap_coldkey
| SubtensorCall_swap_coldkey
| SubtensorCall_swap_hotkey
| SubtensorCall_set_subnet_identity
| SubtensorCall_update_symbol
| SubtensorCall_dissolve_network
| SubtensorCall_set_root_claim_type
| SubtensorCall_set_children
| SubtensorCall_set_childkey_take
| SubtensorCall_start_call
| SubtensorCall_claim_root
| SubtensorCall_other (index : Z).

Inductive AdminUtilsCall : Type :=
| AdminUtilsCall_sudo_set_sn_owner_hotkey
| AdminUtilsCall_sudo_set_serving_rate_limit
| AdminUtilsCall_sudo_set_min_difficulty
| AdminUtilsCall_sudo_set_max_difficulty
| AdminUtilsCall_sudo_set_weights_version_key
| AdminUtilsCall_sudo_set_adjustment_alpha
| AdminUtilsCall_sudo_set_immunity_period
| AdminUtilsCall_sudo_set_min_allowed_weights
| AdminUtilsCall_sudo_set_kappa
| AdminUtilsCall_sudo_set_rho
| AdminUtilsCall_sudo_set_activity_cutoff
| AdminUtilsCall_sudo_set_network_registration_allowed
| AdminUtilsCall_sudo_set_network_pow_registration_allowed
| AdminUtilsCall_sudo_set_max_burn
| AdminUtilsCall_sudo_set_bonds_moving_average
| AdminUtilsCall_sudo_set_bonds_penalty
| AdminUtilsCall_sudo_set_commit_reveal_weights_enabled
| AdminUtilsCall_sudo_set_liquid_alpha_enabled
| AdminUtilsCall_sudo_set_alpha_values
| AdminUtilsCall_sudo_set_commit_reveal_weights_interval
| AdminUtilsCall_sudo_set_toggle_transfer
| AdminUtilsCall_other (index : Z).

Inductive CommitmentsCall : Type :=
| CommitmentsCall_set_commitment
| CommitmentsCall_other (index : Z).

Inductive PreimageCall : Type :=
| PreimageCall_note_preimage (bytes : Bytes)
| PreimageCall_other (index : Z).

Inductive RuntimeCall : Type :=
| RuntimeCall_System (inner : SystemCall)
| RuntimeCall_Timestamp (index : Z)
| RuntimeCall_Balances (inner : BalancesCall)
| RuntimeCall_SubtensorModule (inner : SubtensorCall)
| RuntimeCall_Utility (inner : UtilityCall)
| RuntimeCall_Sudo (inner : SudoCall)
| RuntimeCall_Multisig (inner : MultisigCall)
| RuntimeCall_Preimage (inner : PreimageCall)
| RuntimeCall_Scheduler (inner : SchedulerCall)
| RuntimeCall_Proxy (inner : ProxyCall)
| RuntimeCall_Commitments (inner : CommitmentsCall)
| RuntimeCall_AdminUtils (inner : AdminUtilsCall)
| RuntimeCall_SafeMode (index : Z)
| RuntimeCall_Crowdloan (inner : CrowdloanCall)
| RuntimeCall_MevShield (inner : ShieldCall)
| RuntimeCall_Qubitum (inner : Call)
| RuntimeCall_Other (pallet index : Z)
with UtilityCall : Type :=
| UtilityCall_batch (calls : list RuntimeCall)
| UtilityCall_as_derivative (index : Z) (call : RuntimeCall)
| UtilityCall_batch_all (calls : list RuntimeCall)
| UtilityCall_dispatch_as (as_origin : RuntimeOrigin) (call : RuntimeCall)
| UtilityCall_force_batch (calls : list RuntimeCall)
| UtilityCall_with_weight (call : RuntimeCall) (weight : Weight)
| UtilityCall_if_else (main fallback : RuntimeCall)
| UtilityCall_dispatch_as_fallible (as_origin : RuntimeOrigin) (call : RuntimeCall)
with SudoCall : Type :=
| SudoCall_sudo (call : RuntimeCall)
| SudoCall_sudo_unchecked_weight (call : RuntimeCall) (weight : Weight)
| SudoCall_sudo_as (who : AccountId) (call : RuntimeCall)
| SudoCall_other (index : Z)
with MultisigCall : Type :=
| MultisigCall_as_multi_threshold_1 (call : RuntimeCall)
| MultisigCall_as_multi (call : RuntimeCall)
| MultisigCall_other (index : Z)
with SchedulerCall : Type :=
| SchedulerCall_schedule (when : Z) (call : RuntimeCall)
| SchedulerCall_schedule_named (when : Z) (call : RuntimeCall)
| SchedulerCall_schedule_after (after : Z) (call : RuntimeCall)
| SchedulerCall_schedule_named_after (after : Z) (call : RuntimeCall)
| SchedulerCall_other (index : Z)
with ProxyCall : Type :=
| ProxyCall_proxy (real : AccountId) (force_proxy_type : option ProxyType) (call : RuntimeCall)
| ProxyCall_add_proxy (delegate : AccountId) (proxy_type : ProxyType) (delay : Z)
| ProxyCall_remove_proxy (delegate : AccountId) (proxy_type : ProxyType) (delay : Z)
| ProxyCall_remove_proxies
| ProxyCall_create_pure (proxy_type : ProxyType) (delay index : Z)
| ProxyCall_kill_pure (spawner : AccountId) (proxy_type : ProxyType)
    (index height ext_index : Z)
| ProxyCall_announce (real : AccountId) (call_hash : Bytes)
| ProxyCall_remove_announcement (real : AccountId) (call_hash : Bytes)
| ProxyCall_reject_announcement (delegate : AccountId) (call_hash : Bytes)
| ProxyCall_proxy_announced (delegate real : AccountId)
    (force_proxy_type : option ProxyType) (call : RuntimeCall)
| ProxyCall_poke_deposit
| ProxyCall_set_real_pays_fee (delegate : AccountId) (pays_fee : bool)
with CrowdloanCall : Type :=
| CrowdloanCall_create (deposit min_contribution cap end_block : Z)
    (call : option RuntimeCall) (target_address : option AccountId)
| CrowdloanCall_finalize (crowdloan_id : Z)
| CrowdloanCall_other (index : Z).

(** [RuntimeCall::decode_all_with_depth_limit] and [decode_with_depth_limit]; the errors
    are not looked at. *)
Class RuntimeCodec := {
  decode_all_with_depth_limit : Z -> Bytes -> option RuntimeCall;
  decode_with_depth_limit : Z -> Bytes -> option RuntimeCall;
}.

Definition MAX_CALL_SCAN_DEPTH : nat := 8.
Definition MAX_PREIMAGE_DECODE_PROBE_DEPTH : Z := 32.
Definition MAX_SHIELD_QUEUE_CALL_SCAN_DEPTH : nat := 8.
Definition MAX_SHIELD_QUEUE_PREIMAGE_DECODE_PROBE_DEPTH : Z := 32.
Definition MAX_SHIELD_CALL_SCAN_DEPTH : nat := 8.
Definition MAX_SHIELD_PREIMAGE_DECODE_PROBE_DEPTH : Z := 32.
Definition MAX_SHIELD_ERA_PERIOD : Z := 8.

(** [iter().find_map(f)] *)
Fixpoint find_map {A B} (f : A -> option B) (l : list A) : option B :=
  match l with
  | [] => None
  | x :: rest => match f x with Some y => Some y | None => find_map f rest end
  end.

(** [RuntimeCall::decode_all_with_depth_limit(limit, bytes).is_ok()
    || RuntimeCall::decode_with_depth_limit(limit, bytes).is_ok()] *)
Definition probe `{RuntimeCodec} (limit : Z) (bytes : Bytes) : bool :=
  is_some (decode_all_with_depth_limit limit bytes)
  || is_some (decode_with_depth_limit limit bytes).

Section Filters.
Context {W DE : Type} `{SC : !ShieldCrypto} `{RC : !RuntimeCodec}.
Implicit Types s : ShieldStore W DE.

(** ** The transaction extension [CheckQubitumShielding] *)

(** The scan reads the pending key of the shield pallet. *)
Fixpoint privacy_violation_at_depth s (remaining : nat) (call : RuntimeCall) :
    option CustomTransactionError :=
  match remaining with
  | O => Some CustomTransactionError_QubitumCallMustBeShielded
  | S deeper =>
    let encoded_bytes_privacy_violation bytes :=
      match deeper with
      | O => Some CustomTransactionError_QubitumCallMustBeShielded
      | S _ =>
        let remaining_depth := Z.of_nat deeper in
        match decode_all_with_depth_limit remaining_depth bytes with
        | Some call => privacy_violation_at_depth s deeper call
        | None =>
          match decode_with_depth_limit remaining_depth bytes with
          | Some call => privacy_violation_at_depth s deeper call
          | None =>
              if probe MAX_PREIMAGE_DECODE_PROBE_DEPTH bytes
              then Some CustomTransactionError_QubitumCallMustBeShielded else None
          end
        end
      end in
    match call with
    | RuntimeCall_Qubitum _ => Some CustomTransactionError_QubitumCallMustBeShielded
    | RuntimeCall_Utility inner =>
        match inner with
        | UtilityCall_batch calls | UtilityCall_batch_all calls
        | UtilityCall_force_batch calls =>
            find_map (privacy_violation_at_depth s deeper) calls
        | UtilityCall_as_derivative _ call | UtilityCall_dispatch_as _ call
        | UtilityCall_with_weight call _ | UtilityCall_dispatch_as_fallible _ call =>
            privacy_violation_at_depth s deeper call
        | UtilityCall_if_else main fallback =>
            match privacy_violation_at_depth s deeper main with
            | Some e => Some e
            | None => privacy_violation_at_depth s deeper fallback
            end
        end
    | RuntimeCall_Proxy (ProxyCall_proxy _ _ call | ProxyCall_proxy_announced _ _ _ call) =>
        privacy_violation_at_depth s deeper call
    | RuntimeCall_Proxy _ => None
    | RuntimeCall_Sudo (SudoCall_sudo call | SudoCall_sudo_unchecked_weight call _
                        | SudoCall_sudo_as _ call) =>
        privacy_violation_at_depth s deeper call
    | RuntimeCall_Sudo _ => None
    | RuntimeCall_Multisig (MultisigCall_as_multi_threshold_1 call
                            | MultisigCall_as_multi call) =>
        privacy_violation_at_depth s deeper call
    | RuntimeCall_Multisig _ => None
    | RuntimeCall_Scheduler (SchedulerCall_schedule _ call | SchedulerCall_schedule_named _ call
                             | SchedulerCall_schedule_after _ call
                             | SchedulerCall_schedule_named_after _ call) =>
        privacy_violation_at_depth s deeper call
    | RuntimeCall_Scheduler _ => None
    | RuntimeCall_Preimage (PreimageCall_note_preimage bytes) =>
        encoded_bytes_privacy_violation bytes
    | RuntimeCall_Preimage _ => None
    | RuntimeCall_MevShield (ShieldCall_submit_encrypted ciphertext) =>
        match parse_valid_submit_encrypted_ciphertext ciphertext with
        | None => Some CustomTransactionError_FailedShieldedTxParsing
        | Some shielded_tx =>
            if is_shielded_using_current_key s (key_hash shielded_tx) then None
            else Some CustomTransactionError_InvalidShieldedTxPubKeyHash
        end
    | RuntimeCall_MevShield (ShieldCall_store_encrypted _) =>
        Some CustomTransactionError_ShieldStoreEncryptedDisabled
    | RuntimeCall_MevShield _ => None
    | _ => None
    end
  end.

Definition privacy_violation s (call : RuntimeCall) : option CustomTransactionError :=
  privacy_violation_at_depth s MAX_CALL_SCAN_DEPTH call.

Definition private_runtime_call_violation s (call : RuntimeCall) :
    option CustomTransactionError :=
  privacy_violation s call.

(** [validate] and [prepare] make the same check. *)
Definition CheckQubitumShielding_validate s (call : RuntimeCall) :
    result CustomTransactionError unit :=
  match privacy_violation s call with Some err => Err err | None => Ok tt end.

(** ** The filter of the shield queue *)

Fixpoint contains_recursive_shield_queue_call (remaining : nat) (call : RuntimeCall) : bool :=
  match remaining with
  | O => true
  | S deeper =>
    let encoded_runtime_call_contains_recursive_shield_queue_call bytes :=
      match deeper with
      | O => true
      | S _ =>
        let remaining_depth := Z.of_nat deeper in
        match decode_all_with_depth_limit remaining_depth bytes with
        | Some call => contains_recursive_shield_queue_call deeper call
        | None =>
          match decode_with_depth_limit remaining_depth bytes with
          | Some call => contains_recursive_shield_queue_call deeper call
          | None => probe MAX_SHIELD_QUEUE_PREIMAGE_DECODE_PROBE_DEPTH bytes
          end
        end
      end in
    match call with
    | RuntimeCall_MevShield (ShieldCall_submit_encrypted _ | ShieldCall_store_encrypted _) =>
        true
    | RuntimeCall_Utility inner =>
        match inner with
        | UtilityCall_batch calls | UtilityCall_batch_all calls
        | UtilityCall_force_batch calls =>
            existsb (contains_recursive_shield_queue_call deeper) calls
        | UtilityCall_as_derivative _ call | UtilityCall_dispatch_as _ call
        | UtilityCall_with_weight call _ | UtilityCall_dispatch_as_fallible _ call =>
            contains_recursive_shield_queue_call deeper call
        | UtilityCall_if_else main fallback =>
            contains_recursive_shield_queue_call deeper main
            || contains_recursive_shield_queue_call deeper fallback
        end
    | RuntimeCall_Proxy (ProxyCall_proxy _ _ call | ProxyCall_proxy_announced _ _ _ call) =>
        contains_recursive_shield_queue_call deeper call
    | RuntimeCall_Sudo (SudoCall_sudo call | SudoCall_sudo_unchecked_weight call _
                        | SudoCall_sudo_as _ call) =>
        contains_recursive_shield_queue_call deeper call
    | RuntimeCall_Multisig (MultisigCall_as_multi_threshold_1 call
                            | MultisigCall_as_multi call) =>
        contains_recursive_shield_queue_call deeper call
    | RuntimeCall_Scheduler (SchedulerCall_schedule _ call | SchedulerCall_schedule_named _ call
                             | SchedulerCall_schedule_after _ call
                             | SchedulerCall_schedule_named_after _ call) =>
        contains_recursive_shield_queue_call deeper call
    | RuntimeCall_Preimage (PreimageCall_note_preimage bytes) =>
        encoded_runtime_call_contains_recursive_shield_queue_call bytes
    | _ => false
    end
  end.

(** [remaining] is counted at the depth of the encoded call. *)
Definition encoded_runtime_call_contains_private_queue_call s (remaining : nat)
    (bytes : Bytes) : bool :=
  match remaining with
  | O => true
  | S _ =>
    let remaining_depth := Z.of_nat remaining in
    match decode_all_with_depth_limit remaining_depth bytes with
    | Some call => is_some (private_runtime_call_violation s call)
    | None =>
      match decode_with_depth_limit remaining_depth bytes with
      | Some call => is_some (private_runtime_call_violation s call)
      | None => probe MAX_SHIELD_QUEUE_PREIMAGE_DECODE_PROBE_DEPTH bytes
      end
    end
  end.

Fixpoint contains_persistent_private_queue_call s (remaining : nat) (call : RuntimeCall) :
    bool :=
  match remaining with
  | O => true
  | S deeper =>
    match call with
    | RuntimeCall_Utility inner =>
        match inner with
        | UtilityCall_batch calls | UtilityCall_batch_all calls
        | UtilityCall_force_batch calls =>
            existsb (contains_persistent_private_queue_call s deeper) calls
        | UtilityCall_as_derivative _ call | UtilityCall_dispatch_as _ call
        | UtilityCall_with_weight call _ | UtilityCall_dispatch_as_fallible _ call =>
            contains_persistent_private_queue_call s deeper call
        | UtilityCall_if_else main fallback =>
            contains_persistent_private_queue_call s deeper main
            || contains_persistent_private_queue_call s deeper fallback
        end
    | RuntimeCall_Proxy (ProxyCall_proxy _ _ call | ProxyCall_proxy_announced _ _ _ call) =>
        contains_persistent_private_queue_call s deeper call
    | RuntimeCall_Sudo (SudoCall_sudo call | SudoCall_sudo_unchecked_weight call _
                        | SudoCall_sudo_as _ call) =>
        contains_persistent_private_queue_call s deeper call
    | RuntimeCall_Multisig (MultisigCall_as_multi_threshold_1 call
                            | MultisigCall_as_multi call) =>
        contains_persistent_private_queue_call s deeper call
    | RuntimeCall_Scheduler (SchedulerCall_schedule _ call | SchedulerCall_schedule_named _ call
                             | SchedulerCall_schedule_after _ call
                             | SchedulerCall_schedule_named_after _ call) =>
        is_some (private_runtime_call_violation s call)
    | RuntimeCall_Preimage (PreimageCall_note_preimage bytes) =>
        encoded_runtime_call_contains_private_queue_call s deeper bytes
    | _ => false
    end
  end.

Fixpoint contains_unroutable_private_queue_call s (remaining : nat) (call : RuntimeCall) :
    bool :=
  match remaining with
  | O => true
  | S deeper =>
    match call with
    | RuntimeCall_Qubitum _ => false
    | RuntimeCall_Utility inner =>
        match inner with
        | UtilityCall_batch calls | UtilityCall_batch_all calls
        | UtilityCall_force_batch calls =>
            existsb (contains_unroutable_private_queue_call s deeper) calls
        | UtilityCall_if_else main fallback =>
            contains_unroutable_private_queue_call s deeper main
            || contains_unroutable_private_queue_call s deeper fallback
        | UtilityCall_as_derivative _ call | UtilityCall_dispatch_as _ call
        | UtilityCall_with_weight call _ | UtilityCall_dispatch_as_fallible _ call =>
            is_some (private_runtime_call_violation s call)
        end
    | RuntimeCall_Proxy (ProxyCall_proxy _ _ call | ProxyCall_proxy_announced _ _ _ call)
    | RuntimeCall_Sudo (SudoCall_sudo call | SudoCall_sudo_unchecked_weight call _
                        | SudoCall_sudo_as _ call)
    | RuntimeCall_Multisig (MultisigCall_as_multi_threshold_1 call
                            | MultisigCall_as_multi call) =>
        is_some (private_runtime_call_violation s call)
    | RuntimeCall_Scheduler (SchedulerCall_schedule _ call | SchedulerCall_schedule_named _ call
                             | SchedulerCall_schedule_after _ call
                             | SchedulerCall_schedule_named_after _ call) =>
        is_some (private_runtime_call_violation s call)
    | RuntimeCall_Preimage (PreimageCall_note_preimage bytes) =>
        encoded_runtime_call_contains_private_queue_call s deeper bytes
    | _ => false
    end
  end.

Definition ShieldQueueCallFilter_contains s (call : RuntimeCall) : bool :=
  negb (contains_recursive_shield_queue_call MAX_SHIELD_QUEUE_CALL_SCAN_DEPTH call)
  && negb (contains_persistent_private_queue_call s MAX_SHIELD_QUEUE_CALL_SCAN_DEPTH call)
  && negb (contains_unroutable_private_queue_call s MAX_SHIELD_QUEUE_CALL_SCAN_DEPTH call).

Definition ShieldRuntimeQueueOrigin_origin_for s (who : AccountId) (call : RuntimeCall) :
    RuntimeOrigin :=
  if is_some (private_runtime_call_violation s call)
  then Origin_Shielded who else Origin_Signed who.

(** ** The mortality of encrypted submissions *)

Fixpoint shield_submit_encrypted_at_depth (remaining : nat) (call : RuntimeCall) : bool :=
  match remaining with
  | O => true
  | S deeper =>
    let encoded_runtime_call_contains_shield_submit bytes :=
      match deeper with
      | O => true
      | S _ =>
        let remaining_depth := Z.of_nat deeper in
        match decode_all_with_depth_limit remaining_depth bytes with
        | Some call => shield_submit_encrypted_at_depth deeper call
        | None =>
          match decode_with_depth_limit remaining_depth bytes with
          | Some call => shield_submit_encrypted_at_depth deeper call
          | None => probe MAX_SHIELD_PREIMAGE_DECODE_PROBE_DEPTH bytes
          end
        end
      end in
    match call with
    | RuntimeCall_MevShield (ShieldCall_submit_encrypted _) => true
    | RuntimeCall_Utility inner =>
        match inner with
        | UtilityCall_batch calls | UtilityCall_batch_all calls
        | UtilityCall_force_batch calls =>
            existsb (shield_submit_encrypted_at_depth deeper) calls
        | UtilityCall_as_derivative _ call | UtilityCall_dispatch_as _ call
        | UtilityCall_with_weight call _ | UtilityCall_dispatch_as_fallible _ call =>
            shield_submit_encrypted_at_depth deeper call
        | UtilityCall_if_else main fallback =>
            shield_submit_encrypted_at_depth deeper main
            || shield_submit_encrypted_at_depth deeper fallback
        end
    | RuntimeCall_Proxy (ProxyCall_proxy _ _ call | ProxyCall_proxy_announced _ _ _ call) =>
        shield_submit_encrypted_at_depth deeper call
    | RuntimeCall_Sudo (SudoCall_sudo call | SudoCall_sudo_unchecked_weight call _
                        | SudoCall_sudo_as _ call) =>
        shield_submit_encrypted_at_depth deeper call
    | RuntimeCall_Multisig (MultisigCall_as_multi_threshold_1 call
                            | MultisigCall_as_multi call) =>
        shield_submit_encrypted_at_depth deeper call
    | RuntimeCall_Scheduler (SchedulerCall_schedule _ call | SchedulerCall_schedule_named _ call
                             | SchedulerCall_schedule_after _ call
                             | SchedulerCall_schedule_named_after _ call) =>
        shield_submit_encrypted_at_depth deeper call
    | RuntimeCall_Preimage (PreimageCall_note_preimage bytes) =>
        encoded_runtime_call_contains_shield_submit bytes
    | _ => false
    end
  end.

Definition contains_shield_submit_encrypted (call : RuntimeCall) : bool :=
  shield_submit_encrypted_at_depth MAX_SHIELD_CALL_SCAN_DEPTH call.

(** [sp_runtime::generic::Era]: a period and a phase. *)
Inductive Era : Type :=
| Era_Immortal
| Era_Mortal (period phase : Z).

(** The error is [InvalidTransaction::Stale]. *)
Definition ensure_shield_submit_mortal_era (era : Era) (call : RuntimeCall) :
    result unit unit :=
  if contains_shield_submit_encrypted call then
    let era_too_long :=
      match era with
      | Era_Immortal => true
      | Era_Mortal period _ => MAX_SHIELD_ERA_PERIOD <? period
      end in
    if era_too_long then Err tt else Ok tt
  else Ok tt.

(** ** Other filters of the runtime *)

Definition ContractCallFilter_contains s (call : RuntimeCall) : bool :=
  match call with
  | RuntimeCall_Proxy inner =>
      match inner with ProxyCall_proxy _ _ _ => true | _ => false end
      && negb (is_some (private_runtime_call_violation s call))
      && negb (contains_shield_submit_encrypted call)
  | _ => false
  end.

Definition contains_private_runtime_call s (call : RuntimeCall) : bool :=
  is_some (private_runtime_call_violation s call) || contains_shield_submit_encrypted call.

Definition is_batch (call : RuntimeCall) : bool :=
  match call with
  | RuntimeCall_Utility (UtilityCall_force_batch _ | UtilityCall_batch_all _
                         | UtilityCall_batch _) => true
  | _ => false
  end.

Definition NoNestingCallFilter_contains (call : RuntimeCall) : bool :=
  match call with
  | RuntimeCall_Utility inner =>
      let calls := match inner with
                   | UtilityCall_force_batch calls | UtilityCall_batch calls
                   | UtilityCall_batch_all calls => calls
                   | _ => []
                   end in
      negb (existsb is_batch calls)
  | _ => true
  end.

Definition SafeModeWhitelistedCalls_contains (call : RuntimeCall) : bool :=
  match call with
  | RuntimeCall_Sudo _ | RuntimeCall_Multisig _ | RuntimeCall_System _
  | RuntimeCall_SafeMode _ | RuntimeCall_Timestamp _
  | RuntimeCall_SubtensorModule (SubtensorCall_set_weights | SubtensorCall_serve_axon)
  | RuntimeCall_Commitments CommitmentsCall_set_commitment
  | RuntimeCall_Qubitum (Call_submit_proof _ _ _ _ _ | Call_challenge_proof _ _ _ _ _) => true
  | _ => false
  end.

End Filters.

(** ** The configuration of the shield pallet

    [T::ExtrinsicDecryptor] is [()]; the dispatch and the weights of calls, the errors, the
    database weights and the block authors stay parameters. *)
Definition runtime_shield {W DE} `{ShieldCrypto} `{RuntimeCodec}
    (weight_of : RuntimeCall -> Weight)
    (dispatch : RuntimeCall -> RuntimeOrigin -> ShieldStore W DE ->
                ShieldStore W DE * result DE (option Weight))
    (error : ShieldError -> DE) (read write : Z)
    (current_author next_next_author : ShieldStore W DE -> option Z) :
    ShieldRuntime RuntimeCall W DE := {|
  decrypt _ := None;
  QueueCallFilter := ShieldQueueCallFilter_contains;
  origin_for := ShieldRuntimeQueueOrigin_origin_for;
  is_sub_type call := match call with RuntimeCall_MevShield inner => Some inner | _ => None end;
  call_weight := weight_of;
  dispatch_call := dispatch;
  module_error := error;
  db_read := read;
  db_write := write;
  find_current_author := current_author;
  find_next_next_author := next_next_author;
|}.

(** ** What the scans establish *)

(** The calls inside a wrapper that the scans look into: batches, derivative accounts,
    conditionals, dispatches as another origin, proxies, sudo, multisig and the scheduler. *)
Definition inner_calls (call : RuntimeCall) : list RuntimeCall :=
  match call with
  | RuntimeCall_Utility inner =>
      match inner with
      | UtilityCall_batch calls | UtilityCall_batch_all calls
      | UtilityCall_force_batch calls => calls
      | UtilityCall_as_derivative _ call | UtilityCall_dispatch_as _ call
      | UtilityCall_with_weight call _ | UtilityCall_dispatch_as_fallible _ call => [call]
      | UtilityCall_if_else main fallback => [main; fallback]
      end
  | RuntimeCall_Proxy (ProxyCall_proxy _ _ call | ProxyCall_proxy_announced _ _ _ call)
  | RuntimeCall_Sudo (SudoCall_sudo call | SudoCall_sudo_unchecked_weight call _
                      | SudoCall_sudo_as _ call)
  | RuntimeCall_Multisig (MultisigCall_as_multi_threshold_1 call | MultisigCall_as_multi call)
  | RuntimeCall_Scheduler (SchedulerCall_schedule _ call | SchedulerCall_schedule_named _ call
                           | SchedulerCall_schedule_after _ call
                           | SchedulerCall_schedule_named_after _ call) => [call]
  | _ => []
  end.

(** The call that the creation of a crowdloan stores, to be dispatched when the crowdloan is
    finalized.  No scan looks into it. *)
Definition stored_calls (call : RuntimeCall) : list RuntimeCall :=
  match call with
  | RuntimeCall_Crowdloan (CrowdloanCall_create _ _ _ _ (Some stored) _) => [stored]
  | _ => []
  end.

(** The calls that are dispatched with the origin of the call that carries them. *)
Definition same_origin_calls (call : RuntimeCall) : list RuntimeCall :=
  match call with
  | RuntimeCall_Utility (UtilityCall_batch calls | UtilityCall_batch_all calls
                         | UtilityCall_force_batch calls) => calls
  | RuntimeCall_Utility (UtilityCall_if_else main fallback) => [main; fallback]
  | _ => []
  end.

Lemma find_map_None {A B} (f : A -> option B) l :
  find_map f l = None <-> forall x, x ∈ l -> f x = None.
Proof.
  induction l as [|x l IH]; simpl; [split; [by intros _ x ?%not_elem_of_nil|done]|].
  setoid_rewrite elem_of_cons. destruct (f x) eqn:Hx; [|rewrite IH]; naive_solver.
Qed.

Lemma existsb_false {A} (f : A -> bool) l :
  existsb f l = false <-> forall x, x ∈ l -> f x = false.
Proof.
  induction l as [|x l IH]; simpl; [split; [by intros _ x ?%not_elem_of_nil|done]|].
  setoid_rewrite elem_of_cons. rewrite orb_false_iff, IH. naive_solver.
Qed.

Lemma forall_elem_nil {A} (P : A -> Prop) : (forall x, x ∈ [] -> P x) <-> True.
Proof. split; [done|]. by intros _ x ?%not_elem_of_nil. Qed.

Lemma forall_elem_one {A} (P : A -> Prop) a : (forall x, x ∈ [a] -> P x) <-> P a.
Proof. setoid_rewrite list_elem_of_singleton. naive_solver. Qed.

Lemma forall_elem_two {A} (P : A -> Prop) a b :
  (forall x, x ∈ [a; b] -> P x) <-> P a /\ P b.
Proof. setoid_rewrite elem_of_cons. setoid_rewrite list_elem_of_singleton. naive_solver. Qed.

Section Scans.
Context {W DE : Type} `{SC : !ShieldCrypto} `{RC : !RuntimeCodec}.
Implicit Types s : ShieldStore W DE.

(** The call that a preimage is taken for, with [limit] levels left. *)
Definition decoded (limit : nat) (bytes : Bytes) : option RuntimeCall :=
  match decode_all_with_depth_limit (Z.of_nat limit) bytes with
  | Some call => Some call
  | None => decode_with_depth_limit (Z.of_nat limit) bytes
  end.

(** The calls one level below, with [n] levels left there. *)
Definition calls_below (n : nat) (call : RuntimeCall) : list RuntimeCall :=
  match call, n with
  | RuntimeCall_Preimage (PreimageCall_note_preimage bytes), S _ => option_list (decoded n bytes)
  | _, _ => inner_calls call
  end.

(** [scanned n c m c']: with [n] levels left at [c], the call [c'] is met with [m] left. *)
Inductive scanned : nat -> RuntimeCall -> nat -> RuntimeCall -> Prop :=
| scanned_here n c : scanned n c n c
| scanned_below n c c' m c'' :
    c' ∈ calls_below n c -> scanned n c' m c'' -> scanned (S n) c m c''.

(** A call which, by itself, may be sent in the open; [m] levels are left at it. *)
Definition public_call s (m : nat) (call : RuntimeCall) : Prop :=
  match call with
  | RuntimeCall_Qubitum _ | RuntimeCall_MevShield (ShieldCall_store_encrypted _) => False
  | RuntimeCall_MevShield (ShieldCall_submit_encrypted ciphertext) =>
      exists tx, parse_valid_submit_encrypted_ciphertext ciphertext = Some tx
                 /\ is_shielded_using_current_key s (key_hash tx) = true
  | RuntimeCall_Preimage (PreimageCall_note_preimage bytes) =>
      (2 <= m)%nat /\ (decoded (pred m) bytes = None ->
                       probe MAX_PREIMAGE_DECODE_PROBE_DEPTH bytes = false)
  | _ => True
  end.

Lemma scan_level s n call :
  privacy_violation_at_depth s (S n) call = None
  <-> public_call s (S n) call
      /\ forall c, c ∈ calls_below n call -> privacy_violation_at_depth s n c = None.
Proof.
  destruct call as [| | | |u|w|w|[bytes|]|w|w| | | | |w| |];
    try destruct u; try destruct w; cbn [privacy_violation_at_depth public_call];
    unfold calls_below; simpl inner_calls;
    rewrite ?find_map_None, ?forall_elem_nil, ?forall_elem_one, ?forall_elem_two;
    try tauto.
  - destruct (privacy_violation_at_depth s n main); intuition congruence.
  - destruct n as [|n]; [split; [done|intros [[? _] _]; lia]|]. unfold decoded. simpl pred.
    destruct (decode_all_with_depth_limit _ bytes) as [c|]; simpl option_list;
      [rewrite forall_elem_one; split;
        [intros H; split; [split; [lia|done]|done]|by intros [_ H]]|].
    destruct (decode_with_depth_limit _ bytes) as [c|]; simpl option_list;
      [rewrite forall_elem_one; split;
        [intros H; split; [split; [lia|done]|done]|by intros [_ H]]|].
    rewrite forall_elem_nil. destruct (probe _ bytes); split; try done.
    + intros [[_ H] _]. by specialize (H eq_refl).
    + intros _. split; [split; [lia|done]|done].
  - destruct (parse_valid_submit_encrypted_ciphertext ciphertext) as [tx|];
      [destruct (is_shielded_using_current_key s (key_hash tx)) eqn:Hk|]; split; try done.
    + intros _. split; [by exists tx|done].
    + intros [(tx' & [= <-] & Hk') _]. congruence.
    + by intros [(tx' & ? & _) _].
  - split; [done|]. by intros [[] _].
  - split; [done|]. by intros [[] _].
Qed.

Lemma scan_None_iff s n call :
  privacy_violation_at_depth s n call = None
  <-> forall m c, scanned n call m c -> m <> O /\ public_call s m c.
Proof.
  revert call. induction n as [|n IH]; intros call.
  { split; [done|]. intros H. by destruct (H _ _ (scanned_here 0 call)). }
  rewrite scan_level. setoid_rewrite IH. split.
  - intros [Hp Hb] m c Hs. inversion Hs; subst; eauto.
  - intros H. split; [by apply (H (S n) call), scanned_here|].
    intros c Hc m c' Hs. eapply H, scanned_below; eauto.
Qed.

(** C14 The transaction extension lets a call pass exactly when nothing private is found in it:
    every call met through batches, proxies, sudo, multisig, the scheduler and decodable
    preimages is at most seven levels deep, is no Qubitum call and no stored shield call,
    an encrypted submission is well-formed and uses the current key, and a preimage is not
    a call that is too deep to look into. *)
Theorem CheckQubitumShielding_accepts_iff s call :
  CheckQubitumShielding_validate s call = Ok tt
  <-> forall m c, scanned MAX_CALL_SCAN_DEPTH call m c -> m <> O /\ public_call s m c.
Proof.
  rewrite <- scan_None_iff. unfold CheckQubitumShielding_validate, privacy_violation.
  by destruct (privacy_violation_at_depth s MAX_CALL_SCAN_DEPTH call).
Qed.

(** ** The queue keeps the shielded origin *)

Definition carries (c c' : RuntimeCall) : Prop := c' ∈ inner_calls c.
Definition passes_origin (c c' : RuntimeCall) : Prop := c' ∈ same_origin_calls c.
Definition stores (c c' : RuntimeCall) : Prop := c' ∈ stored_calls c.

(** Through a wrapper or out of a crowdloan: the constructors of [RuntimeCall] that hold a call. *)
Definition holds (c c' : RuntimeCall) : Prop := carries c c' \/ stores c c'.

(** The call [c] is held by [call] behind the creation of a crowdloan, which wrappers carry. *)
Definition behind_crowdloan (call c : RuntimeCall) : Prop :=
  exists loan stored, rtc carries call loan /\ stores loan stored /\ rtc holds stored c.

Lemma holds_cases call c : rtc holds call c -> rtc carries call c \/ behind_crowdloan call c.
Proof.
  induction 1 as [call|call c' c [Hc|Hs] Hr IH]; [left; apply rtc_refl| |].
  - destruct IH as [IH|(loan & stored & H1 & H2 & H3)]; [left; by eapply rtc_l|right].
    exists loan, stored. split; [by eapply rtc_l|done].
  - right. exists call, c'. split; [apply rtc_refl|done].
Qed.

Lemma calls_below_inner n c c' : c' ∈ inner_calls c -> c' ∈ calls_below n c.
Proof. destruct c as [| | | | | | |[]| | | | | | | | |]; destruct n; simpl; auto. set_solver. Qed.

Lemma scan_None_no_qubitum s n call q :
  privacy_violation_at_depth s n call = None -> ~ rtc carries call (RuntimeCall_Qubitum q).
Proof.
  revert call. induction n as [|n IH]; intros call Hn Hr; [done|].
  apply scan_level in Hn as [Hp Hb]. inversion Hr as [|c c' c'' Hc Hr']; subst; [done|].
  eapply IH; [apply Hb, calls_below_inner, Hc|done].
Qed.

Lemma violation_None_no_qubitum s call q :
  private_runtime_call_violation s call = None -> ~ rtc carries call (RuntimeCall_Qubitum q).
Proof.
  unfold private_runtime_call_violation, privacy_violation. generalize MAX_CALL_SCAN_DEPTH.
  intros n. apply scan_None_no_qubitum.
Qed.

Lemma unroutable_level s n call :
  contains_unroutable_private_queue_call s (S n) call = false ->
  (forall c, carries call c ->
     passes_origin call c /\ contains_unroutable_private_queue_call s n c = false
     \/ private_runtime_call_violation s c = None).
Proof.
  unfold carries, passes_origin.
  destruct call as [| | | |u|w|w|[bytes|]|w|w| | | | |w| |];
    try destruct u; try destruct w; cbn [contains_unroutable_private_queue_call];
    simpl inner_calls; simpl same_origin_calls;
    rewrite ?forall_elem_nil, ?forall_elem_one, ?forall_elem_two, ?existsb_false, ?orb_false_iff;
    try tauto; try (intros H c Hc; left; by auto);
    try (intros H; right; destruct (private_runtime_call_violation s _); done).
  intros [H1 H2]. rewrite !elem_of_cons. split; left; auto.
Qed.

Lemma unroutable_path s n call q :
  contains_unroutable_private_queue_call s n call = false ->
  rtc carries call (RuntimeCall_Qubitum q) -> rtc passes_origin call (RuntimeCall_Qubitum q).
Proof.
  revert call. induction n as [|n IH]; intros call Hn Hr; [done|].
  inversion Hr as [|c c' c'' Hc Hr']; subst; [done|].
  destruct (unroutable_level s n call Hn c' Hc) as [[Hp Hn']|Hv].
  - eapply rtc_l; [exact Hp|]. by apply IH.
  - by destruct (violation_None_no_qubitum s c' q Hv).
Qed.

Lemma filter_unroutable s call : ShieldQueueCallFilter_contains s call = true ->
  contains_unroutable_private_queue_call s MAX_SHIELD_QUEUE_CALL_SCAN_DEPTH call = false.
Proof.
  unfold ShieldQueueCallFilter_contains. generalize MAX_SHIELD_QUEUE_CALL_SCAN_DEPTH.
  intros n. by destruct (contains_unroutable_private_queue_call s n call); rewrite ?andb_false_r.
Qed.

Lemma carrier_origin s who call q : rtc carries call (RuntimeCall_Qubitum q) ->
  ShieldRuntimeQueueOrigin_origin_for s who call = Origin_Shielded who.
Proof.
  intros Hc. unfold ShieldRuntimeQueueOrigin_origin_for.
  pose proof (violation_None_no_qubitum s call q) as Hn.
  destruct (private_runtime_call_violation s call); [done|]. by destruct Hn.
Qed.

(** C15 A call from the shield queue takes its Qubitum calls to the pallet with the shielded
    origin of the submitter, unless a crowdloan stores them.  If the queue filter lets a call
    pass and a Qubitum call is inside it, then either the creation of a crowdloan stores the
    Qubitum call or a call it is inside of; or it is carried by wrappers alone, and then the queue
    dispatches the call with the shielded origin and the Qubitum call is reached through batches
    and [if_else] only, which hand their own origin on. *)
Theorem queue_calls_stay_shielded s who call q
    (Hfilter : ShieldQueueCallFilter_contains s call = true) :
  (rtc carries call (RuntimeCall_Qubitum q) ->
   ShieldRuntimeQueueOrigin_origin_for s who call = Origin_Shielded who
   /\ rtc passes_origin call (RuntimeCall_Qubitum q))
  /\ (rtc holds call (RuntimeCall_Qubitum q) ->
      rtc carries call (RuntimeCall_Qubitum q)
      \/ behind_crowdloan call (RuntimeCall_Qubitum q)).
Proof.
  apply filter_unroutable in Hfilter. split; [|apply holds_cases].
  intros Hcarries. split; [by apply carrier_origin with q|].
  exact (unroutable_path s _ call q Hfilter Hcarries).
Qed.

(** A gap in the scans: a Qubitum call carried by a crowdloan, to be dispatched when the
    crowdloan is finalized, is found neither by the transaction extension nor by the queue
    filter, so its parameters can be published in the open. *)
Theorem crowdloan_call_not_scanned s (q : Call) deposit min_contribution cap end_block target :
  let call := RuntimeCall_Crowdloan (CrowdloanCall_create deposit min_contribution cap
                end_block (Some (RuntimeCall_Qubitum q)) target) in
  CheckQubitumShielding_validate s call = Ok tt
  /\ ShieldQueueCallFilter_contains s call = true
  /\ contains_private_runtime_call s call = false.
Proof. done. Qed.

End Scans.
