(* ===== verification/Crowdloan.v ===== *)
(** * The crowdloan pallet

    [pallets/crowdloan/src/lib.rs]: funds are raised up to a cap in an account of the
    crowdloan; when the cap is reached the creator finalizes it, which pays the target and
    dispatches a stored call; until then contributors can withdraw, and the creator can
    refund and dissolve it.

    Balances, reference counters, preimages and the dispatch of the stored call belong to
    other pallets: they are the classes [CrowdloanRuntime] and [CrowdloanLaws] over the
    state [C] of those pallets. *)

From S2P Require Import Prelude Protocol PostQuantum Pallet.
From stdpp Require Import base tactics list gmap strings list_numbers relations.
From Stdlib Require Import ZArith Lia.
Open Scope Z_scope.

(** ** Data *)

(** [B] is the type of bounded calls. *)
Record CrowdloanInfo (B : Type) : Type := mk_CrowdloanInfo {
  creator : AccountId;
  deposit : Z;
  min_contribution : Z;
  end_block : Z;
  cap : Z;
  funds_account : AccountId;
  raised : Z;
  target_address : option AccountId;
  stored_call : option B;
  finalized : bool;
  contributors_count : Z;
}.
Arguments mk_CrowdloanInfo {B}.
Arguments creator {B} _.
Arguments deposit {B} _.
Arguments min_contribution {B} _.
Arguments end_block {B} _.
Arguments cap {B} _.
Arguments funds_account {B} _.
Arguments raised {B} _.
Arguments target_address {B} _.
Arguments stored_call {B} _.
Arguments finalized {B} _.
Arguments contributors_count {B} _.
#[export] Instance eta_CrowdloanInfo B : Eta (CrowdloanInfo B) := fun r => mk_CrowdloanInfo
  (creator r) (deposit r) (min_contribution r) (end_block r) (cap r) (funds_account r)
  (raised r) (target_address r) (stored_call r) (finalized r) (contributors_count r).

Inductive CrowdloanError : Type :=
| CrowdloanError_DepositTooLow
| CrowdloanError_CapTooLow
| CrowdloanError_MinimumContributionTooLow
| CrowdloanError_CannotEndInPast
| CrowdloanError_BlockDurationTooShort
| CrowdloanError_BlockDurationTooLong
| CrowdloanError_InsufficientBalance
| CrowdloanError_Overflow
| CrowdloanError_InvalidCrowdloanId
| CrowdloanError_CapRaised
| CrowdloanError_ContributionPeriodEnded
| CrowdloanError_ContributionTooLow
| CrowdloanError_InvalidOrigin
| CrowdloanError_AlreadyFinalized
| CrowdloanError_ContributionPeriodNotEnded
| CrowdloanError_NoContribution
| CrowdloanError_CapNotRaised
| CrowdloanError_Underflow
| CrowdloanError_CallUnavailable
| CrowdloanError_NotReadyToDissolve
| CrowdloanError_DepositCannotBeWithdrawn
| CrowdloanError_MaxContributorsReached.

(** [code] stands for an error of another pallet. *)
Inductive CrowdloanDispatchError : Type :=
| CrowdloanDispatchError_Module (e : CrowdloanError)
| CrowdloanDispatchError_BadOrigin
| CrowdloanDispatchError_Other (code : Z).

Inductive CrowdloanEvent : Type :=
| CrowdloanEvent_Created (crowdloan_id : Z) (creator : AccountId) (end_block cap : Z)
| CrowdloanEvent_Contributed (crowdloan_id : Z) (contributor : AccountId) (amount : Z)
| CrowdloanEvent_Withdrew (crowdloan_id : Z) (contributor : AccountId) (amount : Z)
| CrowdloanEvent_PartiallyRefunded (crowdloan_id : Z)
| CrowdloanEvent_AllRefunded (crowdloan_id : Z)
| CrowdloanEvent_Finalized (crowdloan_id : Z)
| CrowdloanEvent_Dissolved (crowdloan_id : Z)
| CrowdloanEvent_MinContributionUpdated (crowdloan_id new_min_contribution : Z)
| CrowdloanEvent_EndUpdated (crowdloan_id new_end : Z)
| CrowdloanEvent_CapUpdated (crowdloan_id new_cap : Z).

(** The double map [Contributions] is a map of maps. *)
Record CrowdloanStore (C B : Type) : Type := mk_CrowdloanStore {
  Crowdloans : gmap Z (CrowdloanInfo B);
  NextCrowdloanId : Z;
  Contributions : gmap Z (gmap AccountId Z);
  CurrentCrowdloanId : option Z;
  crowdloan_block : Z;
  crowdloan_events : list CrowdloanEvent;
  others : C;
}.
Arguments mk_CrowdloanStore {C B}.
Arguments Crowdloans {C B} _.
Arguments NextCrowdloanId {C B} _.
Arguments Contributions {C B} _.
Arguments CurrentCrowdloanId {C B} _.
Arguments crowdloan_block {C B} _.
Arguments crowdloan_events {C B} _.
Arguments others {C B} _.
#[export] Instance eta_CrowdloanStore C B : Eta (CrowdloanStore C B) := fun r =>
  mk_CrowdloanStore (Crowdloans r) (NextCrowdloanId r) (Contributions r)
    (CurrentCrowdloanId r) (crowdloan_block r) (crowdloan_events r) (others r).

(** ** Interfaces *)

Class CrowdloanConfig := {
  MinimumDeposit : Z;
  AbsoluteMinimumContribution : Z;
  MinimumBlockDuration : Z;
  MaximumBlockDuration : Z;
  RefundContributorsLimit : Z;
  MaxContributors : Z;
  (** [T::PalletId::get().into_sub_account_truncating(id)] *)
  sub_account : Z -> AccountId;
}.

(** The code of other pallets: balances ([transfer] is called with
    [Preservation::Expendable]), reference counters, preimages, the iteration order of the
    double map, and the dispatch of a call with a signed origin. *)
Class CrowdloanRuntime (C RC B : Type) := {
  free_balance : AccountId -> C -> Z;
  transfer : AccountId -> AccountId -> Z -> C -> result Z C;
  inc_providers : AccountId -> C -> C;
  dec_providers : AccountId -> C -> C;
  bound : RC -> C -> result Z (B * C);
  peek : B -> C -> option RC;
  drop_preimage : B -> C -> C;
  iter_prefix : gmap AccountId Z -> list (AccountId * Z);
  dispatch_signed : RC -> AccountId -> CrowdloanStore C B -> result Z (CrowdloanStore C B);
}.

Abbreviation cact C B := (act (CrowdloanStore C B) CrowdloanDispatchError).
Abbreviation ensureC c e := (ensure c (CrowdloanDispatchError_Module e)).
Abbreviation ok_orC o e := (ok_or o (CrowdloanDispatchError_Module e)).

Section Operations.
Context {C RC B : Type} `{CF : !CrowdloanConfig} `{CR : !CrowdloanRuntime C RC B}.
Implicit Types s : CrowdloanStore C B.

Definition crowdloan_genesis (w : C) : CrowdloanStore C B :=
  mk_CrowdloanStore ∅ 0 ∅ None 0 [] w.

(** ** Helpers *)

Definition ensure_signed_caller (origin : RuntimeOrigin) :
    result CrowdloanDispatchError AccountId :=
  match origin with
  | Origin_Signed who => Ok who
  | _ => Err CrowdloanDispatchError_BadOrigin
  end.

Definition deposit_crowdloan_event (e : CrowdloanEvent) : cact C B unit :=
  modify (fun s => s <| crowdloan_events ::= fun l => l ++ [e] |>).

Definition ensure_crowdloan_exists s (crowdloan_id : Z) :
    result CrowdloanDispatchError (CrowdloanInfo B) :=
  ok_orC (Crowdloans s !! crowdloan_id) CrowdloanError_InvalidCrowdloanId.

Definition ensure_valid_end (now end_ : Z) : result CrowdloanDispatchError unit :=
  try! ensureC (now <? end_) CrowdloanError_CannotEndInPast;
  block_duration <-? ok_orC (checked_sub end_ now) CrowdloanError_Underflow;
  try! ensureC (MinimumBlockDuration <=? block_duration) CrowdloanError_BlockDurationTooShort;
  ensureC (block_duration <=? MaximumBlockDuration) CrowdloanError_BlockDurationTooLong.

(** The entries of the double map under one crowdloan. *)
Definition contributions_of s (crowdloan_id : Z) : gmap AccountId Z :=
  default ∅ (Contributions s !! crowdloan_id).

Definition put_contributions (crowdloan_id : Z) (m : gmap AccountId Z) s :
    CrowdloanStore C B :=
  s <| Contributions ::= <[crowdloan_id := m]> |>.

Definition insert_contribution (crowdloan_id : Z) (who : AccountId) (amount : Z) s :
    CrowdloanStore C B :=
  put_contributions crowdloan_id (<[who := amount]> (contributions_of s crowdloan_id)) s.

Definition remove_contribution (crowdloan_id : Z) (who : AccountId) s : CrowdloanStore C B :=
  put_contributions crowdloan_id (delete who (contributions_of s crowdloan_id)) s.

Definition insert_crowdloan (crowdloan_id : Z) (c : CrowdloanInfo B) s : CrowdloanStore C B :=
  s <| Crowdloans ::= <[crowdloan_id := c]> |>.

(** An operation of another pallet whose error is passed on. *)
Definition others_get {A} (f : C -> result Z (A * C)) : cact C B A := fun s =>
  match f (others s) with
  | Ok (a, w) => Ok (a, s <| others := w |>)
  | Err code => Err (CrowdloanDispatchError_Other code)
  end.

Definition currency_transfer (source dest : AccountId) (amount : Z) : cact C B unit :=
  others_get (fun w => w <-? transfer source dest amount w; Ok (tt, w)).

(** ** Dispatchables *)

Definition create (origin : RuntimeOrigin) (deposit min_contribution cap end_ : Z)
    (call : option RC) (target_address : option AccountId) : cact C B unit :=
  creator <-! check (fun _ => ensure_signed_caller origin);
  now <-! asks crowdloan_block;
  do! check (fun _ => ensureC (MinimumDeposit <=? deposit) CrowdloanError_DepositTooLow);
  do! check (fun _ => ensureC (deposit <? cap) CrowdloanError_CapTooLow);
  do! check (fun _ => ensureC (AbsoluteMinimumContribution <=? min_contribution)
                        CrowdloanError_MinimumContributionTooLow);
  do! check (fun _ => ensure_valid_end now end_);
  do! check (fun s => ensureC (deposit <=? free_balance creator (others s))
                        CrowdloanError_InsufficientBalance);
  crowdloan_id <-! asks NextCrowdloanId;
  next_crowdloan_id <-! check (fun _ => ok_orC (checked_add 32 crowdloan_id 1)
                                          CrowdloanError_Overflow);
  do! modify (fun s => s <| NextCrowdloanId := next_crowdloan_id |>);
  let account := sub_account crowdloan_id in
  do! modify (fun s => s <| others ::= inc_providers account |>);
  call <-! (match call with
            | Some call => b <-! others_get (bound call); ret (Some b)
            | None => ret None
            end);
  let crowdloan := {|
    creator := creator; deposit := deposit; min_contribution := min_contribution;
    end_block := end_; cap := cap; funds_account := account; raised := deposit;
    target_address := target_address; stored_call := call; finalized := false;
    contributors_count := 1 |} in
  do! modify (insert_crowdloan crowdloan_id crowdloan);
  do! currency_transfer creator account deposit;
  do! modify (insert_contribution crowdloan_id creator deposit);
  deposit_crowdloan_event (CrowdloanEvent_Created crowdloan_id creator end_ cap).

Definition contribute (origin : RuntimeOrigin) (crowdloan_id amount : Z) : cact C B unit :=
  contributor <-! check (fun _ => ensure_signed_caller origin);
  now <-! asks crowdloan_block;
  crowdloan <-! check (fun s => ensure_crowdloan_exists s crowdloan_id);
  do! check (fun _ => ensureC (now <? end_block crowdloan)
                        CrowdloanError_ContributionPeriodEnded);
  do! check (fun _ => ensureC (raised crowdloan <? cap crowdloan) CrowdloanError_CapRaised);
  do! check (fun _ => ensureC (min_contribution crowdloan <=? amount)
                        CrowdloanError_ContributionTooLow);
  do! check (fun _ => ensureC (contributors_count crowdloan <? MaxContributors)
                        CrowdloanError_MaxContributorsReached);
  left_to_raise <-! check (fun _ => ok_orC (checked_sub (cap crowdloan) (raised crowdloan))
                                      CrowdloanError_Underflow);
  let amount := Z.min amount left_to_raise in
  new_raised <-! check (fun _ => ok_orC (checked_add 64 (raised crowdloan) amount)
                                   CrowdloanError_Overflow);
  let crowdloan := crowdloan <| raised := new_raised |> in
  entry <-! asks (fun s => contributions_of s crowdloan_id !! contributor);
  p <-! check (fun _ =>
    match entry with
    | Some contribution =>
        contribution <-? ok_orC (checked_add 64 contribution amount) CrowdloanError_Overflow;
        Ok (contribution, crowdloan)
    | None =>
        count <-? ok_orC (checked_add 32 (contributors_count crowdloan) 1)
                    CrowdloanError_Overflow;
        Ok (amount, crowdloan <| contributors_count := count |>)
    end);
  let '(contribution, crowdloan) := p in
  do! check (fun s => ensureC (amount <=? free_balance contributor (others s))
                        CrowdloanError_InsufficientBalance);
  do! currency_transfer contributor (funds_account crowdloan) amount;
  do! modify (insert_contribution crowdloan_id contributor contribution);
  do! modify (insert_crowdloan crowdloan_id crowdloan);
  deposit_crowdloan_event (CrowdloanEvent_Contributed crowdloan_id contributor amount).

Definition withdraw (origin : RuntimeOrigin) (crowdloan_id : Z) : cact C B unit :=
  who <-! check (fun _ => ensure_signed_caller origin);
  crowdloan <-! check (fun s => ensure_crowdloan_exists s crowdloan_id);
  do! check (fun _ => ensureC (negb (finalized crowdloan)) CrowdloanError_AlreadyFinalized);
  amount <-! asks (fun s => default 0 (contributions_of s crowdloan_id !! who));
  do! check (fun _ => ensureC (0 <? amount) CrowdloanError_NoContribution);
  p <-! (if decide (who = creator crowdloan) then
           let amount := saturating_sub amount (deposit crowdloan) in
           do! check (fun _ => ensureC (0 <? amount) CrowdloanError_DepositCannotBeWithdrawn);
           do! modify (insert_contribution crowdloan_id who (deposit crowdloan));
           ret (amount, crowdloan)
         else
           do! modify (remove_contribution crowdloan_id who);
           count <-! check (fun _ => ok_orC (checked_sub (contributors_count crowdloan) 1)
                                       CrowdloanError_Underflow);
           ret (amount, crowdloan <| contributors_count := count |>));
  let '(amount, crowdloan) := p in
  do! currency_transfer (funds_account crowdloan) who amount;
  let crowdloan := crowdloan <| raised := saturating_sub (raised crowdloan) amount |> in
  do! modify (insert_crowdloan crowdloan_id crowdloan);
  deposit_crowdloan_event (CrowdloanEvent_Withdrew crowdloan_id who amount).

(** [finalize] up to the dispatch: the checks, the payment, and the stored call if there is
    one, with [CurrentCrowdloanId] set.  The preimage that is dropped when the call cannot
    be found comes back with the failure of the call. *)
Definition finalize_prepare (who : AccountId) (crowdloan_id : Z) :
    cact C B (CrowdloanInfo B * option RC) :=
  crowdloan <-! check (fun s => ensure_crowdloan_exists s crowdloan_id);
  do! check (fun _ => ensureC (bool_decide (who = creator crowdloan))
                        CrowdloanError_InvalidOrigin);
  do! check (fun _ => ensureC (raised crowdloan =? cap crowdloan) CrowdloanError_CapNotRaised);
  do! check (fun _ => ensureC (negb (finalized crowdloan)) CrowdloanError_AlreadyFinalized);
  do! (match target_address crowdloan with
       | Some target =>
           currency_transfer (funds_account crowdloan) target (raised crowdloan)
       | None => ret tt
       end);
  match stored_call crowdloan with
  | Some call =>
      do! modify (fun s => s <| CurrentCrowdloanId := Some crowdloan_id |>);
      call <-! check (fun s => ok_orC (peek call (others s)) CrowdloanError_CallUnavailable);
      ret (crowdloan, Some call)
  | None => ret (crowdloan, None)
  end.

(** [finalize] after the dispatch: the record read before it is written back. *)
Definition finalize_complete (crowdloan_id : Z) (crowdloan : CrowdloanInfo B) :
    cact C B unit :=
  do! modify (fun s =>
    match stored_call crowdloan with
    | Some _ => s <| CurrentCrowdloanId := None |>
    | None => s
    end);
  do! modify (insert_crowdloan crowdloan_id (crowdloan <| finalized := true |>));
  deposit_crowdloan_event (CrowdloanEvent_Finalized crowdloan_id).

Definition finalize (origin : RuntimeOrigin) (crowdloan_id : Z) : cact C B unit :=
  who <-! check (fun _ => ensure_signed_caller origin);
  p <-! finalize_prepare who crowdloan_id;
  let '(crowdloan, call) := p in
  do! (match call with
       | Some call => fun s =>
           match dispatch_signed call who s with
           | Ok s => Ok (tt, s)
           | Err code => Err (CrowdloanDispatchError_Other code)
           end
       | None => ret tt
       end);
  finalize_complete crowdloan_id crowdloan.

(** The loop of [refund]: the crowdloan, the accounts refunded so far, their number, and at
    the end whether all were refunded. *)
Fixpoint refund_loop (contributions : list (AccountId * Z)) (crowdloan : CrowdloanInfo B)
    (refunded : list AccountId) (refund_count : Z) :
    cact C B (CrowdloanInfo B * list AccountId * Z * bool) :=
  match contributions with
  | [] => ret (crowdloan, refunded, refund_count, true)
  | (contributor, amount) :: rest =>
      if RefundContributorsLimit <=? refund_count
      then ret (crowdloan, refunded, refund_count, false)
      else
        do! currency_transfer (funds_account crowdloan) contributor amount;
        let crowdloan := crowdloan <| raised := saturating_sub (raised crowdloan) amount |> in
        refund_count <-! check (fun _ => ok_orC (checked_add 32 refund_count 1)
                                           CrowdloanError_Overflow);
        refund_loop rest crowdloan (refunded ++ [contributor]) refund_count
  end.

Definition refund (origin : RuntimeOrigin) (crowdloan_id : Z) : cact C B unit :=
  who <-! check (fun _ => ensure_signed_caller origin);
  crowdloan <-! check (fun s => ensure_crowdloan_exists s crowdloan_id);
  do! check (fun _ => ensureC (negb (finalized crowdloan)) CrowdloanError_AlreadyFinalized);
  do! check (fun _ => ensureC (bool_decide (who = creator crowdloan))
                        CrowdloanError_InvalidOrigin);
  contributions <-! asks (fun s =>
    List.filter (fun '(contributor, _) => negb (bool_decide (contributor = creator crowdloan)))
      (iter_prefix (contributions_of s crowdloan_id)));
  p <-! refund_loop contributions crowdloan [] 0;
  let '(crowdloan, refunded, refund_count, all_refunded) := p in
  count <-! check (fun _ => ok_orC (checked_sub (contributors_count crowdloan) refund_count)
                              CrowdloanError_Underflow);
  do! modify (insert_crowdloan crowdloan_id (crowdloan <| contributors_count := count |>));
  do! modify (fun s => foldl (fun s contributor =>
                remove_contribution crowdloan_id contributor s) s refunded);
  deposit_crowdloan_event
    (if all_refunded then CrowdloanEvent_AllRefunded crowdloan_id
     else CrowdloanEvent_PartiallyRefunded crowdloan_id).

Definition dissolve (origin : RuntimeOrigin) (crowdloan_id : Z) : cact C B unit :=
  who <-! check (fun _ => ensure_signed_caller origin);
  crowdloan <-! check (fun s => ensure_crowdloan_exists s crowdloan_id);
  do! check (fun _ => ensureC (negb (finalized crowdloan)) CrowdloanError_AlreadyFinalized);
  do! check (fun _ => ensureC (bool_decide (who = creator crowdloan))
                        CrowdloanError_InvalidOrigin);
  creator_contribution <-! check (fun s =>
    ok_orC (contributions_of s crowdloan_id !! creator crowdloan)
      CrowdloanError_NoContribution);
  do! check (fun _ => ensureC (creator_contribution =? raised crowdloan)
                        CrowdloanError_NotReadyToDissolve);
  do! currency_transfer (funds_account crowdloan) (creator crowdloan) creator_contribution;
  do! modify (remove_contribution crowdloan_id (creator crowdloan));
  do! modify (fun s =>
    match stored_call crowdloan with
    | Some call => s <| others ::= drop_preimage call |>
    | None => s
    end);
  do! modify (fun s => s <| others ::= dec_providers (funds_account crowdloan) |>);
  do! modify (fun s => s <| Crowdloans ::= delete crowdloan_id |>);
  deposit_crowdloan_event (CrowdloanEvent_Dissolved crowdloan_id).

(** The checks the three updates share. *)
Definition updatable (origin : RuntimeOrigin) (crowdloan_id : Z) :
    cact C B (CrowdloanInfo B) :=
  who <-! check (fun _ => ensure_signed_caller origin);
  crowdloan <-! check (fun s => ensure_crowdloan_exists s crowdloan_id);
  do! check (fun _ => ensureC (negb (finalized crowdloan)) CrowdloanError_AlreadyFinalized);
  do! check (fun _ => ensureC (bool_decide (who = creator crowdloan))
                        CrowdloanError_InvalidOrigin);
  ret crowdloan.

Definition update_min_contribution (origin : RuntimeOrigin)
    (crowdloan_id new_min_contribution : Z) : cact C B unit :=
  crowdloan <-! updatable origin crowdloan_id;
  do! check (fun _ => ensureC (AbsoluteMinimumContribution <=? new_min_contribution)
                        CrowdloanError_MinimumContributionTooLow);
  do! modify (insert_crowdloan crowdloan_id
                (crowdloan <| min_contribution := new_min_contribution |>));
  deposit_crowdloan_event
    (CrowdloanEvent_MinContributionUpdated crowdloan_id new_min_contribution).

Definition update_end (origin : RuntimeOrigin) (crowdloan_id new_end : Z) : cact C B unit :=
  crowdloan <-! updatable origin crowdloan_id;
  now <-! asks crowdloan_block;
  do! check (fun _ => ensure_valid_end now new_end);
  do! modify (insert_crowdloan crowdloan_id (crowdloan <| end_block := new_end |>));
  deposit_crowdloan_event (CrowdloanEvent_EndUpdated crowdloan_id new_end).

Definition update_cap (origin : RuntimeOrigin) (crowdloan_id new_cap : Z) : cact C B unit :=
  crowdloan <-! updatable origin crowdloan_id;
  do! check (fun _ => ensureC (raised crowdloan <=? new_cap) CrowdloanError_CapTooLow);
  do! modify (insert_crowdloan crowdloan_id (crowdloan <| cap := new_cap |>));
  deposit_crowdloan_event (CrowdloanEvent_CapUpdated crowdloan_id new_cap).

End Operations.

(** ** The configuration of the runtime

    [sub] derives the account of a crowdloan from the pallet's id. *)
Definition runtime_crowdloan (sub : Z -> AccountId) : CrowdloanConfig := {|
  MinimumDeposit := 10_000_000_000;
  AbsoluteMinimumContribution := 100_000_000;
  MinimumBlockDuration := 50_400;
  MaximumBlockDuration := 432_000;
  RefundContributorsLimit := 50;
  MaxContributors := 500;
  sub_account := sub;
|}.

Definition EXISTENTIAL_DEPOSIT : Z := 500.
