(* ===== verification/CrowdloanSafety.v ===== *)
(** * The crowdloan pallet: the funds of contributors

    In every state of a chain, also while calls stored by other crowdloans are being
    dispatched, the account of a crowdloan that is not finalized holds what its
    contributors have put in, and they can get it back. *)

From S2P Require Import Prelude Protocol PostQuantum Pallet Crowdloan.
From stdpp Require Import base tactics list gmap strings list_numbers relations.
From Stdlib Require Import ZArith Lia.
Open Scope Z_scope.

(** ** The other pallets

    What the documentation of the balances, system and preimage pallets says of the
    operations the pallet calls.  A transfer that leaves less than the existential deposit
    empties the source; [spendable] is the part of a balance that no lock or freeze
    holds; the reference counters and preimages noted by the runtime move no balance. *)
Class CrowdloanLaws (C RC B : Type) `{CR : CrowdloanRuntime C RC B} := {
  existential_deposit : Z;
  spendable : AccountId -> C -> Z;
  free_balance_nonneg a w : 0 <= free_balance a w;
  transfer_self a x w w' : transfer a a x w = Ok w' -> free_balance a w' = free_balance a w;
  transfer_dest a b x w w' : transfer a b x w = Ok w' -> a <> b ->
    free_balance b w' = free_balance b w + x;
  transfer_source a b x w w' : transfer a b x w = Ok w' -> a <> b ->
    free_balance a w' = free_balance a w - x
    \/ free_balance a w - x < existential_deposit /\ free_balance a w' = 0;
  transfer_others a b d x w w' : transfer a b x w = Ok w' -> d <> a -> d <> b ->
    free_balance d w <= free_balance d w';
  transfer_total a b x w : 0 <= x <= spendable a w ->
    existential_deposit <= free_balance b w + x -> exists w', transfer a b x w = Ok w';
  inc_providers_balance a d w : free_balance d (inc_providers a w) = free_balance d w;
  dec_providers_balance a d w : free_balance d (dec_providers a w) = free_balance d w;
  bound_balance c w b w' d : bound c w = Ok (b, w') -> free_balance d w' = free_balance d w;
  drop_preimage_balance b d w : free_balance d (drop_preimage b w) = free_balance d w;
  iter_prefix_entries m : iter_prefix m ≡ₚ map_to_list m;
}.

(** The accounts of crowdloans are different; the amounts of the configuration are positive
    and a deposit keeps an account alive. *)
Record crowdloan_config_ok {C RC B} `{CrowdloanConfig} `{L : CrowdloanLaws C RC B} : Prop := {
  co_accounts : Inj eq eq sub_account;
  co_contribution : 0 < AbsoluteMinimumContribution;
  co_deposit : 0 < MinimumDeposit;
  co_existential : existential_deposit <= MinimumDeposit;
}.

Definition total (m : gmap AccountId Z) : Z := map_sum (fun _ x => x) m.
Definition amounts (l : list (AccountId * Z)) : Z := foldr (fun p acc => snd p + acc) 0 l.

Lemma total_insert m a x : total (<[a := x]> m) = total m + x - default 0 (m !! a).
Proof. unfold total. rewrite map_sum_insert. by destruct (m !! a). Qed.

Lemma total_delete m a : total (delete a m) = total m - default 0 (m !! a).
Proof.
  unfold total. destruct (m !! a) as [x|] eqn:Ha; simpl.
  - rewrite (map_sum_delete _ m a x Ha). lia.
  - rewrite delete_id by done. lia.
Qed.

Definition positive (m : gmap AccountId Z) : Prop := forall a x, m !! a = Some x -> 0 < x.

Lemma total_nonneg m : positive m -> 0 <= total m.
Proof. intros Hm. apply map_sum_nonneg. intros a x Ha. apply Hm in Ha. lia. Qed.

Lemma positive_delete m a : positive m -> positive (delete a m).
Proof. intros Hm b x [_ Hb]%lookup_delete_Some. eauto. Qed.

Lemma total_entry m a x : positive m -> m !! a = Some x -> x <= total m.
Proof.
  intros Hm Ha. pose proof (total_nonneg _ (positive_delete m a Hm)) as H.
  rewrite total_delete, Ha in H. simpl in H. lia.
Qed.

Lemma total_zero m : positive m -> total m = 0 -> m = ∅.
Proof.
  intros Hm Ht. apply map_empty. intros a. apply eq_None_not_Some. intros [x Hx].
  pose proof (total_entry _ _ _ Hm Hx). apply Hm in Hx. lia.
Qed.

(** *** Lists of contributions *)

(** [l] lists entries of [m], each once. *)
Definition entries_of (m : gmap AccountId Z) (l : list (AccountId * Z)) : Prop :=
  NoDup l.*1 /\ forall a x, (a, x) ∈ l -> m !! a = Some x.

Definition remove_all (m : gmap AccountId Z) (l : list AccountId) : gmap AccountId Z :=
  foldl (fun m a => delete a m) m l.

Lemma entries_of_permutation m l : l ≡ₚ map_to_list m -> entries_of m l.
Proof.
  intros Hl. split.
  - rewrite Hl. apply NoDup_fst_map_to_list.
  - intros a x. rewrite Hl. apply elem_of_map_to_list.
Qed.

Lemma entries_of_filter m f l : entries_of m l -> entries_of m (List.filter f l).
Proof.
  intros [Hd Hl]. split.
  - induction l as [|p l IH]; simpl in *; [done|]. apply NoDup_cons in Hd as [Hp Hd].
    assert (NoDup (List.filter f l).*1) by (apply IH; [done|intros; apply Hl; by right]).
    destruct (f p); [|done]. simpl. apply NoDup_cons. split; [|done].
    rewrite list_elem_of_In, in_map_iff. intros (q & Hq & [Hin _]%filter_In). apply Hp.
    rewrite <- Hq. apply list_elem_of_fmap_2. by rewrite list_elem_of_In.
  - intros a x. rewrite list_elem_of_In, filter_In, <- list_elem_of_In. intros [Hx _]. auto.
Qed.

Lemma entries_of_app m l1 l2 : entries_of m (l1 ++ l2) -> entries_of m l1.
Proof.
  intros [Hd Hl]. rewrite fmap_app in Hd. apply NoDup_app in Hd as (Hd & _).
  split; [done|]. intros a x Hx. apply Hl, elem_of_app. by left.
Qed.

Lemma entries_of_tail m p l : entries_of m (p :: l) -> entries_of m l.
Proof.
  intros [Hd Hl]. apply NoDup_cons in Hd as [_ Hd]. split; [done|]. intros. apply Hl. by right.
Qed.

Lemma entries_of_head m a x l : positive m -> entries_of m ((a, x) :: l) -> 0 < x.
Proof. intros Hm [_ Hl]. apply (Hm a), Hl. by left. Qed.

Lemma remove_all_lookup m l a : a ∉ l -> remove_all m l !! a = m !! a.
Proof.
  revert m. induction l as [|b l IH]; intros m; simpl; [done|].
  intros [Hne Ha]%not_elem_of_cons. rewrite IH by done. by apply lookup_delete_ne.
Qed.

Lemma remove_all_in m l a : a ∈ l -> remove_all m l !! a = None.
Proof.
  unfold remove_all. revert m. induction l as [|b l IH]; intros m; simpl.
  - by intros ?%not_elem_of_nil.
  - intros [->|Ha]%elem_of_cons; [|by apply IH].
    destruct (decide (b ∈ l)) as [Hb|Hb]; [by apply IH|].
    etrans; [by apply (remove_all_lookup (delete b m))|]. apply lookup_delete_eq.
Qed.

Lemma remove_all_sub m l a x : remove_all m l !! a = Some x -> m !! a = Some x.
Proof.
  revert m. induction l as [|b l IH]; intros m; simpl; [done|].
  intros [_ H]%IH%lookup_delete_Some. done.
Qed.

Lemma remove_all_entries m l : entries_of m l ->
  total (remove_all m l.*1) = total m - amounts l
  /\ size m = (size (remove_all m l.*1) + length l)%nat.
Proof.
  unfold remove_all.
  revert m. induction l as [|[a x] l IH]; intros m [Hd Hl]; [simpl; lia|].
  rewrite fmap_cons in *. cbn [foldl fst amounts foldr snd length].
  apply NoDup_cons in Hd as [Ha Hd]. assert (Hx : m !! a = Some x) by (apply Hl; by left).
  destruct (IH (delete a m)) as [Ht Hs].
  - split; [done|]. intros b y Hy. rewrite lookup_delete_ne; [apply Hl; by right|].
    intros ->. apply Ha. by apply (list_elem_of_fmap_2 fst _ (b, y)).
  - rewrite Ht, total_delete, Hx. rewrite map_size_delete, Hx in Hs. simpl in *.
    assert (0 < size m)%nat; [|fold (amounts l); lia].
    apply Nat.neq_0_lt_0, map_size_non_empty_iff. intros E. by rewrite E in Hx.
Qed.

Lemma amounts_nonneg m l : positive m -> entries_of m l -> 0 <= amounts l.
Proof.
  intros Hm. induction l as [|[a x] l IH]; simpl; [lia|]. intros He.
  pose proof (entries_of_head _ _ _ _ Hm He). specialize (IH (entries_of_tail _ _ _ He)).
  fold (amounts l). lia.
Qed.

Lemma positive_remove_all m l : positive m -> positive (remove_all m l).
Proof. intros Hm a x Ha%remove_all_sub. eauto. Qed.

Lemma amounts_le m l : positive m -> entries_of m l -> amounts l <= total m.
Proof.
  intros Hm He. destruct (remove_all_entries m l He) as [Ht _].
  pose proof (total_nonneg _ (positive_remove_all m l.*1 Hm)). lia.
Qed.

Lemma amounts_app l1 l2 : amounts (l1 ++ l2) = amounts l1 + amounts l2.
Proof. induction l1; simpl; lia. Qed.

(** ** Runs of the chain *)

Section Runs.
Context {C RC B : Type} `{CF : !CrowdloanConfig} `{CR : !CrowdloanRuntime C RC B}.
Implicit Types s : CrowdloanStore C B.

Inductive CrowdloanOp : Type :=
| CrowdloanOp_create (deposit min_contribution cap end_ : Z) (call : option RC)
    (target_address : option AccountId)
| CrowdloanOp_contribute (crowdloan_id amount : Z)
| CrowdloanOp_withdraw (crowdloan_id : Z)
| CrowdloanOp_refund (crowdloan_id : Z)
| CrowdloanOp_dissolve (crowdloan_id : Z)
| CrowdloanOp_update_min_contribution (crowdloan_id new_min_contribution : Z)
| CrowdloanOp_update_end (crowdloan_id new_end : Z)
| CrowdloanOp_update_cap (crowdloan_id new_cap : Z).

Definition run_op (who : AccountId) (op : CrowdloanOp) : cact C B unit :=
  let origin := Origin_Signed who in
  match op with
  | CrowdloanOp_create d m c e call t => create origin d m c e call t
  | CrowdloanOp_contribute id x => contribute origin id x
  | CrowdloanOp_withdraw id => withdraw origin id
  | CrowdloanOp_refund id => refund origin id
  | CrowdloanOp_dissolve id => dissolve origin id
  | CrowdloanOp_update_min_contribution id v => update_min_contribution origin id v
  | CrowdloanOp_update_end id v => update_end origin id v
  | CrowdloanOp_update_cap id v => update_cap origin id v
  end.

(** An account with a key: nobody signs for the account of a crowdloan. *)
Definition external (who : AccountId) : Prop := forall id, who <> sub_account id.

(** [runs X s s']: the chain gets from [s] to [s'] while the crowdloans in [X] are being
    finalized.  A stored call runs inside [finalize]: what it does is itself a run, in which
    the account of the crowdloan being finalized may be spent by other pallets. *)
Inductive runs : gset Z -> CrowdloanStore C B -> CrowdloanStore C B -> Prop :=
| runs_done X s : runs X s s
| runs_op X s who op s1 s2 :
    external who -> run_op who op s = Ok (tt, s1) -> runs X s1 s2 -> runs X s s2
| runs_finalize X s who id c s1 s2 s3 :
    external who -> finalize_prepare who id s = Ok ((c, None), s1) ->
    finalize_complete id c s1 = Ok (tt, s2) -> runs X s2 s3 -> runs X s s3
| runs_finalize_call X s who id c call s1 s2 s3 s4 :
    external who -> finalize_prepare who id s = Ok ((c, Some call), s1) ->
    runs (X ∪ {[id]}) s1 s2 -> finalize_complete id c s2 = Ok (tt, s3) ->
    runs X s3 s4 -> runs X s s4
| runs_others X s w s2 :
    (forall id, id ∉ X ->
       free_balance (sub_account id) (others s) <= free_balance (sub_account id) w) ->
    runs X (s <| others := w |>) s2 -> runs X s s2
| runs_block X s n s2 :
    crowdloan_block s <= n -> runs X (s <| crowdloan_block := n |>) s2 -> runs X s s2.

(** [visits s0 X s]: a chain that started in [s0] is in [s] at a moment when it is inside the stored
    calls of the crowdloans in [X], after whole runs and the beginnings of [finalize]. *)
Inductive visits (s0 : CrowdloanStore C B) : gset Z -> CrowdloanStore C B -> Prop :=
| visits_start : visits s0 ∅ s0
| visits_runs X s s' : visits s0 X s -> runs X s s' -> visits s0 X s'
| visits_stored_call X s who id c call s' :
    visits s0 X s -> external who -> finalize_prepare who id s = Ok ((c, Some call), s') ->
    visits s0 (X ∪ {[id]}) s'.

(** The dispatchable [finalize] makes such a run, if the dispatch of calls does. *)
Lemma finalize_runs who id s s' :
  (forall call who s s', dispatch_signed call who s = Ok s' -> forall X, runs X s s') ->
  external who -> finalize (Origin_Signed who) id s = Ok (tt, s') -> runs ∅ s s'.
Proof.
  intros Hd Hwho H. unfold finalize in H. rewrite abind_Ok in H.
  destruct H as (w & s0 & [[= <-] ->]%check_Ok & H). rewrite abind_Ok in H.
  destruct H as ([c [call|]] & s1 & Hp & H); rewrite abind_Ok in H;
    destruct H as ([] & s2 & Hc & H).
  - destruct (dispatch_signed call who s1) as [s3|] eqn:Hs; [|done]. injection Hc as ->.
    eapply runs_finalize_call; [done|done|by eapply Hd|done|apply runs_done].
  - inv_run. eapply runs_finalize; [done..|apply runs_done].
Qed.

End Runs.

Section Inversion.
Context {C RC B : Type} `{CF : !CrowdloanConfig} `{CR : !CrowdloanRuntime C RC B}.
Implicit Types s : CrowdloanStore C B.

Lemma currency_transfer_Ok a b x s u s' :
  currency_transfer a b x s = Ok (u, s') <->
  exists w, transfer a b x (others s) = Ok w /\ s' = s <| others := w |>.
Proof.
  unfold currency_transfer, others_get.
  destruct (transfer a b x (others s)); simpl; destruct u; naive_solver.
Qed.

Lemma others_get_Ok {A} (f : C -> result Z (A * C)) s a s' :
  others_get f s = Ok (a, s') <->
  exists w, f (others s) = Ok (a, w) /\ s' = s <| others := w |>.
Proof. unfold others_get. destruct (f (others s)) as [[]|]; naive_solver. Qed.

Lemma ensure_signed_caller_Ok who a : ensure_signed_caller (Origin_Signed who) = Ok a <-> a = who.
Proof. simpl. naive_solver. Qed.

Lemma updatable_Ok who id s c s' :
  updatable (Origin_Signed who) id s = Ok (c, s') <->
  s' = s /\ Crowdloans s !! id = Some c /\ finalized c = false /\ who = creator c.
Proof.
  unfold updatable, ensure_crowdloan_exists. split.
  - intros H. inv_run. simpl in *. inv_run. boolprop. auto.
  - intros (-> & Hc & Hf & ->). unfold abind, check, ret. simpl. rewrite Hc. simpl.
    rewrite Hf. simpl. by rewrite bool_decide_true.
Qed.

End Inversion.

Ltac inv_loan_step :=
  match goal with
  | H : currency_transfer _ _ _ _ = Ok (_, _) |- _ =>
      apply currency_transfer_Ok in H; let w := fresh "w" in let Ht := fresh "Ht" in
      destruct H as (w & Ht & ->)
  | H : others_get _ _ = Ok (_, _) |- _ =>
      apply others_get_Ok in H; let w := fresh "w" in let Ht := fresh "Ho" in
      destruct H as (w & Ht & ->)
  | H : updatable _ _ _ = Ok (_, _) |- _ =>
      apply updatable_Ok in H; destruct H as (-> & ? & ? & ->)
  | H : ensure_signed_caller (Origin_Signed _) = Ok _ |- _ =>
      apply ensure_signed_caller_Ok in H; subst
  | H : ensure_crowdloan_exists _ _ = Ok _ |- _ => apply ok_or_Ok in H
  | H : deposit_crowdloan_event _ _ = Ok (_, _) |- _ => apply modify_Ok in H; subst
  end.
Ltac inv_loan := repeat (inv_run_step || inv_loan_step).

(** ** The invariant *)

Section Invariant.
Context {C RC B : Type} `{CF : !CrowdloanConfig} `{CR : !CrowdloanRuntime C RC B}.
Context `{L : !CrowdloanLaws C RC B}.
Hypothesis Hok : crowdloan_config_ok (RC := RC).
Implicit Types s : CrowdloanStore C B.

(** A record and the contributions [m] to it. *)
Record loan_ok (m : gmap AccountId Z) (c : CrowdloanInfo B) : Prop := {
  lo_raised : raised c = total m;
  lo_positive : positive m;
  lo_count : contributors_count c = Z.of_nat (size m);
  lo_creator : exists x, m !! creator c = Some x /\ deposit c <= x;
  lo_deposit : MinimumDeposit <= deposit c;
  lo_cap : raised c <= cap c;
  lo_minimum : AbsoluteMinimumContribution <= min_contribution c;
}.

(** What the account of a crowdloan holds covers what was raised, unless it is being
    finalized. *)
Definition covered (X : gset Z) (id : Z) (c : CrowdloanInfo B) (w : C) : Prop :=
  id ∉ X -> raised c <= free_balance (sub_account id) w.

(** A finalized crowdloan has reached its cap. *)
Definition record_ok (id : Z) (c : CrowdloanInfo B) : Prop :=
  funds_account c = sub_account id /\ (finalized c = true -> raised c = cap c).

Record crowdloan_inv (X : gset Z) s : Prop := {
  ci_loan id c : Crowdloans s !! id = Some c -> finalized c = false ->
    loan_ok (contributions_of s id) c /\ covered X id c (others s);
  ci_id id c : Crowdloans s !! id = Some c -> 0 <= id < NextCrowdloanId s;
  ci_record id c : Crowdloans s !! id = Some c -> record_ok id c;
  ci_none id : Crowdloans s !! id = None -> contributions_of s id = ∅;
  ci_next : 0 <= NextCrowdloanId s;
}.

(** No account of a crowdloan other than [id] loses anything. *)
Definition keeps_others (id : Z) (w w' : C) : Prop := forall j, j <> id ->
  free_balance (sub_account j) w <= free_balance (sub_account j) w'.

(** The crowdloan [id] and its contributions are written, nothing else. *)
Lemma inv_write X s s' id c m :
  Crowdloans s' = <[id := c]> (Crowdloans s) ->
  (forall j, contributions_of s' j = if decide (j = id) then m else contributions_of s j) ->
  NextCrowdloanId s <= NextCrowdloanId s' -> 0 <= id < NextCrowdloanId s' ->
  keeps_others id (others s) (others s') -> record_ok id c ->
  (finalized c = false -> loan_ok m c /\ covered X id c (others s')) ->
  crowdloan_inv X s -> crowdloan_inv X s'.
Proof.
  intros Hc Hm Hn Hid Hk Hrec Hloan [Hl Hi Hrecs Hnone Hnext]. split.
  - intros j c' Hj Hf. rewrite Hc in Hj. rewrite Hm.
    apply lookup_insert_Some in Hj as [[<- <-]|[Hne Hj]].
    + rewrite decide_True by done. auto.
    + rewrite decide_False by done. destruct (Hl j c' Hj Hf) as [Hlo Hcov].
      split; [done|]. intros HX. specialize (Hcov HX). specialize (Hk j ltac:(done)). lia.
  - intros j c'. rewrite Hc. intros [[<- <-]|[Hne Hj]]%lookup_insert_Some; [lia|].
    apply Hi in Hj. lia.
  - intros j c'. rewrite Hc. intros [[<- <-]|[Hne Hj]]%lookup_insert_Some; auto.
  - intros j. rewrite Hc, Hm. intros [Hj Hne]%lookup_insert_None.
    rewrite decide_False by done. auto.
  - lia.
Qed.

Lemma contributions_of_put s id m j :
  contributions_of (put_contributions id m s) j
  = if decide (j = id) then m else contributions_of s j.
Proof.
  unfold contributions_of, put_contributions; simpl. case_decide as Hj.
  - subst. by rewrite lookup_insert_eq.
  - by rewrite lookup_insert_ne.
Qed.

(** *** Transfers *)

Lemma transfer_out id b x w w' :
  transfer (sub_account id) b x w = Ok w' -> 0 <= x ->
  keeps_others id w w'
  /\ forall r, existential_deposit <= r -> r <= free_balance (sub_account id) w - x ->
       r <= free_balance (sub_account id) w'.
Proof.
  intros Ht Hx. pose proof (co_accounts Hok) as Hinj. split.
  - intros j Hj. destruct (decide (sub_account j = b)) as [<-|Hb].
    + rewrite (transfer_dest _ _ _ _ _ Ht); [lia|]. intros E. by apply Hj, Hinj.
    + eapply transfer_others; [done| |done]. intros E. by apply Hj, Hinj.
  - intros r Hr Hle. destruct (decide (sub_account id = b)) as [<-|Hb].
    + rewrite (transfer_self _ _ _ _ Ht). lia.
    + destruct (transfer_source _ _ _ _ _ Ht Hb) as [->|[? _]]; lia.
Qed.

Lemma transfer_in a id x w w' :
  transfer a (sub_account id) x w = Ok w' -> external a -> 0 <= x ->
  keeps_others id w w'
  /\ free_balance (sub_account id) w' = free_balance (sub_account id) w + x.
Proof.
  intros Ht Ha Hx. pose proof (co_accounts Hok) as Hinj. split.
  - intros j Hj. eapply transfer_others; [done|by intros <-; eapply Ha|].
    intros E. by apply Hj, Hinj.
  - eapply transfer_dest; [done|]. apply Ha.
Qed.

(** *** Operations *)

Lemma update_inv X s s' id c c' e :
  Crowdloans s !! id = Some c ->
  s' = insert_crowdloan id c' s <| crowdloan_events := e |> ->
  record_ok id c' ->
  (finalized c' = false -> finalized c = false
     /\ (loan_ok (contributions_of s id) c -> loan_ok (contributions_of s id) c')
     /\ raised c' = raised c) ->
  crowdloan_inv X s -> crowdloan_inv X s'.
Proof.
  intros Hc -> Hrec Hkeep Hi. pose proof (ci_id _ _ Hi id c Hc) as Hid.
  eapply (inv_write X s _ id c' (contributions_of s id)); try done.
  - intros j. by case_decide; subst.
  - intros j _. simpl. lia.
  - intros Hf. destruct (Hkeep Hf) as (Hf0 & Hl & Hr).
    destruct (ci_loan _ _ Hi id c Hc Hf0) as [Hlo Hcov]. split; [auto|].
    unfold covered in *. by rewrite Hr.
Qed.

Lemma update_min_contribution_inv X who id v s s' :
  update_min_contribution (Origin_Signed who) id v s = Ok (tt, s') ->
  crowdloan_inv X s -> crowdloan_inv X s'.
Proof.
  intros H Hi. unfold update_min_contribution in H. inv_loan. boolprop.
  pose proof (ci_record _ _ Hi _ _ ltac:(eassumption)) as [Ha _].
  eapply update_inv; [done|done|by split; simpl; congruence| |done].
  intros _. split; [done|]. split; [|done].
  intros []. split; try done; simpl; lia.
Qed.

Lemma update_end_inv X who id v s s' :
  update_end (Origin_Signed who) id v s = Ok (tt, s') ->
  crowdloan_inv X s -> crowdloan_inv X s'.
Proof.
  intros H Hi. unfold update_end in H. inv_loan.
  pose proof (ci_record _ _ Hi _ _ ltac:(eassumption)) as [Ha _].
  eapply update_inv; [done|done|by split; simpl; congruence| |done].
  intros _. split; [done|]. split; [|done].
  intros []. by split.
Qed.

Lemma update_cap_inv X who id v s s' :
  update_cap (Origin_Signed who) id v s = Ok (tt, s') ->
  crowdloan_inv X s -> crowdloan_inv X s'.
Proof.
  intros H Hi. unfold update_cap in H. inv_loan. boolprop.
  pose proof (ci_record _ _ Hi _ _ ltac:(eassumption)) as [Ha _].
  eapply update_inv; [done|done|by split; simpl; congruence| |done].
  intros _. split; [done|]. split; [|done].
  intros []. split; try done; simpl; lia.
Qed.

Lemma next_fresh X s : crowdloan_inv X s ->
  Crowdloans s !! NextCrowdloanId s = None /\ contributions_of s (NextCrowdloanId s) = ∅.
Proof.
  intros Hi. assert (Hn : Crowdloans s !! NextCrowdloanId s = None).
  { apply eq_None_not_Some. intros [c Hc]. apply (ci_id _ _ Hi) in Hc. lia. }
  split; [done|]. by apply (ci_none _ _ Hi).
Qed.

(** A new crowdloan [c] with the deposit [d] of its creator, paid from the state [w]. *)
Lemma created_inv X s s' c w :
  Crowdloans s' = <[NextCrowdloanId s := c]> (Crowdloans s) ->
  (forall j, contributions_of s' j = if decide (j = NextCrowdloanId s)
     then <[creator c := deposit c]> (contributions_of s (NextCrowdloanId s))
     else contributions_of s j) ->
  NextCrowdloanId s' = NextCrowdloanId s + 1 ->
  (forall a, free_balance a w = free_balance a (others s)) ->
  transfer (creator c) (sub_account (NextCrowdloanId s)) (deposit c) w = Ok (others s') ->
  external (creator c) -> MinimumDeposit <= deposit c -> deposit c < cap c ->
  AbsoluteMinimumContribution <= min_contribution c ->
  funds_account c = sub_account (NextCrowdloanId s) -> raised c = deposit c ->
  finalized c = false ->
  contributors_count c = 1 ->
  crowdloan_inv X s -> crowdloan_inv X s'.
Proof.
  intros Hc Hm Hn Hw Ht Hext Hd Hcap Hmin Hacc Hr Hfin Hcnt Hi.
  pose proof (free_balance_nonneg (sub_account (NextCrowdloanId s)) w).
  pose proof (co_deposit Hok). destruct (next_fresh X s Hi) as [_ He]. rewrite He in Hm.
  pose proof (ci_next _ _ Hi).
  destruct (transfer_in _ _ _ _ _ Ht Hext) as [Hk Hb]; [lia|].
  eapply (inv_write X s s' (NextCrowdloanId s) c); [done|done|lia|lia| | | |done].
  - intros j Hj. rewrite <- Hw. auto.
  - split; [done|]. congruence.
  - intros _. split; [|intros _; lia]. split; try done.
    + rewrite Hr, total_insert, lookup_empty. unfold total. rewrite map_sum_empty. simpl. lia.
    + intros a x [[_ <-]|[_ Ha]]%lookup_insert_Some; [lia|by rewrite lookup_empty in Ha].
    + rewrite map_size_insert_None by apply lookup_empty. by rewrite map_size_empty.
    + exists (deposit c). rewrite lookup_insert_eq. split; [done|lia].
    + lia.
Qed.

Lemma create_inv X who d m cp e call t s s' :
  external who -> create (Origin_Signed who) d m cp e call t s = Ok (tt, s') ->
  crowdloan_inv X s -> crowdloan_inv X s'.
Proof.
  intros Hwho H Hi. unfold create in H. inv_loan; boolprop;
    match goal with Hn : _ = NextCrowdloanId s + 1 /\ _ |- _ => destruct Hn as [-> _] end;
    match type of Ht with transfer _ _ _ ?x = _ => eapply (created_inv X s _ _ x) end;
    try done; try (by intros j; rewrite <- contributions_of_put);
    intros a; simpl;
    rewrite ?(bound_balance _ _ _ _ a Ho); simpl; by rewrite inc_providers_balance.
Qed.

(** The parts of a record that a change of contributions leaves alone. *)
Definition same_terms (c c' : CrowdloanInfo B) : Prop :=
  creator c' = creator c /\ deposit c' = deposit c /\ min_contribution c' = min_contribution c
  /\ cap c' = cap c /\ funds_account c' = funds_account c /\ finalized c' = finalized c.

Lemma unfinalized X s id c :
  crowdloan_inv X s -> Crowdloans s !! id = Some c -> raised c < cap c -> finalized c = false.
Proof.
  intros Hi Hc Hlt. apply (ci_record _ _ Hi) in Hc as [_ Hf].
  destruct (finalized c); [|done]. specialize (Hf eq_refl). lia.
Qed.

(** New contributions [m'] of a crowdloan whose record becomes [c'], in the state [w'] of
    the other pallets. *)
Lemma contributions_inv X s s' id c c' m' :
  Crowdloans s !! id = Some c -> finalized c = false -> same_terms c c' ->
  Crowdloans s' = <[id := c']> (Crowdloans s) ->
  (forall j, contributions_of s' j = if decide (j = id) then m' else contributions_of s j) ->
  NextCrowdloanId s' = NextCrowdloanId s -> keeps_others id (others s) (others s') ->
  raised c' = total m' -> raised c' <= cap c ->
  (forall a x, m' !! a = Some x -> 0 < x) -> contributors_count c' = Z.of_nat (size m') ->
  (exists x, m' !! creator c = Some x /\ deposit c <= x) ->
  (covered X id c (others s) -> covered X id c' (others s')) ->
  crowdloan_inv X s -> crowdloan_inv X s'.
Proof.
  intros Hc Hf (E1 & E2 & E3 & E4 & E5 & E6) Hc' Hm Hn Hk Hr Hcap Hpos Hcnt Hcr Hcov Hi.
  pose proof (ci_id _ _ Hi _ _ Hc). destruct (ci_record _ _ Hi _ _ Hc) as [Ha _].
  destruct (ci_loan _ _ Hi _ _ Hc Hf) as [[] Hcov0].
  eapply (inv_write X s s' id c' m'); try done; [lia|lia|by split; congruence|].
  intros _. split; [|auto]. split; rewrite ?E1, ?E2, ?E3, ?E4; auto.
Qed.

(** [who] adds [y] to what they have contributed. *)
Lemma contributed_inv X s s' id c c' who y :
  Crowdloans s !! id = Some c -> finalized c = false -> same_terms c c' ->
  external who -> 0 < y <= cap c - raised c ->
  Crowdloans s' = <[id := c']> (Crowdloans s) ->
  (forall j, contributions_of s' j = if decide (j = id)
     then <[who := default 0 (contributions_of s id !! who) + y]> (contributions_of s id)
     else contributions_of s j) ->
  NextCrowdloanId s' = NextCrowdloanId s ->
  transfer who (funds_account c) y (others s) = Ok (others s') ->
  raised c' = raised c + y ->
  contributors_count c'
    = contributors_count c + (if contributions_of s id !! who is Some _ then 0 else 1) ->
  crowdloan_inv X s -> crowdloan_inv X s'.
Proof.
  intros Hc Hf Hsame Hwho Hy Hc' Hm Hn Ht Hr Hcnt Hi.
  destruct (ci_loan _ _ Hi _ _ Hc Hf) as [[Lr Lp Lc (x0 & Lcr & Ld) Ldep Lcap Lmin] _].
  destruct (ci_record _ _ Hi _ _ Hc) as [Ha _]. rewrite Ha in Ht.
  destruct (transfer_in _ _ _ _ _ Ht Hwho) as [Hk Hb]; [lia|].
  assert (Hpos : 0 <= default 0 (contributions_of s id !! who)).
  { destruct (contributions_of s id !! who) eqn:E; simpl; [apply Lp in E|]; lia. }
  eapply (contributions_inv X s s' id c c'); try done.
  - rewrite total_insert. lia.
  - lia.
  - intros a x [[_ <-]|[_ Hx]]%lookup_insert_Some; [lia|eauto].
  - rewrite map_size_insert, Hcnt, Lc. destruct (contributions_of s id !! who); simpl; lia.
  - destruct (decide (who = creator c)) as [->|Hne].
    + rewrite lookup_insert_eq, Lcr. simpl. eexists. split; [done|]. lia.
    + rewrite lookup_insert_ne by done. eauto.
  - intros Hcov HX. specialize (Hcov HX). lia.
Qed.

Lemma contribute_inv X who id x s s' :
  external who -> contribute (Origin_Signed who) id x s = Ok (tt, s') ->
  crowdloan_inv X s -> crowdloan_inv X s'.
Proof.
  intros Hwho H Hi. unfold contribute in H. inv_loan; boolprop;
    (destruct Hr6 as [-> _]); (destruct Hr7 as [-> _]); (destruct Hr0 as [-> _]);
    pose proof (unfinalized X s id a1 Hi Hr1 Hr3) as Hf;
    destruct (ci_loan _ _ Hi _ _ Hr1 Hf) as [[] _]; pose proof (co_contribution Hok);
    (eapply (contributed_inv X s _ id a1 _ who (x `min` (cap a1 - raised a1)) Hr1 Hf);
       [|exact Hwho|lia|reflexivity| |reflexivity|exact Ht|reflexivity| |exact Hi]);
    simpl; try done; rewrite ?Ho; try (simpl; lia);
    intros j; by rewrite <- contributions_of_put.
Qed.

(** What has left the account of the crowdloan [id]. *)
Definition paid_out (id y : Z) (w w' : C) : Prop :=
  keeps_others id w w'
  /\ forall r, existential_deposit <= r -> r <= free_balance (sub_account id) w - y ->
       r <= free_balance (sub_account id) w'.

(** Contributions are returned; those that are left are [m']. *)
Lemma returned_inv X s s' id c c' m' :
  Crowdloans s !! id = Some c -> finalized c = false -> same_terms c c' ->
  Crowdloans s' = <[id := c']> (Crowdloans s) ->
  (forall j, contributions_of s' j = if decide (j = id) then m' else contributions_of s j) ->
  NextCrowdloanId s' = NextCrowdloanId s ->
  paid_out id (raised c - raised c') (others s) (others s') ->
  raised c' = total m' -> raised c' <= raised c -> positive m' ->
  contributors_count c' = Z.of_nat (size m') ->
  (exists x, m' !! creator c = Some x /\ deposit c <= x) ->
  crowdloan_inv X s -> crowdloan_inv X s'.
Proof.
  intros Hc Hf Hsame Hc' Hm Hn [Hk Hp] Hr Hle Hpos Hcnt Hcr Hi.
  destruct (ci_loan _ _ Hi _ _ Hc Hf) as [[] _].
  eapply (contributions_inv X s s' id c c' m'); try done; [lia|].
  destruct Hcr as (x & Hx & Hd). apply (total_entry _ _ _ Hpos) in Hx.
  pose proof (co_existential Hok). intros Hcov HX. specialize (Hcov HX). apply Hp; lia.
Qed.

Lemma withdraw_inv X who id s s' :
  withdraw (Origin_Signed who) id s = Ok (tt, s') ->
  crowdloan_inv X s -> crowdloan_inv X s'.
Proof.
  intros H Hi. unfold withdraw in H. inv_loan; boolprop; unfold saturating_sub in *;
    pose proof (co_deposit Hok);
    destruct (ci_loan _ _ Hi _ _ Hr0 Hr1) as [[Lr Lp Lc (x0 & Lcr & Ld) Ldep _ _] _];
    destruct (ci_record _ _ Hi _ _ Hr0) as [Ha _]; simpl in Ht; rewrite Ha in Ht.
  - rewrite Lcr in *. simpl in *. pose proof (total_entry _ _ _ Lp Lcr).
    destruct (transfer_out _ _ _ _ _ Ht) as [Hk Hb]; [lia|].
    eapply (returned_inv X s _ id a0 _ (<[creator a0 := deposit a0]> (contributions_of s id)) Hr0 Hr1);
      [|reflexivity| |reflexivity|split; [exact Hk|]|..]; simpl; try done.
    + intros j. by rewrite <- contributions_of_put.
    + intros r Hr Hle. apply Hb; lia.
    + rewrite total_insert, Lcr. simpl. lia.
    + lia.
    + intros a x [[_ <-]|[_ Hx]]%lookup_insert_Some; [lia|eauto].
    + by rewrite map_size_insert, Lcr.
    + exists (deposit a0). rewrite lookup_insert_eq. split; [done|lia].
  - destruct (contributions_of s id !! who) as [x|] eqn:Hx; simpl in *; [|lia].
    pose proof (total_entry _ _ _ Lp Hx).
    destruct (transfer_out _ _ _ _ _ Ht) as [Hk Hb]; [lia|].
    eapply (returned_inv X s _ id a0 _ (delete who (contributions_of s id)) Hr0 Hr1);
      [|reflexivity| |reflexivity|split; [exact Hk|]|..]; simpl; try done.
    + intros j. by rewrite <- contributions_of_put.
    + intros r Hr Hle. apply Hb; lia.
    + rewrite total_delete, Hx. simpl. lia.
    + lia.
    + by apply positive_delete.
    + rewrite map_size_delete, Hx. simpl.
      assert (0 < size (contributions_of s id))%nat; [|lia].
      apply Nat.neq_0_lt_0, map_size_non_empty_iff. intros E. by rewrite E in Hx.
    + exists x0. by rewrite lookup_delete_ne.
Qed.

(** *** Refunds *)

(** Each entry of [l] is paid from the account [a]. *)
Fixpoint pays (a : AccountId) (l : list (AccountId * Z)) (w w' : C) : Prop :=
  match l with
  | [] => w' = w
  | (b, x) :: l => exists w1, transfer a b x w = Ok w1 /\ pays a l w1 w'
  end.

Lemma pays_paid_out id m l w w' :
  positive m -> entries_of m l -> pays (sub_account id) l w w' -> paid_out id (amounts l) w w'.
Proof.
  intros Hm. revert w. induction l as [|[b x] l IH]; intros w He; simpl.
  - intros ->. split; [by intros j _|]. intros r. lia.
  - pose proof (entries_of_tail _ _ _ He) as Hl. pose proof (amounts_nonneg _ _ Hm Hl).
    pose proof (entries_of_head _ _ _ _ Hm He).
    intros (w1 & Ht & Hp). destruct (IH w1 Hl Hp) as [Hk Hb].
    destruct (transfer_out _ _ _ _ _ Ht) as [Hk1 Hb1]; [lia|]. split.
    + intros j Hj. etrans; [by apply Hk1|by apply Hk].
    + intros r Hr Hle. apply Hb; [done|].
      assert (r + amounts l <= free_balance (sub_account id) w1); [|lia].
      fold (amounts l) in *. apply Hb1; lia.
Qed.

(** The loop pays as many entries as the limit allows. *)
Definition refundable (n : Z) (l : list (AccountId * Z)) : list (AccountId * Z) :=
  take (Z.to_nat (RefundContributorsLimit - n)) l.

Lemma refundable_cons n p l : n < RefundContributorsLimit ->
  refundable n (p :: l) = p :: refundable (n + 1) l.
Proof.
  intros Hn. unfold refundable.
  replace (Z.to_nat (RefundContributorsLimit - n))
    with (S (Z.to_nat (RefundContributorsLimit - (n + 1)))) by lia. done.
Qed.

Lemma refund_loop_Ok l c rs n s c' rs' n' all s' m :
  positive m -> entries_of m l -> amounts l <= raised c ->
  refund_loop l c rs n s = Ok ((c', rs', n', all), s') ->
  rs' = rs ++ (refundable n l).*1
  /\ n' = n + Z.of_nat (length (refundable n l))
  /\ all = bool_decide (refundable n l = l)
  /\ same_terms c c' /\ contributors_count c' = contributors_count c
  /\ raised c' = raised c - amounts (refundable n l)
  /\ exists w, s' = s <| others := w |> /\ pays (funds_account c) (refundable n l) (others s) w.
Proof.
  intros Hm. revert c rs n s. induction l as [|[a x] l IH]; intros c rs n s He Hle H;
    simpl in H; inv_loan; boolprop.
  - unfold refundable. rewrite take_nil, app_nil_r. simpl.
    repeat split; try lia. exists (others s). by destruct s.
  - unfold refundable. replace (Z.to_nat (RefundContributorsLimit - n)) with 0%nat by lia.
    simpl. rewrite app_nil_r. repeat split; try lia. exists (others s). by destruct s.
  - rewrite refundable_cons by lia. destruct Hr0 as [-> _].
    pose proof (entries_of_head _ _ _ _ Hm He). apply entries_of_tail in He.
    pose proof (amounts_nonneg _ _ Hm He). simpl in Hle. fold (amounts l) in Hle.
    apply IH in H as (-> & -> & -> & Hs & Hcnt & Hr & w' & -> & Hp);
      [|done|simpl; unfold saturating_sub; lia].
    rewrite <- app_assoc. simpl. split; [done|]. split; [lia|].
    split; [apply bool_decide_ext; split; [by intros ->|by intros [=]]|]. do 2 (split; [done|]).
    simpl in Hr. unfold saturating_sub in Hr. fold (amounts (refundable (n + 1) l)).
    split; [lia|]. exists w'. split; [done|]. by exists w.
Qed.

(** The contributions that [refund] iterates over. *)
Definition refund_list s (id : Z) (c : CrowdloanInfo B) : list (AccountId * Z) :=
  List.filter (fun '(contributor, _) => negb (bool_decide (contributor = creator c)))
    (iter_prefix (contributions_of s id)).

Lemma refund_list_entries s id c : entries_of (contributions_of s id) (refund_list s id c).
Proof. apply entries_of_filter, entries_of_permutation, iter_prefix_entries. Qed.

Lemma refund_list_creator s id c : creator c ∉ (refund_list s id c).*1.
Proof.
  intros ((a & x) & Ha & Hin)%list_elem_of_fmap. simpl in Ha. subst a.
  rewrite list_elem_of_In in Hin. apply filter_In in Hin as [_ Hb].
  by rewrite bool_decide_true in Hb.
Qed.

Lemma foldl_remove_contribution id rs s :
  let s' := foldl (fun s a => remove_contribution id a s) s rs in
  Crowdloans s' = Crowdloans s /\ NextCrowdloanId s' = NextCrowdloanId s
  /\ others s' = others s /\ crowdloan_events s' = crowdloan_events s
  /\ forall j, contributions_of s' j
       = if decide (j = id) then remove_all (contributions_of s id) rs else contributions_of s j.
Proof.
  revert s. induction rs as [|a rs IH]; intros s; simpl.
  - repeat split. intros j. by case_decide; subst.
  - destruct (IH (remove_contribution id a s)) as (-> & -> & -> & -> & Hm).
    repeat split. intros j. rewrite Hm. unfold remove_contribution.
    rewrite !contributions_of_put. case_decide; [|done]. by rewrite decide_True.
Qed.

(** What [refund] does: [l] is paid back and nothing else happens. *)
Lemma refund_effect X who id s s' :
  crowdloan_inv X s -> refund (Origin_Signed who) id s = Ok (tt, s') ->
  exists c c', let l := refundable 0 (refund_list s id c) in
    Crowdloans s !! id = Some c /\ finalized c = false /\ who = creator c
    /\ same_terms c c' /\ raised c' = raised c - amounts l
    /\ contributors_count c' = contributors_count c - Z.of_nat (length l)
    /\ Crowdloans s' = <[id := c']> (Crowdloans s)
    /\ NextCrowdloanId s' = NextCrowdloanId s
    /\ (forall j, contributions_of s' j = if decide (j = id)
         then remove_all (contributions_of s id) l.*1 else contributions_of s j)
    /\ pays (sub_account id) l (others s) (others s')
    /\ crowdloan_events s' = crowdloan_events s
         ++ [if decide (l = refund_list s id c) then CrowdloanEvent_AllRefunded id
             else CrowdloanEvent_PartiallyRefunded id].
Proof.
  intros Hi H. unfold refund in H. inv_loan; boolprop. fold (refund_list s id a0) in Hr4.
  destruct a4 as [[[c' rs] n] all], (ci_loan _ _ Hi _ _ Hr0 Hr1) as [[] _].
  destruct (ci_record _ _ Hi _ _ Hr0) as [Ha _].
  pose proof (refund_list_entries s id a0) as He.
  apply (refund_loop_Ok _ _ _ _ _ _ _ _ _ _ (contributions_of s id)) in Hr4
    as (-> & -> & -> & Hs & Hcnt & Hr & w & -> & Hp); [|done|done|].
  - inv_loan. boolprop. destruct Hr3 as [-> _].
    match goal with |- context [foldl _ ?s1 ?rs] =>
      destruct (foldl_remove_contribution id rs s1) as (E1 & E2 & E3 & E4 & Hm) end.
    simpl in Hr0, E1, E2, E3, E4.
    match type of E1 with _ = <[_ := ?c1]> _ => exists a0, c1 end. simpl.
    rewrite E1, E2, E3, E4, <- Ha.
    repeat (split; [done || (simpl; lia) || exact Hm|]).
    case_decide as E; [by rewrite bool_decide_true|by rewrite bool_decide_false].
  - rewrite lo_raised0. by apply amounts_le.
Qed.

Lemma refund_inv X who id s s' :
  refund (Origin_Signed who) id s = Ok (tt, s') ->
  crowdloan_inv X s -> crowdloan_inv X s'.
Proof.
  intros H Hi. destruct (refund_effect X who id s s' Hi H)
    as (c & c' & Hc & Hf & _ & Hs & Hr & Hcnt & Hc' & Hn & Hm & Hp & _).
  destruct (ci_loan _ _ Hi _ _ Hc Hf) as [[Lr Lp Lc (x0 & Lcr & Ld) Ldep _ _] _].
  assert (He : entries_of (contributions_of s id) (refundable 0 (refund_list s id c))).
  { eapply entries_of_app. unfold refundable. rewrite take_drop. apply refund_list_entries. }
  pose proof (amounts_nonneg _ _ Lp He). destruct (remove_all_entries _ _ He) as [Ht Hsz].
  eapply (returned_inv X s s' id c c' _ Hc Hf Hs Hc' Hm Hn); try done; try lia.
  - replace (raised c - raised c') with (amounts (refundable 0 (refund_list s id c))) by lia.
    by eapply pays_paid_out.
  - by apply positive_remove_all.
  - exists x0. rewrite remove_all_lookup; [done|]. intros Hin.
    apply (refund_list_creator s id c). unfold refundable in Hin.
    rewrite <- (take_drop (Z.to_nat (RefundContributorsLimit - 0)) (refund_list s id c)).
    rewrite fmap_app. apply elem_of_app. by left.
Qed.

(** *** Dissolving *)

(** What is left of a crowdloan that can be dissolved is its creator's contribution. *)
Lemma dissolved_empty m c x :
  loan_ok m c -> m !! creator c = Some x -> x = raised c -> delete (creator c) m = ∅.
Proof.
  intros [] Hx ->. apply total_zero; [by apply positive_delete|].
  rewrite total_delete, Hx. simpl. lia.
Qed.

Lemma inv_remove X s s' id :
  Crowdloans s' = delete id (Crowdloans s) ->
  (forall j, contributions_of s' j = if decide (j = id) then ∅ else contributions_of s j) ->
  NextCrowdloanId s' = NextCrowdloanId s -> keeps_others id (others s) (others s') ->
  crowdloan_inv X s -> crowdloan_inv X s'.
Proof.
  intros Hc Hm Hn Hk [Hl Hi Hrecs Hnone Hnext]. split.
  - intros j c. rewrite Hc, Hm. intros [Hne Hj]%lookup_delete_Some Hf.
    rewrite decide_False by done. destruct (Hl j c Hj Hf) as [Hlo Hcov].
    split; [done|]. intros HX. specialize (Hcov HX). specialize (Hk j ltac:(done)). lia.
  - intros j c. rewrite Hc, Hn. intros [_ Hj]%lookup_delete_Some. eauto.
  - intros j c. rewrite Hc. intros [_ Hj]%lookup_delete_Some. eauto.
  - intros j. rewrite Hc, Hm. case_decide as Hj; [done|].
    rewrite lookup_delete_ne by done. auto.
  - lia.
Qed.

Lemma dissolve_inv X who id s s' :
  dissolve (Origin_Signed who) id s = Ok (tt, s') ->
  crowdloan_inv X s -> crowdloan_inv X s'.
Proof.
  intros H Hi. unfold dissolve in H. inv_loan; boolprop.
  destruct (ci_loan _ _ Hi _ _ Hr0 Hr1) as [Hl _], (ci_record _ _ Hi _ _ Hr0) as [Ha _].
  rewrite Ha in Ht. pose proof (lo_positive _ _ Hl _ _ Hr3).
  destruct (transfer_out _ _ _ _ _ Ht) as [Hk _]; [lia|].
  eapply (inv_remove X s _ id); [| | | |done]; destruct (stored_call a0); try done;
    first [intros j; rewrite <- (dissolved_empty _ _ _ Hl Hr3 Hr4); by rewrite <- contributions_of_put
          |intros j Hj; simpl; rewrite dec_providers_balance, ?drop_preimage_balance; auto].
Qed.

(** *** Finalizing *)

(** Only the state of other pallets changes. *)
Lemma inv_others X Y s s' :
  Crowdloans s' = Crowdloans s -> Contributions s' = Contributions s ->
  NextCrowdloanId s' = NextCrowdloanId s -> X ⊆ Y ->
  (forall j, j ∉ Y ->
     free_balance (sub_account j) (others s) <= free_balance (sub_account j) (others s')) ->
  crowdloan_inv X s -> crowdloan_inv Y s'.
Proof.
  intros Hc Hm Hn HXY Hb [Hl Hi Hrecs Hnone Hnext].
  assert (Hm' : forall j, contributions_of s' j = contributions_of s j)
    by (intros j; unfold contributions_of; by rewrite Hm).
  split; rewrite ?Hc, ?Hn; try done.
  - intros j c Hj Hf. rewrite Hm'. destruct (Hl j c Hj Hf) as [Hlo Hcov]. split; [done|].
    intros HY. specialize (Hb j HY). specialize (Hcov ltac:(set_solver)). lia.
  - intros j Hj. rewrite Hm'. auto.
Qed.

Lemma finalize_prepare_inv X who id c call s s1 :
  finalize_prepare who id s = Ok ((c, call), s1) -> crowdloan_inv X s ->
  crowdloan_inv (X ∪ {[id]}) s1 /\ NextCrowdloanId s1 = NextCrowdloanId s
  /\ Crowdloans s !! id = Some c /\ raised c = cap c.
Proof.
  intros H Hi. unfold finalize_prepare in H. inv_loan; boolprop; (split; [|done]).
  all: destruct (ci_loan _ _ Hi _ _ Hr Hr2) as [[Lr Lp _ _ _ _ _] _],
      (ci_record _ _ Hi _ _ Hr) as [Ha _]; pose proof (total_nonneg _ Lp).
  all: eapply (inv_others X _ s); [done|done|done|set_solver| |done]; intros j Hj; simpl;
    try lia; rewrite Ha in Ht; (destruct (transfer_out _ _ _ _ _ Ht) as [Hk _]; [lia|]);
    apply Hk; set_solver.
Qed.

Lemma finalize_complete_inv X id c s s' :
  finalize_complete id c s = Ok (tt, s') -> 0 <= id < NextCrowdloanId s ->
  funds_account c = sub_account id -> raised c = cap c ->
  crowdloan_inv (X ∪ {[id]}) s -> crowdloan_inv X s' /\ NextCrowdloanId s' = NextCrowdloanId s.
Proof.
  intros H Hid Ha Hr Hi. unfold finalize_complete in H. inv_loan.
  set (s1 := match stored_call c with Some _ => _ | None => s end).
  assert (E : Crowdloans s1 = Crowdloans s /\ Contributions s1 = Contributions s
              /\ NextCrowdloanId s1 = NextCrowdloanId s /\ others s1 = others s)
    by (unfold s1; by destruct (stored_call c)).
  clearbody s1. destruct E as (E1 & E2 & E3 & E4). split; [|done].
  match goal with |- crowdloan_inv X ?s2 =>
    assert (Hi2 : crowdloan_inv (X ∪ {[id]}) s2) end.
  { apply (inv_others _ (X ∪ {[id]}) s s1) in Hi; try done; [|intros j _; rewrite E4; lia].
    eapply (inv_write _ s1 _ id (c <| finalized := true |>) (contributions_of s1 id));
      simpl; try done; try lia; [|intros j _; simpl; lia].
    intros j. by case_decide; subst. }
  destruct Hi2 as [Hl ? ? ? ?]. split; try done. intros j c' Hj Hf.
  destruct (Hl j c' Hj Hf) as [Hlo Hcov]. split; [done|]. intros HX. apply Hcov.
  simpl in Hj. apply lookup_insert_Some in Hj as [[_ <-]|[Hne _]]; [done|set_solver].
Qed.

(** *** Runs *)

Lemma run_op_inv X who op s s' :
  external who -> run_op who op s = Ok (tt, s') -> crowdloan_inv X s -> crowdloan_inv X s'.
Proof.
  destruct op; simpl; eauto using create_inv, contribute_inv, withdraw_inv, refund_inv,
    dissolve_inv, update_min_contribution_inv, update_end_inv, update_cap_inv.
Qed.

Lemma run_op_next X who op s s' :
  run_op who op s = Ok (tt, s') -> crowdloan_inv X s -> NextCrowdloanId s <= NextCrowdloanId s'.
Proof.
  intros H Hi. destruct op; simpl in H.
  4: destruct (refund_effect X who _ s s' Hi H) as (? & ? & _ & _ & _ & _ & _ & _ & _ & -> & _);
    lia.
  all: unfold create, contribute, withdraw, dissolve, update_min_contribution, update_end,
    update_cap in H; inv_loan; boolprop; simpl; try lia.
  by destruct (stored_call _).
Qed.

Lemma runs_inv X s s' : runs X s s' -> crowdloan_inv X s ->
  crowdloan_inv X s' /\ NextCrowdloanId s <= NextCrowdloanId s'.
Proof.
  induction 1 as [X s|X s who op s1 s2 Hw Ho _ IH|X s who id c s1 s2 s3 Hw Hp Hc _ IH
    |X s who id c call s1 s2 s3 s4 Hw Hp _ IH1 Hc _ IH2|X s w s2 Hb _ IH|X s n s2 _ _ IH];
    intros Hi.
  - done.
  - pose proof (run_op_next _ _ _ _ _ Ho Hi). apply (run_op_inv X) in Ho; [|done|done].
    destruct (IH Ho). split; [done|lia].
  - destruct (finalize_prepare_inv _ _ _ _ _ _ _ Hp Hi) as (Hi1 & Hn & Hl & Hr).
    pose proof (ci_id _ _ Hi _ _ Hl). destruct (ci_record _ _ Hi _ _ Hl) as [Ha _].
    destruct (finalize_complete_inv _ _ _ _ _ Hc ltac:(lia) Ha Hr Hi1) as [Hi2 Hn2].
    destruct (IH Hi2). split; [done|lia].
  - destruct (finalize_prepare_inv _ _ _ _ _ _ _ Hp Hi) as (Hi1 & Hn & Hl & Hr).
    pose proof (ci_id _ _ Hi _ _ Hl). destruct (ci_record _ _ Hi _ _ Hl) as [Ha _].
    destruct (IH1 Hi1) as [Hi2 Hn2].
    destruct (finalize_complete_inv _ _ _ _ _ Hc ltac:(lia) Ha Hr Hi2) as [Hi3 Hn3].
    destruct (IH2 Hi3). split; [done|lia].
  - apply IH. eapply (inv_others X X s); done.
  - apply IH. eapply (inv_others X X s); done.
Qed.

Lemma genesis_inv w : crowdloan_inv ∅ (crowdloan_genesis w).
Proof. split; simpl; try (by intros ? ? [=]); try done. Qed.

Lemma crowdloans_reachable_inv w s : runs ∅ (crowdloan_genesis w) s -> crowdloan_inv ∅ s.
Proof. intros Hr. apply (runs_inv _ _ _ Hr), genesis_inv. Qed.

Lemma visits_inv w X s : visits (crowdloan_genesis w) X s -> crowdloan_inv X s.
Proof.
  induction 1 as [|X s s' _ IH Hr|X s who id c call s' _ IH Hw Hp]; [apply genesis_inv|by apply (runs_inv _ _ _ Hr)|].
  by destruct (finalize_prepare_inv _ _ _ _ _ _ _ Hp IH).
Qed.

(** *** Finalized crowdloans *)

(** Only the crowdloan [id], which is not finalized, is touched. *)
Definition touches (id : Z) s s' : Prop :=
  (forall j, j <> id -> Crowdloans s' !! j = Crowdloans s !! j)
  /\ keeps_others id (others s) (others s')
  /\ (forall c, Crowdloans s !! id = Some c -> finalized c = false).

Lemma touches_intro id c c' s s' :
  Crowdloans s !! id = Some c -> finalized c = false ->
  Crowdloans s' = <[id := c']> (Crowdloans s) -> keeps_others id (others s) (others s') ->
  touches id s s'.
Proof.
  intros Hc Hf Hc' Hk. split; [|split; [done|congruence]].
  intros j Hj. rewrite Hc'. by apply lookup_insert_ne.
Qed.

Lemma keeps_others_refl id w : keeps_others id w w.
Proof. intros j _. lia. Qed.

Lemma touch_create X who d m cp e call t s s' :
  external who -> create (Origin_Signed who) d m cp e call t s = Ok (tt, s') ->
  crowdloan_inv X s -> exists id, touches id s s'.
Proof.
  intros Hw H Hi. exists (NextCrowdloanId s).
  pose proof (co_deposit Hok). destruct (next_fresh X s Hi) as [Hn _].
  unfold create in H. inv_loan; boolprop; (split; [|split; [|congruence]]).
  all: try (intros j Hj; simpl; by apply lookup_insert_ne).
  all: destruct (transfer_in _ _ _ _ _ Ht Hw) as [Hk _]; [lia|];
    intros j Hj; simpl; etrans; [|by apply Hk]; simpl;
    rewrite ?(bound_balance _ _ _ _ _ Ho); simpl; by rewrite inc_providers_balance.
Qed.

Lemma touch_contribute X who id x s s' :
  external who -> contribute (Origin_Signed who) id x s = Ok (tt, s') ->
  crowdloan_inv X s -> touches id s s'.
Proof.
  intros Hwho H Hi. pose proof (co_contribution Hok).
  unfold contribute in H. inv_loan; boolprop; destruct Hr6 as [-> _];
    pose proof (unfinalized X s id a1 Hi Hr1 Hr3) as Hf;
    destruct (ci_loan _ _ Hi _ _ Hr1 Hf) as [[] _], (ci_record _ _ Hi _ _ Hr1) as [Ha _];
    simpl in Ht; rewrite Ha in Ht;
    (destruct (transfer_in _ _ _ _ _ Ht Hwho) as [Hk _]; [lia|]);
    by eapply touches_intro.
Qed.

Lemma touch_withdraw X who id s s' :
  withdraw (Origin_Signed who) id s = Ok (tt, s') -> crowdloan_inv X s -> touches id s s'.
Proof.
  intros H Hi. unfold withdraw in H. inv_loan; boolprop;
    destruct (ci_record _ _ Hi _ _ Hr0) as [Ha _]; simpl in Ht; rewrite Ha in Ht;
    (destruct (transfer_out _ _ _ _ _ Ht) as [Hk _]; [lia|]);
    by eapply touches_intro.
Qed.

Lemma touch_refund X who id s s' :
  refund (Origin_Signed who) id s = Ok (tt, s') -> crowdloan_inv X s -> touches id s s'.
Proof.
  intros H Hi. destruct (refund_effect X who id s s' Hi H)
    as (c & c' & Hc & Hf & _ & _ & _ & _ & Hc' & _ & _ & Hp & _).
  destruct (ci_loan _ _ Hi _ _ Hc Hf) as [[] _].
  eapply touches_intro; [done..|].
  eapply (pays_paid_out id (contributions_of s id)); [done| |done].
  eapply entries_of_app. unfold refundable. rewrite take_drop. apply refund_list_entries.
Qed.

Lemma touch_dissolve X who id s s' :
  dissolve (Origin_Signed who) id s = Ok (tt, s') -> crowdloan_inv X s -> touches id s s'.
Proof.
  intros H Hi. unfold dissolve in H. inv_loan; boolprop.
  destruct (ci_loan _ _ Hi _ _ Hr0 Hr1) as [Hl _], (ci_record _ _ Hi _ _ Hr0) as [Ha _].
  rewrite Ha in Ht. pose proof (lo_positive _ _ Hl _ _ Hr3).
  destruct (transfer_out _ _ _ _ _ Ht) as [Hk _]; [lia|].
  split; [|split; [|congruence]]; intros j Hj; destruct (stored_call a0); simpl;
    rewrite ?dec_providers_balance, ?drop_preimage_balance; auto; by apply lookup_delete_ne.
Qed.

Lemma touch_run_op X who op s s' :
  external who -> run_op who op s = Ok (tt, s') -> crowdloan_inv X s -> exists id, touches id s s'.
Proof.
  intros Hw H Hi. destruct op; simpl in H;
    try (eexists; eauto using touch_contribute, touch_withdraw, touch_refund, touch_dissolve;
         fail).
  - by eapply touch_create.
  - eexists. unfold update_min_contribution in H. inv_loan.
    by eapply touches_intro; [..|apply keeps_others_refl].
  - eexists. unfold update_end in H. inv_loan.
    by eapply touches_intro; [..|apply keeps_others_refl].
  - eexists. unfold update_cap in H. inv_loan.
    by eapply touches_intro; [..|apply keeps_others_refl].
Qed.

Lemma finalize_prepare_effect X who id c call s s1 :
  finalize_prepare who id s = Ok ((c, call), s1) -> crowdloan_inv X s ->
  Crowdloans s !! id = Some c /\ finalized c = false /\ Crowdloans s1 = Crowdloans s
  /\ keeps_others id (others s) (others s1)
  /\ (target_address c = None -> others s1 = others s).
Proof.
  intros H Hi. unfold finalize_prepare in H. inv_loan; boolprop;
    (split; [done|]); (split; [done|]); (split; [done|]);
    destruct (ci_loan _ _ Hi _ _ Hr Hr2) as [[Lr Lp _ _ _ _ _] _],
      (ci_record _ _ Hi _ _ Hr) as [Ha _]; pose proof (total_nonneg _ Lp);
    try (split; [apply keeps_others_refl|done]); (split; [|congruence]);
    rewrite Ha in Ht; (destruct (transfer_out _ _ _ _ _ Ht) as [Hk _]; [lia|exact Hk]).
Qed.

Lemma finalize_complete_effect id c s s' :
  finalize_complete id c s = Ok (tt, s') ->
  Crowdloans s' = <[id := c <| finalized := true |>]> (Crowdloans s) /\ others s' = others s.
Proof. intros H. unfold finalize_complete in H. inv_loan. by destruct (stored_call c). Qed.

(** The record and the balance of a finalized crowdloan. *)
Definition keeps_final (id : Z) (c : CrowdloanInfo B) s s' : Prop :=
  Crowdloans s' !! id = Some c
  /\ free_balance (sub_account id) (others s) <= free_balance (sub_account id) (others s').

Lemma keeps_final_trans id c s1 s2 s3 :
  keeps_final id c s1 s2 -> (Crowdloans s2 !! id = Some c -> keeps_final id c s2 s3) ->
  keeps_final id c s1 s3.
Proof. intros [H1 H2] H. destruct (H H1) as [H3 H4]. split; [done|lia]. Qed.

Lemma keeps_final_frame id j c s s' :
  (Crowdloans s' !! j = Crowdloans s !! j) -> keeps_others id (others s) (others s') ->
  j <> id -> Crowdloans s !! j = Some c -> keeps_final j c s s'.
Proof. intros E Hk Hj Hc. split; [congruence|auto]. Qed.

Lemma runs_final X s s' : runs X s s' -> crowdloan_inv X s -> forall id c, id ∉ X ->
  Crowdloans s !! id = Some c -> finalized c = true -> keeps_final id c s s'.
Proof.
  induction 1 as [X s|X s who op s1 s2 Hw Ho _ IH|X s who id0 c0 s1 s2 s3 Hw Hp Hco Hr IH
    |X s who id0 c0 call s1 s2 s3 s4 Hw Hp Hr1 IH1 Hco Hr2 IH2|X s w s2 Hb _ IH
    |X s n s2 _ _ IH]; intros Hi id c HX Hc Hf.
  - split; [done|lia].
  - destruct (touch_run_op X who op s s1 Hw Ho Hi) as (id0 & Ht & Hk & Hun).
    apply (keeps_final_trans id c s s1); [|eauto using run_op_inv].
    assert (id <> id0) by (intros ->; apply Hun in Hc; congruence).
    eapply keeps_final_frame; eauto.
  - destruct (finalize_prepare_inv _ _ _ _ _ _ _ Hp Hi) as (Hi1 & Hn & Hl & Hr0).
    pose proof (ci_id _ _ Hi _ _ Hl). destruct (ci_record _ _ Hi _ _ Hl) as [Ha _].
    destruct (finalize_complete_inv _ _ _ _ _ Hco ltac:(lia) Ha Hr0 Hi1) as [Hi2 _].
    destruct (finalize_prepare_effect _ _ _ _ _ _ _ Hp Hi) as (_ & Hf0 & E1 & Hk & _).
    destruct (finalize_complete_effect _ _ _ _ Hco) as [E2 E3].
    assert (id <> id0) by congruence.
    apply (keeps_final_trans id c s s2); [|eauto].
    eapply (keeps_final_frame id0); [|by rewrite E3|done|done].
    rewrite E2, E1. by apply lookup_insert_ne.
  - destruct (finalize_prepare_inv _ _ _ _ _ _ _ Hp Hi) as (Hi1 & Hn & Hl & Hr0).
    pose proof (ci_id _ _ Hi _ _ Hl). destruct (ci_record _ _ Hi _ _ Hl) as [Ha _].
    destruct (runs_inv _ _ _ Hr1 Hi1) as [Hi2 Hn2].
    destruct (finalize_complete_inv _ _ _ _ _ Hco ltac:(lia) Ha Hr0 Hi2) as [Hi3 _].
    destruct (finalize_prepare_effect _ _ _ _ _ _ _ Hp Hi) as (_ & Hf0 & E1 & Hk & _).
    destruct (finalize_complete_effect _ _ _ _ Hco) as [E2 E3].
    assert (id <> id0) by congruence.
    apply (keeps_final_trans id c s s1); [eapply (keeps_final_frame id0); by rewrite ?E1|].
    intros Hc1. apply (keeps_final_trans id c s1 s2); [apply IH1; auto; set_solver|].
    intros Hc2. apply (keeps_final_trans id c s2 s3); [|eauto].
    eapply (keeps_final_frame id0); [|rewrite E3; apply keeps_others_refl|done|done].
    rewrite E2. by apply lookup_insert_ne.
  - apply (keeps_final_trans id c s (s <| others := w |>)); [split; [done|by apply Hb]|].
    intros _. apply IH; auto. eapply (inv_others X X s); done.
  - apply (IH ltac:(eapply (inv_others X X s); done)); done.
Qed.

(** ** Guarantees *)

(** C20 At every moment, also while stored calls are running, a crowdloan that is not finalized
    has raised exactly the sum of its contributions, at most its cap, counts its contributors
    exactly and keeps the deposit of its creator; and its account holds at least what was
    raised, unless its own stored call is running, in [X], which may spend it. *)
Theorem crowdloan_funds_covered w X s id c :
  visits (crowdloan_genesis w) X s -> Crowdloans s !! id = Some c -> finalized c = false ->
  raised c = total (contributions_of s id) /\ raised c <= cap c
  /\ contributors_count c = Z.of_nat (size (contributions_of s id))
  /\ (exists x, contributions_of s id !! creator c = Some x /\ deposit c <= x)
  /\ funds_account c = sub_account id
  /\ (id ∉ X -> raised c <= free_balance (sub_account id) (others s)).
Proof.
  intros Hr Hc Hf. apply visits_inv in Hr as Hi.
  destruct (ci_loan _ _ Hi _ _ Hc Hf) as [[] Hcov], (ci_record _ _ Hi _ _ Hc) as [Ha _].
  repeat split; done.
Qed.

(** What a contributor can withdraw, and the contributions that are left then. *)
Definition withdrawable (c : CrowdloanInfo B) (who : AccountId) (x : Z) : Z :=
  if decide (who = creator c) then x - deposit c else x.
Definition after_withdrawal (c : CrowdloanInfo B) (who : AccountId) (m : gmap AccountId Z) :=
  if decide (who = creator c) then <[who := deposit c]> m else delete who m.

Lemma withdraw_run s id c who x w' :
  Crowdloans s !! id = Some c -> finalized c = false ->
  contributions_of s id !! who = Some x -> 0 < x -> 0 < withdrawable c who x ->
  1 <= contributors_count c -> withdrawable c who x <= raised c ->
  transfer (funds_account c) who (withdrawable c who x) (others s) = Ok w' ->
  exists s' c', withdraw (Origin_Signed who) id s = Ok (tt, s') /\ others s' = w'
    /\ contributions_of s' id = after_withdrawal c who (contributions_of s id)
    /\ Crowdloans s' !! id = Some c' /\ same_terms c c'
    /\ raised c' = raised c - withdrawable c who x.
Proof.
  intros Hc Hf Hx Hpos Hy Hcnt Hle Ht.
  unfold withdraw, abind, check, asks, modify, ret. simpl.
  unfold ensure_crowdloan_exists. rewrite Hc. simpl. rewrite Hf. simpl. rewrite Hx. simpl.
  rewrite (proj2 (Z.ltb_lt _ _) Hpos). simpl.
  unfold withdrawable, after_withdrawal in *.
  destruct (decide (who = creator c)) as [->|Hne]; unfold saturating_sub in *.
  - rewrite Z.max_l by lia. rewrite (proj2 (Z.ltb_lt _ _) Hy). simpl.
    unfold currency_transfer, others_get. simpl. rewrite Ht. simpl.
    eexists _, _. split; [done|]. split; [done|].
    split; [by etrans; [apply contributions_of_put|]; rewrite decide_True|].
    split; [apply lookup_insert_eq|]. split; [done|]. simpl. lia.
  - unfold checked_sub. destruct (Z.leb_spec 1 (contributors_count c)); [|lia]. simpl.
    unfold currency_transfer, others_get. simpl. rewrite Ht. simpl.
    eexists _, _. split; [done|]. split; [done|].
    split; [by etrans; [apply contributions_of_put|]; rewrite decide_True|].
    split; [apply lookup_insert_eq|]. split; [done|]. simpl. unfold saturating_sub. lia.
Qed.

(** C21 Until a crowdloan is finalized a contributor gets back all they have put in (the
    creator: all but the deposit), at any time between calls: if the contributor is no crowdloan
    account, there is something to withdraw, nothing freezes the crowdloan's account and the
    contributor's balance reaches the existential deposit with the payment, then [withdraw]
    succeeds, pays exactly that amount, removes the contribution and lowers the raised amount. *)
Theorem withdraw_returns w s id c who x :
  runs ∅ (crowdloan_genesis w) s -> external who ->
  Crowdloans s !! id = Some c -> finalized c = false ->
  contributions_of s id !! who = Some x -> 0 < withdrawable c who x ->
  free_balance (sub_account id) (others s) <= spendable (sub_account id) (others s) ->
  existential_deposit <= free_balance who (others s) + withdrawable c who x ->
  exists s' c', withdraw (Origin_Signed who) id s = Ok (tt, s')
    /\ free_balance who (others s') = free_balance who (others s) + withdrawable c who x
    /\ contributions_of s' id = after_withdrawal c who (contributions_of s id)
    /\ Crowdloans s' !! id = Some c' /\ same_terms c c'
    /\ raised c' = raised c - withdrawable c who x.
Proof.
  intros Hr Hw Hc Hf Hx Hy Hsp Hex. apply crowdloans_reachable_inv in Hr as Hi.
  destruct (ci_loan _ _ Hi _ _ Hc Hf) as [[] Hcov], (ci_record _ _ Hi _ _ Hc) as [Ha _].
  specialize (Hcov (not_elem_of_empty _)). pose proof (total_entry _ _ _ lo_positive0 Hx).
  pose proof (lo_positive0 _ _ Hx). pose proof (co_deposit Hok).
  assert (Hle : withdrawable c who x <= raised c)
    by (unfold withdrawable in *; case_decide; lia).
  assert (1 <= contributors_count c).
  { assert (size (contributions_of s id) <> 0)%nat; [|lia].
    apply map_size_non_empty_iff. intros E. by rewrite E in Hx. }
  destruct (transfer_total (sub_account id) who (withdrawable c who x) (others s))
    as [w' Ht]; [lia|done|]. rewrite <- Ha in Ht.
  destruct (withdraw_run s id c who x w') as (s' & c' & Hrun & Hw' & Heff); try done.
  exists s', c'. split; [done|]. split; [|done].
  rewrite Hw'. eapply transfer_dest; [done|]. rewrite Ha. intros E. by apply (Hw id).
Qed.

Lemma refund_list_complete s id c a y :
  contributions_of s id !! a = Some y -> a <> creator c -> (a, y) ∈ refund_list s id c.
Proof.
  intros Hy Ha. unfold refund_list. rewrite list_elem_of_In, filter_In, <- list_elem_of_In.
  rewrite iter_prefix_entries, elem_of_map_to_list. by rewrite bool_decide_false.
Qed.

(** Whether [refund] reached everybody shows in what is left. *)
Lemma refund_left s id c x :
  contributions_of s id !! creator c = Some x ->
  let l := refundable 0 (refund_list s id c) in
  let m' := remove_all (contributions_of s id) l.*1 in
  if decide (l = refund_list s id c) then m' = {[creator c := x]}
  else length l = Z.to_nat RefundContributorsLimit
       /\ exists a y, a <> creator c /\ m' !! a = Some y.
Proof.
  intros Hx l m'. pose proof (refund_list_entries s id c) as [Hd He].
  pose proof (refund_list_creator s id c) as Hcr. case_decide as Hl.
  - subst m'. rewrite Hl. apply map_eq. intros a.
    destruct (decide (a = creator c)) as [->|Ha].
    + by rewrite lookup_singleton_eq, remove_all_lookup.
    + rewrite lookup_singleton_ne by done.
      destruct (decide (a ∈ (refund_list s id c).*1)); [by apply remove_all_in|].
      rewrite remove_all_lookup by done. apply eq_None_not_Some. intros [y Hy].
      apply (refund_list_complete _ _ c) in Hy; [|done].
      by apply (list_elem_of_fmap_2 fst) in Hy.
  - subst l m'. unfold refundable in *. rewrite Z.sub_0_r in *. set (k := Z.to_nat _) in *.
    assert (Hk : (k < length (refund_list s id c))%nat).
    { apply not_ge. intros Hk. by apply Hl, take_ge. }
    split; [apply length_take_le; lia|].
    destruct (drop k (refund_list s id c)) as [|[a y] rest] eqn:Hdrop.
    { apply (f_equal length) in Hdrop. rewrite length_drop in Hdrop. simpl in Hdrop. lia. }
    pose proof (take_drop k (refund_list s id c)) as Happ. rewrite Hdrop in Happ.
    assert (Hin : (a, y) ∈ refund_list s id c)
      by (rewrite <- Happ; apply elem_of_app; right; by left).
    exists a, y. split; [intros ->; by apply Hcr, (list_elem_of_fmap_2 fst _ _ Hin)|].
    rewrite remove_all_lookup; [by apply He|].
    rewrite <- Happ, fmap_app in Hd. apply NoDup_app in Hd as (_ & Hd & _).
    intros Ha. apply (Hd a Ha). by left.
Qed.

(** What a successful [refund] does.  Only the creator can call it; a list [l] of entries
    of contributors other than the creator is paid from the crowdloan's account, one transfer
    each; exactly these contributions are removed and the raised amount is lowered by their
    sum; and the event is [AllRefunded] if only the creator's contribution is left, else
    [PartiallyRefunded], after as many transfers as the limit allows. *)
Theorem refund_pays_back w s id who s' :
  runs ∅ (crowdloan_genesis w) s -> refund (Origin_Signed who) id s = Ok (tt, s') ->
  exists c c' l x,
    Crowdloans s !! id = Some c /\ who = creator c /\ finalized c = false
    /\ contributions_of s id !! creator c = Some x
    /\ entries_of (delete (creator c) (contributions_of s id)) l
    /\ pays (sub_account id) l (others s) (others s')
    /\ contributions_of s' id = remove_all (contributions_of s id) l.*1
    /\ Crowdloans s' !! id = Some c' /\ same_terms c c' /\ raised c' = raised c - amounts l
    /\ ((crowdloan_events s' = crowdloan_events s ++ [CrowdloanEvent_AllRefunded id]
         /\ contributions_of s' id = {[creator c := x]})
        \/ (crowdloan_events s' = crowdloan_events s ++ [CrowdloanEvent_PartiallyRefunded id]
            /\ length l = Z.to_nat RefundContributorsLimit
            /\ exists a y, a <> creator c /\ contributions_of s' id !! a = Some y)).
Proof.
  intros Hr H. apply crowdloans_reachable_inv in Hr as Hi. destruct (refund_effect _ _ _ _ _ Hi H)
    as (c & c' & Hc & Hf & Hwho & Hs & Hra & _ & Hc' & _ & Hm & Hp & He).
  destruct (ci_loan _ _ Hi _ _ Hc Hf) as [[_ _ _ (x & Hx & _) _ _ _] _].
  pose proof (refund_left s id c x Hx) as Hleft. simpl in Hleft.
  exists c, c', (refundable 0 (refund_list s id c)), x.
  specialize (Hm id). rewrite decide_True in Hm by done. rewrite Hm, Hc', lookup_insert_eq.
  repeat (split; [done|]). split; [|repeat (split; [done|])].
  - eapply entries_of_app. unfold refundable. rewrite take_drop.
    destruct (refund_list_entries s id c) as [Hd Hl]. split; [done|].
    intros a y Hay. rewrite lookup_delete_ne; [by apply Hl|]. intros <-.
    by apply (refund_list_creator s id c), (list_elem_of_fmap_2 fst _ _ Hay).
  - case_decide; [by left|]. right. split; [done|]. exact Hleft.
Qed.

(** A crowdloan that names neither a target nor a call can be created, and when it is
    finalized its funds stay in its account for good: the record never changes again, no
    operation of the pallet takes anything from the account, and nobody signs for it. *)
Theorem finalized_without_target_keeps_funds w s id c who s1 s2 :
  runs ∅ (crowdloan_genesis w) s -> Crowdloans s !! id = Some c ->
  target_address c = None -> stored_call c = None ->
  finalize (Origin_Signed who) id s = Ok (tt, s1) -> runs ∅ s1 s2 ->
  Crowdloans s2 !! id = Some (c <| finalized := true |>) /\ raised c = cap c
  /\ raised c <= free_balance (sub_account id) (others s2).
Proof.
  intros Hr Hc Ht Hsc H Hr2. apply crowdloans_reachable_inv in Hr as Hi. unfold finalize in H.
  rewrite abind_Ok in H. destruct H as (who' & s0 & [_ ->]%check_Ok & H).
  rewrite abind_Ok in H. destruct H as ([c0 call] & s3 & Hp & H).
  destruct (finalize_prepare_inv _ _ _ _ _ _ _ Hp Hi) as (Hi1 & Hn & Hl & Hrc).
  destruct (finalize_prepare_effect _ _ _ _ _ _ _ Hp Hi) as (_ & Hf & E1 & _ & Ho).
  simplify_eq. assert (call = None) as -> by (unfold finalize_prepare in Hp; inv_loan; congruence).
  rewrite abind_Ok in H. destruct H as ([] & s4 & Hret & H). inv_run.
  pose proof (ci_id _ _ Hi _ _ Hc). destruct (ci_record _ _ Hi _ _ Hc) as [Ha _].
  destruct (finalize_complete_inv _ _ _ _ _ H ltac:(lia) Ha Hrc Hi1) as [Hi2 _].
  destruct (finalize_complete_effect _ _ _ _ H) as [E2 E3].
  destruct (ci_loan _ _ Hi _ _ Hc Hf) as [_ Hcov]. specialize (Hcov (not_elem_of_empty _)).
  destruct (runs_final _ _ _ Hr2 Hi2 id (c <| finalized := true |>)) as [Hc2 Hb];
    [set_solver|rewrite E2; apply lookup_insert_eq|done|].
  rewrite E3, (Ho Ht) in Hb. repeat split; [done..|lia].
Qed.

End Invariant.
