(* ===== verification/RuntimeWitnesses.v ===== *)
(** * The shield queue, the privacy filters and crowdloans on concrete runs

    Each theorem about them that has hypotheses, applied to a small chain. *)

From S2P Require Import Prelude Protocol PostQuantum Pallet PalletCalls.
From S2P Require Import Shield ShieldQueue RuntimeCalls Crowdloan CrowdloanSafety.
From stdpp Require Import base tactics list gmap strings list_numbers relations.
From Stdlib Require Import ZArith Lia.
Open Scope Z_scope.

(** ** The shield queue *)

Module ShieldRun.

(** No ciphertext parses and no bytes decode as a call: neither is needed here. *)
#[local] Instance crypto : ShieldCrypto := {|
  ShieldedTransaction_parse _ := None;
  kem_ciphertext_ok _ := false;
  twox_128 bytes := bytes;
  MLKEM768_ENC_KEY_LEN := 1184;
|}.
#[local] Instance codec : RuntimeCodec := {|
  decode_all_with_depth_limit _ _ := None;
  decode_with_depth_limit _ _ := None;
|}.

Definition store : Type := ShieldStore unit Z.

(** Dispatching changes nothing. *)
Definition dispatch (call : RuntimeCall) (origin : RuntimeOrigin) (s : store) :
    store * result Z (option Weight) := (s, Ok None).

(** The runtime as it is configured. *)
Definition configured : ShieldRuntime RuntimeCall unit Z :=
  runtime_shield (fun _ => from_parts 1 0) dispatch (fun _ => 0) 1 1
    (fun _ => None) (fun _ => None).

(** A runtime that decrypts every queued call to the same one. *)
Definition decrypting : ShieldRuntime RuntimeCall unit Z := {|
  decrypt _ := Some (RuntimeCall_System (SystemCall_other 0));
  QueueCallFilter := ShieldQueueCallFilter_contains;
  origin_for := ShieldRuntimeQueueOrigin_origin_for;
  is_sub_type _ := None;
  call_weight _ := from_parts 1 0;
  dispatch_call := dispatch;
  module_error _ := 0;
  db_read := 1;
  db_write := 1;
  find_current_author _ := None;
  find_next_next_author _ := None;
|}.

(** Two calls are queued, and root leaves no weight for the queue. *)
Definition queue_calls : list (RuntimeOrigin * ShieldCall) :=
  [(Origin_Signed [1], ShieldCall_store_encrypted [7]);
   (Origin_Signed [2], ShieldCall_store_encrypted [8]);
   (Origin_Root, ShieldCall_set_on_initialize_weight 0)].

Section Run.
Context {SR : ShieldRuntime RuntimeCall unit Z}.
Hypothesis Hsame : dispatch_call = dispatch.

Definition run_queue_call (s : store) (p : RuntimeOrigin * ShieldCall) : store :=
  match run_shield_call (fst p) (snd p) s with Ok (_, s') => s' | Err _ => s end.
Definition queued : store := foldl run_queue_call (shield_genesis tt) queue_calls.

Lemma run_queue_calls s l : rtc shield_chain_step s (foldl run_queue_call s l).
Proof.
  revert s. induction l as [|[o c] l IH]; intros s; simpl; [done|].
  unfold run_queue_call at 2; simpl. destruct (run_shield_call o c s) as [[[] s']|] eqn:E; [|auto].
  eapply rtc_l; [|apply IH]. apply shield_chain_call. by eapply shield_step_call.
Qed.

Lemma queued_reachable : shield_reachable queued.
Proof. exists tt. apply run_queue_calls. Qed.

Lemma dispatch_steps call origin (s s' : store) r :
  dispatch_call call origin s = (s', r) -> rtc shield_step s s'.
Proof. rewrite Hsame. intros [= <- _]. done. Qed.

End Run.

Lemma queue_is_interval_witness :
  interval
    (NextPendingExtrinsicIndex (queued (SR := configured)) - pending_count (queued (SR := configured)))
    (queued (SR := configured)).
Proof.
  exact (queue_is_interval (SR := configured)
    (dispatch_steps (SR := configured) eq_refl) _ queued_reachable eq_refl).
Defined.

Definition first_entry : PendingExtrinsic :=
  {| pe_who := [1]; encrypted_call := [7]; pe_submitted_at := 0 |}.

Lemma on_initialize_drops_stale_witness :
  5 - pe_submitted_at first_entry
  <= ExtrinsicLifetime (on_initialize (SR := decrypting) 5 (queued (SR := decrypting))).
Proof.
  refine (on_initialize_drops_stale (SR := decrypting)
    (dispatch_steps (SR := decrypting) eq_refl) _ 5 0 first_entry queued_reachable _ _ _ _);
    vm_compute; try discriminate; reflexivity.
Defined.

Lemma queue_without_decryptor_inert_witness :
  PendingExtrinsics (on_initialize (SR := configured) 5 (queued (SR := configured))) = ∅
  /\ world (on_initialize (SR := configured) 5 (queued (SR := configured)))
     = world (queued (SR := configured)).
Proof.
  refine (queue_without_decryptor_inert (SR := configured)
    (dispatch_steps (SR := configured) eq_refl) (fun _ => eq_refl) _ 5 queued_reachable _ _);
    vm_compute; try discriminate; reflexivity.
Defined.

(** A batch with one Qubitum call, from the queue. *)
Definition private_call : Call := Call_deactivate_miner 0.
Definition private_batch : RuntimeCall :=
  RuntimeCall_Utility (UtilityCall_batch [RuntimeCall_Qubitum private_call]).

Lemma queue_calls_stay_shielded_witness :
  ShieldRuntimeQueueOrigin_origin_for (queued (SR := configured)) [1] private_batch
    = Origin_Shielded [1]
  /\ rtc passes_origin private_batch (RuntimeCall_Qubitum private_call).
Proof.
  refine (proj1 (queue_calls_stay_shielded (queued (SR := configured)) [1] private_batch private_call _) _).
  - vm_compute. reflexivity.
  - eapply rtc_once. unfold carries. simpl. left.
Defined.

End ShieldRun.

(** ** Crowdloans *)

Module CrowdloanRun.

(** *** A ledger

    Free balances only; a transfer that would leave less than the existential deposit
    empties the source. *)
Abbreviation ledger := (gmap AccountId N).
Definition balance (a : AccountId) (w : ledger) : Z := Z.of_N (default 0%N (w !! a)).

Definition keep_alive (rest : Z) : Z := if rest <? EXISTENTIAL_DEPOSIT then 0 else rest.

Definition pay (a b : AccountId) (x : Z) (w : ledger) : result Z ledger :=
  if (x <? 0) || (balance a w <? x) then Err 1
  else if decide (a = b) then Ok w
  else if balance b w + x <? EXISTENTIAL_DEPOSIT then Err 2
  else Ok (<[b := Z.to_N (balance b w + x)]>
             (<[a := Z.to_N (keep_alive (balance a w - x))]> w)).

Definition account_of (id : Z) : AccountId := [0; id].
#[local] Instance config : CrowdloanConfig := runtime_crowdloan account_of.

(** There are no preimages and no calls to dispatch. *)
#[local] Instance services : CrowdloanRuntime ledger unit unit := {|
  free_balance := balance;
  transfer := pay;
  inc_providers _ w := w;
  dec_providers _ w := w;
  bound _ w := Ok (tt, w);
  peek _ _ := None;
  drop_preimage _ w := w;
  iter_prefix m := map_to_list m;
  dispatch_signed _ _ _ := Err 3;
|}.

Lemma pay_Ok a b x w w' : pay a b x w = Ok w' ->
  0 <= x <= balance a w
  /\ (a = b /\ w' = w
      \/ a <> b /\ w' = <[b := Z.to_N (balance b w + x)]>
                          (<[a := Z.to_N (keep_alive (balance a w - x))]> w)).
Proof.
  unfold pay. destruct (Z.ltb_spec x 0); [done|]. destruct (Z.ltb_spec (balance a w) x); [done|].
  simpl. case_decide; [by intros [= <-]; auto|].
  destruct (Z.ltb_spec (balance b w + x) EXISTENTIAL_DEPOSIT); [done|].
  intros [= <-]. auto.
Qed.

Lemma balance_insert a b n w : balance a (<[b := n]> w)
  = if decide (a = b) then Z.of_N n else balance a w.
Proof.
  unfold balance. case_decide as Hab; [subst; by rewrite lookup_insert_eq|].
  by rewrite lookup_insert_ne.
Qed.

Lemma balance_nonneg a w : 0 <= balance a w.
Proof. unfold balance. lia. Qed.

#[local] Program Instance laws : CrowdloanLaws ledger unit unit := {|
  existential_deposit := EXISTENTIAL_DEPOSIT;
  spendable := balance;
  free_balance_nonneg := balance_nonneg;
|}.
Next Obligation. simpl. intros a x w w' [_ [[_ ->]|[? _]]]%pay_Ok; done. Qed.
Next Obligation.
  simpl. intros a b x w w' [Hx [[? _]|[Hab ->]]]%pay_Ok Hne; [done|].
  rewrite balance_insert, decide_True by done. pose proof (balance_nonneg b w). lia.
Qed.
Next Obligation.
  simpl. intros a b x w w' [Hx [[? _]|[Hab ->]]]%pay_Ok Hne; [done|].
  rewrite !balance_insert, decide_False, decide_True by done. unfold keep_alive.
  destruct (Z.ltb_spec (balance a w - x) EXISTENTIAL_DEPOSIT); [right|left]; lia.
Qed.
Next Obligation.
  simpl. intros a b d x w w' [Hx [[_ ->]|[_ ->]]]%pay_Ok Ha Hb; [lia|].
  rewrite !balance_insert, !decide_False by done. lia.
Qed.
Next Obligation.
  simpl. intros a b x w Hx Hex. unfold pay.
  destruct (Z.ltb_spec x 0); [lia|]. destruct (Z.ltb_spec (balance a w) x); [lia|]. simpl.
  case_decide; [eauto|]. destruct (Z.ltb_spec (balance b w + x) EXISTENTIAL_DEPOSIT); [lia|eauto].
Qed.
Next Obligation. done. Qed.
Next Obligation. done. Qed.
Next Obligation. simpl. by intros _ w b w' d [= _ <-]. Qed.
Next Obligation. done. Qed.
Next Obligation. done. Qed.

Lemma config_fits : crowdloan_config_ok (C := ledger) (RC := unit) (B := unit).
Proof. split; [intros i j; by intros [= ->]|done|done|done]. Qed.

(** *** A run: two accounts fill a crowdloan with neither target nor call *)

Definition founder : AccountId := [1].
Definition backer : AccountId := [2].
Definition wealth : ledger :=
  <[founder := 50_000_000_000%N]> (<[backer := 50_000_000_000%N]> ∅).

Abbreviation loan_store := (CrowdloanStore ledger unit).

Definition loan_ops : list (AccountId * CrowdloanOp (RC := unit)) :=
  [(founder, CrowdloanOp_create 10_000_000_000 100_000_000 30_000_000_000 60_000 None None);
   (backer, CrowdloanOp_contribute 0 25_000_000_000)].

Definition run_loan_op (s : loan_store) (p : AccountId * CrowdloanOp) : loan_store :=
  match run_op (fst p) (snd p) s with Ok (_, s') => s' | Err _ => s end.
Definition full : loan_store := foldl run_loan_op (crowdloan_genesis wealth) loan_ops.

Lemma loan_ops_external : Forall (fun p => external (fst p)) loan_ops.
Proof. repeat constructor; intros id; discriminate. Qed.

Lemma run_loan_ops s l : Forall (fun p => external (fst p)) l ->
  runs ∅ s (foldl run_loan_op s l).
Proof.
  intros Hl. revert s. induction Hl as [|[who op] l Hw _ IH]; intros s; simpl; [constructor|].
  unfold run_loan_op at 2; simpl. destruct (run_op who op s) as [[[] s']|] eqn:E; [|auto].
  eapply runs_op; [exact Hw|exact E|apply IH].
Qed.

Lemma full_reachable : runs ∅ (crowdloan_genesis wealth) full.
Proof. apply run_loan_ops, loan_ops_external. Qed.

(** The crowdloan of the run. *)
Definition the_loan : CrowdloanInfo unit := {|
  creator := founder; deposit := 10_000_000_000; min_contribution := 100_000_000;
  end_block := 60_000; cap := 30_000_000_000; funds_account := account_of 0;
  raised := 30_000_000_000; target_address := None; stored_call := None;
  finalized := false; contributors_count := 2 |}.

Lemma the_loan_full : Crowdloans full !! 0 = Some the_loan.
Proof. vm_compute. reflexivity. Qed.

Lemma crowdloan_funds_covered_witness :
  raised the_loan = CrowdloanSafety.total (contributions_of full 0) /\ raised the_loan <= cap the_loan
  /\ contributors_count the_loan = Z.of_nat (size (contributions_of full 0))
  /\ (exists x, contributions_of full 0 !! creator the_loan = Some x /\ deposit the_loan <= x)
  /\ funds_account the_loan = sub_account 0
  /\ (0 ∉ (∅ : gset Z) -> raised the_loan <= free_balance (sub_account 0) (others full)).
Proof.
  exact (crowdloan_funds_covered config_fits wealth ∅ full 0 the_loan
           (visits_runs _ _ _ _ (visits_start _) full_reachable) the_loan_full eq_refl).
Defined.

Lemma withdraw_returns_witness :
  exists s' c', withdraw (Origin_Signed backer) 0 full = Ok (tt, s')
    /\ free_balance backer (others s') = 50_000_000_000
    /\ contributions_of s' 0 = after_withdrawal the_loan backer (contributions_of full 0)
    /\ Crowdloans s' !! 0 = Some c' /\ same_terms the_loan c'
    /\ raised c' = raised the_loan - 20_000_000_000.
Proof.
  refine (withdraw_returns config_fits wealth full 0 the_loan backer 20_000_000_000
            full_reachable _ the_loan_full eq_refl _ _ _ _).
  - intros id. discriminate.
  - vm_compute. reflexivity.
  - vm_compute. reflexivity.
  - vm_compute. discriminate.
  - vm_compute. discriminate.
Defined.

(** The founder refunds the backer. *)
Definition refunded_store : loan_store := run_loan_op full (founder, CrowdloanOp_refund 0).

Lemma refund_pays_back_witness :
  exists c c' l x,
    Crowdloans full !! 0 = Some c /\ founder = creator c /\ finalized c = false
    /\ contributions_of full 0 !! creator c = Some x
    /\ entries_of (delete (creator c) (contributions_of full 0)) l
    /\ pays (sub_account 0) l (others full) (others refunded_store)
    /\ contributions_of refunded_store 0 = remove_all (contributions_of full 0) l.*1
    /\ Crowdloans refunded_store !! 0 = Some c' /\ same_terms c c'
    /\ raised c' = raised c - amounts l
    /\ ((crowdloan_events refunded_store = crowdloan_events full ++ [CrowdloanEvent_AllRefunded 0]
         /\ contributions_of refunded_store 0 = {[creator c := x]})
        \/ (crowdloan_events refunded_store
              = crowdloan_events full ++ [CrowdloanEvent_PartiallyRefunded 0]
            /\ length l = Z.to_nat RefundContributorsLimit
            /\ exists a y, a <> creator c /\ contributions_of refunded_store 0 !! a = Some y)).
Proof.
  refine (refund_pays_back config_fits wealth full 0 founder refunded_store full_reachable _).
  vm_compute. reflexivity.
Defined.

(** The founder finalizes. *)
Definition finalized_store : loan_store :=
  match finalize (Origin_Signed founder) 0 full with Ok (_, s') => s' | Err _ => full end.

Lemma finalized_without_target_keeps_funds_witness :
  Crowdloans finalized_store !! 0 = Some (the_loan <| finalized := true |>)
  /\ raised the_loan = cap the_loan
  /\ raised the_loan <= free_balance (sub_account 0) (others finalized_store).
Proof.
  refine (finalized_without_target_keeps_funds config_fits wealth full 0 the_loan founder
            finalized_store finalized_store full_reachable the_loan_full eq_refl eq_refl _ _).
  - vm_compute. reflexivity.
  - constructor.
Defined.

End CrowdloanRun.
