(* ===== verification/ProxyTypes.v ===== *)
(** * Proxy types

    [InstanceFilter<RuntimeCall> for ProxyType] of [runtime/src/lib.rs] and the conversions
    of [common/src/lib.rs]: which calls a proxy of a type may make, and which types a proxy
    may hand on. *)

From S2P Require Import Prelude Protocol PostQuantum Pallet PalletCalls Shield RuntimeCalls.
From stdpp Require Import base tactics list gmap strings list_numbers relations.
From Stdlib Require Import ZArith Lia.
Open Scope Z_scope.

Definition SMALL_TRANSFER_LIMIT : Z := 500_000_000.
Definition SMALL_ALPHA_TRANSFER_LIMIT : Z := 500_000_000.

Definition ProxyType_default : ProxyType := ProxyType_Any.

Definition ProxyType_try_from (value : Z) : option ProxyType :=
  match value with
  | 0 => Some ProxyType_Any
  | 1 => Some ProxyType_Owner
  | 2 => Some ProxyType_NonCritical
  | 3 => Some ProxyType_NonTransfer
  | 4 => Some ProxyType_Senate
  | 5 => Some ProxyType_NonFungible
  | 6 => Some ProxyType_Triumvirate
  | 7 => Some ProxyType_Governance
  | 8 => Some ProxyType_Staking
  | 9 => Some ProxyType_Registration
  | 10 => Some ProxyType_Transfer
  | 11 => Some ProxyType_SmallTransfer
  | 12 => Some ProxyType_RootWeights
  | 13 => Some ProxyType_ChildKeys
  | 14 => Some ProxyType_SudoUncheckedSetCode
  | 15 => Some ProxyType_SwapHotkey
  | 16 => Some ProxyType_SubnetLeaseBeneficiary
  | 17 => Some ProxyType_RootClaim
  | _ => None
  end.

Definition ProxyType_into (proxy_type : ProxyType) : Z :=
  match proxy_type with
  | ProxyType_Any => 0
  | ProxyType_Owner => 1
  | ProxyType_NonCritical => 2
  | ProxyType_NonTransfer => 3
  | ProxyType_Senate => 4
  | ProxyType_NonFungible => 5
  | ProxyType_Triumvirate => 6
  | ProxyType_Governance => 7
  | ProxyType_Staking => 8
  | ProxyType_Registration => 9
  | ProxyType_Transfer => 10
  | ProxyType_SmallTransfer => 11
  | ProxyType_RootWeights => 12
  | ProxyType_ChildKeys => 13
  | ProxyType_SudoUncheckedSetCode => 14
  | ProxyType_SwapHotkey => 15
  | ProxyType_SubnetLeaseBeneficiary => 16
  | ProxyType_RootClaim => 17
  end.

Definition ProxyType_filter (self : ProxyType) (c : RuntimeCall) : bool :=
  match self with
  | ProxyType_Any => true
  | ProxyType_NonTransfer => negb
      match c with
      | RuntimeCall_Balances _
      | RuntimeCall_SubtensorModule (SubtensorCall_transfer_stake _
          | SubtensorCall_schedule_swap_coldkey | SubtensorCall_swap_coldkey) => true
      | _ => false
      end
  | ProxyType_NonFungible => negb
      match c with
      | RuntimeCall_Balances _
      | RuntimeCall_SubtensorModule (SubtensorCall_add_stake | SubtensorCall_add_stake_limit
          | SubtensorCall_remove_stake | SubtensorCall_remove_stake_limit
          | SubtensorCall_remove_stake_full_limit | SubtensorCall_unstake_all
          | SubtensorCall_unstake_all_alpha | SubtensorCall_swap_stake
          | SubtensorCall_swap_stake_limit | SubtensorCall_move_stake
          | SubtensorCall_transfer_stake _ | SubtensorCall_burned_register
          | SubtensorCall_root_register | SubtensorCall_schedule_swap_coldkey
          | SubtensorCall_swap_coldkey | SubtensorCall_swap_hotkey) => true
      | _ => false
      end
  | ProxyType_Transfer =>
      match c with
      | RuntimeCall_Balances (BalancesCall_transfer_keep_alive _ _
          | BalancesCall_transfer_allow_death _ _ | BalancesCall_transfer_all _)
      | RuntimeCall_SubtensorModule (SubtensorCall_transfer_stake _) => true
      | _ => false
      end
  | ProxyType_SmallTransfer =>
      match c with
      | RuntimeCall_Balances (BalancesCall_transfer_keep_alive _ value) =>
          value <? SMALL_TRANSFER_LIMIT
      | RuntimeCall_Balances (BalancesCall_transfer_allow_death _ value) =>
          value <? SMALL_TRANSFER_LIMIT
      | RuntimeCall_SubtensorModule (SubtensorCall_transfer_stake alpha_amount) =>
          alpha_amount <? SMALL_ALPHA_TRANSFER_LIMIT
      | _ => false
      end
  | ProxyType_Owner =>
      match c with
      | RuntimeCall_AdminUtils _
      | RuntimeCall_SubtensorModule (SubtensorCall_set_subnet_identity
          | SubtensorCall_update_symbol) => true
      | _ => false
      end
      && negb
      match c with
      | RuntimeCall_AdminUtils AdminUtilsCall_sudo_set_sn_owner_hotkey => true
      | _ => false
      end
  | ProxyType_NonCritical => negb
      match c with
      | RuntimeCall_SubtensorModule (SubtensorCall_dissolve_network
          | SubtensorCall_root_register | SubtensorCall_burned_register)
      | RuntimeCall_Sudo _ => true
      | _ => false
      end
  | ProxyType_Triumvirate => false
  | ProxyType_Senate => false
  | ProxyType_Governance => false
  | ProxyType_Staking =>
      match c with
      | RuntimeCall_SubtensorModule (SubtensorCall_add_stake | SubtensorCall_remove_stake
          | SubtensorCall_unstake_all | SubtensorCall_unstake_all_alpha
          | SubtensorCall_swap_stake | SubtensorCall_swap_stake_limit
          | SubtensorCall_move_stake | SubtensorCall_add_stake_limit
          | SubtensorCall_remove_stake_limit | SubtensorCall_remove_stake_full_limit
          | SubtensorCall_set_root_claim_type) => true
      | _ => false
      end
  | ProxyType_Registration =>
      match c with
      | RuntimeCall_SubtensorModule (SubtensorCall_burned_register | SubtensorCall_register
          | SubtensorCall_register_limit) => true
      | _ => false
      end
  | ProxyType_RootWeights => false
  | ProxyType_ChildKeys =>
      match c with
      | RuntimeCall_SubtensorModule (SubtensorCall_set_children
          | SubtensorCall_set_childkey_take) => true
      | _ => false
      end
  | ProxyType_SudoUncheckedSetCode =>
      match c with
      | RuntimeCall_Sudo (SudoCall_sudo_unchecked_weight call _) =>
          match call with RuntimeCall_System SystemCall_set_code => true | _ => false end
      | _ => false
      end
  | ProxyType_SwapHotkey =>
      match c with
      | RuntimeCall_SubtensorModule SubtensorCall_swap_hotkey => true
      | _ => false
      end
  | ProxyType_SubnetLeaseBeneficiary =>
      match c with
      | RuntimeCall_SubtensorModule SubtensorCall_start_call
      | RuntimeCall_AdminUtils (AdminUtilsCall_sudo_set_serving_rate_limit
          | AdminUtilsCall_sudo_set_min_difficulty | AdminUtilsCall_sudo_set_max_difficulty
          | AdminUtilsCall_sudo_set_weights_version_key
          | AdminUtilsCall_sudo_set_adjustment_alpha | AdminUtilsCall_sudo_set_immunity_period
          | AdminUtilsCall_sudo_set_min_allowed_weights | AdminUtilsCall_sudo_set_kappa
          | AdminUtilsCall_sudo_set_rho | AdminUtilsCall_sudo_set_activity_cutoff
          | AdminUtilsCall_sudo_set_network_registration_allowed
          | AdminUtilsCall_sudo_set_network_pow_registration_allowed
          | AdminUtilsCall_sudo_set_max_burn | AdminUtilsCall_sudo_set_bonds_moving_average
          | AdminUtilsCall_sudo_set_bonds_penalty
          | AdminUtilsCall_sudo_set_commit_reveal_weights_enabled
          | AdminUtilsCall_sudo_set_liquid_alpha_enabled
          | AdminUtilsCall_sudo_set_alpha_values
          | AdminUtilsCall_sudo_set_commit_reveal_weights_interval
          | AdminUtilsCall_sudo_set_toggle_transfer) => true
      | _ => false
      end
  | ProxyType_RootClaim =>
      match c with
      | RuntimeCall_SubtensorModule SubtensorCall_claim_root => true
      | _ => false
      end
  end.

Definition is_superset (self o : ProxyType) : bool :=
  if decide (self = o) then true else
  match self, o with
  | ProxyType_Any, _ => true
  | _, ProxyType_Any => false
  | ProxyType_NonTransfer, _ =>
      negb match o with ProxyType_Transfer | ProxyType_SmallTransfer => true | _ => false end
  | ProxyType_Transfer, ProxyType_SmallTransfer => true
  | _, _ => false
  end.

(** ** Properties *)

(** The numbers of proxy types are their order of declaration. *)
Lemma ProxyType_round_trip t : ProxyType_try_from (ProxyType_into t) = Some t.
Proof. by destruct t. Qed.

Lemma ProxyType_into_inj : Inj eq eq ProxyType_into.
Proof.
  intros t u H. apply (f_equal ProxyType_try_from) in H. rewrite !ProxyType_round_trip in H.
  by injection H.
Qed.

(** C24 What [is_superset] promises, and where the promise is broken.  A proxy may hand on the
    types below its own because they allow nothing that it may not do itself; this holds
    with exactly one exception: [NonTransfer] counts as a superset of [NonCritical], which
    may transfer balances. *)
Theorem is_superset_sound_iff p q (Hs : is_superset p q = true) :
  (forall c, ProxyType_filter q c = true -> ProxyType_filter p c = true)
  <-> ~ (p = ProxyType_NonTransfer /\ q = ProxyType_NonCritical).
Proof.
  split.
  - intros H [-> ->].
    specialize (H (RuntimeCall_Balances (BalancesCall_transfer_all [])) eq_refl). done.
  - intros H c Hc. destruct p, q; try done; simpl in *;
      try (by destruct H); destruct c as [[]| |[]|[]| |[]| | | | | |[]| | | | |]; done.
Qed.

Lemma is_superset_sound_iff_witness :
  (forall c, ProxyType_filter ProxyType_Staking c = true ->
             ProxyType_filter ProxyType_NonTransfer c = true)
  <-> ~ (ProxyType_NonTransfer = ProxyType_NonTransfer
         /\ ProxyType_Staking = ProxyType_NonCritical).
Proof. exact (is_superset_sound_iff ProxyType_NonTransfer ProxyType_Staking eq_refl). Defined.
