(* ===== verification/Proxy.v ===== *)
(** * Wrappers of calls: the proxy and the utility pallet

    [pallets/proxy/src/lib.rs] and [pallets/utility/src/lib.rs]: calls that are dispatched
    on behalf of another account, in batches, or from another origin.

    An origin is a caller with a filter of calls, as in FRAME: [dispatch] applies the filter
    unless the caller is root, and the state a call has changed is restored when it fails.
    The calls of all other pallets, reserved balances, call hashes and account derivation
    are the class [WrapperRuntime] over the state [W] of those pallets.  A lookup source is
    the account it names, and the weights of calls are left out. *)

From S2P Require Import Prelude Protocol PostQuantum Pallet PalletCalls Shield RuntimeCalls.
From S2P Require Import ProxyTypes.
From stdpp Require Import base tactics list gmap strings list_numbers relations.
From Stdlib Require Import ZArith Lia.
Open Scope Z_scope.

(** ** Data *)

Record ProxyDefinition : Type := mk_ProxyDefinition {
  pd_delegate : AccountId;
  pd_proxy_type : ProxyType;
  pd_delay : Z;
}.
#[export] Instance ProxyDefinition_eq_dec : EqDecision ProxyDefinition.
Proof. solve_decision. Defined.

Record Announcement : Type := mk_Announcement {
  an_real : AccountId;
  an_call_hash : Bytes;
  an_height : Z;
}.

Inductive DepositKind : Type := DepositKind_Proxies | DepositKind_Announcements.

Inductive ProxyError : Type :=
| ProxyError_TooMany
| ProxyError_NotFound
| ProxyError_NotProxy
| ProxyError_Unproxyable
| ProxyError_Duplicate
| ProxyError_NoPermission
| ProxyError_Unannounced
| ProxyError_NoSelfProxy
| ProxyError_AnnouncementDepositInvariantViolated
| ProxyError_InvalidDerivedAccountId.

Inductive UtilityError : Type :=
| UtilityError_TooManyCalls
| UtilityError_InvalidDerivedAccount.

(** [code] stands for an error of another pallet. *)
Inductive WrapperError : Type :=
| WrapperError_Proxy (e : ProxyError)
| WrapperError_Utility (e : UtilityError)
| WrapperError_BadOrigin
| WrapperError_CallFiltered
| WrapperError_Other (code : Z).

Inductive WrapperEvent : Type :=
| ProxyEvent_ProxyExecuted (r : result WrapperError unit)
| ProxyEvent_PureCreated (pure who : AccountId) (proxy_type : ProxyType) (index : Z)
| ProxyEvent_PureKilled (pure spawner : AccountId) (proxy_type : ProxyType) (index : Z)
| ProxyEvent_Announced (real proxy : AccountId) (call_hash : Bytes)
| ProxyEvent_ProxyAdded (delegator delegatee : AccountId) (proxy_type : ProxyType) (delay : Z)
| ProxyEvent_ProxyRemoved (delegator delegatee : AccountId) (proxy_type : ProxyType) (delay : Z)
| ProxyEvent_DepositPoked (who : AccountId) (kind : DepositKind) (old_deposit new_deposit : Z)
| ProxyEvent_RealPaysFeeSet (real delegate : AccountId) (pays_fee : bool)
| UtilityEvent_BatchInterrupted (index : Z) (error : WrapperError)
| UtilityEvent_BatchCompleted
| UtilityEvent_BatchCompletedWithErrors
| UtilityEvent_ItemCompleted
| UtilityEvent_ItemFailed (error : WrapperError)
| UtilityEvent_DispatchedAs (r : result WrapperError unit)
| UtilityEvent_IfElseMainSuccess
| UtilityEvent_IfElseFallbackCalled (main_error : WrapperError).

(** The utility pallet stores nothing. *)
Record WrapperStore (W : Type) : Type := mk_WrapperStore {
  Proxies : gmap AccountId (list ProxyDefinition * Z);
  Announcements : gmap AccountId (list Announcement * Z);
  LastCallResult : gmap AccountId (result WrapperError unit);
  RealPaysFee : gset (AccountId * AccountId);
  wrapper_block : Z;
  extrinsic_index : Z;
  wrapper_events : list WrapperEvent;
  outside : W;
}.
Arguments mk_WrapperStore {W}.
Arguments Proxies {W} _.
Arguments Announcements {W} _.
Arguments LastCallResult {W} _.
Arguments RealPaysFee {W} _.
Arguments wrapper_block {W} _.
Arguments extrinsic_index {W} _.
Arguments wrapper_events {W} _.
Arguments outside {W} _.
#[export] Instance eta_WrapperStore W : Eta (WrapperStore W) := fun r => mk_WrapperStore
  (Proxies r) (Announcements r) (LastCallResult r) (RealPaysFee r) (wrapper_block r)
  (extrinsic_index r) (wrapper_events r) (outside r).

Definition saturating_mul (w a b : Z) : Z := Z.min (a * b) (uint_max w).

(** ** Interfaces *)

Class WrapperConfig := {
  ProxyDepositBase : Z;
  ProxyDepositFactor : Z;
  MaxProxies : Z;
  MaxPending : Z;
  AnnouncementDepositBase : Z;
  AnnouncementDepositFactor : Z;
  MAX_POSSIBLE_ALLOCATION : Z;
  size_of_call : Z;
}.

(** The configuration of the runtime; the allocator limit of [sp_core] and the size of the
    call type in memory are left open. *)
Definition runtime_deposit (items bytes : Z) : Z :=
  let ITEMS_FEE := 2_000 * 10_000 in
  let BYTES_FEE := 100 * 10_000 in
  saturating_add 64 (saturating_mul 64 items ITEMS_FEE) (saturating_mul 64 bytes BYTES_FEE).

Definition runtime_wrappers (allocation size : Z) : WrapperConfig := {|
  ProxyDepositBase := runtime_deposit 1 40;
  ProxyDepositFactor := runtime_deposit 0 33;
  MaxProxies := 20;
  MaxPending := 15 * 5;
  AnnouncementDepositBase := runtime_deposit 1 16;
  AnnouncementDepositFactor := runtime_deposit 0 68;
  MAX_POSSIBLE_ALLOCATION := allocation;
  size_of_call := size;
|}.

(** [reserve] and [unreserve] of the balances pallet ([unreserve] returns what it could not
    unreserve), [CallHasher], the accounts derived by hashing, [BaseCallFilter], and the
    calls of the other pallets, some of which dispatch calls or change proxies. *)
Class WrapperRuntime (W : Type) := {
  reserve : AccountId -> Z -> W -> result Z W;
  unreserve : AccountId -> Z -> W -> Z * W;
  hash_of : RuntimeCall -> Bytes;
  derive_pure : AccountId -> Z -> Z -> ProxyType -> Z -> option AccountId;
  derive_derivative : AccountId -> Z -> option AccountId;
  BaseCallFilter : W -> RuntimeCall -> bool;
  other_call : RuntimeCall -> RuntimeOrigin -> WrapperStore W -> result Z (WrapperStore W);
}.

Abbreviation wact W := (act (WrapperStore W) WrapperError).
Abbreviation ensureP c e := (ensure c (WrapperError_Proxy e)).
Abbreviation ok_orP o e := (ok_or o (WrapperError_Proxy e)).

(** ** Origins *)

(** The filter may read the state of the chain. *)
Record Origin (W : Type) : Type := mk_Origin {
  caller : RuntimeOrigin;
  origin_filter : W -> RuntimeCall -> bool;
}.
Arguments mk_Origin {W}.
Arguments caller {W} _.
Arguments origin_filter {W} _.

(** A call together with the code that [dispatch_bypass_filter] runs for it. *)
Record Dispatchable (W : Type) : Type := mk_Dispatchable {
  d_call : RuntimeCall;
  dispatch_bypass_filter : Origin W -> wact W unit;
}.
Arguments mk_Dispatchable {W}.
Arguments d_call {W} _.
Arguments dispatch_bypass_filter {W} _ _.

Section Wrappers.
Context {W : Type} `{WC : !WrapperConfig} `{WR : !WrapperRuntime W}.
Implicit Types (s : WrapperStore W) (origin : Origin W).

(** Root bypasses all filters. *)
Definition filter_call origin s (call : RuntimeCall) : bool :=
  match caller origin with Origin_Root => true | _ => origin_filter origin (outside s) call end.

Definition add_filter (f : RuntimeCall -> bool) origin : Origin W :=
  {| caller := caller origin; origin_filter w c := origin_filter origin w c && f c |}.

Definition set_caller_from (caller' : RuntimeOrigin) origin : Origin W :=
  {| caller := caller'; origin_filter := origin_filter origin |}.

(** [RawOrigin::into] *)
Definition fresh_origin (caller' : RuntimeOrigin) : Origin W :=
  {| caller := caller'; origin_filter := BaseCallFilter |}.

Definition origin_signed origin : result WrapperError AccountId :=
  match caller origin with Origin_Signed who => Ok who | _ => Err WrapperError_BadOrigin end.
Definition origin_is_none origin : bool :=
  match caller origin with Origin_None => true | _ => false end.
Definition origin_is_root origin : bool :=
  match caller origin with Origin_Root => true | _ => false end.

Definition dispatch_filtered (call : Dispatchable W) origin : wact W unit := fun s =>
  if filter_call origin s (d_call call) then dispatch_bypass_filter call origin s
  else Err WrapperError_CallFiltered.

(** The result of a dispatched call; the state is restored when it fails. *)
Definition attempt {A} (m : wact W A) : wact W (result WrapperError A) := fun s =>
  match m s with
  | Ok (a, s) => Ok (Ok a, s)
  | Err e => Ok (Err e, s)
  end.

Definition wrapper_event (e : WrapperEvent) : wact W unit :=
  modify (fun s => s <| wrapper_events ::= fun l => l ++ [e] |>).

Definition reserve_do (who : AccountId) (amount : Z) : wact W unit := fun s =>
  match reserve who amount (outside s) with
  | Ok w => Ok (tt, s <| outside := w |>)
  | Err code => Err (WrapperError_Other code)
  end.

Definition unreserve_do (who : AccountId) (amount : Z) : wact W Z := fun s =>
  let '(remaining, w) := unreserve who amount (outside s) in
  Ok (remaining, s <| outside := w |>).

(** ** The proxy pallet *)

(** The derived order of [ProxyDefinition]: by delegate, type and delay. *)
Fixpoint AccountId_compare (a b : AccountId) : comparison :=
  match a, b with
  | [], [] => Eq
  | [], _ => Lt
  | _, [] => Gt
  | x :: a, y :: b => match x ?= y with Eq => AccountId_compare a b | c => c end
  end.

Definition ProxyDefinition_compare (a b : ProxyDefinition) : comparison :=
  match AccountId_compare (pd_delegate a) (pd_delegate b) with
  | Eq =>
      match ProxyType_into (pd_proxy_type a) ?= ProxyType_into (pd_proxy_type b) with
      | Eq => pd_delay a ?= pd_delay b
      | c => c
      end
  | c => c
  end.

(** [slice::binary_search] on a sorted slice: the index of the element, or where to put it. *)
Fixpoint binary_search (x : ProxyDefinition) (l : list ProxyDefinition) : result nat nat :=
  match l with
  | [] => Err O
  | y :: rest =>
      match ProxyDefinition_compare y x with
      | Eq => Ok O
      | Gt => Err O
      | Lt => match binary_search x rest with Ok i => Ok (S i) | Err i => Err (S i) end
      end
  end.

(** [BoundedVec::try_insert] *)
Definition try_insert (i : nat) (x : ProxyDefinition) (l : list ProxyDefinition) :
    option (list ProxyDefinition) :=
  if Z.of_nat (length l) <? MaxProxies then Some (take i l ++ x :: drop i l) else None.

Definition deposit (num_proxies : Z) : Z :=
  if num_proxies =? 0 then 0
  else saturating_add 64 ProxyDepositBase (saturating_mul 64 ProxyDepositFactor num_proxies).

Definition rejig_deposit (who : AccountId) (old_deposit base factor : Z) (len : nat) :
    wact W (option Z) :=
  let new_deposit :=
    if (len =? 0)%nat then 0
    else saturating_add 64 base (saturating_mul 64 factor (Z.of_nat len)) in
  do! (if old_deposit <? new_deposit
       then reserve_do who (saturating_sub new_deposit old_deposit)
       else if new_deposit <? old_deposit
       then do! unreserve_do who (saturating_sub old_deposit new_deposit); ret tt
       else ret tt);
  ret (if (len =? 0)%nat then None else Some new_deposit).

(** The part of [add_proxy_delegate] and [remove_proxy_delegate] that adjusts the deposit. *)
Definition adjust_deposit (who : AccountId) (old_deposit new_deposit : Z) : wact W unit :=
  if old_deposit <? new_deposit
  then reserve_do who (saturating_sub new_deposit old_deposit)
  else if new_deposit <? old_deposit
  then do! unreserve_do who (saturating_sub old_deposit new_deposit); ret tt
  else ret tt.

Definition proxies_of s (who : AccountId) : list ProxyDefinition * Z :=
  default ([], 0) (Proxies s !! who).
Definition announcements_of s (who : AccountId) : list Announcement * Z :=
  default ([], 0) (Announcements s !! who).

Definition add_proxy_delegate (delegator delegatee : AccountId) (proxy_type : ProxyType)
    (delay : Z) : wact W unit :=
  do! check (fun _ => ensureP (negb (bool_decide (delegator = delegatee)))
                        ProxyError_NoSelfProxy);
  p <-! asks (fun s => proxies_of s delegator);
  let '(proxies, old_deposit) := p in
  let proxy_def := {| pd_delegate := delegatee; pd_proxy_type := proxy_type;
                      pd_delay := delay |} in
  i <-! check (fun _ => match binary_search proxy_def proxies with
                        | Ok _ => Err (WrapperError_Proxy ProxyError_Duplicate)
                        | Err i => Ok i
                        end);
  proxies <-! check (fun _ => ok_orP (try_insert i proxy_def proxies) ProxyError_TooMany);
  let new_deposit := deposit (Z.of_nat (length proxies)) in
  do! adjust_deposit delegator old_deposit new_deposit;
  do! wrapper_event (ProxyEvent_ProxyAdded delegator delegatee proxy_type delay);
  modify (fun s => s <| Proxies ::= <[delegator := (proxies, new_deposit)]> |>).

Definition remove_proxy_delegate (delegator delegatee : AccountId) (proxy_type : ProxyType)
    (delay : Z) : wact W unit :=
  p <-! check (fun s => ok_orP (Proxies s !! delegator) ProxyError_NotFound);
  let '(proxies, old_deposit) := p in
  let proxy_def := {| pd_delegate := delegatee; pd_proxy_type := proxy_type;
                      pd_delay := delay |} in
  i <-! check (fun _ => match binary_search proxy_def proxies with
                        | Ok i => Ok i
                        | Err _ => Err (WrapperError_Proxy ProxyError_NotFound)
                        end);
  let proxies := take i proxies ++ drop (S i) proxies in
  let new_deposit := deposit (Z.of_nat (length proxies)) in
  do! adjust_deposit delegator old_deposit new_deposit;
  do! modify (fun s => s <| RealPaysFee ::= fun r => r ∖ {[(delegator, delegatee)]} |>);
  do! wrapper_event (ProxyEvent_ProxyRemoved delegator delegatee proxy_type delay);
  modify (fun s => s <| Proxies ::= if bool_decide (proxies = []) then delete delegator
                                    else <[delegator := (proxies, new_deposit)]> |>).

Definition remove_all_proxy_delegates (delegator : AccountId) : wact W unit :=
  old <-! asks (fun s => proxies_of s delegator);
  do! modify (fun s => s <| Proxies ::= delete delegator |>);
  do! unreserve_do delegator (snd old);
  modify (fun s => s <| RealPaysFee ::= filter (fun p => fst p <> delegator) |>).

(** [Proxier] of the runtime. *)
Definition add_lease_beneficiary_proxy (lease beneficiary : AccountId) : wact W unit :=
  add_proxy_delegate lease beneficiary ProxyType_SubnetLeaseBeneficiary 0.
Definition remove_lease_beneficiary_proxy (lease beneficiary : AccountId) : wact W unit :=
  remove_proxy_delegate lease beneficiary ProxyType_SubnetLeaseBeneficiary 0.

Definition find_proxy s (real delegate : AccountId) (force_proxy_type : option ProxyType) :
    result WrapperError ProxyDefinition :=
  ok_orP (List.find (fun x =>
            bool_decide (pd_delegate x = delegate)
            && match force_proxy_type with
               | None => true
               | Some y => bool_decide (pd_proxy_type x = y)
               end) (fst (proxies_of s real)))
    ProxyError_NotProxy.

(** [f] keeps an announcement. *)
Definition edit_announcements (delegate : AccountId) (f : Announcement -> bool) :
    wact W unit :=
  p <-! check (fun s => ok_orP (Announcements s !! delegate) ProxyError_NotFound);
  let '(pending, old_deposit) := p in
  let orig_pending_len := length pending in
  let pending := List.filter f pending in
  do! check (fun _ => ensureP (length pending <? orig_pending_len)%nat ProxyError_NotFound);
  d <-! rejig_deposit delegate old_deposit AnnouncementDepositBase AnnouncementDepositFactor
          (length pending);
  modify (fun s => s <| Announcements ::= match d with
                                          | Some deposit => <[delegate := (pending, deposit)]>
                                          | None => delete delegate
                                          end |>).

(** The filter that [do_proxy] adds to the origin. *)
Definition proxy_filter (def : ProxyDefinition) (c : RuntimeCall) : bool :=
  match c with
  | RuntimeCall_Proxy (ProxyCall_add_proxy _ proxy_type _
                       | ProxyCall_remove_proxy _ proxy_type _) =>
      if negb (is_superset (pd_proxy_type def) proxy_type) then false
      else ProxyType_filter (pd_proxy_type def) c
  | RuntimeCall_Proxy (ProxyCall_remove_proxies | ProxyCall_kill_pure _ _ _ _ _) =>
      if negb (bool_decide (pd_proxy_type def = ProxyType_default)) then false
      else ProxyType_filter (pd_proxy_type def) c
  | _ => ProxyType_filter (pd_proxy_type def) c
  end.

Definition do_proxy (def : ProxyDefinition) (real : AccountId) (call : Dispatchable W) :
    wact W unit :=
  let origin := add_filter (proxy_filter def) (fresh_origin (Origin_Signed real)) in
  e <-! attempt (dispatch_filtered call origin);
  do! modify (fun s => s <| LastCallResult ::= <[real := e]> |>);
  wrapper_event (ProxyEvent_ProxyExecuted e).

Definition proxy origin (real : AccountId) (force_proxy_type : option ProxyType)
    (call : Dispatchable W) : wact W unit :=
  who <-! check (fun _ => origin_signed origin);
  def <-! check (fun s => find_proxy s real who force_proxy_type);
  do! check (fun _ => ensureP (pd_delay def =? 0) ProxyError_Unannounced);
  do_proxy def real call.

Definition add_proxy origin (delegate : AccountId) (proxy_type : ProxyType) (delay : Z) :
    wact W unit :=
  who <-! check (fun _ => origin_signed origin);
  add_proxy_delegate who delegate proxy_type delay.

Definition remove_proxy origin (delegate : AccountId) (proxy_type : ProxyType) (delay : Z) :
    wact W unit :=
  who <-! check (fun _ => origin_signed origin);
  remove_proxy_delegate who delegate proxy_type delay.

Definition remove_proxies origin : wact W unit :=
  who <-! check (fun _ => origin_signed origin);
  remove_all_proxy_delegates who.

Definition pure_account s (who : AccountId) (proxy_type : ProxyType) (index : Z)
    (maybe_when : option (Z * Z)) : result WrapperError AccountId :=
  let '(height, ext_index) := default (wrapper_block s, extrinsic_index s) maybe_when in
  ok_orP (derive_pure who height ext_index proxy_type index)
    ProxyError_InvalidDerivedAccountId.

Definition create_pure origin (proxy_type : ProxyType) (delay index : Z) : wact W unit :=
  who <-! check (fun _ => origin_signed origin);
  pure <-! check (fun s => pure_account s who proxy_type index None);
  do! check (fun s => ensureP (bool_decide (Proxies s !! pure = None)) ProxyError_Duplicate);
  let proxy_def := {| pd_delegate := who; pd_proxy_type := proxy_type; pd_delay := delay |} in
  do! check (fun _ => ensureP (1 <=? MaxProxies) ProxyError_TooMany);
  let deposit := saturating_add 64 ProxyDepositBase ProxyDepositFactor in
  do! reserve_do who deposit;
  do! modify (fun s => s <| Proxies ::= <[pure := ([proxy_def], deposit)]> |>);
  wrapper_event (ProxyEvent_PureCreated pure who proxy_type index).

Definition kill_pure origin (spawner : AccountId) (proxy_type : ProxyType)
    (index height ext_index : Z) : wact W unit :=
  who <-! check (fun _ => origin_signed origin);
  proxy <-! check (fun s => pure_account s spawner proxy_type index (Some (height, ext_index)));
  do! check (fun _ => ensureP (bool_decide (proxy = who)) ProxyError_NoPermission);
  old <-! asks (fun s => proxies_of s who);
  do! modify (fun s => s <| Proxies ::= delete who |>);
  do! unreserve_do spawner (snd old);
  wrapper_event (ProxyEvent_PureKilled who spawner proxy_type index).

Definition announce origin (real : AccountId) (call_hash : Bytes) : wact W unit :=
  who <-! check (fun _ => origin_signed origin);
  do! check (fun s => ok_orP (List.find (fun x => bool_decide (pd_delegate x = who))
                                (fst (proxies_of s real))) ProxyError_NotProxy);
  announcement <-! asks (fun s => {| an_real := real; an_call_hash := call_hash;
                                     an_height := wrapper_block s |});
  p <-! asks (fun s => announcements_of s who);
  let '(pending, old_deposit) := p in
  do! check (fun _ => ensureP (Z.of_nat (length pending) <? MaxPending) ProxyError_TooMany);
  let pending := pending ++ [announcement] in
  d <-! rejig_deposit who old_deposit AnnouncementDepositBase AnnouncementDepositFactor
          (length pending);
  new_deposit <-! check (fun _ => ok_orP d ProxyError_AnnouncementDepositInvariantViolated);
  do! modify (fun s => s <| Announcements ::= <[who := (pending, new_deposit)]> |>);
  wrapper_event (ProxyEvent_Announced real who call_hash).

Definition remove_announcement origin (real : AccountId) (call_hash : Bytes) : wact W unit :=
  who <-! check (fun _ => origin_signed origin);
  edit_announcements who (fun ann =>
    negb (bool_decide (an_real ann = real)) || negb (bool_decide (an_call_hash ann = call_hash))).

Definition reject_announcement origin (delegate : AccountId) (call_hash : Bytes) :
    wact W unit :=
  who <-! check (fun _ => origin_signed origin);
  edit_announcements delegate (fun ann =>
    negb (bool_decide (an_real ann = who)) || negb (bool_decide (an_call_hash ann = call_hash))).

(** Every error of [edit_announcements] becomes [Unannounced]. *)
Definition proxy_announced origin (delegate real : AccountId)
    (force_proxy_type : option ProxyType) (call : Dispatchable W) : wact W unit :=
  do! check (fun _ => origin_signed origin);
  def <-! check (fun s => find_proxy s real delegate force_proxy_type);
  let call_hash := hash_of (d_call call) in
  now <-! asks wrapper_block;
  r <-! attempt (edit_announcements delegate (fun ann =>
    negb (bool_decide (an_real ann = real))
    || negb (bool_decide (an_call_hash ann = call_hash))
    || (saturating_sub now (an_height ann) <? pd_delay def)));
  do! check (fun _ => map_err (fun _ => WrapperError_Proxy ProxyError_Unannounced) r);
  do_proxy def real call.

(** One half of [poke_deposit]: the entry of [who], and what to write back. *)
Definition poke {A} (who : AccountId) (kind : DepositKind) (base factor : Z)
    (entry : list A * Z) (put : option (list A * Z) -> wact W unit) : wact W unit :=
  let '(items, old_deposit) := entry in
  maybe_new_deposit <-! rejig_deposit who old_deposit base factor (length items);
  match maybe_new_deposit with
  | Some new_deposit =>
      if negb (new_deposit =? old_deposit) then
        do! put (Some (items, new_deposit));
        wrapper_event (ProxyEvent_DepositPoked who kind old_deposit new_deposit)
      else put (Some (items, old_deposit))
  | None =>
      do! put None;
      if negb (old_deposit =? 0)
      then wrapper_event (ProxyEvent_DepositPoked who kind old_deposit 0)
      else ret tt
  end.

Definition poke_deposit origin : wact W unit :=
  who <-! check (fun _ => origin_signed origin);
  p <-! asks (fun s => proxies_of s who);
  do! poke who DepositKind_Proxies ProxyDepositBase ProxyDepositFactor p
        (fun e => modify (fun s => s <| Proxies ::= partial_alter (fun _ => e) who |>));
  p <-! asks (fun s => announcements_of s who);
  poke who DepositKind_Announcements AnnouncementDepositBase AnnouncementDepositFactor p
    (fun e => modify (fun s => s <| Announcements ::= partial_alter (fun _ => e) who |>)).

Definition set_real_pays_fee origin (delegate : AccountId) (pays_fee : bool) : wact W unit :=
  real <-! check (fun _ => origin_signed origin);
  do! check (fun s => find_proxy s real delegate None);
  do! modify (fun s => s <| RealPaysFee ::= fun r =>
        if pays_fee then r ∪ {[(real, delegate)]} else r ∖ {[(real, delegate)]} |>);
  wrapper_event (ProxyEvent_RealPaysFeeSet real delegate pays_fee).

(** [on_finalize] *)
Definition proxy_on_finalize s : WrapperStore W := s <| LastCallResult := ∅ |>.

Definition is_real_pays_fee s (real delegate : AccountId) : bool :=
  bool_decide ((real, delegate) ∈ RealPaysFee s).

(** ** The utility pallet *)

Definition ensure_not_none origin : result WrapperError unit :=
  if origin_is_none origin then Err WrapperError_BadOrigin else Ok tt.
Definition ensure_root_caller origin : result WrapperError unit :=
  if origin_is_root origin then Ok tt else Err WrapperError_BadOrigin.
Definition CALL_ALIGN : Z := 1024.

Definition batched_calls_limit : Z :=
  let allocator_limit := MAX_POSSIBLE_ALLOCATION in
  let call_size :=
    saturating_mul 32 ((size_of_call + CALL_ALIGN - 1) / CALL_ALIGN) CALL_ALIGN in
  let margin_factor := 3 in
  default 0 (checked_div allocator_limit margin_factor ≫= fun x => checked_div x call_size).

Definition ensure_batch_size (calls : list (Dispatchable W)) : result WrapperError unit :=
  ensure (Z.of_nat (length calls) <=? batched_calls_limit)
    (WrapperError_Utility UtilityError_TooManyCalls).

(** Root can call anything. *)
Definition dispatch_item (is_root : bool) (call : Dispatchable W) origin : wact W unit :=
  if is_root then dispatch_bypass_filter call origin else dispatch_filtered call origin.

Fixpoint batch_loop (is_root : bool) origin (index : Z) (calls : list (Dispatchable W)) :
    wact W unit :=
  match calls with
  | [] => wrapper_event UtilityEvent_BatchCompleted
  | call :: rest =>
      r <-! attempt (dispatch_item is_root call origin);
      match r with
      | Err e => wrapper_event (UtilityEvent_BatchInterrupted index e)
      | Ok _ =>
          do! wrapper_event UtilityEvent_ItemCompleted;
          batch_loop is_root origin (index + 1) rest
      end
  end.

Definition batch origin (calls : list (Dispatchable W)) : wact W unit :=
  do! check (fun _ => ensure_not_none origin);
  let is_root := origin_is_root origin in
  do! check (fun _ => ensure_batch_size calls);
  batch_loop is_root origin 0 calls.

Definition as_derivative origin (index : Z) (call : Dispatchable W) : wact W unit :=
  who <-! check (fun _ => origin_signed origin);
  pseudonym <-! check (fun _ => ok_or (derive_derivative who index)
                                  (WrapperError_Utility UtilityError_InvalidDerivedAccount));
  dispatch_filtered call (set_caller_from (Origin_Signed pseudonym) origin).

(** [batch_all] does not let users nest [batch_all]. *)
Definition not_batch_all (c : RuntimeCall) : bool :=
  match c with RuntimeCall_Utility (UtilityCall_batch_all _) => false | _ => true end.

Fixpoint batch_all_loop (is_root : bool) origin (calls : list (Dispatchable W)) :
    wact W unit :=
  match calls with
  | [] => wrapper_event UtilityEvent_BatchCompleted
  | call :: rest =>
      do! (if is_root then dispatch_bypass_filter call origin
           else dispatch_filtered call (add_filter not_batch_all origin));
      do! wrapper_event UtilityEvent_ItemCompleted;
      batch_all_loop is_root origin rest
  end.

Definition batch_all origin (calls : list (Dispatchable W)) : wact W unit :=
  do! check (fun _ => ensure_not_none origin);
  let is_root := origin_is_root origin in
  do! check (fun _ => ensure_batch_size calls);
  batch_all_loop is_root origin calls.

Definition dispatch_as origin (as_origin : RuntimeOrigin) (call : Dispatchable W) :
    wact W unit :=
  do! check (fun _ => ensure_root_caller origin);
  res <-! attempt (dispatch_bypass_filter call (fresh_origin as_origin));
  wrapper_event (UtilityEvent_DispatchedAs res).

Fixpoint force_batch_loop (is_root : bool) origin (has_error : bool)
    (calls : list (Dispatchable W)) : wact W unit :=
  match calls with
  | [] => wrapper_event (if has_error then UtilityEvent_BatchCompletedWithErrors
                         else UtilityEvent_BatchCompleted)
  | call :: rest =>
      r <-! attempt (dispatch_item is_root call origin);
      match r with
      | Err e =>
          do! wrapper_event (UtilityEvent_ItemFailed e);
          force_batch_loop is_root origin true rest
      | Ok _ =>
          do! wrapper_event UtilityEvent_ItemCompleted;
          force_batch_loop is_root origin has_error rest
      end
  end.

Definition force_batch origin (calls : list (Dispatchable W)) : wact W unit :=
  do! check (fun _ => ensure_not_none origin);
  let is_root := origin_is_root origin in
  do! check (fun _ => ensure_batch_size calls);
  force_batch_loop is_root origin false calls.

Definition with_weight origin (call : Dispatchable W) : wact W unit :=
  do! check (fun _ => ensure_root_caller origin);
  dispatch_bypass_filter call (fresh_origin Origin_Root).

Definition if_else origin (main fallback : Dispatchable W) : wact W unit :=
  do! check (fun _ => ensure_not_none origin);
  let is_root := origin_is_root origin in
  main_result <-! attempt (dispatch_item is_root main origin);
  match main_result with
  | Ok _ => wrapper_event UtilityEvent_IfElseMainSuccess
  | Err main_error =>
      fallback_result <-! attempt (dispatch_item is_root fallback origin);
      match fallback_result with
      | Ok _ => wrapper_event (UtilityEvent_IfElseFallbackCalled main_error)
      | Err fallback_error => fail fallback_error
      end
  end.

Definition dispatch_as_fallible origin (as_origin : RuntimeOrigin) (call : Dispatchable W) :
    wact W unit :=
  do! check (fun _ => ensure_root_caller origin);
  do! dispatch_bypass_filter call (fresh_origin as_origin);
  wrapper_event (UtilityEvent_DispatchedAs (Ok tt)).

(** ** The dispatch of a call *)

(** A call of another pallet. *)
Definition other_do (call : RuntimeCall) origin : wact W unit := fun s =>
  match other_call call (caller origin) s with
  | Ok s => Ok (tt, s)
  | Err code => Err (WrapperError_Other code)
  end.

(** What a call does by itself: [run] executes the calls that it dispatches. *)
Definition run_outermost (run : RuntimeCall -> Origin W -> wact W unit) (call : RuntimeCall)
    (origin : Origin W) : wact W unit :=
  let dispatchable c := mk_Dispatchable c (run c) in
  match call with
  | RuntimeCall_Utility inner =>
      match inner with
      | UtilityCall_batch calls => batch origin (map dispatchable calls)
      | UtilityCall_as_derivative index call => as_derivative origin index (dispatchable call)
      | UtilityCall_batch_all calls => batch_all origin (map dispatchable calls)
      | UtilityCall_dispatch_as as_origin call =>
          dispatch_as origin as_origin (dispatchable call)
      | UtilityCall_force_batch calls => force_batch origin (map dispatchable calls)
      | UtilityCall_with_weight call _ => with_weight origin (dispatchable call)
      | UtilityCall_if_else main fallback =>
          if_else origin (dispatchable main) (dispatchable fallback)
      | UtilityCall_dispatch_as_fallible as_origin call =>
          dispatch_as_fallible origin as_origin (dispatchable call)
      end
  | RuntimeCall_Proxy inner =>
      match inner with
      | ProxyCall_proxy real force call => proxy origin real force (dispatchable call)
      | ProxyCall_add_proxy delegate proxy_type delay => add_proxy origin delegate proxy_type delay
      | ProxyCall_remove_proxy delegate proxy_type delay =>
          remove_proxy origin delegate proxy_type delay
      | ProxyCall_remove_proxies => remove_proxies origin
      | ProxyCall_create_pure proxy_type delay index => create_pure origin proxy_type delay index
      | ProxyCall_kill_pure spawner proxy_type index height ext_index =>
          kill_pure origin spawner proxy_type index height ext_index
      | ProxyCall_announce real call_hash => announce origin real call_hash
      | ProxyCall_remove_announcement real call_hash =>
          remove_announcement origin real call_hash
      | ProxyCall_reject_announcement delegate call_hash =>
          reject_announcement origin delegate call_hash
      | ProxyCall_proxy_announced delegate real force call =>
          proxy_announced origin delegate real force (dispatchable call)
      | ProxyCall_poke_deposit => poke_deposit origin
      | ProxyCall_set_real_pays_fee delegate pays_fee =>
          set_real_pays_fee origin delegate pays_fee
      end
  | _ => other_do call origin
  end.

(** [dispatch_bypass_filter] of the generated [RuntimeCall]. *)
Fixpoint run_runtime_call (call : RuntimeCall) (origin : Origin W) {struct call} : wact W unit :=
  run_outermost (fun c => run_runtime_call c) call origin.

Definition as_dispatchable (call : RuntimeCall) : Dispatchable W :=
  mk_Dispatchable call (run_runtime_call call).

(** [call.dispatch(origin)] *)
Definition runtime_dispatch (call : RuntimeCall) origin : wact W unit :=
  dispatch_filtered (as_dispatchable call) origin.

(** ** Who pays the fee of a proxy call

    [ChargeTransactionPaymentWrapper] of [runtime/src/transaction_payment_wrapper.rs]. *)

Definition extract_proxy_parts (call : RuntimeCall) (signer : AccountId) :
    option (AccountId * AccountId * RuntimeCall) :=
  match call with
  | RuntimeCall_Proxy (ProxyCall_proxy real _ call) => Some (real, signer, call)
  | _ => None
  end.

Definition extract_inner_proxy_payer s (inner_call : RuntimeCall) (outer_real : AccountId) :
    option AccountId :=
  '(inner_real, inner_delegate, _) ← extract_proxy_parts inner_call outer_real;
  if is_real_pays_fee s inner_real inner_delegate then Some inner_real else None.

Fixpoint batch_payer_loop s (outer_real : AccountId) (calls : list RuntimeCall)
    (common_real : option AccountId) : option AccountId :=
  match calls with
  | [] => common_real
  | call :: rest =>
      '(inner_real, inner_delegate, _) ← extract_proxy_parts call outer_real;
      match common_real with
      | None =>
          if negb (is_real_pays_fee s inner_real inner_delegate) then None
          else batch_payer_loop s outer_real rest (Some inner_real)
      | Some existing =>
          if negb (bool_decide (existing = inner_real)) then None
          else batch_payer_loop s outer_real rest common_real
      end
  end.

Definition extract_batch_proxy_payer s (inner_call : RuntimeCall) (outer_real : AccountId) :
    option AccountId :=
  match inner_call with
  | RuntimeCall_Utility (UtilityCall_batch calls | UtilityCall_batch_all calls
                         | UtilityCall_force_batch calls) =>
      if bool_decide (calls = []) then None else batch_payer_loop s outer_real calls None
  | _ => None
  end.

Definition extract_real_fee_payer s (call : RuntimeCall) origin : option AccountId :=
  signer ← match caller origin with Origin_Signed who => Some who | _ => None end;
  '(outer_real, delegate, inner_call) ← extract_proxy_parts call signer;
  if negb (is_real_pays_fee s outer_real delegate) then None else
  match extract_inner_proxy_payer s inner_call outer_real with
  | Some inner_payer => Some inner_payer
  | None =>
      match extract_batch_proxy_payer s inner_call outer_real with
      | Some batch_payer => Some batch_payer
      | None => Some outer_real
      end
  end.

End Wrappers.
