(* ===== verification/ProxySafety.v ===== *)
(** * Wrappers of calls: who may do what

    What a call can make another account do, through batches, derivative accounts and
    proxies: origins are never raised and a proxy is confined to its type. *)

From S2P Require Import Prelude Protocol PostQuantum Pallet PalletCalls Shield RuntimeCalls.
From S2P Require Import ProxyTypes Proxy.
From stdpp Require Import base tactics list gmap strings list_numbers relations.
From Stdlib Require Import ZArith Lia.
Open Scope Z_scope.

(** Induction over a call and the calls it carries. *)
Ltac carried_one IH := let x := fresh in intros x ->%list_elem_of_singleton; apply IH.
Ltac carried_list IH calls :=
  let go := fresh "go" in let l := fresh "l" in let x := fresh "x" in let Hx := fresh "Hx" in
  clear -IH; revert calls; fix go 1; intros [|? l] x Hx;
  [case (not_elem_of_nil _ Hx)|];
  apply elem_of_cons in Hx as [->|Hx]; [apply IH|exact (go l x Hx)].

Lemma carried_ind (P : RuntimeCall -> Prop)
    (H : forall call, (forall c, c ∈ inner_calls call -> P c) -> P call) :
  forall call, P call.
Proof.
  fix IH 1. intros call. apply H.
  destruct call as [| | | |u|w|w| |w|w| | | | | | |]; simpl;
    try (intros c Hc; case (not_elem_of_nil _ Hc));
    try (destruct w; try (intros c Hc; case (not_elem_of_nil _ Hc)); carried_one IH).
  destruct u as [calls|n c|calls|o c|calls|c wt|m fb|o c]; try carried_one IH.
  - carried_list IH calls.
  - carried_list IH calls.
  - carried_list IH calls.
  - intros x [-> | ->%list_elem_of_singleton]%elem_of_cons; apply IH.
Qed.

(** ** What a dispatched call can reach

    Which calls of other pallets are executed, and from which origins, is stated by
    comparing two implementations of the other pallets: if they agree on what is said to be
    reachable and the result is the same in every state, nothing else was executed. *)

Section Reach.
Context {W : Type} `{WC : !WrapperConfig} `{WR : !WrapperRuntime W}.
Implicit Types (s : WrapperStore W) (o : Origin W).

Definition handler : Type :=
  RuntimeCall -> RuntimeOrigin -> WrapperStore W -> result Z (WrapperStore W).

Definition with_other (h : handler) : WrapperRuntime W := {|
  reserve := reserve;
  unreserve := unreserve;
  hash_of := hash_of;
  derive_pure := derive_pure;
  derive_derivative := derive_derivative;
  BaseCallFilter := BaseCallFilter;
  other_call := h;
|}.

(** The calls of the two pallets. *)
Definition is_wrapper (call : RuntimeCall) : Prop :=
  match call with RuntimeCall_Utility _ | RuntimeCall_Proxy _ => True | _ => False end.

Lemma run_wrapper h c o s : is_wrapper c ->
  run_runtime_call (WR := with_other h) c o s
  = run_outermost (run_runtime_call (WR := with_other h)) c o s.
Proof. by destruct c as [| | | |[]| | | | |[]| | | | | | |]. Qed.

(** The execution of calls in which [h] takes over some calls, wherever they are dispatched. *)
Fixpoint run_intercepted (h : RuntimeCall -> option (Origin W -> wact W unit)) (call : RuntimeCall)
    (o : Origin W) {struct call} : wact W unit :=
  match h call with
  | Some run => run o
  | None => run_outermost (fun c => run_intercepted h c) call o
  end.

Lemma run_intercepted_none h c o s : h c = None ->
  run_intercepted h c o s = run_outermost (run_intercepted h) c o s.
Proof. intros H. destruct c; cbn [run_intercepted]; by rewrite H. Qed.

(** [d1] and [d2] do the same from the origin [o]. *)
Definition same_effect o (d1 d2 : Dispatchable W) : Prop :=
  d_call d1 = d_call d2 /\ forall s, filter_call o s (d_call d1) = true ->
    dispatch_bypass_filter d1 o s = dispatch_bypass_filter d2 o s.

Lemma dispatch_filtered_same o d1 d2 s :
  same_effect o d1 d2 -> dispatch_filtered d1 o s = dispatch_filtered d2 o s.
Proof.
  intros [Hc Hd]. unfold dispatch_filtered. rewrite <- Hc.
  destruct (filter_call o s (d_call d1)) eqn:E; auto.
Qed.

Lemma attempt_same {A} (m1 m2 : wact W A) s : m1 s = m2 s -> attempt m1 s = attempt m2 s.
Proof. unfold attempt. by intros ->. Qed.

Lemma not_root o : caller o <> Origin_Root -> origin_is_root o = false.
Proof. unfold origin_is_root. by destruct (caller o). Qed.

Lemma batch_same o l1 l2 s : caller o <> Origin_Root -> Forall2 (same_effect o) l1 l2 ->
  batch o l1 s = batch o l2 s.
Proof.
  intros Hr Hl. unfold batch. rewrite not_root by done.
  unfold ensure_batch_size. rewrite (Forall2_length _ _ _ Hl).
  unfold abind, check. destruct (ensure_not_none o); [|done]. simpl.
  destruct (ensure _ (WrapperError_Utility _)); [|done]. simpl.
  generalize 0 as i. revert s. induction Hl as [|d1 d2 l1 l2 Hd Hl IH]; intros s i; [done|].
  simpl. unfold abind. rewrite (attempt_same _ (dispatch_filtered d2 o)) by
    by apply dispatch_filtered_same.
  unfold attempt. destruct (dispatch_filtered d2 o s) as [[]|]; [|done]. simpl. apply IH.
Qed.

Lemma force_batch_same o l1 l2 s : caller o <> Origin_Root -> Forall2 (same_effect o) l1 l2 ->
  force_batch o l1 s = force_batch o l2 s.
Proof.
  intros Hr Hl. unfold force_batch. rewrite not_root by done.
  unfold ensure_batch_size. rewrite (Forall2_length _ _ _ Hl).
  unfold abind, check. destruct (ensure_not_none o); [|done]. simpl.
  destruct (ensure _ (WrapperError_Utility _)); [|done]. simpl.
  generalize false at 2 4 as b. revert s.
  induction Hl as [|d1 d2 l1 l2 Hd Hl IH]; intros s b; [done|].
  simpl. unfold abind. rewrite (attempt_same _ (dispatch_filtered d2 o)) by
    by apply dispatch_filtered_same.
  unfold attempt. destruct (dispatch_filtered d2 o s) as [[]|]; simpl; apply IH.
Qed.

Lemma batch_all_same o l1 l2 s : caller o <> Origin_Root ->
  Forall2 (same_effect (add_filter not_batch_all o)) l1 l2 ->
  batch_all o l1 s = batch_all o l2 s.
Proof.
  intros Hr Hl. unfold batch_all. rewrite not_root by done.
  unfold ensure_batch_size. rewrite (Forall2_length _ _ _ Hl).
  unfold abind, check. destruct (ensure_not_none o); [|done]. simpl.
  destruct (ensure _ (WrapperError_Utility _)); [|done]. simpl.
  revert s. induction Hl as [|d1 d2 l1 l2 Hd Hl IH]; intros s; [done|].
  simpl. unfold abind. rewrite (dispatch_filtered_same _ _ _ _ Hd).
  destruct (dispatch_filtered d2 _ s) as [[]|]; [|done]. simpl. apply IH.
Qed.

Lemma if_else_same o m1 m2 b1 b2 s : caller o <> Origin_Root ->
  same_effect o m1 m2 -> same_effect o b1 b2 -> if_else o m1 b1 s = if_else o m2 b2 s.
Proof.
  intros Hr Hm Hb. unfold if_else. rewrite not_root by done. unfold abind, check.
  destruct (ensure_not_none o); [|done]. simpl.
  rewrite (attempt_same _ (dispatch_filtered m2 o)) by by apply dispatch_filtered_same.
  unfold attempt at 1 3. destruct (dispatch_filtered m2 o s) as [[]|]; [done|]. simpl.
  by rewrite (attempt_same _ (dispatch_filtered b2 o)) by by apply dispatch_filtered_same.
Qed.

Lemma do_proxy_same def real d1 d2 s :
  same_effect (add_filter (proxy_filter def) (fresh_origin (Origin_Signed real))) d1 d2 ->
  do_proxy def real d1 s = do_proxy def real d2 s.
Proof.
  intros Hd. unfold do_proxy, abind. set (o := add_filter _ _) in *.
  by rewrite (attempt_same _ (dispatch_filtered d2 o)) by by apply dispatch_filtered_same.
Qed.

(** Two executions of calls, which do the same themselves with the calls of the two pallets. *)
Section Agree.
Variables (run1 run2 : RuntimeCall -> Origin W -> wact W unit).
Variables (okO : Origin W -> Prop) (okC allow : RuntimeCall -> Prop).
Hypothesis Hwrapper1 : forall c o s, is_wrapper c -> okC c -> run1 c o s = run_outermost run1 c o s.
Hypothesis Hwrapper2 : forall c o s, is_wrapper c -> okC c -> run2 c o s = run_outermost run2 c o s.
Hypothesis Hother : forall c o s, ~ is_wrapper c -> okO o -> okC c -> run1 c o s = run2 c o s.
Hypothesis Hroot : forall o, okO o -> caller o <> Origin_Root.
Hypothesis Hfilter : forall o s c, okO o -> filter_call o s c = true -> okC c.
Hypothesis Hbatch : forall o, okO o -> okO (add_filter not_batch_all o).
Hypothesis Hderivative : forall o who a, okO o -> caller o = Origin_Signed who ->
  okO (set_caller_from (Origin_Signed a) o).
Hypothesis Hproxy : forall o who def real inner force call,
  okO o -> caller o = Origin_Signed who -> allow (RuntimeCall_Proxy inner) ->
  (inner = ProxyCall_proxy real force call
   \/ exists d, inner = ProxyCall_proxy_announced d real force call) ->
  okO (add_filter (proxy_filter def) (fresh_origin (Origin_Signed real))).
Hypothesis Hallow : forall call c, allow call -> c ∈ inner_calls call -> allow c.

Abbreviation call1 := (fun c => mk_Dispatchable c (run1 c)).
Abbreviation call2 := (fun c => mk_Dispatchable c (run2 c)).

(** The statement to be shown of a call. *)
Definition agrees (call : RuntimeCall) : Prop := allow call -> okC call ->
  forall o, okO o -> forall s, run1 call o s = run2 call o s.

Lemma inner_same call c o : agrees c -> allow call -> c ∈ inner_calls call -> okO o ->
  same_effect o (call1 c) (call2 c).
Proof. intros IH Ha Hc Ho. split; [done|]. intros s Hf. apply IH; eauto. Qed.

Lemma inner_list_same call calls o : (forall c, c ∈ calls -> agrees c) -> allow call ->
  (forall c, c ∈ calls -> c ∈ inner_calls call) -> okO o ->
  Forall2 (same_effect o) (map call1 calls) (map call2 calls).
Proof.
  intros IH Ha Hin Ho. induction calls as [|c calls IHl]; simpl; constructor.
  - apply (inner_same call); [apply IH; by left|done|apply Hin; by left|done].
  - apply IHl; intros; [apply IH|apply Hin]; by right.
Qed.

Lemma utility_agrees u : (forall c, c ∈ inner_calls (RuntimeCall_Utility u) -> agrees c) ->
  agrees (RuntimeCall_Utility u).
Proof.
  intros IH Ha Hc o Ho s. pose proof (Hroot o Ho) as Hr. rewrite Hwrapper1, Hwrapper2 by done.
  destruct u as [calls|i c|calls|ao c|calls|c wt|m fb|ao c]; cbn [run_outermost].
  - apply batch_same; [done|]. by apply (inner_list_same _ calls _ IH Ha).
  - unfold as_derivative, abind, check.
    unfold origin_signed. destruct (caller o) as [|who| |] eqn:Ec; try done. simpl.
    destruct (derive_derivative who i); [|done]. simpl. apply dispatch_filtered_same.
    eapply (inner_same _ c); [apply IH|exact Ha| |by eapply Hderivative]; by left.
  - apply batch_all_same; [done|]. apply (inner_list_same _ calls _ IH Ha); auto.
  - unfold dispatch_as, ensure_root_caller. by rewrite not_root.
  - apply force_batch_same; [done|]. by apply (inner_list_same _ calls _ IH Ha).
  - unfold with_weight, ensure_root_caller. by rewrite not_root.
  - apply if_else_same; [done| |].
    + apply (inner_same _ m _ (IH m ltac:(by left)) Ha); [by left|done].
    + apply (inner_same _ fb _ (IH fb ltac:(right; by left)) Ha); [right; by left|done].
  - unfold dispatch_as_fallible, ensure_root_caller. by rewrite not_root.
Qed.

Lemma proxy_agrees p : (forall c, c ∈ inner_calls (RuntimeCall_Proxy p) -> agrees c) ->
  agrees (RuntimeCall_Proxy p).
Proof.
  intros IH Ha Hc o Ho s. rewrite Hwrapper1, Hwrapper2 by done.
  destruct p as [real force c| | | | | | | | |d real force c| |]; try done;
    cbn [run_outermost].
  - unfold proxy, abind, check, origin_signed.
    destruct (caller o) as [|who| |] eqn:Ec; try done. simpl.
    destruct (find_proxy s real who force) as [def|]; [|done]. simpl.
    destruct (pd_delay def =? 0); [|done]. simpl. apply do_proxy_same.
    apply (inner_same _ c _ (IH c ltac:(by left)) Ha); [by left|].
    eapply Hproxy; eauto.
  - unfold proxy_announced, abind, check, asks, origin_signed.
    destruct (caller o) as [|who| |] eqn:Ec; try done. simpl.
    destruct (find_proxy s real d force) as [def|]; [|done]. simpl.
    unfold attempt at 1 2.
    destruct (edit_announcements d _ s) as [[[] s']|]; [|done]. simpl.
    apply do_proxy_same.
    apply (inner_same _ c _ (IH c ltac:(by left)) Ha); [by left|].
    eapply Hproxy; eauto.
Qed.

Lemma all_agree call : agrees call.
Proof.
  induction call as [call IH] using carried_ind.
  destruct call; try (by apply utility_agrees); try (by apply proxy_agrees);
    intros _ Hc o Ho s; apply Hother; auto.
Qed.

Lemma dispatch_agrees call o s : allow call -> okO o ->
  dispatch_filtered (call1 call) o s = dispatch_filtered (call2 call) o s.
Proof.
  intros Ha Ho. apply dispatch_filtered_same. split; [done|].
  intros s' Hf. apply all_agree; eauto.
Qed.

End Agree.
End Reach.

(** ** Origins and proxy types *)

Section Authority.
Context {W : Type} `{WC : !WrapperConfig} `{WR : !WrapperRuntime W}.
Implicit Types (s : WrapperStore W) (o : Origin W) (f g : handler (W := W)).

(** The origins from which a call may be executed that was sent from [from]. *)
Definition origin_below (from to : RuntimeOrigin) : Prop :=
  match from with
  | Origin_Signed _ => exists a, to = Origin_Signed a
  | Origin_Root => True
  | _ => to = from
  end.

(** C22 Wrappers never raise an origin.  Whatever batches, conditionals, derivative accounts
    and proxies a call is wrapped in: sent from a signed origin, calls of other pallets are
    executed from signed origins only, never as root and never with the shielded origin;
    sent from the shielded origin of an account, they are executed from that very origin. *)
Theorem wrappers_keep_origin f g call o s
    (Hroot : caller o <> Origin_Root)
    (Hagree : forall c to s, origin_below (caller o) to -> f c to s = g c to s) :
  runtime_dispatch (WR := with_other f) call o s
  = runtime_dispatch (WR := with_other g) call o s.
Proof.
  apply (dispatch_agrees (run_runtime_call (WR := with_other f)) (run_runtime_call (WR := with_other g))
    (fun o' => origin_below (caller o) (caller o')) (fun _ => True) (fun _ => True)); try done.
  - intros c o' s' Hc _. by apply run_wrapper.
  - intros c o' s' Hc _. by apply run_wrapper.
  - intros c o' s' Hc Ho _. destruct c; try done; cbn [run_runtime_call run_outermost]; unfold other_do;
      cbn [other_call with_other]; by rewrite (Hagree _ _ s' Ho).
  - intros o' Ho Hr. rewrite Hr in Ho. by destruct (caller o); try destruct Ho.
  - intros o' who a Ho Hc. rewrite Hc in Ho. destruct (caller o); try done. by exists a.
  - intros o' who def real inner force c Ho Hc _ _. rewrite Hc in Ho.
    destruct (caller o); try done. by exists real.
  - by destruct (caller o); try eexists.
Qed.

(** No proxy call inside. *)
Definition not_proxying (call : RuntimeCall) : Prop :=
  match call with
  | RuntimeCall_Proxy (ProxyCall_proxy _ _ _ | ProxyCall_proxy_announced _ _ _ _) => False
  | _ => True
  end.
Definition confined (call : RuntimeCall) : Prop :=
  forall c, rtc carries call c -> not_proxying c.

(** What a proxy of a type may do: the calls that the type allows, of these [add_proxy] and
    [remove_proxy] for a type that the own one is a superset of, and [remove_proxies] and
    [kill_pure] for the type [Any]. *)
Definition permitted (def : ProxyDefinition) (c : RuntimeCall) : Prop :=
  ProxyType_filter (pd_proxy_type def) c = true
  /\ match c with
     | RuntimeCall_Proxy (ProxyCall_add_proxy _ t _ | ProxyCall_remove_proxy _ t _) =>
         is_superset (pd_proxy_type def) t = true
     | RuntimeCall_Proxy (ProxyCall_remove_proxies | ProxyCall_kill_pure _ _ _ _ _) =>
         pd_proxy_type def = ProxyType_Any
     | _ => True
     end.

Lemma proxy_filter_permitted def c : proxy_filter def c = true <-> permitted def c.
Proof.
  unfold proxy_filter, permitted.
  destruct c as [| | | | | | | | |p| | | | | | |]; try tauto. destruct p; try tauto.
  1,2: destruct (is_superset _ _); simpl; naive_solver.
  1,2: case_bool_decide as E; simpl; unfold ProxyType_default in E; naive_solver.
Qed.

(** Whatever is done with the calls that are not permitted, [do_proxy] does not see it. *)
Lemma do_proxy_confined h def real call s : confined call ->
  (forall c, permitted def c -> h c = None) ->
  do_proxy def real (mk_Dispatchable call (run_intercepted h call)) s
  = do_proxy def real (as_dispatchable call) s.
Proof.
  intros Hconf Hh. apply do_proxy_same. split; [done|]. intros s' Hf.
  pose (okO := fun o' : Origin W => (exists a, caller o' = Origin_Signed a)
    /\ forall w c, origin_filter o' w c = true -> permitted def c).
  apply (all_agree (run_intercepted h) run_runtime_call okO (permitted def) confined); try done.
  - intros c o' s'' _ Hc. by apply run_intercepted_none, Hh.
  - intros c o' s'' Hc _. by destruct c as [| | | |[]| | | | |[]| | | | | | |].
  - intros c o' s'' Hw _ Hc. rewrite run_intercepted_none by by apply Hh. by destruct c.
  - intros o' [[a Ha] _]. by rewrite Ha.
  - intros o' s'' c [[a Ha] Ho]. unfold filter_call. rewrite Ha. apply Ho.
  - intros o' [Ha Ho]. split; [done|]. intros w c [Hc _]%andb_true_iff. eauto.
  - intros o' who' a [_ Ho] _. split; [by exists a|done].
  - intros o' who' def' real' inner force' c _ _ Hc Hin. exfalso.
    specialize (Hc _ (rtc_refl _ _)). by destruct Hin as [->|[d ->]].
  - intros c c' Hc Hin c'' Hr. apply Hc. by eapply rtc_l.
  - simpl in Hf. apply andb_true_iff in Hf as [_ ?]. by apply proxy_filter_permitted.
  - split; [by exists real|]. intros w c [_ ?]%andb_true_iff. by apply proxy_filter_permitted.
Qed.

(** C23 A proxy is confined to its type.  What a delegate dispatches for [real] with [proxy] or
    [proxy_announced], also inside batches, conditionals and derivative accounts, executes only
    calls that the type of the proxy permits, of the proxy and the utility pallet themselves too,
    as long as it does not use a further proxy: if any other code took over the calls that are
    not permitted, wherever they are dispatched, nothing would change. *)
Theorem proxy_confined h o delegate real force call def s
    (Hdef : find_proxy s real delegate force = Ok def) (Hconf : confined call)
    (Hh : forall c, permitted def c -> h c = None) :
  (caller o = Origin_Signed delegate ->
   proxy o real force (mk_Dispatchable call (run_intercepted h call)) s
   = run_runtime_call (RuntimeCall_Proxy (ProxyCall_proxy real force call)) o s)
  /\ proxy_announced o delegate real force (mk_Dispatchable call (run_intercepted h call)) s
     = run_runtime_call (RuntimeCall_Proxy (ProxyCall_proxy_announced delegate real force call)) o s.
Proof.
  cbn [run_runtime_call run_outermost]. split.
  - intros Hcaller. unfold proxy, abind, check, origin_signed. rewrite Hcaller. simpl.
    rewrite Hdef. simpl. destruct (pd_delay def =? 0); [|done]. by apply do_proxy_confined.
  - unfold proxy_announced, abind, check, asks. destruct (origin_signed o); [|done]. simpl.
    rewrite Hdef. simpl. unfold attempt at 1 2.
    destruct (edit_announcements delegate _ s) as [[[] s']|]; [|done]. simpl. by apply do_proxy_confined.
Qed.

End Authority.
