(* ===== verification/ProxyInvariants.v ===== *)
(** * Wrappers of calls: the stored proxies

    Every dispatch is a sequence of the basic operations of the proxy pallet, and these keep
    the stored proxies and announcements well-formed: sorted without duplicates, within
    their bounds, with exactly the deposits that the configuration asks for. *)

From S2P Require Import Prelude Protocol PostQuantum Pallet PalletCalls Shield RuntimeCalls.
From S2P Require Import ProxyTypes Proxy ProxySafety.
From stdpp Require Import base tactics list gmap strings list_numbers relations sorting.
From Stdlib Require Import ZArith Lia.
Open Scope Z_scope.

(** ** The order of proxy definitions *)

Ltac compare_lt :=
  match goal with |- context [?u ?= ?v] =>
    replace (u ?= v) with Lt by (symmetry; apply Z.compare_lt_iff; lia) end; done.

Lemma AccountId_compare_refl a : AccountId_compare a a = Eq.
Proof. induction a as [|x a IH]; simpl; [done|]. by rewrite Z.compare_refl. Qed.

Lemma AccountId_compare_eq a b : AccountId_compare a b = Eq -> a = b.
Proof.
  revert b. induction a as [|x a IH]; intros [|y b]; simpl; try done.
  destruct (Z.compare_spec x y); try done. intros ->%IH. by subst.
Qed.

Lemma AccountId_compare_antisym a b : AccountId_compare b a = CompOpp (AccountId_compare a b).
Proof.
  revert b. induction a as [|x a IH]; intros [|y b]; simpl; try done.
  rewrite (Z.compare_antisym x y). destruct (x ?= y); simpl; auto.
Qed.

Lemma AccountId_compare_trans a b c :
  AccountId_compare a b = Lt -> AccountId_compare b c = Lt -> AccountId_compare a c = Lt.
Proof.
  revert b c. induction a as [|x a IH]; intros [|y b] [|z c]; simpl; try done.
  destruct (Z.compare_spec x y), (Z.compare_spec y z); try done; subst;
    rewrite ?Z.compare_refl; intros; eauto; compare_lt.
Qed.

Definition definition_lt (a b : ProxyDefinition) : Prop := ProxyDefinition_compare a b = Lt.

Lemma definition_compare_eq a b : ProxyDefinition_compare a b = Eq -> a = b.
Proof.
  destruct a as [a1 a2 a3], b as [b1 b2 b3]. unfold ProxyDefinition_compare. simpl.
  destruct (AccountId_compare a1 b1) eqn:E1; try done. apply AccountId_compare_eq in E1.
  destruct (Z.compare_spec (ProxyType_into a2) (ProxyType_into b2)) as [E2| |]; try done.
  apply ProxyType_into_inj in E2. intros E3%Z.compare_eq. by subst.
Qed.

Lemma definition_compare_antisym a b :
  ProxyDefinition_compare b a = CompOpp (ProxyDefinition_compare a b).
Proof.
  unfold ProxyDefinition_compare.
  rewrite (AccountId_compare_antisym (pd_delegate a) (pd_delegate b)).
  destruct (AccountId_compare (pd_delegate a) (pd_delegate b)); simpl; try done.
  rewrite (Z.compare_antisym (ProxyType_into (pd_proxy_type a))).
  destruct (_ ?= ProxyType_into (pd_proxy_type b)); simpl; try done.
  apply Z.compare_antisym.
Qed.

Lemma definition_lt_trans : Transitive definition_lt.
Proof.
  intros [a1 a2 a3] [b1 b2 b3] [c1 c2 c3]. unfold definition_lt, ProxyDefinition_compare. simpl.
  destruct (AccountId_compare a1 b1) eqn:E1; try done.
  - apply AccountId_compare_eq in E1 as ->.
    destruct (AccountId_compare b1 c1); try done.
    destruct (Z.compare_spec (ProxyType_into a2) (ProxyType_into b2)) as [->| |]; try done;
      destruct (Z.compare_spec (ProxyType_into b2) (ProxyType_into c2)) as [E| |]; try done;
      try rewrite E in *; rewrite ?Z.compare_lt_iff; intros; try compare_lt.
    rewrite ?Z.compare_refl. apply Z.compare_lt_iff. lia.
  - intros _. destruct (AccountId_compare b1 c1) eqn:E2; try done.
    + apply AccountId_compare_eq in E2 as <-. by rewrite E1.
    + by rewrite (AccountId_compare_trans _ _ _ E1 E2).
Qed.

Lemma binary_search_Err x l i : binary_search x l = Err i -> StronglySorted definition_lt l ->
  Forall (fun y => definition_lt y x) (take i l) /\ Forall (definition_lt x) (drop i l).
Proof.
  intros H Hs. revert i H. induction Hs as [|y l Hs IH Hy]; intros i; simpl.
  { intros [= <-]. done. }
  destruct (ProxyDefinition_compare y x) eqn:E; [done| |].
  - destruct (binary_search x l) as [j|j]; [done|]. intros [= <-].
    destruct (IH j eq_refl) as [H1 H2]. split; [by constructor|done].
  - intros [= <-]. split; [done|]. assert (definition_lt x y).
    { unfold definition_lt. by rewrite definition_compare_antisym, E. }
    constructor; [done|]. eapply Forall_impl; [exact Hy|]. intros z Hz.
    by eapply definition_lt_trans.
Qed.

Lemma sorted_insert x l i : StronglySorted definition_lt l -> binary_search x l = Err i ->
  StronglySorted definition_lt (take i l ++ x :: drop i l).
Proof.
  intros Hs Hi. destruct (binary_search_Err x l i Hi Hs) as [H1 H2].
  rewrite <- (take_drop i l) in Hs. apply StronglySorted_app in Hs as (Hl & Hs1 & Hs2).
  apply StronglySorted_app. split; [|split; [done|by constructor]].
  intros y z Hy [->|Hz]%elem_of_cons.
  - rewrite Forall_forall in H1. auto.
  - auto.
Qed.

Lemma sorted_remove l i : StronglySorted definition_lt l ->
  StronglySorted definition_lt (take i l ++ drop (S i) l).
Proof.
  intros Hs. destruct (l !! i) as [x|] eqn:E.
  - rewrite <- (take_drop_middle l i x E) in Hs. apply StronglySorted_app in Hs as (Hl & H1 & H2).
    apply StronglySorted_cons in H2 as [_ H2]. apply StronglySorted_app.
    split; [|done]. intros y z Hy Hz. apply Hl; [done|by right].
  - apply lookup_ge_None in E. by rewrite take_ge, drop_ge, app_nil_r by lia.
Qed.

(** ** Steps *)

Section Steps.
Context {W : Type} `{WC : !WrapperConfig} `{WR : !WrapperRuntime W}.
Implicit Types (s : WrapperStore W) (o : Origin W).

(** The operations of the proxy pallet that change its storage. *)
Inductive basic_op : wact W unit -> Prop :=
| op_add_proxy_delegate who d t delay : basic_op (add_proxy_delegate who d t delay)
| op_remove_proxy_delegate who d t delay : basic_op (remove_proxy_delegate who d t delay)
| op_remove_all who : basic_op (remove_all_proxy_delegates who)
| op_create_pure o t delay i : basic_op (create_pure o t delay i)
| op_kill_pure o who t i h e : basic_op (kill_pure o who t i h e)
| op_announce o real h : basic_op (announce o real h)
| op_edit_announcements d f : basic_op (edit_announcements d f)
| op_poke_deposit o : basic_op (poke_deposit o)
| op_set_real_pays_fee o d b : basic_op (set_real_pays_fee o d b)
| op_last_call_result real r :
    basic_op (modify (fun s => s <| LastCallResult ::= <[real := r]> |>))
| op_event e : basic_op (wrapper_event e).

Inductive wrapper_step s : WrapperStore W -> Prop :=
| step_op m s' : basic_op m -> m s = Ok (tt, s') -> wrapper_step s s'
| step_outside w : wrapper_step s (s <| outside := w |>)
| step_finalize : wrapper_step s (proxy_on_finalize s)
| step_block n i : wrapper_step s (s <| wrapper_block := n |> <| extrinsic_index := i |>).

(** Calls of other pallets change proxies through the operations of this one only. *)
Hypothesis Hother : forall c to s s', other_call c to s = Ok s' -> rtc wrapper_step s s'.

Definition steps {A} (m : wact W A) : Prop :=
  forall s a s', m s = Ok (a, s') -> rtc wrapper_step s s'.

Lemma steps_basic m : basic_op m -> steps m.
Proof. intros Hm s [] s' H. apply rtc_once. by eapply step_op. Qed.

Lemma steps_bind {A B} (m : wact W A) (k : A -> wact W B) :
  steps m -> (forall a, steps (k a)) -> steps (abind m k).
Proof.
  intros Hm Hk s b s' H. rewrite abind_Ok in H. destruct H as (a & s1 & H1 & H2).
  etrans; [by eapply Hm|by eapply Hk].
Qed.

Lemma steps_check {A} (f : WrapperStore W -> result WrapperError A) : steps (check f).
Proof. intros s a s' [_ ->]%check_Ok. done. Qed.

Lemma steps_ask {A} (f : WrapperStore W -> A) : steps (asks f).
Proof. intros s a s' [_ ->]%asks_Ok. done. Qed.

Lemma steps_fail {A} e : steps (fail e : wact W A).
Proof. by intros s a s' ?%fail_Ok. Qed.

Lemma steps_attempt {A} (m : wact W A) : steps m -> steps (attempt m).
Proof.
  intros Hm s a s'. unfold attempt. destruct (m s) as [[x s1]|e] eqn:E; intros [= <- <-];
    [by eapply Hm|done].
Qed.

Lemma steps_filtered (d : Dispatchable W) o :
  steps (dispatch_bypass_filter d o) -> steps (dispatch_filtered d o).
Proof. intros Hd s a s'. unfold dispatch_filtered. destruct (filter_call _ _ _); [apply Hd|done]. Qed.

Create HintDb steps.
#[local] Hint Resolve steps_basic steps_bind steps_check steps_ask steps_fail steps_attempt
  steps_filtered : steps.
#[local] Hint Constructors basic_op : steps.

(** Every item of a list of calls. *)
Definition all_steps (l : list (Dispatchable W)) : Prop :=
  forall d o, d ∈ l -> steps (dispatch_bypass_filter d o).

Lemma steps_item b d o : steps (dispatch_bypass_filter d o) -> steps (dispatch_item b d o).
Proof. unfold dispatch_item. destruct b; auto with steps. Qed.
#[local] Hint Resolve steps_item : steps.

Lemma steps_batch_loop b o i l : all_steps l -> steps (batch_loop b o i l).
Proof.
  revert i. induction l as [|d l IH]; intros i Hl; simpl; [auto with steps|].
  apply steps_bind; [apply steps_attempt, steps_item, Hl; by left|].
  intros [|]; [|auto with steps]. apply steps_bind; [auto with steps|].
  intros _. apply IH. intros d' o' Hd. apply Hl. by right.
Qed.

Lemma steps_batch_all_loop b o l : all_steps l -> steps (batch_all_loop b o l).
Proof.
  induction l as [|d l IH]; intros Hl; simpl; [auto with steps|].
  apply steps_bind.
  { destruct b; [|apply steps_filtered]; apply Hl; by left. }
  intros _. apply steps_bind; [auto with steps|].
  intros _. apply IH. intros d' o' Hd. apply Hl. by right.
Qed.

Lemma steps_force_batch_loop b o e l : all_steps l -> steps (force_batch_loop b o e l).
Proof.
  revert e. induction l as [|d l IH]; intros e Hl; simpl; [auto with steps|].
  apply steps_bind; [apply steps_attempt, steps_item, Hl; by left|].
  intros [|]; (apply steps_bind; [auto with steps|]);
    intros _; apply IH; intros d' o' Hd; apply Hl; by right.
Qed.

Lemma steps_do_proxy def real d : (forall o, steps (dispatch_bypass_filter d o)) ->
  steps (do_proxy def real d).
Proof. intros Hd. unfold do_proxy. auto 10 with steps. Qed.

Lemma all_steps_map calls : (forall c o, c ∈ calls -> steps (run_runtime_call c o)) ->
  all_steps (map as_dispatchable calls).
Proof.
  intros H d o Hd. change (map as_dispatchable calls) with (as_dispatchable <$> calls) in Hd.
  apply list_elem_of_fmap in Hd as (c & -> & Hc). by apply H.
Qed.

(** Every dispatched call is a sequence of steps. *)
Lemma run_runtime_call_steps call : forall o, steps (run_runtime_call call o).
Proof.
  induction call as [call IH] using carried_ind. intros o.
  assert (Hone : forall c o', c ∈ inner_calls call ->
    steps (dispatch_bypass_filter (as_dispatchable c) o')) by (intros; by apply IH).
  destruct call as [| | | |u| | | | |p| | | | | | |];
    try (intros s a s' H; cbn [run_runtime_call run_outermost] in H; unfold other_do in H;
         match type of H with context [other_call ?c ?to s] =>
           destruct (other_call c to s) eqn:E; [|done]; injection H as <- <-; by eapply Hother
         end).
  - destruct u as [calls|i c|calls|ao c|calls|c wt|m fb|ao c]; cbn [run_runtime_call run_outermost].
    + apply steps_bind; [auto with steps|intros _]. apply steps_bind; [auto with steps|intros _].
      by apply steps_batch_loop, all_steps_map.
    + apply steps_bind; [auto with steps|intros who]. apply steps_bind; [auto with steps|intros a].
      apply steps_filtered, Hone. by left.
    + apply steps_bind; [auto with steps|intros _]. apply steps_bind; [auto with steps|intros _].
      by apply steps_batch_all_loop, all_steps_map.
    + apply steps_bind; [auto with steps|intros _].
      apply steps_bind; [apply steps_attempt, Hone; by left|auto with steps].
    + apply steps_bind; [auto with steps|intros _]. apply steps_bind; [auto with steps|intros _].
      by apply steps_force_batch_loop, all_steps_map.
    + apply steps_bind; [auto with steps|intros _]. apply Hone. by left.
    + apply steps_bind; [auto with steps|intros _].
      apply steps_bind; [apply steps_attempt, steps_item, Hone; by left|].
      intros [|]; [auto with steps|].
      apply steps_bind; [apply steps_attempt, steps_item, Hone; right; by left|].
      intros [|]; auto with steps.
    + apply steps_bind; [auto with steps|intros _].
      apply steps_bind; [apply Hone; by left|auto with steps].
  - destruct p as [real force c| | | | | | | | |d real force c| |];
      cbn [run_runtime_call run_outermost];
      try (unfold add_proxy, remove_proxy, remove_proxies, remove_announcement,
             reject_announcement; auto with steps; fail).
    + apply steps_bind; [auto with steps|intros who]. apply steps_bind; [auto with steps|intros def].
      apply steps_bind; [auto with steps|intros _]. apply steps_do_proxy. intros o'.
      apply Hone. by left.
    + apply steps_bind; [auto with steps|intros _]. apply steps_bind; [auto with steps|intros def].
      apply steps_bind; [auto with steps|intros now]. apply steps_bind; [auto with steps|intros r].
      apply steps_bind; [auto with steps|intros _]. apply steps_do_proxy. intros o'.
      apply Hone. by left.
Qed.

End Steps.

(** ** Well-formed storage *)

Section WellFormed.
Context {W : Type} `{WC : !WrapperConfig} `{WR : !WrapperRuntime W}.
Implicit Types (s : WrapperStore W) (o : Origin W).

Definition announcement_deposit (n : nat) : Z :=
  if (n =? 0)%nat then 0
  else saturating_add 64 AnnouncementDepositBase
         (saturating_mul 64 AnnouncementDepositFactor (Z.of_nat n)).

Definition proxies_ok (l : list ProxyDefinition) (d : Z) : Prop :=
  Z.of_nat (length l) <= MaxProxies /\ StronglySorted definition_lt l
  /\ d = deposit (Z.of_nat (length l)).

Definition announcements_ok (l : list Announcement) (d : Z) : Prop :=
  Z.of_nat (length l) <= MaxPending /\ d = announcement_deposit (length l).

Record wrapper_inv s : Prop := {
  wi_proxies : forall who l d, Proxies s !! who = Some (l, d) -> l <> [] /\ proxies_ok l d;
  wi_announcements : forall who l d,
    Announcements s !! who = Some (l, d) -> l <> [] /\ announcements_ok l d;
}.

Hypothesis Hmax : 0 <= MaxProxies /\ 0 <= MaxPending.
Hypothesis Hfactor : 0 <= ProxyDepositFactor <= uint_max 64.

(** The entries of an account without an entry are well-formed too. *)
Lemma proxies_of_ok s who : wrapper_inv s -> proxies_ok (fst (proxies_of s who)) (snd (proxies_of s who)).
Proof.
  intros H. unfold proxies_of. destruct (Proxies s !! who) as [[l d]|] eqn:E; simpl.
  - by eapply wi_proxies.
  - split; [simpl; lia|]. split; [constructor|done].
Qed.

Lemma announcements_of_ok s who :
  wrapper_inv s -> announcements_ok (fst (announcements_of s who)) (snd (announcements_of s who)).
Proof.
  intros H. unfold announcements_of. destruct (Announcements s !! who) as [[l d]|] eqn:E; simpl.
  - by eapply wi_announcements.
  - split; [simpl; lia|done].
Qed.

(** What the deposit operations do to the storage of the pallet: nothing. *)
Lemma adjust_deposit_Ok who a b s u s' :
  adjust_deposit who a b s = Ok (u, s') -> exists w, s' = s <| outside := w |>.
Proof.
  unfold adjust_deposit, reserve_do, unreserve_do. intros H.
  assert (s = s <| outside := outside s |>) by by destruct s.
  repeat case_match; inv_run; simplify_eq; repeat case_match; simplify_eq; eauto.
Qed.

Lemma rejig_deposit_Ok who old base factor len s r s' :
  rejig_deposit who old base factor len s = Ok (r, s') ->
  r = (if (len =? 0)%nat then None
       else Some (saturating_add 64 base (saturating_mul 64 factor (Z.of_nat len))))
  /\ exists w, s' = s <| outside := w |>.
Proof.
  unfold rejig_deposit. intros ([] & s1 & Hr & [-> ->]%ret_Ok)%abind_Ok.
  split; [by destruct (len =? 0)%nat|]. by eapply (adjust_deposit_Ok who).
Qed.

(** Storage is well-formed when it was and one entry is replaced by a well-formed one. *)
Lemma wrapper_inv_insert s s' who l d : wrapper_inv s ->
  Proxies s' = <[who := (l, d)]> (Proxies s) -> Announcements s' = Announcements s ->
  l <> [] -> proxies_ok l d -> wrapper_inv s'.
Proof.
  intros [H1 H2] Hp Ha Hn Hl. split; intros x l' d'; rewrite ?Hp, ?Ha; [|apply H2].
  rewrite lookup_insert_Some. intros [[-> [= <- <-]]|[_ ?]]; [done|by eapply H1].
Qed.

Lemma wrapper_inv_delete s s' who : wrapper_inv s ->
  Proxies s' = delete who (Proxies s) -> Announcements s' = Announcements s -> wrapper_inv s'.
Proof.
  intros [H1 H2] Hp Ha. split; intros x l' d'; rewrite ?Hp, ?Ha; [|apply H2].
  rewrite lookup_delete_Some. intros [_ ?]. by eapply H1.
Qed.

Lemma wrapper_inv_same s s' : wrapper_inv s ->
  Proxies s' = Proxies s -> Announcements s' = Announcements s -> wrapper_inv s'.
Proof. intros [H1 H2] Hp Ha. split; rewrite ?Hp, ?Ha; [apply H1|apply H2]. Qed.

Lemma wrapper_inv_announce s s' who l d : wrapper_inv s ->
  Proxies s' = Proxies s -> Announcements s' = <[who := (l, d)]> (Announcements s) ->
  l <> [] -> announcements_ok l d -> wrapper_inv s'.
Proof.
  intros [H1 H2] Hp Ha Hn Hl. split; intros x l' d'; rewrite ?Hp, ?Ha; [apply H1|].
  rewrite lookup_insert_Some. intros [[-> [= <- <-]]|[_ ?]]; [done|by eapply H2].
Qed.

Lemma wrapper_inv_unannounce s s' who : wrapper_inv s ->
  Proxies s' = Proxies s -> Announcements s' = delete who (Announcements s) -> wrapper_inv s'.
Proof.
  intros [H1 H2] Hp Ha. split; intros x l' d'; rewrite ?Hp, ?Ha; [apply H1|].
  rewrite lookup_delete_Some. intros [_ ?]. by eapply H2.
Qed.

Ltac deposits := repeat match goal with
  | H : adjust_deposit _ _ _ _ = Ok _ |- _ =>
      let w := fresh "w" in apply adjust_deposit_Ok in H as [w ->]
  | H : rejig_deposit _ _ _ _ _ _ = Ok _ |- _ =>
      let w := fresh "w" in apply rejig_deposit_Ok in H as (-> & w & ->)
  end.

Lemma add_proxy_delegate_inv who d t delay s s' : wrapper_inv s ->
  add_proxy_delegate who d t delay s = Ok (tt, s') -> wrapper_inv s'.
Proof.
  intros Hi H. pose proof (proxies_of_ok s who Hi) as (Hlen & Hs & Hd).
  unfold add_proxy_delegate, wrapper_event in H. inv_run.
  destruct (proxies_of s who) as [l old]. simpl in *. inv_run.
  destruct (binary_search _ l) as [|i] eqn:Eb; [done|]. simplify_eq. inv_run. deposits.
  unfold try_insert in *. case_match; simplify_eq. boolprop.
  eapply (wrapper_inv_insert s _ who); [done|done|done|by destruct (take _ _)|].
  split; [|split; [|done]].
  - rewrite length_app, length_take. simpl. rewrite length_drop. lia.
  - by apply sorted_insert.
Qed.

Lemma remove_proxy_delegate_inv who d t delay s s' : wrapper_inv s ->
  remove_proxy_delegate who d t delay s = Ok (tt, s') -> wrapper_inv s'.
Proof.
  intros Hi H. unfold remove_proxy_delegate, wrapper_event in H. inv_run.
  destruct a as [l old]. destruct (wi_proxies _ Hi who l old) as (_ & Hlen & Hs & _); [done|].
  inv_run. destruct (binary_search _ l) as [i|] eqn:Eb; [|done]. simplify_eq. inv_run. deposits.
  case_bool_decide as Hn.
  - by eapply (wrapper_inv_delete s _ who).
  - eapply (wrapper_inv_insert s _ who); [done|done|done|done|].
    split; [|split; [by apply sorted_remove|done]].
    rewrite length_app, length_take, length_drop. lia.
Qed.

Lemma create_pure_inv o t delay i s s' : wrapper_inv s ->
  create_pure o t delay i s = Ok (tt, s') -> wrapper_inv s'.
Proof.
  intros Hi H. unfold create_pure, wrapper_event, reserve_do in H. inv_run. case_match; [|done].
  simplify_eq. boolprop.
  eapply (wrapper_inv_insert s _ _ [_]); [done|done|done|done|]. split; [done|].
  split; [repeat constructor|]. unfold deposit. simpl. f_equal. unfold saturating_mul. lia.
Qed.

Lemma announce_inv o real h s s' : wrapper_inv s -> announce o real h s = Ok (tt, s') ->
  wrapper_inv s'.
Proof.
  intros Hi H. unfold announce, wrapper_event in H. inv_run.
  match goal with H : context [announcements_of ?s0 ?who] |- _ =>
    pose proof (announcements_of_ok s0 who Hi) as (Hlen & Hd);
    destruct (announcements_of s0 who) as [l old]; rename who into x end.
  simpl in *. inv_run. deposits. rewrite length_app in *. simpl in *.
  replace (length l + 1 =? 0)%nat with false in * by (symmetry; apply Nat.eqb_neq; lia).
  simplify_eq. boolprop.
  eapply (wrapper_inv_announce s _ x); [done|done|done|by destruct l|].
  split; rewrite ?length_app; simpl; [lia|]. unfold announcement_deposit.
  by replace (length l + 1 =? 0)%nat with false by (symmetry; apply Nat.eqb_neq; lia).
Qed.

Lemma edit_announcements_inv d f s s' : wrapper_inv s -> edit_announcements d f s = Ok (tt, s') ->
  wrapper_inv s'.
Proof.
  intros Hi H. unfold edit_announcements in H. inv_run. destruct a as [l old].
  destruct (wi_announcements _ Hi d l old) as (_ & Hlen & _); [done|]. inv_run. deposits.
  match goal with H : (_ <? _)%nat = true |- _ => apply Nat.ltb_lt in H end.
  destruct (length (List.filter f l) =? 0)%nat eqn:E.
  - by eapply (wrapper_inv_unannounce s _ d).
  - eapply (wrapper_inv_announce s _ d); [done|done|done|intros Hf; by rewrite Hf in E|].
    split; [lia|]. unfold announcement_deposit. by rewrite E.
Qed.

Lemma poke_Ok {A} who kind base factor (entry : list A * Z) put s s' (Q : _ -> Prop) :
  poke who kind base factor entry put s = Ok (tt, s') ->
  (forall e s1 s2, (exists w, s1 = s <| outside := w |>) ->
     e = (if (length (fst entry) =? 0)%nat then None
          else Some (fst entry,
            saturating_add 64 base (saturating_mul 64 factor (Z.of_nat (length (fst entry)))))) ->
     put e s1 = Ok (tt, s2) -> Q s2) ->
  (forall s1 s2, Q s1 -> Proxies s2 = Proxies s1 -> Announcements s2 = Announcements s1 -> Q s2) ->
  Q s'.
Proof.
  intros H Hput HQ. destruct entry as [items old]. unfold poke, wrapper_event in H.
  apply abind_Ok in H as (r & s1 & (-> & w & ->)%rejig_deposit_Ok & H). simpl in *.
  destruct (length items =? 0)%nat; inv_run; boolprop;
    try (eapply HQ; [eapply Hput; [eauto|done|done]|done|done]);
    (eapply Hput; [eauto|reflexivity|]); by subst.
Qed.

Lemma poke_deposit_inv o s s' : wrapper_inv s -> poke_deposit o s = Ok (tt, s') -> wrapper_inv s'.
Proof.
  intros Hi H. unfold poke_deposit in H. inv_run.
  match goal with H : poke ?x _ _ _ (proxies_of _ _) _ _ = Ok (_, ?s1) |- _ =>
    rename x into who; rename H into Hp; rename s1 into s0 end.
  assert (Hi1 : wrapper_inv s0).
  { eapply poke_Ok; [exact Hp| |intros; by eapply wrapper_inv_same].
    intros e s1 s2 [w ->] He Hm. inv_run. destruct (proxies_of_ok s who Hi) as (Hlen & Hs & Hd).
    destruct (proxies_of s who) as [[|x l] d]; simpl in *.
    - by eapply (wrapper_inv_delete s _ who).
    - eapply (wrapper_inv_insert s _ who); [done|done|done|done|]. by split. }
  eapply poke_Ok; [exact H| |intros; by eapply wrapper_inv_same].
  intros e s1 s2 [w ->] He Hm. inv_run.
  destruct (announcements_of_ok s0 who Hi1) as (Hlen & Hd).
  destruct (announcements_of s0 who) as [[|x l] d]; simpl in *.
  - by eapply (wrapper_inv_unannounce s0 _ who).
  - eapply (wrapper_inv_announce s0 _ who); [done|done|done|done|]. by split.
Qed.

Lemma basic_op_inv m s s' : basic_op m -> wrapper_inv s -> m s = Ok (tt, s') -> wrapper_inv s'.
Proof.
  intros [] Hi H.
  - by eapply add_proxy_delegate_inv.
  - by eapply remove_proxy_delegate_inv.
  - unfold remove_all_proxy_delegates, unreserve_do in H. inv_run. repeat case_match. simplify_eq.
    by eapply (wrapper_inv_delete s).
  - by eapply create_pure_inv.
  - unfold kill_pure, unreserve_do, wrapper_event in H. inv_run. repeat case_match. simplify_eq.
    by eapply (wrapper_inv_delete s).
  - by eapply announce_inv.
  - by eapply edit_announcements_inv.
  - by eapply poke_deposit_inv.
  - unfold set_real_pays_fee, wrapper_event in H. inv_run. by eapply (wrapper_inv_same s).
  - inv_run. by eapply (wrapper_inv_same s).
  - unfold wrapper_event in H. inv_run. by eapply (wrapper_inv_same s).
Qed.

Lemma wrapper_steps_inv s s' : rtc wrapper_step s s' -> wrapper_inv s -> wrapper_inv s'.
Proof.
  induction 1 as [|s s1 s2 Hstep _ IH]; [done|]. intros Hi. apply IH. clear IH.
  destruct Hstep as [m s1 Hm H| | |]; [by eapply basic_op_inv|by eapply (wrapper_inv_same s)..].
Qed.

End WellFormed.

(** ** Reachable states *)

Section Reachable.
Context {W : Type} `{WC : !WrapperConfig} `{WR : !WrapperRuntime W}.
Implicit Types (s : WrapperStore W).

(** Dispatched calls, what the rest of the chain does, and blocks. *)
Inductive chain_step s : WrapperStore W -> Prop :=
| chain_dispatch call origin s' : runtime_dispatch call origin s = Ok (tt, s') -> chain_step s s'
| chain_outside w : chain_step s (s <| outside := w |>)
| chain_finalize : chain_step s (proxy_on_finalize s)
| chain_block n i : chain_step s (s <| wrapper_block := n |> <| extrinsic_index := i |>).

Lemma chain_steps_wrapper s s'
    (Hother : forall c to s s', other_call c to s = Ok s' -> rtc wrapper_step s s') :
  rtc chain_step s s' -> rtc wrapper_step s s'.
Proof.
  induction 1 as [|s s1 s2 Hstep _ IH]; [done|]. transitivity s1; [|done].
  destruct Hstep as [call o s1 H|w| |n i].
  - revert H. apply (steps_filtered (as_dispatchable call) o).
    by apply run_runtime_call_steps.
  - apply rtc_once, step_outside.
  - apply rtc_once, step_finalize.
  - apply rtc_once, step_block.
Qed.

(** C26 Whatever calls are dispatched, in whatever wrappers and from whatever origins: the
    proxies of an account stay strictly sorted, hence without duplicates and such that
    binary search finds them, within [MaxProxies]; pending announcements stay within
    [MaxPending]; no empty entry stays in storage; and the deposit noted with an entry is
    always the one the configuration asks for its length. *)
Theorem proxy_storage_well_formed s s'
    (Hmax : 0 <= MaxProxies /\ 0 <= MaxPending)
    (Hfactor : 0 <= ProxyDepositFactor <= uint_max 64)
    (Hother : forall c to s s', other_call c to s = Ok s' -> rtc wrapper_step s s')
    (Hs : wrapper_inv s) (Hreach : rtc chain_step s s') :
  wrapper_inv s'.
Proof.
  eapply wrapper_steps_inv; [done|done| |exact Hs]. by apply chain_steps_wrapper.
Qed.

End Reachable.
