(* ===== verification/ProxyAuthority.v ===== *)
(** * Wrappers of calls: announcements and fees

    When a delayed proxy may act, and who can be made to pay the fee of a proxy call. *)

From S2P Require Import Prelude Protocol PostQuantum Pallet PalletCalls Shield RuntimeCalls.
From S2P Require Import ProxyTypes Proxy ProxySafety ProxyInvariants.
From stdpp Require Import base tactics list gmap strings list_numbers relations sorting.
From Stdlib Require Import ZArith Lia.
Open Scope Z_scope.

Section Announced.
Context {W : Type} `{WC : !WrapperConfig} `{WR : !WrapperRuntime W}.
Implicit Types (s : WrapperStore W) (o : Origin W).

(** [ann] announces the call for [real], [delay] blocks ago or earlier. *)
Definition matured (real : AccountId) (call : RuntimeCall) (delay now : Z) (ann : Announcement) :
    bool :=
  bool_decide (an_real ann = real) && bool_decide (an_call_hash ann = hash_of call)
  && (delay <=? saturating_sub now (an_height ann)).

Definition announced s (delegate real : AccountId) (call : RuntimeCall) (delay : Z) : Prop :=
  exists ann, ann ∈ fst (announcements_of s delegate)
              /\ matured real call delay (wrapper_block s) ann = true.

(** The filter of [proxy_announced] keeps what is not a matured announcement. *)
Lemma matured_negb real call delay now ann :
  negb (bool_decide (an_real ann = real))
  || negb (bool_decide (an_call_hash ann = hash_of call))
  || (saturating_sub now (an_height ann) <? delay)
  = negb (matured real call delay now ann).
Proof.
  unfold matured. rewrite !negb_andb. f_equal.
  rewrite Z.ltb_antisym. reflexivity.
Qed.

Lemma filter_shorter {A} (f : A -> bool) l :
  (length (List.filter f l) < length l)%nat <-> exists x, x ∈ l /\ f x = false.
Proof.
  induction l as [|x l IH]; simpl.
  { split; [lia|]. intros (x & []%not_elem_of_nil & _). }
  pose proof (List.filter_length_le f l). destruct (f x) eqn:E; simpl.
  - rewrite <- Nat.succ_lt_mono, IH. split; intros (y & Hy & Hf).
    + exists y. split; [by right|done].
    + apply elem_of_cons in Hy as [->|Hy]; [congruence|]. by exists y.
  - split; [|lia]. intros _. exists x. split; [by left|done].
Qed.

Lemma announcement_deposit_mono n m : (n <= m)%nat ->
  0 <= AnnouncementDepositBase -> 0 <= AnnouncementDepositFactor ->
  announcement_deposit n <= announcement_deposit m.
Proof.
  intros Hnm Hb Hf. unfold announcement_deposit.
  destruct (Nat.eqb_spec n 0), (Nat.eqb_spec m 0); try lia;
    unfold saturating_add, saturating_mul, uint_max; nia.
Qed.

Lemma edit_announcements_Ok d f s s1 : edit_announcements d f s = Ok (tt, s1) ->
  fst (announcements_of s1 d) = List.filter f (fst (announcements_of s d))
  /\ Proxies s1 = Proxies s /\ wrapper_block s1 = wrapper_block s
  /\ (forall d', d' <> d -> Announcements s1 !! d' = Announcements s !! d')
  /\ exists x, x ∈ fst (announcements_of s d) /\ f x = false.
Proof.
  intros H. unfold edit_announcements in H. inv_run. destruct a as [l old]. inv_run.
  match goal with H : rejig_deposit _ _ _ _ _ _ = _ |- _ =>
    apply rejig_deposit_Ok in H as (-> & w & ->) end.
  match goal with H : (_ <? _)%nat = true |- _ => apply Nat.ltb_lt, filter_shorter in H end.
  unfold announcements_of. match goal with H : Announcements s !! d = _ |- _ => rewrite H end.
  simpl. destruct (Nat.eqb_spec (length (List.filter f l)) 0) as [E|E]; simpl.
  - rewrite lookup_delete_eq. simpl. apply nil_length_inv in E as ->. split_and!; try done.
    intros d' Hd. by rewrite lookup_delete_ne.
  - rewrite lookup_insert_eq. simpl. split_and!; try done.
    intros d' Hd. by rewrite lookup_insert_ne.
Qed.

Lemma rejig_deposit_lowers who old base factor len s :
  (if (len =? 0)%nat then 0 else saturating_add 64 base (saturating_mul 64 factor (Z.of_nat len)))
  <= old -> exists r s1, rejig_deposit who old base factor len s = Ok (r, s1).
Proof.
  intros H. unfold rejig_deposit, abind. apply Z.ltb_ge in H. rewrite H.
  destruct (_ <? old); [|by eexists _, _]. unfold unreserve_do. by destruct (unreserve _ _ _); eexists _, _.
Qed.

Lemma edit_announcements_iff d f s : wrapper_inv s ->
  0 <= AnnouncementDepositBase -> 0 <= AnnouncementDepositFactor ->
  (exists s1, edit_announcements d f s = Ok (tt, s1))
  <-> exists x, x ∈ fst (announcements_of s d) /\ f x = false.
Proof.
  intros Hi Hb Hf. split.
  { by intros [s1 (_ & _ & _ & _ & ?)%edit_announcements_Ok]. }
  intros Hx. unfold edit_announcements, announcements_of in *.
  destruct (Announcements s !! d) as [[l old]|] eqn:E; simpl in Hx.
  2:{ by destruct Hx as (x & []%not_elem_of_nil & _). }
  destruct (wi_announcements _ Hi d l old E) as (_ & _ & ->).
  apply filter_shorter in Hx. unfold abind, check. rewrite E. simpl.
  rewrite (proj2 (Nat.ltb_lt _ _) Hx). simpl.
  destruct (rejig_deposit_lowers d (announcement_deposit (length l)) AnnouncementDepositBase
    AnnouncementDepositFactor (length (List.filter f l)) s) as (r & s1 & ->); [|by eexists].
  apply announcement_deposit_mono; [lia|done|done].
Qed.

(** A dispatched proxy call that fails is an outcome, not an error. *)
Lemma do_proxy_total def real (d : Dispatchable W) s : exists s', do_proxy def real d s = Ok (tt, s').
Proof.
  unfold do_proxy, abind, attempt. destruct (dispatch_filtered _ _ s) as [[[] s1]|e]; by eexists.
Qed.

Lemma proxy_announced_eq o delegate real force call s who def :
  caller o = Origin_Signed who -> find_proxy s real delegate force = Ok def ->
  proxy_announced o delegate real force (as_dispatchable call) s
  = match edit_announcements delegate
            (fun ann => negb (matured real call (pd_delay def) (wrapper_block s) ann)) s with
    | Ok (_, s1) => do_proxy def real (as_dispatchable call) s1
    | Err _ => Err (WrapperError_Proxy ProxyError_Unannounced)
    end.
Proof.
  intros Ho Hd. unfold proxy_announced, abind, check, asks, origin_signed. rewrite Ho. simpl.
  rewrite Hd. unfold attempt.
  replace (edit_announcements delegate _ s) with (edit_announcements delegate
    (fun ann => negb (matured real call (pd_delay def) (wrapper_block s) ann)) s).
  - by destruct (edit_announcements _ _ s) as [[[] s1]|].
  - unfold edit_announcements, abind. destruct (check _ s) as [[[l old] s1]|]; [|done].
    erewrite (List.filter_ext); [reflexivity|]. intros ann. symmetry. apply matured_negb.
Qed.

Lemma proxy_announced_Ok o delegate real force call s s' :
  proxy_announced o delegate real force (as_dispatchable call) s = Ok (tt, s') ->
  exists who def s1, caller o = Origin_Signed who /\ find_proxy s real delegate force = Ok def
    /\ edit_announcements delegate
         (fun ann => negb (matured real call (pd_delay def) (wrapper_block s) ann)) s = Ok (tt, s1)
    /\ do_proxy def real (as_dispatchable call) s1 = Ok (tt, s').
Proof.
  intros H. assert (exists who def, caller o = Origin_Signed who
    /\ find_proxy s real delegate force = Ok def) as (who & def & Ho & Hd).
  { unfold proxy_announced, origin_signed in H. inv_run.
    destruct (caller o) eqn:E; try done. eauto. }
  rewrite (proxy_announced_eq _ _ _ _ _ _ _ _ Ho Hd) in H.
  destruct (edit_announcements _ _ s) as [[[] s1]|] eqn:E; [|done]. by exists who, def, s1.
Qed.

(** C25 Delayed proxies act on announced calls only, once per announcement.
    [proxy_announced] succeeds exactly if the origin is signed, the delegate is a registered
    proxy of [real], and it has announced this very call for [real] at least the delay of
    its definition ago; then the call is dispatched in a state in which no such announcement
    is left and nobody can run it again. *)
Theorem proxy_announced_iff o delegate real force call s
    (Hi : wrapper_inv s) (Hbase : 0 <= AnnouncementDepositBase)
    (Hfactor : 0 <= AnnouncementDepositFactor) :
  let run o s := proxy_announced o delegate real force (as_dispatchable call) s in
  ((exists s', run o s = Ok (tt, s'))
   <-> (exists who, caller o = Origin_Signed who)
       /\ exists def, find_proxy s real delegate force = Ok def
                      /\ announced s delegate real call (pd_delay def))
  /\ forall s', run o s = Ok (tt, s') -> exists def s1,
       do_proxy def real (as_dispatchable call) s1 = Ok (tt, s')
       /\ find_proxy s real delegate force = Ok def
       /\ ~ announced s1 delegate real call (pd_delay def)
       /\ forall o' who, caller o' = Origin_Signed who ->
            run o' s1 = Err (WrapperError_Proxy ProxyError_Unannounced).
Proof.
  intros run. split; [split|].
  - intros (s' & (who & def & s1 & Ho & Hd & He & _)%proxy_announced_Ok).
    split; [by exists who|]. exists def. split; [done|].
    apply edit_announcements_Ok in He as (_ & _ & _ & _ & x & Hx & Hm%negb_false_iff).
    by exists x.
  - intros [[who Ho] (def & Hd & x & Hx & Hm)]. unfold run.
    rewrite (proxy_announced_eq _ _ _ _ _ _ _ _ Ho Hd).
    destruct (proj2 (edit_announcements_iff delegate (fun ann =>
      negb (matured real call (pd_delay def) (wrapper_block s) ann)) s Hi Hbase Hfactor))
      as [s1 ->]; [by exists x; rewrite Hm|]. apply do_proxy_total.
  - intros s' (who & def & s1 & _ & Hd & He & Hp)%proxy_announced_Ok. exists def, s1.
    apply edit_announcements_Ok in He as (Hf & Hps & Hb & _ & _).
    assert (Hno : ~ announced s1 delegate real call (pd_delay def)).
    { intros (x & Hx & Hm). rewrite Hf, Hb in *. apply list_elem_of_In, List.filter_In in Hx.
      destruct Hx as [_ Hx]. by rewrite Hm in Hx. }
    split_and!; [done..|]. intros o' who' Ho'. unfold run.
    rewrite (proxy_announced_eq _ _ _ _ _ _ who' def);
      [|done|by unfold find_proxy, proxies_of; rewrite Hps].
    destruct (edit_announcements _ _ s1) as [[[] s2]|] eqn:E2; [|done]. destruct Hno.
    apply edit_announcements_Ok in E2 as (_ & _ & _ & _ & x & Hx & Hm%negb_false_iff).
    by exists x.
Qed.

End Announced.

(** ** Fees *)

Section Fees.
Context {W : Type} `{WC : !WrapperConfig} `{WR : !WrapperRuntime W}.
Implicit Types (s : WrapperStore W) (o : Origin W).

(** A [proxy] call for [real]. *)
Definition proxies_for (real : AccountId) (call : RuntimeCall) : Prop :=
  exists force inner, call = RuntimeCall_Proxy (ProxyCall_proxy real force inner).

(** The calls of a [batch], [batch_all] or [force_batch]. *)
Definition batched (call : RuntimeCall) : option (list RuntimeCall) :=
  match call with
  | RuntimeCall_Utility (UtilityCall_batch calls | UtilityCall_batch_all calls
                         | UtilityCall_force_batch calls) => Some calls
  | _ => None
  end.

(** Cases 2 and 3 of the documentation: [real] stands behind what [delegate] does in the
    call, which is a proxy call for [real] or a batch of these, and pays for it. *)
Definition pays_behind s (delegate : AccountId) (call : RuntimeCall) (real : AccountId) : Prop :=
  (real, delegate) ∈ RealPaysFee s
  /\ (proxies_for real call
      \/ exists calls, batched call = Some calls /\ calls <> [] /\ Forall (proxies_for real) calls).

Lemma extract_proxy_parts_Some call signer r d c :
  extract_proxy_parts call signer = Some (r, d, c)
  <-> d = signer /\ exists force, call = RuntimeCall_Proxy (ProxyCall_proxy r force c).
Proof.
  split.
  - destruct call as [| | | | | | | | |[]| | | | | | |]; try done. intros [= -> -> ->]. eauto.
  - by intros [-> [force ->]].
Qed.

Lemma extract_proxy_parts_for call signer : forall r, proxies_for r call ->
  exists c, extract_proxy_parts call signer = Some (r, signer, c).
Proof. intros r (force & inner & ->). by exists inner. Qed.

Lemma batch_payer_loop_Some s b calls a payer :
  batch_payer_loop s b calls (Some a) = Some payer
  <-> payer = a /\ Forall (proxies_for a) calls.
Proof.
  induction calls as [|c calls IH]; simpl.
  { split; [intros [= ->]; done|by intros [-> _]]. }
  rewrite Forall_cons. destruct (extract_proxy_parts c b) as [[[r d] inner]|] eqn:E; simpl.
  - apply extract_proxy_parts_Some in E as [-> [force ->]]. case_bool_decide as Ha; simpl.
    + subst r. rewrite IH. split; [|tauto]. intros [-> H]. split; [done|]. split; [|done]. by exists force, inner.
    + split; [done|]. intros (_ & (f & i & [= ? ? ?]) & _). by subst.
  - split; [done|]. intros (_ & H & _). apply (extract_proxy_parts_for _ b) in H as [i H].
    by rewrite E in H.
Qed.

Lemma batch_payer_loop_None s b calls payer : calls <> [] ->
  batch_payer_loop s b calls None = Some payer
  <-> (payer, b) ∈ RealPaysFee s /\ Forall (proxies_for payer) calls.
Proof.
  destruct calls as [|c calls]; [done|]. intros _. simpl. rewrite Forall_cons.
  destruct (extract_proxy_parts c b) as [[[r d] inner]|] eqn:E; simpl.
  - apply extract_proxy_parts_Some in E as [-> [force ->]]. unfold is_real_pays_fee.
    case_bool_decide as Hr; simpl.
    + rewrite batch_payer_loop_Some. split.
      * intros [-> H]. split; [done|]. split; [by exists force, inner|done].
      * by intros (_ & (f & i & [= -> -> ->]) & ?).
    + split; [done|]. by intros (? & (f & i & [= -> -> ->]) & _).
  - split; [done|]. intros (_ & H & _). apply (extract_proxy_parts_for _ b) in H as [i H].
    by rewrite E in H.
Qed.

Lemma extract_inner_proxy_payer_Some s inner b payer :
  extract_inner_proxy_payer s inner b = Some payer
  <-> (payer, b) ∈ RealPaysFee s /\ proxies_for payer inner.
Proof.
  unfold extract_inner_proxy_payer, is_real_pays_fee.
  destruct (extract_proxy_parts inner b) as [[[r d] c]|] eqn:E; simpl.
  - apply extract_proxy_parts_Some in E as [-> [force ->]]. case_bool_decide as Hr.
    + split; [intros [= ->]; split; [done|by exists force, c]|].
      by intros (_ & f & i & [= -> -> ->]).
    + split; [done|]. by intros (? & f & i & [= -> -> ->]).
  - split; [done|]. intros (_ & H). apply (extract_proxy_parts_for _ b) in H as [i H].
    by rewrite E in H.
Qed.

Lemma extract_batch_proxy_payer_Some s inner b payer :
  extract_batch_proxy_payer s inner b = Some payer
  <-> (payer, b) ∈ RealPaysFee s
      /\ exists calls, batched inner = Some calls /\ calls <> [] /\ Forall (proxies_for payer) calls.
Proof.
  assert (Heq : extract_batch_proxy_payer s inner b
    = match batched inner with
      | Some calls => if bool_decide (calls = []) then None else batch_payer_loop s b calls None
      | None => None
      end) by by destruct inner as [| | | |[]| | | | | | | | | | | |].
  rewrite Heq. destruct (batched inner) as [calls|].
  - case_bool_decide as Hn.
    + split; [done|]. by intros (_ & c & [= <-] & ? & _).
    + rewrite batch_payer_loop_None by done. split.
      * intros [? ?]. eauto.
      * by intros (? & c & [= <-] & _ & ?).
  - split; [done|]. by intros (_ & c & ? & _).
Qed.

Lemma pays_behind_iff s b inner payer :
  pays_behind s b inner payer
  <-> match extract_inner_proxy_payer s inner b with
      | Some p => Some p
      | None => extract_batch_proxy_payer s inner b
      end = Some payer.
Proof.
  unfold pays_behind. destruct (extract_inner_proxy_payer s inner b) as [p|] eqn:E.
  - pose proof E as (Hp & f & i & ->)%extract_inner_proxy_payer_Some. split.
    + by intros [_ [(f' & i' & [= -> -> ->])|(calls & ? & _)]].
    + intros [= <-]. split; [done|]. left. by exists f, i.
  - rewrite extract_batch_proxy_payer_Some. split.
    + intros [Hp [Hf|Hb]]; [|done].
      by rewrite (proj2 (extract_inner_proxy_payer_Some s inner b payer)) in E.
    + intros [Hp Hb]. eauto.
Qed.

(** Who pays for a proxy call, as its documentation says.  Somebody else than the signer
    pays exactly if the signer sends a [proxy] call for an account [outer] that opted in to
    pay for the signer; the account then charged is one standing behind the call of [outer]
    that opted in to pay for [outer], if there is one, and [outer] if there is none. *)
Theorem fee_payer_spec s call o payer :
  extract_real_fee_payer s call o = Some payer
  <-> exists signer outer force inner,
        caller o = Origin_Signed signer
        /\ call = RuntimeCall_Proxy (ProxyCall_proxy outer force inner)
        /\ (outer, signer) ∈ RealPaysFee s
        /\ (pays_behind s outer inner payer
            \/ payer = outer /\ forall real, ~ pays_behind s outer inner real).
Proof.
  unfold extract_real_fee_payer. destruct (caller o) as [|who| |]; simpl;
    try (split; [done|by intros (? & ? & ? & ? & ? & _)]).
  destruct (extract_proxy_parts call who) as [[[outer d] inner]|] eqn:E; simpl.
  2:{ split; [done|]. by intros (? & ? & ? & ? & [= <-] & -> & _). }
  apply extract_proxy_parts_Some in E as [-> [force ->]]. unfold is_real_pays_fee.
  case_bool_decide as Hr; simpl.
  2:{ split; [done|]. by intros (? & ? & ? & ? & [= <-] & [= <- <- <-] & ? & _). }
  transitivity (pays_behind s outer inner payer
                \/ payer = outer /\ forall real, ~ pays_behind s outer inner real).
  - setoid_rewrite pays_behind_iff.
    destruct (extract_inner_proxy_payer s inner outer) as [p|]; [naive_solver|].
    destruct (extract_batch_proxy_payer s inner outer) as [p|]; naive_solver.
  - split; [intros H; by exists who, outer, force, inner|].
    by intros (? & ? & ? & ? & [= <-] & [= <- <- <-] & _ & ?).
Qed.

Lemma kill_pure_Ok o pure spawner t i h e s s' :
  caller o = Origin_Signed pure -> kill_pure o spawner t i h e s = Ok (tt, s') ->
  Proxies s' = delete pure (Proxies s) /\ RealPaysFee s' = RealPaysFee s.
Proof.
  intros Ho H. unfold kill_pure, origin_signed, unreserve_do, wrapper_event in H.
  rewrite Ho in H. inv_run. repeat case_match. by simplify_eq.
Qed.

(** Killing a pure account removes its proxies but not its consent to pay for them. *)
Lemma killed_pure_still_pays o pure spawner t i h e s s' delegate force inner o' :
  caller o = Origin_Signed pure -> kill_pure o spawner t i h e s = Ok (tt, s') ->
  (pure, delegate) ∈ RealPaysFee s -> caller o' = Origin_Signed delegate ->
  (forall real, ~ pays_behind s' pure inner real) ->
  let call := RuntimeCall_Proxy (ProxyCall_proxy pure force inner) in
  extract_real_fee_payer s' call o' = Some pure
  /\ run_runtime_call call o' s' = Err (WrapperError_Proxy ProxyError_NotProxy).
Proof.
  intros Ho [Hps Hrf]%(kill_pure_Ok _ _ _ _ _ _ _ _ _ Ho) Hf Ho' Hp call. split.
  - unfold extract_real_fee_payer, call. rewrite Ho'. simpl. unfold is_real_pays_fee.
    rewrite Hrf, bool_decide_eq_true_2 by done. simpl.
    destruct (extract_inner_proxy_payer s' inner pure) as [p|] eqn:E1;
      [|destruct (extract_batch_proxy_payer s' inner pure) as [p|] eqn:E2; [|done]];
      destruct (Hp p); apply pays_behind_iff; by rewrite E1.
  - unfold call. cbn [run_runtime_call run_outermost]. unfold proxy, abind, check, origin_signed.
    rewrite Ho'. unfold find_proxy, proxies_of. simpl. by rewrite Hps, lookup_delete_eq.
Qed.

End Fees.
