(* ===== verification/ProxyWitnesses.v ===== *)
(** * Wrappers of calls on concrete runs

    Each theorem about the proxy and the utility pallet that has hypotheses, applied to a
    small chain with the deposits of the runtime. *)

From S2P Require Import Prelude Protocol PostQuantum Pallet PalletCalls Shield RuntimeCalls.
From S2P Require Import ProxyTypes Proxy ProxySafety ProxyInvariants ProxyAuthority.
From stdpp Require Import base tactics list gmap strings list_numbers relations sorting.
From Stdlib Require Import ZArith Lia.
Open Scope Z_scope.

Module ProxyRun.

(** The rest of the chain: the reserved balances. *)
Definition reserves : Type := gmap AccountId Z.

#[local] Instance config : WrapperConfig := runtime_wrappers 33_554_432 1_024.

(** Everybody can reserve, hashes and derived accounts are injective encodings, and calls of
    other pallets do nothing. *)
#[local] Instance services : WrapperRuntime reserves := {|
  reserve who x w := Ok (<[who := default 0 (w !! who) + x]> w);
  unreserve who x w :=
    let held := default 0 (w !! who) in
    (Z.max 0 (x - held), <[who := Z.max 0 (held - x)]> w);
  hash_of c :=
    match c with
    | RuntimeCall_Balances (BalancesCall_transfer_all dest) => 1 :: dest
    | _ => [0]
    end;
  derive_pure who h e t i := Some (who ++ [h; e; ProxyType_into t; i]);
  derive_derivative who i := Some (who ++ [i]);
  BaseCallFilter _ _ := true;
  other_call _ _ s := Ok s;
|}.

Definition alice : AccountId := [1].
Definition bob : AccountId := [2].

Definition genesis : WrapperStore reserves := {|
  Proxies := ∅; Announcements := ∅; LastCallResult := ∅; RealPaysFee := ∅;
  wrapper_block := 1; extrinsic_index := 0; wrapper_events := []; outside := ∅;
|}.

Definition signed (who : AccountId) : Origin reserves := fresh_origin (Origin_Signed who).

Definition send (s : WrapperStore reserves) (p : AccountId * RuntimeCall) :
    WrapperStore reserves :=
  match runtime_dispatch (snd p) (signed (fst p)) s with Ok (_, s') => s' | Err _ => s end.

Lemma send_steps l s : rtc chain_step s (foldl send s l).
Proof.
  revert s. induction l as [|p l IH]; intros s; simpl; [done|].
  unfold send at 2. destruct (runtime_dispatch (snd p) (signed (fst p)) s) as [[[] s']|] eqn:E; [|done].
  eapply rtc_l; [by eapply chain_dispatch|done].
Qed.

Lemma wrapper_genesis_inv : wrapper_inv genesis.
Proof. split; done. Qed.

(** Bob registers Alice for all but transfers at once, and for everything with a delay of ten blocks;
    Alice announces a transfer. *)
Definition transfer : RuntimeCall := RuntimeCall_Balances (BalancesCall_transfer_all alice).
Definition calls : list (AccountId * RuntimeCall) := [
  (bob, RuntimeCall_Utility (UtilityCall_batch_all [
     RuntimeCall_Proxy (ProxyCall_add_proxy alice ProxyType_NonTransfer 0);
     RuntimeCall_Proxy (ProxyCall_add_proxy alice ProxyType_Any 10)]));
  (alice, RuntimeCall_Proxy (ProxyCall_announce bob (hash_of transfer)))].
Definition announced_store : WrapperStore reserves := foldl send genesis calls.

Lemma services_steps c to (s s' : WrapperStore reserves) :
  other_call c to s = Ok s' -> rtc wrapper_step s s'.
Proof. by intros [= <-]. Qed.

Lemma proxy_storage_well_formed_witness :
  wrapper_inv announced_store
  /\ (pd_delay <$> fst (proxies_of announced_store bob)) = [10; 0]
  /\ snd (proxies_of announced_store bob) = 126_000_000
  /\ length (fst (announcements_of announced_store alice)) = 1%nat.
Proof.
  split; [|by vm_compute].
  apply (proxy_storage_well_formed genesis announced_store).
  - split; vm_compute; discriminate.
  - split; vm_compute; discriminate.
  - apply services_steps.
  - apply wrapper_genesis_inv.
  - apply send_steps.
Defined.

(** Ten blocks later the announced transfer can be run. *)
Definition later : WrapperStore reserves :=
  announced_store <| wrapper_block := 11 |> <| extrinsic_index := 0 |>.

Lemma later_inv : wrapper_inv later.
Proof.
  apply (wrapper_steps_inv (W := reserves)) with (s := genesis);
    [split; vm_compute; discriminate|split; vm_compute; discriminate| |apply wrapper_genesis_inv].
  apply chain_steps_wrapper; [apply services_steps|].
  eapply rtc_r; [apply send_steps|apply chain_block].
Qed.

Lemma proxy_announced_iff_witness : exists s',
  proxy_announced (signed alice) alice bob None (as_dispatchable transfer) later = Ok (tt, s')
  /\ exists def s1, do_proxy def bob (as_dispatchable transfer) s1 = Ok (tt, s')
     /\ ~ announced s1 alice bob transfer (pd_delay def).
Proof.
  destruct (proxy_announced_iff (signed alice) alice bob None transfer later later_inv)
    as [[_ Hrun] Hafter]; [by vm_compute|by vm_compute|].
  destruct Hrun as [s' Hs'].
  - split; [by exists alice|].
    exists {| pd_delegate := alice; pd_proxy_type := ProxyType_Any; pd_delay := 10 |}.
    split; [by vm_compute|].
    exists {| an_real := bob; an_call_hash := hash_of transfer; an_height := 1 |}.
    split; [|by vm_compute].
    replace (fst (announcements_of later alice)) with
      [{| an_real := bob; an_call_hash := hash_of transfer; an_height := 1 |}] by by vm_compute.
    by left.
  - exists s'. split; [done|]. destruct (Hafter s' Hs') as (def & s1 & ? & _ & ? & _).
    exists def, s1. split; assumption.
Defined.

(** Two implementations of the other pallets that differ for root. *)
Definition lenient : handler (W := reserves) := fun _ _ s => Ok s.
Definition no_root : handler (W := reserves) := fun _ to s =>
  match to with Origin_Root => Err 1 | _ => Ok s end.

Definition stake : RuntimeCall := RuntimeCall_SubtensorModule SubtensorCall_add_stake.
Definition staking_batch : RuntimeCall :=
  RuntimeCall_Utility (UtilityCall_force_batch [stake; transfer]).

Lemma wrappers_keep_origin_witness :
  runtime_dispatch (WR := with_other lenient) staking_batch (signed bob) later
  = runtime_dispatch (WR := with_other no_root) staking_batch (signed bob) later.
Proof.
  apply (wrappers_keep_origin lenient no_root staking_batch (signed bob) later); [done|].
  by intros c to s [a ->].
Defined.

Lemma staking_batch_confined : confined staking_batch.
Proof.
  assert (Hleaf : forall c c', inner_calls c = [] -> rtc carries c c' -> c' = c).
  { intros c c' Hc H. inversion H as [|? c1 ? H1]; [done|]. unfold carries in H1.
    rewrite Hc in H1. by apply not_elem_of_nil in H1. }
  intros c Hc. inversion Hc as [|? c1 ? H1 H2]; subst; [done|].
  unfold carries in H1. simpl in H1. apply elem_of_cons in H1 as [-> | ->%list_elem_of_singleton];
    by apply Hleaf in H2 as ->.
Qed.

Definition non_transfer : ProxyDefinition :=
  {| pd_delegate := alice; pd_proxy_type := ProxyType_NonTransfer; pd_delay := 0 |}.

(** All proxies are lost when a call is executed that is not permitted. *)
Definition wreck (c : RuntimeCall) : option (Origin reserves -> wact reserves unit) :=
  if proxy_filter non_transfer c then None else Some (fun _ => modify (fun s => s <| Proxies := ∅ |>)).

Lemma wreck_permitted c : permitted non_transfer c -> wreck c = None.
Proof. intros H%proxy_filter_permitted. unfold wreck. by rewrite H. Qed.

Lemma proxy_confined_witness :
  let call := RuntimeCall_Proxy (ProxyCall_proxy bob (Some ProxyType_NonTransfer) staking_batch) in
  proxy (signed alice) bob (Some ProxyType_NonTransfer)
    (mk_Dispatchable staking_batch (run_intercepted wreck staking_batch)) later
  = run_runtime_call call (signed alice) later
  /\ exists s', run_runtime_call call (signed alice) later = Ok (tt, s')
     /\ wrapper_events s' = wrapper_events later ++ [
          UtilityEvent_ItemCompleted; UtilityEvent_ItemFailed WrapperError_CallFiltered;
          UtilityEvent_BatchCompletedWithErrors; ProxyEvent_ProxyExecuted (Ok tt)].
Proof.
  split; [|eexists; split; vm_compute; reflexivity].
  assert (Hdef : find_proxy later bob alice (Some ProxyType_NonTransfer) = Ok non_transfer)
    by (vm_compute; reflexivity).
  exact (proj1 (proxy_confined wreck (signed alice) alice bob (Some ProxyType_NonTransfer)
    staking_batch non_transfer later Hdef staking_batch_confined wreck_permitted) eq_refl).
Defined.

End ProxyRun.
