(* ===== verification/TxExtensions.v ===== *)
(** * The transaction extensions of the runtime

    [runtime/src/check_nonce.rs], [sudo_wrapper.rs], [check_mortality.rs],
    [transaction_payment_wrapper.rs], [pallets/drand/src/drand_priority.rs], and the pipeline
    [TxExtension] of [runtime/src/lib.rs] that every signed transaction passes.  The extensions
    of upstream crates and of the Subtensor pallet enter as the class [OtherExtensions].  A
    transaction that the pipeline lets pass has the next nonce of its signer, and
    the runs of an account never use a nonce twice. *)

From S2P Require Import Prelude Protocol PostQuantum Pallet PalletCalls Shield RuntimeCalls Proxy.
From stdpp Require Import base tactics list gmap strings list_numbers relations.
From Stdlib Require Import ZArith Lia.
Open Scope Z_scope.

(** ** What the framework provides *)

(** The reasons for which the modelled extensions refuse; the others are numbered. *)
Inductive TransactionValidityError : Type :=
| InvalidTransaction_Payment
| InvalidTransaction_Stale
| InvalidTransaction_Future
| InvalidTransaction_BadSigner
| InvalidTransaction_Custom (e : CustomTransactionError)
| TransactionValidityError_other (n : Z).

Record ValidTransaction : Type := mk_ValidTransaction {
  priority : Z;
  requires : list Bytes;
  provides : list Bytes;
  longevity : Z;
  propagate : bool;
}.
Definition ValidTransaction_default : ValidTransaction := {|
  priority := 0; requires := []; provides := []; longevity := uint_max 64; propagate := true;
|}.

Inductive DispatchClass : Type :=
| DispatchClass_Normal
| DispatchClass_Operational
| DispatchClass_Mandatory.

(** [pays_fee] is whether it is [Pays::Yes]. *)
Record DispatchInfo : Type := mk_DispatchInfo { pays_fee : bool; dispatch_class : DispatchClass }.

(** The part of [frame_system::AccountInfo] that is read. *)
Record AccountInfo : Type := mk_AccountInfo { nonce : Z; providers : Z; sufficients : Z }.
Definition AccountInfo_default : AccountInfo := {| nonce := 0; providers := 0; sufficients := 0 |}.
#[export] Instance AccountInfo_eta : Eta AccountInfo := fun a =>
  mk_AccountInfo (nonce a) (providers a) (sufficients a).

(** The encoding of the tags, and how the validities of two extensions are combined. *)
Class TxFramework := {
  encode_tag : AccountId * Z -> Bytes;
  combine_with : ValidTransaction -> ValidTransaction -> ValidTransaction;
}.

(** The state that the extensions read. *)
Record TxState (W DE X : Type) : Type := mk_TxState {
  Account : gmap AccountId AccountInfo;
  Sudo_Key : option AccountId;
  shield_state : ShieldStore W DE;
  wrapper_state : WrapperStore X;
}.
Arguments mk_TxState {W DE X}.
Arguments Account {W DE X} _.
Arguments Sudo_Key {W DE X} _.
Arguments shield_state {W DE X} _.
Arguments wrapper_state {W DE X} _.
#[export] Instance TxState_eta W DE X : Eta (TxState W DE X) := fun s =>
  mk_TxState (Account s) (Sudo_Key s) (shield_state s) (wrapper_state s).

(** [TransactionExtension]: [validate] leaves the state alone, [prepare] may write. *)
Record TransactionExtension (S O : Type) : Type := mk_TransactionExtension {
  Val : Type;
  Pre : Type;
  validate : S -> O -> RuntimeCall -> DispatchInfo ->
             result TransactionValidityError (ValidTransaction * Val * O);
  prepare : Val -> O -> RuntimeCall -> DispatchInfo -> act S TransactionValidityError Pre;
}.
Arguments mk_TransactionExtension {S O}.
Arguments Val {S O} _.
Arguments Pre {S O} _.
Arguments validate {S O} _ _ _ _ _.
Arguments prepare {S O} _ _ _ _ _ _.

(** Two extensions in a tuple run one after the other; the second one gets the origin that the
    first one returns. *)
Definition ext_pair `{TxFramework} {S O} (e1 e2 : TransactionExtension S O) : TransactionExtension S O := {|
  Val := Val e1 * Val e2;
  Pre := Pre e1 * Pre e2;
  validate s origin call info :=
    match validate e1 s origin call info with
    | Err e => Err e
    | Ok (v1, val1, origin) =>
        match validate e2 s origin call info with
        | Err e => Err e
        | Ok (v2, val2, origin) => Ok (combine_with v1 v2, (val1, val2), origin)
        end
    end;
  prepare val origin call info :=
    pre1 <-! prepare e1 (fst val) origin call info;
    pre2 <-! prepare e2 (snd val) origin call info;
    ret (pre1, pre2);
|}.

(** The checks of a transaction, then the call is dispatched with the origin that is returned. *)
Definition apply_transaction {S O} (e : TransactionExtension S O) (origin : O) (call : RuntimeCall)
    (info : DispatchInfo) : act S TransactionValidityError O := fun s =>
  match validate e s origin call info with
  | Err e => Err e
  | Ok (_, val, origin) =>
      match prepare e val origin call info s with
      | Err e => Err e
      | Ok (_, s') => Ok (origin, s')
      end
  end.

(** [as_system_origin_signer] *)
Definition as_signer {X} (origin : Origin X) : option AccountId :=
  match caller origin with Origin_Signed who => Some who | _ => None end.

(** ** The extensions *)

Inductive CheckNonce_Val : Type :=
| Val_CheckNonce (who : AccountId) (nonce : Z)
| Val_Refund (weight : Weight).

Inductive CheckNonce_Pre : Type :=
| Pre_NonceChecked
| Pre_Refund (weight : Weight).

(** The extensions that are not modelled: of [frame_system] (the one for mortality takes the
    era), [ChargeTransactionPayment] (it takes the tip), of the Subtensor pallet, and of the hash of the
    metadata. *)
Class OtherExtensions (S O : Type) := {
  CheckNonZeroSender : TransactionExtension S O;
  CheckSpecVersion : TransactionExtension S O;
  CheckTxVersion : TransactionExtension S O;
  CheckGenesis : TransactionExtension S O;
  CheckMortalitySubstrate : Era -> TransactionExtension S O;
  CheckWeight : TransactionExtension S O;
  ChargeTransactionPayment : Z -> TransactionExtension S O;
  SubtensorTransactionExtension : TransactionExtension S O;
  CheckMetadataHash : TransactionExtension S O;
}.

Definition NORMAL_DISPATCH_BASE_PRIORITY : Z := 1.
Definition OPERATIONAL_DISPATCH_PRIORITY : Z := 10_000_000_000.

Section Extensions.
Context {W DE X : Type} `{SC : !ShieldCrypto} `{RC : !RuntimeCodec}.
Context `{SR : !ShieldRuntime RuntimeCall W DE} `{WR : !WrapperRuntime X} `{TF : !TxFramework}.
Abbreviation St := (TxState W DE X).
Abbreviation Ext := (TransactionExtension St (Origin X)).
Implicit Types (s : St) (origin : Origin X).
Context `{OE : !OtherExtensions St (Origin X)}.

Definition account_of_key s (who : AccountId) : AccountInfo := default AccountInfo_default (Account s !! who).

(** [CheckNonce]; its weight is zero. *)
Definition CheckNonce_validate (self : Z) s origin (call : RuntimeCall) (info : DispatchInfo) :
    result TransactionValidityError (ValidTransaction * CheckNonce_Val * Origin X) :=
  match as_signer origin with
  | None => Ok (ValidTransaction_default, Val_Refund (from_parts 0 0), origin)
  | Some who =>
      let account := account_of_key s who in
      if pays_fee info && (providers account =? 0) && (sufficients account =? 0)
      then Err InvalidTransaction_Payment
      else if self <? nonce account then Err InvalidTransaction_Stale
      else
        let provides := [encode_tag (who, self)] in
        let requires := if nonce account <? self then [encode_tag (who, saturating_sub self 1)] else [] in
        Ok ({| priority := 0; requires := requires; provides := provides;
               longevity := uint_max 64; propagate := true |},
            Val_CheckNonce who (nonce account), origin)
  end.

(** The addition wraps: release builds do not check it. *)
Definition CheckNonce_prepare (self : Z) (val : CheckNonce_Val) origin (call : RuntimeCall)
    (info : DispatchInfo) : act St TransactionValidityError CheckNonce_Pre :=
  match val with
  | Val_Refund weight => ret (Pre_Refund weight)
  | Val_CheckNonce who n =>
      if n <? self then fail InvalidTransaction_Future
      else
        do! modify (fun s => s <| Account ::=
              <[who := account_of_key s who <| nonce := (n + 1) mod 2 ^ 32 |>]> |>);
        ret Pre_NonceChecked
  end.

Definition CheckNonce_post_dispatch_details (pre : CheckNonce_Pre) : Weight :=
  match pre with Pre_NonceChecked => from_parts 0 0 | Pre_Refund weight => weight end.

Definition CheckNonce (self : Z) : Ext := {|
  Val := CheckNonce_Val; Pre := CheckNonce_Pre;
  validate := CheckNonce_validate self; prepare := CheckNonce_prepare self;
|}.

(** [SudoTransactionExtension] *)
Definition SudoTransactionExtension_validate s origin (call : RuntimeCall) (info : DispatchInfo) :
    result TransactionValidityError (ValidTransaction * unit * Origin X) :=
  match as_signer origin with
  | None => Ok (ValidTransaction_default, tt, origin)
  | Some who =>
      match call with
      | RuntimeCall_Sudo _sudo_call =>
          match Sudo_Key s with
          | None => Err InvalidTransaction_BadSigner
          | Some expected_who =>
              if negb (bool_decide (who = expected_who)) then Err InvalidTransaction_BadSigner
              else Ok (ValidTransaction_default, tt, origin)
          end
      | _ => Ok (ValidTransaction_default, tt, origin)
      end
  end.

Definition SudoTransactionExtension : Ext := {|
  Val := unit; Pre := unit;
  validate := SudoTransactionExtension_validate; prepare _ _ _ _ := ret tt;
|}.

(** [CheckMortality] *)
Definition shield_era_check (era : Era) (call : RuntimeCall) : result TransactionValidityError unit :=
  map_err (fun _ => InvalidTransaction_Stale) (ensure_shield_submit_mortal_era era call).

Definition CheckMortality (era : Era) : Ext := {|
  Val := Val (CheckMortalitySubstrate era); Pre := Pre (CheckMortalitySubstrate era);
  validate s origin call info :=
    try! shield_era_check era call;
    validate (CheckMortalitySubstrate era) s origin call info;
  prepare val origin call info :=
    do! check (fun _ => shield_era_check era call);
    prepare (CheckMortalitySubstrate era) val origin call info;
|}.

(** [ChargeTransactionPaymentWrapper] *)
Definition overridden_priority (info : DispatchInfo) : Z :=
  match dispatch_class info with
  | DispatchClass_Normal | DispatchClass_Mandatory => NORMAL_DISPATCH_BASE_PRIORITY
  | DispatchClass_Operational => OPERATIONAL_DISPATCH_PRIORITY
  end.

Definition ChargeTransactionPaymentWrapper_validate (inner : Ext) s origin (call : RuntimeCall)
    (info : DispatchInfo) :
    result TransactionValidityError (ValidTransaction * Val inner * Origin X) :=
  let fee_origin :=
    match extract_real_fee_payer (wrapper_state s) call origin with
    | Some real => fresh_origin (Origin_Signed real)
    | None => origin
    end in
  match validate inner s fee_origin call info with
  | Err e => Err e
  | Ok (valid_transaction, val, _fee_origin) =>
      Ok ({| priority := overridden_priority info; requires := requires valid_transaction;
             provides := provides valid_transaction; longevity := longevity valid_transaction;
             propagate := propagate valid_transaction |}, val, origin)
  end.

Definition ChargeTransactionPaymentWrapper (tip : Z) : Ext := {|
  Val := Val (ChargeTransactionPayment tip); Pre := Pre (ChargeTransactionPayment tip);
  validate := ChargeTransactionPaymentWrapper_validate (ChargeTransactionPayment tip);
  prepare := prepare (ChargeTransactionPayment tip);
|}.

(** [CheckShieldedTxValidity] and [CheckQubitumShielding] check twice. *)
Definition checking (check_call : St -> RuntimeCall -> result CustomTransactionError unit) : Ext := {|
  Val := unit; Pre := unit;
  validate s origin call _ :=
    try! map_err InvalidTransaction_Custom (check_call s call);
    Ok (ValidTransaction_default, tt, origin);
  prepare _ _ call _ := check (fun s => map_err InvalidTransaction_Custom (check_call s call));
|}.

Definition CheckShieldedTxValidity : Ext :=
  checking (fun s => CheckShieldedTxValidity_validate (shield_state s)).
Definition CheckQubitumShielding : Ext :=
  checking (fun s => CheckQubitumShielding_validate (shield_state s)).

(** [DrandPriority]; [write_pulse] is call 0 of pallet 26. *)
Definition is_write_pulse (call : RuntimeCall) : bool :=
  match call with RuntimeCall_Other pallet index => (pallet =? 26) && (index =? 0) | _ => false end.

Definition DrandPriority : Ext := {|
  Val := unit; Pre := unit;
  validate _ origin call _ :=
    Ok (if is_write_pulse call
        then {| priority := 10_000; requires := []; provides := []; longevity := uint_max 64; propagate := true |}
        else ValidTransaction_default, tt, origin);
  prepare _ _ _ _ := ret tt;
|}.

(** ** The pipeline *)

(** The fields of the extensions of a transaction. *)
Record TxFields : Type := mk_TxFields { tx_era : Era; tx_nonce : Z; tx_tip : Z }.

Definition SystemTxExtension (tx : TxFields) : Ext :=
  ext_pair CheckNonZeroSender (ext_pair CheckSpecVersion (ext_pair CheckTxVersion
    (ext_pair CheckGenesis (ext_pair (CheckMortality (tx_era tx))
      (ext_pair (CheckNonce (tx_nonce tx)) CheckWeight))))).

Definition CustomTxExtension (tx : TxFields) : Ext :=
  ext_pair (ChargeTransactionPaymentWrapper (tx_tip tx)) (ext_pair SudoTransactionExtension
    (ext_pair CheckShieldedTxValidity (ext_pair CheckQubitumShielding
      (ext_pair SubtensorTransactionExtension DrandPriority)))).

Definition TxExtension (tx : TxFields) : Ext :=
  ext_pair (SystemTxExtension tx) (ext_pair (CustomTxExtension tx) CheckMetadataHash).

End Extensions.
