(* ===== verification/TxSafety.v ===== *)
(** * What the transaction pipeline guarantees

    The extensions that are not modelled are assumed to return the origin they are given and to
    leave nonces, the sudo key and the keys of the shield alone, which is what the pipeline
    relies on ("other extensions ahead of [CheckNonce] must not alter the nonce").  Then a
    signed transaction that passes has the next nonce of its signer, has nothing private that the
    scan finds, and is no sudo call of anybody but the sudo key; and an account never uses a nonce twice. *)

From S2P Require Import Prelude Protocol PostQuantum Pallet PalletCalls Shield RuntimeCalls Proxy TxExtensions.
From stdpp Require Import base tactics list gmap strings list_numbers relations.
From Stdlib Require Import ZArith Lia.
Open Scope Z_scope.

(** ** Passing an extension *)

Section Passing.
Context {S O : Type} `{TF : !TxFramework}.
Implicit Types (e : TransactionExtension S O) (s : S) (o : O) (c : RuntimeCall) (i : DispatchInfo).

(** [e] lets a transaction pass that was validated in [s0] and is prepared in [s]. *)
Definition passes e o c i s0 s s' : Prop :=
  exists v val pre, validate e s0 o c i = Ok (v, val, o) /\ prepare e val o c i s = Ok (pre, s').

Definition keeps_origin e : Prop :=
  forall s o c i v val o', validate e s o c i = Ok (v, val, o') -> o' = o.

Lemma keeps_origin_pair e1 e2 : keeps_origin e1 -> keeps_origin e2 -> keeps_origin (ext_pair e1 e2).
Proof.
  intros H1 H2 s o c i v val o'. simpl.
  destruct (validate e1 s o c i) as [[[v1 val1] o1]|] eqn:E1; [|done]. apply H1 in E1 as ->.
  destruct (validate e2 s o c i) as [[[v2 val2] o2]|] eqn:E2; [|done]. apply H2 in E2 as ->.
  congruence.
Qed.

Lemma passes_pair e1 e2 o c i s0 s s' :
  keeps_origin e1 -> keeps_origin e2 ->
  passes (ext_pair e1 e2) o c i s0 s s' <-> exists s1, passes e1 o c i s0 s s1 /\ passes e2 o c i s0 s1 s'.
Proof.
  intros H1 H2. split.
  - intros (v & [val1 val2] & pre & Ev & Ep). simpl in Ev, Ep.
    destruct (validate e1 s0 o c i) as [[[v1 w1] o1]|] eqn:E1; [|done].
    pose proof (H1 _ _ _ _ _ _ _ E1) as ->.
    destruct (validate e2 s0 o c i) as [[[v2 w2] o2]|] eqn:E2; [|done].
    injection Ev as <- -> -> ->.
    apply abind_Ok in Ep as (p1 & s1 & Ep1 & Ep). apply abind_Ok in Ep as (p2 & s2 & Ep2 & Ep).
    apply ret_Ok in Ep as [_ ->]. exists s1. split; [by exists v1, val1, p1|by exists v2, val2, p2].
  - intros (s1 & (v1 & w1 & p1 & E1 & Ep1) & (v2 & w2 & p2 & E2 & Ep2)).
    exists (combine_with v1 v2), (w1, w2), (p1, p2). simpl. rewrite E1, E2. split; [done|].
    unfold abind. by rewrite Ep1, Ep2.
Qed.

Lemma apply_passes e o c i s o' s' :
  keeps_origin e -> apply_transaction e o c i s = Ok (o', s') <-> o' = o /\ passes e o c i s s s'.
Proof.
  intros He. unfold apply_transaction. split.
  - destruct (validate e s o c i) as [[[v val] o1]|] eqn:Ev; [|done].
    pose proof (He _ _ _ _ _ _ _ Ev) as ->.
    destruct (prepare e val o c i s) as [[pre s1]|] eqn:Ep; [|done].
    intros [= <- <-]. split; [done|]. by exists v, val, pre.
  - intros (-> & v & val & pre & -> & ->). done.
Qed.

(** An extension that refuses nothing. *)
Definition lenient e : Prop :=
  (forall s o c i, exists v val, validate e s o c i = Ok (v, val, o)) /\
  (forall val o c i s, exists pre s', prepare e val o c i s = Ok (pre, s')).

Lemma lenient_passes e o c i s0 s : lenient e -> exists s', passes e o c i s0 s s'.
Proof.
  intros [Hv Hp]. destruct (Hv s0 o c i) as (v & val & Ev). destruct (Hp val o c i s) as (pre & s' & Ep).
  by exists s', v, val, pre.
Qed.
End Passing.

(** ** What the scans read *)

Section Reads.
Context {W DE : Type} `{SC : !ShieldCrypto} `{RC : !RuntimeCodec}.
Implicit Types s : ShieldStore W DE.

Definition same_keys s s' : Prop :=
  forall h, is_shielded_using_current_key s' h = is_shielded_using_current_key s h.

Lemma find_map_ext {A B} (f g : A -> option B) l : (forall x, f x = g x) -> find_map f l = find_map g l.
Proof. intros E. induction l as [|x l IH]; simpl; [done|]. rewrite E. by destruct (g x). Qed.

Lemma scan_same_keys s s' n call :
  same_keys s s' -> privacy_violation_at_depth s' n call = privacy_violation_at_depth s n call.
Proof.
  intros E. revert call. induction n as [|n IH]; intros call; [done|].
  destruct call as [| | | |[]|[]|[]|[]|[]|[]| | | | |[]| |]; simpl; try done; rewrite ?IH; try done;
    try (apply find_map_ext, IH).
  - destruct n; [done|]. destruct (decode_all_with_depth_limit _ _); [apply IH|].
    destruct (decode_with_depth_limit _ _); [apply IH|done].
  - destruct (parse_valid_submit_encrypted_ciphertext _); [|done]. by rewrite E.
Qed.
End Reads.

(** ** The modelled extensions *)

Section Pipeline.
Context {W DE X : Type} `{SC : !ShieldCrypto} `{RC : !RuntimeCodec}.
Context `{SR : !ShieldRuntime RuntimeCall W DE} `{WR : !WrapperRuntime X} `{TF : !TxFramework}.
Abbreviation St := (TxState W DE X).
Abbreviation Ext := (TransactionExtension St (Origin X)).
Context `{OE : !OtherExtensions St (Origin X)}.
Implicit Types (s : St) (o : Origin X) (e : Ext) (who : AccountId) (tx : TxFields).

Definition nonce_of s who : Z := nonce (account_of_key s who).

(** What the extensions that are not modelled leave alone. *)
Definition keeps_state s s' : Prop :=
  (forall who, nonce_of s' who = nonce_of s who) /\ Sudo_Key s' = Sudo_Key s /\
  same_keys (shield_state s) (shield_state s').
Definition transparent e : Prop :=
  keeps_origin e /\ forall val o c i s pre s', prepare e val o c i s = Ok (pre, s') -> keeps_state s s'.

Definition others (P : Ext -> Prop) : Prop :=
  Forall P [CheckNonZeroSender; CheckSpecVersion; CheckTxVersion; CheckGenesis; CheckWeight;
            SubtensorTransactionExtension; CheckMetadataHash] /\
  (forall era, P (CheckMortalitySubstrate era)) /\ (forall tip, P (ChargeTransactionPayment tip)).

Lemma keeps_state_refl s : keeps_state s s.
Proof. done. Qed.

Lemma keeps_state_trans s1 s2 s3 : keeps_state s1 s2 -> keeps_state s2 s3 -> keeps_state s1 s3.
Proof.
  intros (A1 & A2 & A3) (B1 & B2 & B3). split_and!; [intros; by rewrite B1|congruence|].
  intros h. by rewrite B3.
Qed.

Lemma transparent_passes e o c i s0 s s' : transparent e -> passes e o c i s0 s s' -> keeps_state s s'.
Proof. intros [_ H] (v & val & pre & _ & Hp). by eapply H. Qed.

Lemma scan_keeps_state s s' call :
  keeps_state s s' ->
  CheckQubitumShielding_validate (shield_state s') call = CheckQubitumShielding_validate (shield_state s) call.
Proof.
  intros (_ & _ & Hk). unfold CheckQubitumShielding_validate, privacy_violation. by rewrite (scan_same_keys _ _ _ _ Hk).
Qed.

(** *** Nonces *)

Lemma CheckNonce_keeps_origin n : keeps_origin (CheckNonce n : Ext).
Proof.
  intros s o c i v val o'. simpl. unfold CheckNonce_validate.
  destruct (as_signer o); [|congruence]. destruct (_ && _); [done|]. destruct (_ <? _); congruence.
Qed.

Definition paid_for s who (i : DispatchInfo) : Prop :=
  pays_fee i = true -> providers (account_of_key s who) <> 0 \/ sufficients (account_of_key s who) <> 0.

Definition with_nonce who n s : St :=
  s <| Account ::= <[who := account_of_key s who <| nonce := n mod 2 ^ 32 |>]> |>.

Lemma CheckNonce_passes n o who c i s0 s s' :
  as_signer o = Some who ->
  passes (CheckNonce n : Ext) o c i s0 s s' <->
  paid_for s0 who i /\ n = nonce_of s0 who /\ s' = with_nonce who (n + 1) s.
Proof.
  intros Ho. unfold passes, paid_for. simpl. unfold CheckNonce_validate, nonce_of. rewrite Ho.
  destruct (pays_fee i && (providers (account_of_key s0 who) =? 0) && (sufficients (account_of_key s0 who) =? 0)) eqn:Ep.
  { apply andb_true_iff in Ep as [[Ep1 Ep2]%andb_true_iff Ep3]. apply Z.eqb_eq in Ep2, Ep3.
    split; [by intros (? & ? & ? & [=] & _)|]. intros (H & _). destruct (H Ep1); congruence. }
  assert (Hpaid : pays_fee i = true -> providers (account_of_key s0 who) <> 0 \/ sufficients (account_of_key s0 who) <> 0).
  { intros Hp. rewrite Hp in Ep. simpl in Ep. apply andb_false_iff in Ep as [?%Z.eqb_neq|?%Z.eqb_neq]; auto. }
  destruct (Z.ltb_spec n (nonce (account_of_key s0 who))) as [Hn|Hn].
  { split; [by intros (? & ? & ? & [=] & _)|]. intros (_ & H & _). lia. }
  split.
  - intros (v & val & pre & [= _ <-] & Hpre). simpl in Hpre.
    destruct (Z.ltb_spec (nonce (account_of_key s0 who)) n) as [|Hn']; [done|].
    assert (n = nonce (account_of_key s0 who)) as -> by lia. split_and!; [done|done|].
    by injection Hpre as _ <-.
  - intros (_ & -> & ->). do 3 eexists. split; [reflexivity|]. simpl. by rewrite Z.ltb_irrefl.
Qed.

Lemma nonce_of_with who n s who' :
  nonce_of (with_nonce who n s) who' = if decide (who' = who) then n mod 2 ^ 32 else nonce_of s who'.
Proof.
  unfold nonce_of, with_nonce, account_of_key. simpl. destruct (decide (who' = who)) as [->|Hne].
  - by rewrite lookup_insert_eq.
  - by rewrite lookup_insert_ne.
Qed.

(** *** Sudo calls and private calls *)

Definition is_sudo (c : RuntimeCall) : bool := match c with RuntimeCall_Sudo _ => true | _ => false end.

Lemma Sudo_keeps_origin : keeps_origin (SudoTransactionExtension : Ext).
Proof.
  intros s o c i v val o'. simpl. unfold SudoTransactionExtension_validate.
  destruct (as_signer o); [|congruence]. destruct c; try congruence.
  destruct (Sudo_Key s); [|done]. destruct (negb _); congruence.
Qed.

Lemma Sudo_passes o who c i s0 s s' :
  as_signer o = Some who ->
  passes (SudoTransactionExtension : Ext) o c i s0 s s' <->
  (is_sudo c = true -> Sudo_Key s0 = Some who) /\ s' = s.
Proof.
  intros Ho. unfold passes. simpl. unfold SudoTransactionExtension_validate. rewrite Ho.
  assert (Hok : forall P : Prop, P -> (exists v val pre,
      Ok (E:=TransactionValidityError) (ValidTransaction_default, tt, o) = Ok (v, val, o) /\
      ret (E:=TransactionValidityError) tt s = Ok (pre, s')) <-> P /\ s' = s).
  { intros P HP. split; [intros (? & ? & ? & _ & [= _ <-]); done|]. intros [_ ->]. eauto. }
  destruct c; try (by apply Hok). simpl. destruct (Sudo_Key s0) as [k|].
  - case_bool_decide as Hk; simpl; [subst k; by apply Hok|].
    split; [by intros (? & ? & ? & [=] & _)|]. intros [H _]. injection (H eq_refl) as ->. done.
  - split; [by intros (? & ? & ? & [=] & _)|]. intros [H _]. by specialize (H eq_refl).
Qed.

Lemma checking_keeps_origin f : keeps_origin (checking f : Ext).
Proof. intros s o c i v val o'. simpl. destruct (f s c); simpl; congruence. Qed.

Lemma checking_passes f o c i s0 s s' :
  passes (checking f : Ext) o c i s0 s s' <-> f s0 c = Ok tt /\ f s c = Ok tt /\ s' = s.
Proof.
  unfold passes. simpl. unfold check. split.
  - intros (v & val & pre & Hv & Hp). destruct (f s0 c) as [[]|]; [|done].
    destruct (f s c) as [[]|]; [|done]. simpl in Hp. split_and!; [done|done|congruence].
  - intros (-> & -> & ->). simpl. eauto.
Qed.

Lemma scan_Ok_no_qubitum (t : ShieldStore W DE) call q :
  CheckQubitumShielding_validate t call = Ok tt -> ~ rtc carries call (RuntimeCall_Qubitum q).
Proof.
  unfold CheckQubitumShielding_validate. intros H. apply (violation_None_no_qubitum t).
  unfold private_runtime_call_violation. by destruct (privacy_violation t call).
Qed.

(** The shield checks that [CheckShieldedTxValidity] makes are among those of the scan. *)
Lemma scan_covers_shield (t : ShieldStore W DE) call :
  (forall c, is_sub_type c = match c with RuntimeCall_MevShield inner => Some inner | _ => None end) ->
  CheckQubitumShielding_validate t call = Ok tt -> CheckShieldedTxValidity_validate t call = Ok tt.
Proof.
  intros Hs. unfold CheckShieldedTxValidity_validate. rewrite Hs. destruct call as [| | | | | | | | | | | | | |inner| |]; try done.
  destruct inner as [|ciphertext| | | | |]; try done. unfold CheckQubitumShielding_validate, privacy_violation. simpl.
  destruct (parse_valid_submit_encrypted_ciphertext ciphertext) as [t'|]; [|done]. simpl.
  by destruct (is_shielded_using_current_key t (key_hash t')).
Qed.

(** *** The wrappers *)

Definition era_ok (era : Era) (c : RuntimeCall) : Prop :=
  contains_shield_submit_encrypted c = true ->
  exists period phase, era = Era_Mortal period phase /\ period <= MAX_SHIELD_ERA_PERIOD.

Lemma shield_era_check_Ok era c : shield_era_check era c = Ok tt <-> era_ok era c.
Proof.
  unfold shield_era_check, ensure_shield_submit_mortal_era, era_ok.
  destruct (contains_shield_submit_encrypted c); [|done]. destruct era as [|period phase]; simpl.
  - split; [done|]. intros H. by destruct (H eq_refl) as (? & ? & [=] & _).
  - destruct (Z.ltb_spec MAX_SHIELD_ERA_PERIOD period) as [H|H]; simpl.
    + split; [done|]. intros H'. destruct (H' eq_refl) as (? & ? & [= <- <-] & ?). lia.
    + split; [|done]. intros _ _. by exists period, phase.
Qed.

Lemma CheckMortality_passes era o c i s0 s s' :
  passes (CheckMortality era : Ext) o c i s0 s s' <->
  era_ok era c /\ passes (CheckMortalitySubstrate era : Ext) o c i s0 s s'.
Proof.
  rewrite <- shield_era_check_Ok. unfold passes. simpl. unfold abind, check.
  destruct (shield_era_check era c) as [[]|]; simpl; [naive_solver|]. split; [by intros (? & ? & ? & [=] & _)|by intros [[=] _]].
Qed.

Lemma CheckMortality_keeps_origin era :
  keeps_origin (CheckMortalitySubstrate era : Ext) -> keeps_origin (CheckMortality era : Ext).
Proof. intros H s o c i v val o'. simpl. destruct (shield_era_check era c); simpl; [apply H|done]. Qed.

Lemma payment_keeps_origin tip : keeps_origin (ChargeTransactionPaymentWrapper tip : Ext).
Proof.
  intros s o c i v val o'. simpl. unfold ChargeTransactionPaymentWrapper_validate.
  destruct (validate _ _ _ _ _) as [[[]]|]; congruence.
Qed.

Lemma payment_passes tip o c i s0 s s' :
  transparent (ChargeTransactionPayment tip : Ext) ->
  passes (ChargeTransactionPaymentWrapper tip : Ext) o c i s0 s s' -> keeps_state s s'.
Proof. intros [_ H] (v & val & pre & _ & Hp). by eapply H. Qed.

Lemma payment_lenient tip o c i s0 s :
  lenient (ChargeTransactionPayment tip : Ext) ->
  exists s', passes (ChargeTransactionPaymentWrapper tip : Ext) o c i s0 s s'.
Proof.
  intros [Hv Hp]. set (fo := match extract_real_fee_payer (wrapper_state s0) c o with
    | Some real => fresh_origin (Origin_Signed real) | None => o end).
  destruct (Hv s0 fo c i) as (v & val & Ev). destruct (Hp val o c i s) as (pre & s' & Ep).
  exists s', {| priority := overridden_priority i; requires := requires v; provides := provides v;
                longevity := longevity v; propagate := propagate v |}, val, pre.
  split; [|exact Ep]. simpl. unfold ChargeTransactionPaymentWrapper_validate. fold fo. by rewrite Ev.
Qed.

Lemma Drand_keeps_origin : keeps_origin (DrandPriority : Ext).
Proof. intros s o c i v val o'. simpl. congruence. Qed.

Lemma Drand_passes o c i s0 s s' : passes (DrandPriority : Ext) o c i s0 s s' <-> s' = s.
Proof.
  unfold passes. simpl. split; [by intros (? & ? & ? & _ & [= _ <-])|]. intros ->. eauto.
Qed.

(** ** The pipeline *)

(** What a transaction of [who] must satisfy. *)
Record admitted tx who (c : RuntimeCall) (i : DispatchInfo) s : Prop := {
  adm_nonce : tx_nonce tx = nonce_of s who;
  adm_paid : paid_for s who i;
  adm_sudo : is_sudo c = true -> Sudo_Key s = Some who;
  adm_public : CheckQubitumShielding_validate (shield_state s) c = Ok tt;
  adm_era : era_ok (tx_era tx) c;
}.

Lemma keeps_state_with_nonce who n s1 s2 : keeps_state s1 s2 ->
  Sudo_Key (with_nonce who n s2) = Sudo_Key s1 /\
  same_keys (shield_state s1) (shield_state (with_nonce who n s2)).
Proof. by intros (_ & H2 & H3). Qed.

Section Transparent.
Hypothesis Htransparent : others transparent.

Lemma others_keep_origin : others keeps_origin.
Proof.
  destruct Htransparent as (H1 & H2 & H3). split_and!; [|intros ?; apply H2|intros ?; apply H3].
  eapply Forall_impl; [exact H1|]. by intros e [He _].
Qed.

Lemma system_keeps_origin tx : keeps_origin (SystemTxExtension tx : Ext).
Proof.
  destruct others_keep_origin as (H1 & H2 & _). rewrite !Forall_cons in H1.
  destruct H1 as (? & ? & ? & ? & ? & ? & ? & _). unfold SystemTxExtension.
  repeat apply keeps_origin_pair; auto using CheckMortality_keeps_origin, CheckNonce_keeps_origin.
Qed.

Lemma custom_keeps_origin tx : keeps_origin (CustomTxExtension tx : Ext).
Proof.
  destruct others_keep_origin as (H1 & _ & H3). rewrite !Forall_cons in H1.
  destruct H1 as (? & ? & ? & ? & ? & ? & ? & _). unfold CustomTxExtension.
  repeat apply keeps_origin_pair; try apply checking_keeps_origin;
    auto using payment_keeps_origin, Sudo_keeps_origin, Drand_keeps_origin.
Qed.

Lemma TxExtension_keeps_origin tx : keeps_origin (TxExtension tx : Ext).
Proof.
  destruct others_keep_origin as (H1 & _ & _). rewrite !Forall_cons in H1.
  apply keeps_origin_pair; [apply system_keeps_origin|].
  apply keeps_origin_pair; [apply custom_keeps_origin|apply H1].
Qed.

(** Take the first element of a passed tuple off. *)
Lemma passes_first e1 e2 o c i s0 s s' :
  keeps_origin e1 -> keeps_origin e2 -> passes (ext_pair e1 e2) o c i s0 s s' ->
  exists s1, passes e1 o c i s0 s s1 /\ passes e2 o c i s0 s1 s'.
Proof. intros H1 H2. by rewrite passes_pair. Qed.

Lemma transparent_first e1 e2 o c i s0 s s' :
  transparent e1 -> keeps_origin e2 -> passes (ext_pair e1 e2) o c i s0 s s' ->
  exists s1, keeps_state s s1 /\ passes e2 o c i s0 s1 s'.
Proof.
  intros [K1 T1] H2 (s1 & H1 & H)%passes_pair; [|done|done]. exists s1. split; [|done].
  exact (transparent_passes _ _ _ _ _ _ _ (conj K1 T1) H1).
Qed.

Create HintDb passing.
#[local] Hint Resolve keeps_origin_pair CheckMortality_keeps_origin CheckNonce_keeps_origin payment_keeps_origin
  Sudo_keeps_origin Drand_keeps_origin : passing.
#[local] Hint Extern 2 (keeps_origin CheckShieldedTxValidity) => apply checking_keeps_origin : passing.
#[local] Hint Extern 2 (keeps_origin CheckQubitumShielding) => apply checking_keeps_origin : passing.

Lemma system_passes tx who o c i s s' :
  as_signer o = Some who -> passes (SystemTxExtension tx : Ext) o c i s s s' ->
  tx_nonce tx = nonce_of s who /\ paid_for s who i /\ era_ok (tx_era tx) c /\
  exists s1, keeps_state s s1 /\ keeps_state (with_nonce who (tx_nonce tx + 1) s1) s'.
Proof.
  intros Ho H. destruct others_keep_origin as (K1 & K2 & _). rewrite !Forall_cons in K1.
  destruct K1 as (? & ? & ? & ? & ? & _).
  destruct Htransparent as (T1 & T2 & _). rewrite !Forall_cons in T1. destruct T1 as (? & ? & ? & ? & T & _).
  unfold SystemTxExtension in H.
  do 4 (apply transparent_first in H as (? & ? & H); [|done|auto 8 with passing]).
  apply passes_first in H as (s5 & [He Hm]%CheckMortality_passes & H); [|by auto with passing..].
  apply passes_first in H as (s6 & Hc & H); [|by auto with passing..].
  apply (CheckNonce_passes _ _ who) in Hc as (Hp & Hn & ->); [|done].
  split_and!; [done|done|done|]. exists s5. split; [|by eapply transparent_passes].
  eauto 8 using keeps_state_trans, transparent_passes.
Qed.

Lemma custom_passes tx who o c i s0 s s' :
  as_signer o = Some who -> passes (CustomTxExtension tx : Ext) o c i s0 s s' ->
  (is_sudo c = true -> Sudo_Key s0 = Some who) /\
  CheckQubitumShielding_validate (shield_state s0) c = Ok tt /\ keeps_state s s'.
Proof.
  intros Ho H. destruct others_keep_origin as (K1 & _ & K3). rewrite !Forall_cons in K1.
  destruct K1 as (_ & _ & _ & _ & _ & ? & _).
  destruct Htransparent as (T1 & _ & T3). rewrite !Forall_cons in T1. destruct T1 as (_ & _ & _ & _ & _ & T & _).
  unfold CustomTxExtension in H.
  apply passes_first in H as (s1 & H1%payment_passes & H); [|auto 8 with passing..].
  apply passes_first in H as (s2 & [Hs ->]%(Sudo_passes _ who) & H); [|auto 8 with passing..].
  apply passes_first in H as (s3 & (_ & _ & ->)%checking_passes & H); [|auto 8 with passing..].
  apply passes_first in H as (s4 & (Hq & _ & ->)%checking_passes & H); [|auto 8 with passing..].
  apply transparent_first in H as (s5 & H5 & ->%Drand_passes); [|done|auto with passing].
  split_and!; [done|done|]. by eapply keeps_state_trans.
Qed.

(** *** Nothing else is refused *)

Lemma passes_next e1 e2 o c i s0 s s1 :
  keeps_origin e1 -> keeps_origin e2 -> passes e1 o c i s0 s s1 ->
  (exists s', passes e2 o c i s0 s1 s') -> exists s', passes (ext_pair e1 e2) o c i s0 s s'.
Proof. intros K1 K2 H1 [s' H2]. exists s'. rewrite passes_pair by done. by exists s1. Qed.

Lemma lenient_next e1 e2 o c i s0 s :
  lenient e1 -> keeps_origin e1 -> keeps_origin e2 ->
  (forall s1, passes e1 o c i s0 s s1 -> exists s', passes e2 o c i s0 s1 s') ->
  exists s', passes (ext_pair e1 e2) o c i s0 s s'.
Proof. intros L K1 K2 H. destruct (lenient_passes e1 o c i s0 s L) as [s1 H1]. by eapply passes_next; eauto. Qed.

Lemma system_complete tx who o c i s :
  others lenient -> as_signer o = Some who -> admitted tx who c i s ->
  exists s', passes (SystemTxExtension tx : Ext) o c i s s s'.
Proof.
  intros (L1 & L2 & _) Ho A. destruct others_keep_origin as (K1 & K2 & _). rewrite !Forall_cons in K1, L1.
  destruct K1 as (? & ? & ? & ? & ? & _), L1 as (? & ? & ? & ? & ? & _). unfold SystemTxExtension.
  do 4 (apply lenient_next; [done|done|auto 8 with passing|intros ? _]).
  match goal with |- exists s', passes _ _ _ _ _ ?s4 s' =>
    destruct (lenient_passes (CheckMortalitySubstrate (tx_era tx) : Ext) o c i s s4 (L2 _)) as [s5 Hm] end.
  apply passes_next with s5; [by auto with passing..|apply CheckMortality_passes; split; [apply A|done]|].
  apply passes_next with (with_nonce who (tx_nonce tx + 1) s5); [by auto with passing..| |by apply lenient_passes].
  apply (CheckNonce_passes _ _ who); [done|]. split_and!; [apply A|apply A|done].
Qed.

Lemma custom_complete tx who o c i s0 s :
  others lenient -> as_signer o = Some who -> admitted tx who c i s0 ->
  (forall c, is_sub_type c = match c with RuntimeCall_MevShield inner => Some inner | _ => None end) ->
  same_keys (shield_state s0) (shield_state s) ->
  exists s', passes (CustomTxExtension tx : Ext) o c i s0 s s'.
Proof.
  intros (L1 & _ & L3) Ho A Hsub Hk. destruct others_keep_origin as (K1 & _ & K3). rewrite !Forall_cons in K1, L1.
  destruct K1 as (_ & _ & _ & _ & _ & ? & _), L1 as (_ & _ & _ & _ & _ & ? & _). unfold CustomTxExtension.
  destruct (payment_lenient (tx_tip tx) o c i s0 s (L3 _)) as [s1 H1].
  pose proof (proj2 (proj2 Htransparent) (tx_tip tx)) as T.
  assert (Hk1 : same_keys (shield_state s0) (shield_state s1)).
  { destruct (payment_passes _ _ _ _ _ _ _ T H1) as (_ & _ & Hk1). intros h. by rewrite Hk1. }
  assert (Hq : forall t : St, same_keys (shield_state s0) (shield_state t) ->
    CheckQubitumShielding_validate (shield_state t) c = Ok tt).
  { intros t Ht. rewrite <- (adm_public _ _ _ _ _ A). unfold CheckQubitumShielding_validate, privacy_violation.
    by rewrite (scan_same_keys _ _ _ _ Ht). }
  apply passes_next with s1; [auto 8 with passing..|done|].
  apply passes_next with s1; [auto 8 with passing..|apply (Sudo_passes _ who); [done|split; [apply A|done]]|].
  apply passes_next with s1; [auto 8 with passing..| |].
  { apply checking_passes. split_and!; [by apply scan_covers_shield, Hq|by apply scan_covers_shield, Hq|done]. }
  apply passes_next with s1; [auto 8 with passing..|apply checking_passes; split_and!; [by apply Hq|by apply Hq|done]|].
  apply lenient_next; [done|done|auto with passing|]. intros s2 _. exists s2. by apply Drand_passes.
Qed.

Lemma pipeline_checks tx who o c i s o' s' :
  as_signer o = Some who -> apply_transaction (TxExtension tx : Ext) o c i s = Ok (o', s') ->
  o' = o /\ admitted tx who c i s /\ nonce_of s' who = (nonce_of s who + 1) mod 2 ^ 32 /\
  (forall who', who' <> who -> nonce_of s' who' = nonce_of s who').
Proof.
  intros Ho [-> H]%apply_passes; [|apply TxExtension_keeps_origin]. unfold TxExtension in H.
  destruct others_keep_origin as (K1 & _). rewrite !Forall_cons in K1. destruct K1 as (_ & _ & _ & _ & _ & _ & K & _).
  pose proof (system_keeps_origin tx) as KS. pose proof (custom_keeps_origin tx) as KC.
  apply passes_first in H as (s1 & HS & H); [|auto with passing..].
  apply passes_first in H as (s2 & HC & H); [|auto with passing..].
  destruct Htransparent as (T & _). rewrite !Forall_cons in T. destruct T as (_ & _ & _ & _ & _ & _ & T & _).
  apply transparent_passes in H as (H & _); [|done].
  apply (custom_passes tx who) in HC as (Hs & Hq & HC & _); [|done].
  apply (system_passes tx who) in HS as (Hn & Hp & He & sa & (Ha & _) & HS & _); [|done].
  split_and!; [done|done| |].
  - rewrite H, HC, HS, nonce_of_with, decide_True by done. by rewrite Hn.
  - intros who' Hne. rewrite H, HC, HS, nonce_of_with, decide_False by done. apply Ha.
Qed.

Lemma pipeline_complete tx who o c i s :
  others lenient ->
  (forall c, is_sub_type c = match c with RuntimeCall_MevShield inner => Some inner | _ => None end) ->
  as_signer o = Some who -> admitted tx who c i s ->
  exists s', apply_transaction (TxExtension tx : Ext) o c i s = Ok (o, s').
Proof.
  intros L Hsub Ho A. pose proof (system_keeps_origin tx) as KS. pose proof (custom_keeps_origin tx) as KC.
  destruct others_keep_origin as (K1 & _). rewrite !Forall_cons in K1. destruct K1 as (_ & _ & _ & _ & _ & _ & K & _).
  assert (HP : exists s', passes (TxExtension tx : Ext) o c i s s s').
  { destruct (system_complete tx who o c i s L Ho A) as [s1 HS].
    apply passes_next with s1; [auto with passing..|done|].
    pose proof (system_passes tx who o c i s s1 Ho HS) as (_ & _ & _ & sa & (_ & _ & Hk1) & _ & _ & Hk2).
    destruct (custom_complete tx who o c i s s1 L Ho A Hsub) as [s2 HC]; [intros h; by rewrite Hk2, <- Hk1|].
    apply passes_next with s2; [auto with passing..|done|]. apply lenient_passes.
    destruct L as (L1 & _). rewrite !Forall_cons in L1. apply L1. }
  destruct HP as [s' HP]. exists s'. apply apply_passes; [apply TxExtension_keeps_origin|done].
Qed.

(** C16 The pipeline of transaction extensions.  A signed transaction that passes keeps its origin,
    has exactly the next nonce of its signer, whose nonce then moves on by one while all other
    nonces stay.  It is [admitted]: if it pays a fee its account has a provider or is sufficient,
    a sudo call is signed by the sudo key, the privacy scan finds nothing in the call, and the era
    of an encrypted submission is mortal and at most eight blocks.  Of Qubitum calls it holds only
    what the creation of a crowdloan stores, which the scan does not see.  Conversely an admitted
    transaction passes, if no extension of another crate or pallet refuses it. *)
Theorem pipeline_admits tx who o c i s :
  as_signer o = Some who ->
  (forall o' s', apply_transaction (TxExtension tx : Ext) o c i s = Ok (o', s') ->
     o' = o /\ admitted tx who c i s /\
     (forall q, rtc holds c (RuntimeCall_Qubitum q) -> behind_crowdloan c (RuntimeCall_Qubitum q)) /\
     nonce_of s' who = (nonce_of s who + 1) mod 2 ^ 32 /\
     (forall who', who' <> who -> nonce_of s' who' = nonce_of s who')) /\
  (others lenient ->
   (forall c, is_sub_type c = match c with RuntimeCall_MevShield inner => Some inner | _ => None end) ->
   admitted tx who c i s -> exists s', apply_transaction (TxExtension tx : Ext) o c i s = Ok (o, s')).
Proof.
  intros Ho. split.
  - intros o' s' H. destruct (pipeline_checks tx who o c i s o' s' Ho H) as (-> & A & H1 & H2).
    split_and!; [done|done| |done|done]. intros q [Hq|Hq]%holds_cases; [|done].
    by destruct (scan_Ok_no_qubitum _ _ q (adm_public _ _ _ _ _ A)).
  - intros L Hsub A. by apply (pipeline_complete tx who).
Qed.

(** ** The nonces of an account *)

(** A history of the chain, with the nonces of the transactions that [who] has signed.  Whatever
    else happens leaves the nonce of [who] alone; in particular the account is not reaped. *)
Inductive account_history who : St -> list Z -> St -> Prop :=
| history_start s : account_history who s [] s
| history_transaction s l s1 tx o c i signer o' s2 :
    account_history who s l s1 -> as_signer o = Some signer ->
    apply_transaction (TxExtension tx : Ext) o c i s1 = Ok (o', s2) ->
    account_history who s (if decide (signer = who) then l ++ [tx_nonce tx] else l) s2
| history_rest s l s1 s2 :
    account_history who s l s1 -> nonce_of s2 who = nonce_of s1 who -> account_history who s l s2.

Definition nonces_from (n : Z) (k : nat) : list Z := (fun j => (n + j) mod 2 ^ 32) <$> seqZ 0 (Z.of_nat k).

Lemma nonces_from_snoc n k : nonces_from n (S k) = nonces_from n k ++ [(n + Z.of_nat k) mod 2 ^ 32].
Proof.
  unfold nonces_from. rewrite seqZ_S. by rewrite fmap_app.
Qed.

Lemma nonces_from_NoDup n k : Z.of_nat k <= 2 ^ 32 -> NoDup (nonces_from n k).
Proof.
  intros Hk. apply NoDup_fmap_2_strong; [|apply NoDup_seqZ]. intros x y Hx%elem_of_seqZ Hy%elem_of_seqZ E.
  assert (D : (2 ^ 32 | (n + x) - (n + y))) .
  { apply Z.mod_divide; [lia|]. by rewrite Zminus_mod, E, Z.sub_diag. }
  destruct D as [q Hq]. assert (q = 0) by lia. lia.
Qed.

Lemma history_nonces who s l s' :
  account_history who s l s' -> 0 <= nonce_of s who < 2 ^ 32 ->
  l = nonces_from (nonce_of s who) (length l) /\
  nonce_of s' who = (nonce_of s who + Z.of_nat (length l)) mod 2 ^ 32.
Proof.
  intros H Hn. induction H as [s|s l s1 tx o c i signer o' s2 H IH Ho Ha|s l s1 s2 H IH Hr].
  - split; [done|]. simpl. by rewrite Z.add_0_r, Z.mod_small.
  - destruct (IH Hn) as [Hl Hs]. apply (pipeline_checks tx signer) in Ha as (_ & A & E1 & E2); [|done].
    destruct (decide (signer = who)) as [->|Hne]; [|split; [done|by rewrite E2]].
    rewrite length_app, Nat.add_1_r, nonces_from_snoc, <- Hl. split.
    + by rewrite (adm_nonce _ _ _ _ _ A), Hs.
    + rewrite E1, Hs, Zplus_mod_idemp_l. f_equal. lia.
  - destruct (IH Hn) as [Hl Hs]. split; [done|congruence].
Qed.

(** C17 An account never uses a nonce twice.  In every history of the chain, in which transactions
    of any signers are applied and whatever else happens leaves the nonce of [who] alone, the
    transactions of [who] carry consecutive nonces, counted modulo [2^32] from the first one; so
    among [2^32] of them no two have the same nonce, and a transaction is not replayed. *)
Theorem nonces_never_reused who s l s' :
  account_history who s l s' -> 0 <= nonce_of s who < 2 ^ 32 ->
  l = nonces_from (nonce_of s who) (length l) /\
  nonce_of s' who = (nonce_of s who + Z.of_nat (length l)) mod 2 ^ 32 /\
  (Z.of_nat (length l) <= 2 ^ 32 -> NoDup l).
Proof.
  intros H Hn. destruct (history_nonces who s l s' H Hn) as [Hl Hs]. split_and!; [done|done|].
  intros Hk. rewrite Hl. by apply nonces_from_NoDup.
Qed.
End Transparent.
End Pipeline.

(** ** A concrete pipeline *)

Module TxRun.

#[local] Instance crypto : ShieldCrypto := {|
  ShieldedTransaction_parse _ := None;
  kem_ciphertext_ok _ := false;
  twox_128 bytes := bytes;
  MLKEM768_ENC_KEY_LEN := 1184;
|}.
#[local] Instance codec : RuntimeCodec := {|
  decode_all_with_depth_limit _ _ := None;
  decode_with_depth_limit _ _ := None;
|}.
#[local] Instance shield : ShieldRuntime RuntimeCall unit Z :=
  runtime_shield (fun _ => from_parts 1 0) (fun _ _ s => (s, Ok None)) (fun _ => 0) 1 1
    (fun _ => None) (fun _ => None).
#[local] Instance services : WrapperRuntime unit := {|
  reserve _ _ w := Ok w;
  unreserve _ _ w := (0, w);
  hash_of _ := [];
  derive_pure _ _ _ _ _ := None;
  derive_derivative _ _ := None;
  BaseCallFilter _ _ := true;
  other_call _ _ s := Ok s;
|}.
#[local] Instance framework : TxFramework := {|
  encode_tag p := snd p :: fst p;
  combine_with a b := {|
    priority := saturating_add 64 (priority a) (priority b);
    requires := requires a ++ requires b;
    provides := provides a ++ provides b;
    longevity := Z.min (longevity a) (longevity b);
    propagate := propagate a && propagate b;
  |};
|}.

Definition state : Type := TxState unit Z unit.

(** An extension that has nothing to check. *)
Definition idle : TransactionExtension state (Origin unit) := {|
  Val := unit; Pre := unit;
  validate _ origin _ _ := Ok (ValidTransaction_default, tt, origin);
  prepare _ _ _ _ := ret tt;
|}.
#[local] Instance idle_extensions : OtherExtensions state (Origin unit) := {|
  CheckNonZeroSender := idle; CheckSpecVersion := idle; CheckTxVersion := idle;
  CheckGenesis := idle; CheckMortalitySubstrate _ := idle; CheckWeight := idle;
  ChargeTransactionPayment _ := idle; SubtensorTransactionExtension := idle;
  CheckMetadataHash := idle;
|}.

Lemma idle_transparent : transparent idle.
Proof. split; [intros s o c i v val o' [= _ _ <-]; done|]. by intros val o c i s pre s' [= _ <-]. Qed.

Lemma idle_lenient : lenient idle.
Proof. split; [intros s o c i|intros val o c i s]; simpl; eauto. Qed.

Lemma idle_others (P : TransactionExtension state (Origin unit) -> Prop) : P idle -> others P.
Proof. intros H. split_and!; [|done|done]. by repeat constructor. Qed.

Definition alice : AccountId := [1].

(** Alice has the sudo key and has signed five transactions. *)
Definition start : state := {|
  Account := {[ alice := {| nonce := 5; providers := 1; sufficients := 0 |} ]};
  Sudo_Key := Some alice;
  shield_state := shield_genesis tt;
  wrapper_state := {|
    Proxies := ∅; Announcements := ∅; LastCallResult := ∅; RealPaysFee := ∅;
    wrapper_block := 1; extrinsic_index := 0; wrapper_events := []; outside := tt;
  |};
|}.
Definition origin_of (who : AccountId) : Origin unit := fresh_origin (Origin_Signed who).
Definition info : DispatchInfo := {| pays_fee := true; dispatch_class := DispatchClass_Normal |}.
Definition sudo_call : RuntimeCall := RuntimeCall_Sudo (SudoCall_sudo (RuntimeCall_System SystemCall_set_code)).
Definition tx_with (n : Z) : TxFields := {| tx_era := Era_Immortal; tx_nonce := n; tx_tip := 0 |}.

Lemma start_admits : admitted (tx_with 5) alice sudo_call info start.
Proof.
  split; [done| |done|done|].
  - intros _. left. by vm_compute.
  - intros H. by vm_compute in H.
Qed.

(** Her next transaction passes; a replay of the last one does not. *)
Lemma pipeline_admits_witness :
  (exists s', apply_transaction (TxExtension (tx_with 5)) (origin_of alice) sudo_call info start =
              Ok (origin_of alice, s')) /\
  (forall o' s', apply_transaction (TxExtension (tx_with 4)) (origin_of alice) sudo_call info start <> Ok (o', s')).
Proof.
  split.
  - apply (proj2 (pipeline_admits (idle_others _ idle_transparent) (tx_with 5) alice (origin_of alice) sudo_call
                    info start eq_refl)); [exact (idle_others _ idle_lenient)|intros c; reflexivity|exact start_admits].
  - intros o' s' H.
    destruct (proj1 (pipeline_admits (idle_others _ idle_transparent) (tx_with 4) alice (origin_of alice) sudo_call
                       info start eq_refl) o' s' H) as (_ & A & _).
    discriminate (adm_nonce _ _ _ _ _ A).
Defined.

Definition after_one : state := with_nonce alice 6 start.

Lemma one_transaction : account_history alice start [5] after_one.
Proof.
  apply (history_transaction alice start [] start (tx_with 5) (origin_of alice) sudo_call info alice (origin_of alice));
    [constructor|reflexivity|vm_compute; reflexivity].
Qed.

Lemma nonces_never_reused_witness : nonce_of after_one alice = 6 /\ NoDup [5].
Proof.
  destruct (nonces_never_reused (idle_others _ idle_transparent) alice start [5] after_one one_transaction)
    as (_ & E & N); [vm_compute; split; [discriminate|reflexivity]|].
  split; [rewrite E; vm_compute; reflexivity|]. apply N. vm_compute. discriminate.
Defined.

End TxRun.
