(* ===== verification/Ticks.v ===== *)
(** * Ticks of the swap pallet

    [pallets/swap/src/tick.rs]: tick indexes with their bounded arithmetic, and the active
    ticks of a subnet, kept as a bitmap of three layers of 128-bit words.  A bit of a layer
    says whether the word below it is not zero, so that the closest active tick is found by
    reading a handful of words. *)

From S2P Require Import Prelude.
From stdpp Require Import base tactics list gmap countable.
From Stdlib Require Import ZArith Lia.
Open Scope Z_scope.

(** ** Tick indexes *)

(** An [i32]. *)
Definition i32_min : Z := - 2 ^ 31.
Definition i32_max : Z := 2 ^ 31 - 1.
Definition i32_saturate (z : Z) : Z := Z.max i32_min (Z.min z i32_max).

Inductive TickMathError : Type :=
| TickMathError_TickOutOfBounds
| TickMathError_SqrtPriceOutOfBounds
| TickMathError_ConversionError
| TickMathError_Overflow
| TickMathError_DivisionByZero.

Definition MIN_TICK : Z := -887272.
Definition MAX_TICK : Z := - MIN_TICK.

(** Division of [i32] truncates. *)
Definition TickIndex_MIN : Z := i32_saturate (Z.quot MIN_TICK 2).
Definition TickIndex_MAX : Z := i32_saturate (Z.quot MAX_TICK 2).
Definition TickIndex_OFFSET : Z := MAX_TICK.

Abbreviation tick_result := (result TickMathError Z).

Definition TickIndex_new (value : Z) : tick_result :=
  if negb ((TickIndex_MIN <=? value) && (value <=? TickIndex_MAX))
  then Err TickMathError_TickOutOfBounds else Ok value.

(** The cast of an [i64] to [i32] keeps the low bits. *)
Definition i32_wrap (z : Z) : Z := (z + 2 ^ 31) mod 2 ^ 32 - 2 ^ 31.

Definition TickIndex_from_offset_index (offset_index : Z) : tick_result :=
  let signed_index := i32_wrap (offset_index - TickIndex_OFFSET) in
  TickIndex_new signed_index.

Definition TickIndex_next (self : Z) : tick_result := TickIndex_new (i32_saturate (self + 1)).
Definition TickIndex_prev (self : Z) : tick_result := TickIndex_new (i32_saturate (self - 1)).

Definition TickIndex_checked_add (self value : Z) : tick_result :=
  TickIndex_new (i32_saturate (self + value)).
Definition TickIndex_checked_sub (self value : Z) : tick_result :=
  TickIndex_new (i32_saturate (self - value)).

Definition TickIndex_saturating_add (self value : Z) : Z :=
  match TickIndex_checked_add self value with
  | Ok r => r
  | Err _ => if 0 <? value then TickIndex_MAX else TickIndex_MIN
  end.
Definition TickIndex_saturating_sub (self value : Z) : Z :=
  match TickIndex_checked_sub self value with
  | Ok r => r
  | Err _ => if 0 <? value then TickIndex_MIN else TickIndex_MAX
  end.

Definition TickIndex_checked_div (self value : Z) : tick_result :=
  if value =? 0 then Err TickMathError_DivisionByZero
  else TickIndex_new (i32_saturate (Z.quot self value)).

Definition opposite_signs (self value : Z) : bool :=
  ((self <? 0) && (0 <? value)) || ((0 <? self) && (value <? 0)).

Definition TickIndex_saturating_div (self value : Z) : Z :=
  if value =? 0 then TickIndex_MAX
  else match TickIndex_checked_div self value with
       | Ok r => r
       | Err _ => if opposite_signs self value then TickIndex_MIN else TickIndex_MAX
       end.

Definition i32_checked_mul (a b : Z) : option Z :=
  if (i32_min <=? a * b) && (a * b <=? i32_max) then Some (a * b) else None.

Definition TickIndex_checked_mul (self value : Z) : tick_result :=
  match i32_checked_mul self value with
  | Some r => TickIndex_new r
  | None => Err TickMathError_Overflow
  end.

Definition TickIndex_saturating_mul (self value : Z) : Z :=
  match TickIndex_checked_mul self value with
  | Ok r => r
  | Err _ => if opposite_signs self value then TickIndex_MIN else TickIndex_MAX
  end.

(** ** The bitmap *)

Inductive LayerLevel : Type := LayerLevel_Top | LayerLevel_Middle | LayerLevel_Bottom.
#[export] Instance LayerLevel_eq_dec : EqDecision LayerLevel.
Proof. solve_decision. Defined.
#[export] Instance LayerLevel_countable : Countable LayerLevel.
Proof.
  refine (inj_countable'
    (fun l => match l with LayerLevel_Top => 0%Z | LayerLevel_Middle => 1 | LayerLevel_Bottom => 2 end)
    (fun z => match z with 0%Z => LayerLevel_Top | 1 => LayerLevel_Middle | _ => LayerLevel_Bottom end)
    _).
  by intros [].
Defined.

Record BitmapLayer : Type := mk_BitmapLayer { layer_word : Z; layer_bit : Z }.

Record TickIndexBitmap : Type := mk_TickIndexBitmap {
  layer0 : BitmapLayer;
  layer1 : BitmapLayer;
  layer2 : BitmapLayer;
}.

(** The divisor is not zero. *)
Definition index_to_layer (index : Z) : BitmapLayer :=
  {| layer_word := index / 128; layer_bit := index mod 128 |}.

Definition u32_saturate (z : Z) : Z := Z.min z (uint_max 32).

Definition layer_to_index (layer : BitmapLayer) : Z :=
  saturating_add 32 (u32_saturate (layer_word layer * 128)) (layer_bit layer).

Definition layer_at (self : TickIndexBitmap) (layer : LayerLevel) : BitmapLayer :=
  match layer with
  | LayerLevel_Top => layer0 self
  | LayerLevel_Middle => layer1 self
  | LayerLevel_Bottom => layer2 self
  end.
Definition bit_mask (self : TickIndexBitmap) (layer : LayerLevel) : Z :=
  Z.shiftl 1 (layer_bit (layer_at self layer)).
Definition word_at (self : TickIndexBitmap) (layer : LayerLevel) : Z :=
  layer_word (layer_at self layer).
Definition bit_at (self : TickIndexBitmap) (layer : LayerLevel) : Z :=
  layer_bit (layer_at self layer).

(** [From<TickIndex>] *)
Definition TickIndexBitmap_from (tick_index : Z) : TickIndexBitmap :=
  let offset_index := (i32_saturate (tick_index + TickIndex_OFFSET)) mod 2 ^ 32 in
  let layer2 := index_to_layer offset_index in
  let layer1 := index_to_layer (layer_word layer2) in
  let layer0 := index_to_layer (layer_word layer1) in
  {| layer0 := layer0; layer1 := layer1; layer2 := layer2 |}.

(** The loop of [find_closest_active_bit_candidates]; a mask of 128 bits is shifted out after
    128 rounds. *)
Fixpoint candidates_loop (fuel : nat) (word bit : Z) (lower : bool) (mask active_bit : Z)
    (acc : list Z) : list Z :=
  match fuel with
  | O => acc
  | S fuel =>
      if 0 <? mask then
        let hit := negb (Z.land mask word =? 0) in
        let acc := if hit then acc ++ [active_bit] else acc in
        if hit && negb (active_bit =? bit) then acc
        else if lower
        then candidates_loop fuel word bit lower (Z.shiftr mask 1)
               (saturating_sub active_bit 1) acc
        else candidates_loop fuel word bit lower (Z.shiftl mask 1 mod 2 ^ 128)
               (saturating_add 32 active_bit 1) acc
      else acc
  end.

Definition find_closest_active_bit_candidates (word bit : Z) (lower : bool) : list Z :=
  candidates_loop 129 word bit lower (Z.shiftl 1 (bit mod 128)) bit [].

(** [TickIndexBitmapWords] *)
Abbreviation BitmapWords := (gmap (Z * LayerLevel * Z) Z).

Definition get_word (words : BitmapWords) (netuid : Z) (layer : LayerLevel) (word : Z) : Z :=
  default 0 (words !! (netuid, layer, word)).
Definition set_word (netuid : Z) (layer : LayerLevel) (word value : Z) (words : BitmapWords) :
    BitmapWords := <[(netuid, layer, word) := value]> words.

Definition out_of_range (index : Z) : bool :=
  (index <? TickIndex_MIN) || (TickIndex_MAX <? index).

(** The complement of a [u128]. *)
Definition u128_not (x : Z) : Z := Z.lxor x (uint_max 128).

(** [ActiveTickIndexManager::insert] *)
Definition ticks_insert (netuid index : Z) (words : BitmapWords) : BitmapWords :=
  if out_of_range index then words else
  let bitmap := TickIndexBitmap_from index in
  let word0_value := get_word words netuid LayerLevel_Top (word_at bitmap LayerLevel_Top) in
  let word1_value := get_word words netuid LayerLevel_Middle (word_at bitmap LayerLevel_Middle) in
  let word2_value := get_word words netuid LayerLevel_Bottom (word_at bitmap LayerLevel_Bottom) in
  let word0_value := Z.lor word0_value (bit_mask bitmap LayerLevel_Top) in
  let word1_value := Z.lor word1_value (bit_mask bitmap LayerLevel_Middle) in
  let word2_value := Z.lor word2_value (bit_mask bitmap LayerLevel_Bottom) in
  set_word netuid LayerLevel_Bottom (word_at bitmap LayerLevel_Bottom) word2_value
    (set_word netuid LayerLevel_Middle (word_at bitmap LayerLevel_Middle) word1_value
       (set_word netuid LayerLevel_Top (word_at bitmap LayerLevel_Top) word0_value words)).

(** [ActiveTickIndexManager::remove] *)
Definition ticks_remove (netuid index : Z) (words : BitmapWords) : BitmapWords :=
  if out_of_range index then words else
  let bitmap := TickIndexBitmap_from index in
  let word0_value := get_word words netuid LayerLevel_Top (word_at bitmap LayerLevel_Top) in
  let word1_value := get_word words netuid LayerLevel_Middle (word_at bitmap LayerLevel_Middle) in
  let word2_value := get_word words netuid LayerLevel_Bottom (word_at bitmap LayerLevel_Bottom) in
  let word2_value := Z.land word2_value (u128_not (bit_mask bitmap LayerLevel_Bottom)) in
  let words :=
    set_word netuid LayerLevel_Bottom (word_at bitmap LayerLevel_Bottom) word2_value words in
  let '(word1_value, words) :=
    if word2_value =? 0 then
      let word1_value := Z.land word1_value (u128_not (bit_mask bitmap LayerLevel_Middle)) in
      (word1_value,
       set_word netuid LayerLevel_Middle (word_at bitmap LayerLevel_Middle) word1_value words)
    else (word1_value, words) in
  if word1_value =? 0 then
    let word0_value := Z.land word0_value (u128_not (bit_mask bitmap LayerLevel_Top)) in
    set_word netuid LayerLevel_Top (word_at bitmap LayerLevel_Top) word0_value words
  else words.

(** Where the search starts in a word: at its edge unless it is the word of the index. *)
Definition start_bit (word_index layer_word layer_bit : Z) : Z :=
  match word_index ?= layer_word with Lt => 127 | Gt => 0 | Eq => layer_bit end.

(** The innermost step: [found] and [result] of the loops as an option. *)
Definition keep_closer (lower : bool) (result : option Z) (offset_found_index : Z) : option Z :=
  match result with
  | None => Some offset_found_index
  | Some result =>
      if lower
      then Some (if result <? offset_found_index then offset_found_index else result)
      else Some (if offset_found_index <? result then offset_found_index else result)
  end.

(** The loops of [ActiveTickIndexManager::find_closest] over the candidates of level 1 and
    level 0; the body of the inner one looks up level 2. *)
Definition find_closest_l2 (words : BitmapWords) (netuid : Z) (bitmap : TickIndexBitmap)
    (lower : bool) (word1_index : Z) (found : option Z) (closest_bit_l1 : Z) : option Z :=
  let word2_index := layer_to_index (mk_BitmapLayer word1_index closest_bit_l1) in
  let start_from_l2_bit :=
    start_bit word2_index (word_at bitmap LayerLevel_Bottom) (bit_at bitmap LayerLevel_Bottom) in
  let word2_value := get_word words netuid LayerLevel_Bottom word2_index in
  match find_closest_active_bit_candidates word2_value start_from_l2_bit lower with
  | [] => found
  | bit :: _ => keep_closer lower found (layer_to_index (mk_BitmapLayer word2_index bit))
  end.

Definition find_closest_l1 (words : BitmapWords) (netuid : Z) (bitmap : TickIndexBitmap)
    (lower : bool) (found : option Z) (closest_bit_l0 : Z) : option Z :=
  let word1_index := layer_to_index (mk_BitmapLayer 0 closest_bit_l0) in
  let start_from_l1_bit :=
    start_bit word1_index (word_at bitmap LayerLevel_Middle) (bit_at bitmap LayerLevel_Middle) in
  let word1_value := get_word words netuid LayerLevel_Middle word1_index in
  let closest_bits_l1 :=
    find_closest_active_bit_candidates word1_value start_from_l1_bit lower in
  fold_left (find_closest_l2 words netuid bitmap lower word1_index) closest_bits_l1 found.

Definition find_closest (words : BitmapWords) (netuid index : Z) (lower : bool) : option Z :=
  if out_of_range index then None else
  let bitmap := TickIndexBitmap_from index in
  let word0 := get_word words netuid LayerLevel_Top (word_at bitmap LayerLevel_Top) in
  let closest_bits_l0 :=
    find_closest_active_bit_candidates word0 (bit_at bitmap LayerLevel_Top) lower in
  match fold_left (find_closest_l1 words netuid bitmap lower) closest_bits_l0 None with
  | None => None
  | Some result =>
      match TickIndex_from_offset_index result with Ok index => Some index | Err _ => None end
  end.

Definition find_closest_lower (words : BitmapWords) (netuid index : Z) : option Z :=
  find_closest words netuid index true.
Definition find_closest_higher (words : BitmapWords) (netuid index : Z) : option Z :=
  find_closest words netuid index false.

Definition tick_is_active (words : BitmapWords) (netuid tick : Z) : bool :=
  default TickIndex_MAX (find_closest_lower words netuid tick) =? tick.
