(* ===== verification/TickBitmap.v ===== *)
(** * The bitmap of active ticks implements a set

    The three layers of words represent the set of active ticks, [ticks_insert] and
    [ticks_remove] add to it and take from it, and [find_closest] finds the closest element
    in either direction. *)

From S2P Require Import Prelude Ticks.
From stdpp Require Import base tactics list gmap sets.
From Stdlib Require Import ZArith Lia.
Open Scope Z_scope.

(** ** Bits of a word *)

Lemma land_pow2 a word : 0 <= a -> (Z.land (2 ^ a) word =? 0) = negb (Z.testbit word a).
Proof.
  intros Ha. destruct (Z.testbit word a) eqn:E; simpl.
  - apply Z.eqb_neq. intros H. apply (f_equal (fun z => Z.testbit z a)) in H.
    rewrite Z.land_spec, Z.pow2_bits_true, E, Z.bits_0 in H by lia. done.
  - apply Z.eqb_eq. apply Z.bits_inj'. intros n Hn. rewrite Z.land_spec, Z.bits_0.
    destruct (Z.eq_dec a n) as [<-|Hne]; [by rewrite E, andb_false_r|].
    by rewrite Z.pow2_bits_false.
Qed.

Lemma word_bit_range word n : 0 <= word < 2 ^ 128 -> Z.testbit word n = true -> 0 <= n < 128.
Proof.
  intros Hw Hn. destruct (Z.neg_nonneg_cases n) as [H|H]; [by rewrite Z.testbit_neg_r in Hn|].
  split; [done|]. destruct (Z_lt_le_dec n 128) as [|Hge]; [done|].
  rewrite <- (Z.mod_small word (2 ^ 128)) in Hn by lia.
  rewrite Z.mod_pow2_bits_high in Hn by lia. done.
Qed.

Lemma word_nonzero word : 0 <= word < 2 ^ 128 ->
  word <> 0 <-> exists n, 0 <= n < 128 /\ Z.testbit word n = true.
Proof.
  intros Hw. split.
  - intros Hne. exists (Z.log2 word). pose proof (Z.bit_log2 word ltac:(lia)) as Hb.
    split; [by eapply word_bit_range|done].
  - intros (n & _ & Hn) ->. by rewrite Z.bits_0 in Hn.
Qed.

Lemma testbit_set word a n : 0 <= a -> 0 <= n ->
  Z.testbit (Z.lor word (Z.shiftl 1 a)) n = Z.testbit word n || (n =? a).
Proof.
  intros Ha Hn. rewrite Z.lor_spec, Z.shiftl_1_l, Z.pow2_bits_eqb, Z.eqb_sym by lia. done.
Qed.

Lemma testbit_clear word a n : 0 <= a < 128 -> 0 <= n < 128 ->
  Z.testbit (Z.land word (u128_not (Z.shiftl 1 a))) n = Z.testbit word n && negb (n =? a).
Proof.
  intros Ha Hn. unfold u128_not, uint_max.
  rewrite Z.land_spec, Z.lxor_spec, Z.shiftl_1_l, Z.pow2_bits_eqb, (Z.eqb_sym a) by lia.
  replace (2 ^ 128 - 1) with (Z.ones 128) by done. rewrite Z.ones_spec_low by lia.
  by destruct (n =? a).
Qed.

Lemma set_range word a : 0 <= word < 2 ^ 128 -> 0 <= a < 128 ->
  0 <= Z.lor word (Z.shiftl 1 a) < 2 ^ 128.
Proof.
  intros Hw Ha. rewrite Z.shiftl_1_l. assert (0 < 2 ^ a) by (apply Z.pow_pos_nonneg; lia).
  assert (0 <= Z.lor word (2 ^ a)) by (apply Z.lor_nonneg; lia). split; [done|].
  destruct (Z.eq_dec (Z.lor word (2 ^ a)) 0) as [->|Hne]; [lia|].
  apply Z.log2_lt_pow2; [lia|]. rewrite Z.log2_lor by lia.
  apply Z.max_lub_lt; [|rewrite Z.log2_pow2; lia].
  destruct (Z.eq_dec word 0) as [->|]; [simpl; lia|]. apply Z.log2_lt_pow2; lia.
Qed.

Lemma clear_range word x : 0 <= word < 2 ^ 128 -> 0 <= Z.land word x < 2 ^ 128.
Proof.
  intros Hw. assert (0 <= Z.land word x) by (apply Z.land_nonneg; lia). split; [done|].
  destruct (Z.eq_dec (Z.land word x) 0) as [->|Hne]; [lia|].
  destruct (Z_lt_le_dec (Z.land word x) (2 ^ 128)) as [|Hge]; [done|]. exfalso.
  pose proof (Z.bit_log2 (Z.land word x) ltac:(lia)) as Hb.
  rewrite Z.land_spec in Hb. apply andb_true_iff in Hb as [Hb _].
  pose proof (word_bit_range word _ Hw Hb). apply Z.log2_le_pow2 in Hge; lia.
Qed.

(** ** The closest bits of a word *)

(** The highest bit below [k], and the lowest bit of the [m] bits from [k] on. *)
Fixpoint bit_below (word : Z) (k : nat) : list Z :=
  match k with
  | O => []
  | S k => if Z.testbit word (Z.of_nat k) then [Z.of_nat k] else bit_below word k
  end.
Fixpoint bit_above (word : Z) (m : nat) (k : Z) : list Z :=
  match m with
  | O => []
  | S m => if Z.testbit word k then [k] else bit_above word m (k + 1)
  end.

Lemma candidates_loop_lower word bit acc k : forall n,
  Z.of_nat k < bit -> (k < n)%nat ->
  candidates_loop n word bit true (2 ^ Z.of_nat k) (Z.of_nat k) acc
  = acc ++ bit_below word (S k).
Proof.
  induction k as [|k IH]; intros [|n] Hb Hn; try lia; cbn [candidates_loop bit_below].
  - change (0 <? 2 ^ Z.of_nat 0) with true. cbn iota. rewrite land_pow2, negb_involutive by lia.
    destruct (Z.testbit word (Z.of_nat 0)) eqn:E; cbn [andb].
    + replace (negb (Z.of_nat 0 =? bit)) with true; [done|].
      symmetry. apply negb_true_iff, Z.eqb_neq. lia.
    + rewrite app_nil_r. by destruct n.
  - rewrite (proj2 (Z.ltb_lt 0 (2 ^ Z.of_nat (S k)))) by (apply Z.pow_pos_nonneg; lia).
    rewrite land_pow2, negb_involutive by lia.
    destruct (Z.testbit word (Z.of_nat (S k))) eqn:E; cbn [andb].
    + replace (negb (Z.of_nat (S k) =? bit)) with true; [done|].
      symmetry. apply negb_true_iff, Z.eqb_neq. lia.
    + replace (Z.shiftr (2 ^ Z.of_nat (S k)) 1) with (2 ^ Z.of_nat k).
      * replace (saturating_sub (Z.of_nat (S k)) 1) with (Z.of_nat k)
          by (unfold saturating_sub; lia).
        rewrite IH by lia. done.
      * rewrite Z.shiftr_div_pow2, Nat2Z.inj_succ, Z.pow_succ_r by lia.
        rewrite Z.mul_comm, Z.pow_1_r, Z.div_mul by lia. done.
Qed.


Lemma candidates_loop_higher word bit acc m : forall n k,
  bit < k -> k + Z.of_nat m = 128 -> 0 <= k -> (m < n)%nat ->
  candidates_loop n word bit false (2 ^ k mod 2 ^ 128) k acc = acc ++ bit_above word m k.
Proof.
  induction m as [|m IH]; intros [|n] k Hb Hk H0 Hn; try lia; cbn [candidates_loop bit_above].
  - replace k with 128 by lia. rewrite app_nil_r. done.
  - assert (2 ^ k < 2 ^ 128) by (apply Z.pow_lt_mono_r; lia).
    assert (0 < 2 ^ k) by (apply Z.pow_pos_nonneg; lia).
    rewrite (Z.mod_small (2 ^ k)) by lia. rewrite (proj2 (Z.ltb_lt 0 (2 ^ k))) by done.
    rewrite land_pow2, negb_involutive by lia.
    destruct (Z.testbit word k) eqn:E; cbn [andb].
    + replace (negb (k =? bit)) with true; [done|].
      symmetry. apply negb_true_iff, Z.eqb_neq. lia.
    + replace (saturating_add 32 k 1) with (k + 1) by (unfold saturating_add, uint_max; lia).
      rewrite <- (IH n (k + 1)) by lia. f_equal.
      rewrite Z.shiftl_mul_pow2, Z.pow_1_r, Z.pow_add_r by lia. done.
Qed.

Definition self_bit (word bit : Z) : list Z := if Z.testbit word bit then [bit] else [].

Lemma candidates_loop_start n word bit lower : 0 <= bit < 128 -> (128 <= n)%nat ->
  candidates_loop (S n) word bit lower (2 ^ bit) bit []
  = self_bit word bit
    ++ (if lower then bit_below word (Z.to_nat bit)
        else bit_above word (Z.to_nat (127 - bit)) (bit + 1)).
Proof.
  intros Hb Hn. cbn [candidates_loop].
  assert (0 < 2 ^ bit) by (apply Z.pow_pos_nonneg; lia).
  rewrite (proj2 (Z.ltb_lt 0 (2 ^ bit))) by done. rewrite land_pow2, negb_involutive by lia.
  rewrite Z.eqb_refl, andb_false_r.
  change (if Z.testbit word bit then [] ++ [bit] else []) with (self_bit word bit).
  destruct lower.
  - destruct (Z.eq_dec bit 0) as [->|Hne].
    { rewrite app_nil_r. destruct n; [lia|done]. }
    replace (Z.to_nat bit) with (S (Z.to_nat (bit - 1))) by lia.
    rewrite <- (candidates_loop_lower word bit _ _ n) by lia. rewrite Z2Nat.id by lia. f_equal.
    + rewrite Z.shiftr_div_pow2, Z.pow_1_r by lia.
      replace bit with (Z.succ (bit - 1)) at 1 by lia.
      rewrite Z.pow_succ_r, Z.mul_comm, Z.div_mul by lia. done.
    + unfold saturating_sub. lia.
  - rewrite <- (candidates_loop_higher word bit _ _ n) by lia. f_equal.
    + rewrite Z.shiftl_mul_pow2, Z.pow_1_r, Z.pow_add_r by lia. done.
    + unfold saturating_add, uint_max. lia.
Qed.

Lemma candidates_eq word bit lower : 0 <= bit < 128 ->
  find_closest_active_bit_candidates word bit lower
  = self_bit word bit
    ++ (if lower then bit_below word (Z.to_nat bit)
        else bit_above word (Z.to_nat (127 - bit)) (bit + 1)).
Proof.
  intros Hb. unfold find_closest_active_bit_candidates. rewrite Z.mod_small, Z.shiftl_1_l by lia.
  apply candidates_loop_start; [done|lia].
Qed.

#[local] Opaque find_closest_active_bit_candidates.

(** [a] lies at [b] or on the side of the search. *)
Definition beyond (lower : bool) (a b : Z) : Prop := if lower then a <= b else b <= a.

Lemma bit_below_spec word k :
  match bit_below word k with
  | [] => forall n, 0 <= n < Z.of_nat k -> Z.testbit word n = false
  | b :: rest => rest = [] /\ 0 <= b < Z.of_nat k /\ Z.testbit word b = true
                 /\ forall n, b < n < Z.of_nat k -> Z.testbit word n = false
  end.
Proof.
  induction k as [|k IH]; cbn [bit_below]; [intros; lia|].
  destruct (Z.testbit word (Z.of_nat k)) eqn:E; [split_and!; [done|lia|lia|done|intros; lia]|].
  destruct (bit_below word k) as [|b rest].
  - intros n Hn. destruct (Z.eq_dec n (Z.of_nat k)) as [->|]; [done|]. apply IH. lia.
  - destruct IH as (-> & Hb & Ht & IH). split_and!; [done|lia|lia|done|].
    intros n Hn. destruct (Z.eq_dec n (Z.of_nat k)) as [->|]; [done|]. apply IH. lia.
Qed.

Lemma bit_above_spec word m : forall k,
  match bit_above word m k with
  | [] => forall n, k <= n < k + Z.of_nat m -> Z.testbit word n = false
  | b :: rest => rest = [] /\ k <= b < k + Z.of_nat m /\ Z.testbit word b = true
                 /\ forall n, k <= n < b -> Z.testbit word n = false
  end.
Proof.
  induction m as [|m IH]; intros k; cbn [bit_above]; [intros; lia|].
  destruct (Z.testbit word k) eqn:E; [split_and!; [done|lia|lia|done|intros; lia]|].
  specialize (IH (k + 1)). destruct (bit_above word m (k + 1)) as [|b rest].
  - intros n Hn. destruct (Z.eq_dec n k) as [->|]; [done|]. apply IH. lia.
  - destruct IH as (-> & Hb & Ht & IH). split_and!; [done|lia|lia|done|].
    intros n Hn. destruct (Z.eq_dec n k) as [->|]; [done|]. apply IH. lia.
Qed.

Lemma candidates_cases word bit lower : 0 <= bit < 128 -> exists rest,
  find_closest_active_bit_candidates word bit lower = self_bit word bit ++ rest
  /\ match rest with
     | [] => forall n, 0 <= n < 128 -> n <> bit -> beyond lower n bit -> Z.testbit word n = false
     | d :: t => t = [] /\ 0 <= d < 128 /\ d <> bit /\ beyond lower d bit
                 /\ Z.testbit word d = true
                 /\ forall n, 0 <= n < 128 -> n <> bit -> beyond lower n bit ->
                      Z.testbit word n = true -> beyond lower n d
     end.
Proof.
  intros Hb. rewrite candidates_eq by done. eexists. split; [done|]. destruct lower.
  - pose proof (bit_below_spec word (Z.to_nat bit)) as H. unfold beyond.
    destruct (bit_below word (Z.to_nat bit)) as [|d t].
    + intros n Hn Hne Hle. apply H. lia.
    + destruct H as (-> & Hd & Ht & H). split_and!; [done|lia..|done|]. intros n Hn Hne Hle Hs.
      destruct (Z_lt_le_dec d n); [|done]. rewrite H in Hs by lia. done.
  - pose proof (bit_above_spec word (Z.to_nat (127 - bit)) (bit + 1)) as H. unfold beyond.
    destruct (bit_above word (Z.to_nat (127 - bit)) (bit + 1)) as [|d t].
    + intros n Hn Hne Hle. apply H. lia.
    + destruct H as (-> & Hd & Ht & H). split_and!; [done|lia..|done|]. intros n Hn Hne Hle Hs.
      destruct (Z_lt_le_dec n d); [|done]. rewrite H in Hs by lia. done.
Qed.

Lemma beyond_refl lower a : beyond lower a a.
Proof. unfold beyond. destruct lower; lia. Qed.

Lemma candidates_sound word bit lower c : 0 <= bit < 128 -> 
  c ∈ find_closest_active_bit_candidates word bit lower ->
  0 <= c < 128 /\ Z.testbit word c = true /\ beyond lower c bit.
Proof.
  intros Hb Hc. destruct (candidates_cases word bit lower Hb) as (rest & E & H).
  rewrite E in Hc. apply elem_of_app in Hc as [Hc|Hc].
  - unfold self_bit in Hc. destruct (Z.testbit word bit) eqn:Et; [|by apply not_elem_of_nil in Hc].
    apply list_elem_of_singleton in Hc as ->. split_and!; [lia|lia|done|apply beyond_refl].
  - destruct rest as [|d t]; [by apply not_elem_of_nil in Hc|].
    destruct H as (-> & Hd & _ & Hbd & Ht & _). apply list_elem_of_singleton in Hc as ->. done.
Qed.

Lemma candidates_self word bit lower : 0 <= bit < 128 -> Z.testbit word bit = true ->
  bit ∈ find_closest_active_bit_candidates word bit lower.
Proof.
  intros Hb Ht. destruct (candidates_cases word bit lower Hb) as (rest & -> & _).
  unfold self_bit. rewrite Ht. by left.
Qed.

Lemma candidates_strict word bit lower n : 0 <= bit < 128 -> 0 <= n < 128 -> n <> bit ->
  beyond lower n bit -> Z.testbit word n = true ->
  exists d, d ∈ find_closest_active_bit_candidates word bit lower /\ d <> bit /\ beyond lower n d.
Proof.
  intros Hb Hn Hne Hbe Ht. destruct (candidates_cases word bit lower Hb) as (rest & E & H).
  destruct rest as [|d t]; [by rewrite H in Ht|].
  destruct H as (-> & Hd & Hd1 & _ & _ & H). exists d. split_and!; [|done|by apply H].
  rewrite E. apply elem_of_app. right. by left.
Qed.

Lemma candidates_head word bit lower n : 0 <= bit < 128 -> 0 <= n < 128 ->
  beyond lower n bit -> Z.testbit word n = true ->
  exists d rest, find_closest_active_bit_candidates word bit lower = d :: rest
                 /\ beyond lower n d.
Proof.
  intros Hb Hn Hbe Ht. destruct (candidates_cases word bit lower Hb) as (rest & E & H).
  unfold self_bit in E. destruct (Z.testbit word bit) eqn:Eb.
  - exists bit, rest. by rewrite E.
  - assert (n <> bit) by congruence. destruct rest as [|d t]; [by rewrite H in Ht|].
    exists d, t. rewrite E. split; [done|]. by apply H.
Qed.

(** ** What the words represent *)

Lemma tick_min : TickIndex_MIN = -443636.
Proof. reflexivity. Qed.
Lemma tick_max : TickIndex_MAX = 443636.
Proof. reflexivity. Qed.
Lemma tick_offset : TickIndex_OFFSET = 887272.
Proof. reflexivity. Qed.
Ltac tick_consts := rewrite ?tick_min, ?tick_max, ?tick_offset in *.

Definition in_bounds (t : Z) : Prop := TickIndex_MIN <= t <= TickIndex_MAX.

Record represents (words : BitmapWords) (netuid : Z) (active : gset Z) : Prop := {
  rep_word : forall l w, 0 <= get_word words netuid l w < 2 ^ 128;
  rep_bottom : forall i, 0 <= i ->
    Z.testbit (get_word words netuid LayerLevel_Bottom (i / 128)) (i mod 128) = true
    <-> i - TickIndex_OFFSET ∈ active;
  rep_middle : forall w, 0 <= w ->
    Z.testbit (get_word words netuid LayerLevel_Middle (w / 128)) (w mod 128) = true
    <-> get_word words netuid LayerLevel_Bottom w <> 0;
  rep_top : forall w, 0 <= w < 128 ->
    Z.testbit (get_word words netuid LayerLevel_Top 0) w = true
    <-> get_word words netuid LayerLevel_Middle w <> 0;
  rep_bounds : forall t, t ∈ active -> in_bounds t;
}.

Lemma get_set netuid l w v words netuid' l' w' :
  get_word (set_word netuid l w v words) netuid' l' w'
  = if decide (netuid = netuid' /\ l = l' /\ w = w') then v else get_word words netuid' l' w'.
Proof.
  unfold get_word, set_word. case_decide as H.
  - destruct H as (-> & -> & ->). by rewrite lookup_insert_eq.
  - rewrite lookup_insert_ne; [done|]. intros [= -> -> ->]. by destruct H.
Qed.

(** The offset of a tick and its layers. *)
Lemma in_bounds_range t : in_bounds t <-> out_of_range t = false.
Proof. unfold in_bounds, out_of_range. rewrite orb_false_iff, !Z.ltb_ge. tauto. Qed.

Lemma bitmap_from t : in_bounds t ->
  let i := t + TickIndex_OFFSET in
  0 <= i < 128 * 128 * 128
  /\ TickIndexBitmap_from t
     = {| layer0 := {| layer_word := 0; layer_bit := i / 128 / 128 |};
          layer1 := {| layer_word := i / 128 / 128; layer_bit := (i / 128) mod 128 |};
          layer2 := {| layer_word := i / 128; layer_bit := i mod 128 |} |}.
Proof.
  intros Ht i. assert (Hi : 443636 <= i <= 1330908) by (unfold i, in_bounds in *; tick_consts; lia).
  split; [lia|]. unfold TickIndexBitmap_from.
  replace (i32_saturate (t + TickIndex_OFFSET) mod 2 ^ 32) with i.
  2:{ fold i. unfold i32_saturate, i32_min, i32_max. rewrite Z.mod_small; lia. }
  unfold index_to_layer. simpl. f_equal. f_equal.
  - rewrite !Z.div_div by lia. apply Z.div_small. lia.
  - apply Z.mod_small. split; [apply Z.div_pos; [apply Z.div_pos|]; lia|].
    rewrite Z.div_div by lia. apply Z.div_lt_upper_bound; lia.
Qed.

Lemma div_mod_inj i j : (j / 128 = i / 128 /\ j mod 128 = i mod 128) <-> j = i.
Proof.
  split; [|by intros ->]. intros [H1 H2].
  rewrite (Z.div_mod j 128), (Z.div_mod i 128) by lia. by rewrite H1, H2.
Qed.

Lemma layer_bit_range t l : in_bounds t -> 0 <= layer_bit (layer_at (TickIndexBitmap_from t) l) < 128.
Proof.
  intros Ht. destruct (bitmap_from t Ht) as [Hi ->].
  destruct l; simpl; try (apply Z.mod_pos_bound; lia).
  rewrite Z.div_div by lia.
  split; [apply Z.div_pos; lia|apply Z.div_lt_upper_bound; lia].
Qed.

(** Reading a word after some words have been written. *)
Ltac word_cases :=
  rewrite ?get_set; repeat case_decide; try done;
  repeat match goal with H : _ /\ _ |- _ => destruct H end; subst; try done;
  try (exfalso; tauto); try congruence.

(** *** Insertion *)

Lemma insert_word netuid t words netuid' l w : in_bounds t ->
  get_word (ticks_insert netuid t words) netuid' l w
  = if decide (netuid = netuid' /\ word_at (TickIndexBitmap_from t) l = w)
    then Z.lor (get_word words netuid l w) (bit_mask (TickIndexBitmap_from t) l)
    else get_word words netuid' l w.
Proof.
  intros Ht. unfold ticks_insert. rewrite (proj1 (in_bounds_range t) Ht).
  destruct l; word_cases.
Qed.

Lemma insert_bit netuid t words l w c : in_bounds t -> 0 <= c ->
  Z.testbit (get_word (ticks_insert netuid t words) netuid l w) c = true
  <-> Z.testbit (get_word words netuid l w) c = true
      \/ w = word_at (TickIndexBitmap_from t) l /\ c = bit_at (TickIndexBitmap_from t) l.
Proof.
  intros Ht Hc. pose proof (layer_bit_range t l Ht) as Hb. rewrite insert_word by done.
  case_decide as Hd.
  - destruct Hd as [_ <-]. unfold bit_mask. rewrite testbit_set, orb_true_iff, Z.eqb_eq by lia.
    unfold bit_at. tauto.
  - split; [tauto|]. intros [?|[-> _]]; [done|]. by destruct Hd.
Qed.

Lemma insert_range netuid t words l w : in_bounds t ->
  (forall l w, 0 <= get_word words netuid l w < 2 ^ 128) ->
  0 <= get_word (ticks_insert netuid t words) netuid l w < 2 ^ 128.
Proof.
  intros Ht Hw. rewrite insert_word by done. case_decide; [|done].
  apply set_range; [done|]. by apply layer_bit_range.
Qed.

(** A word is not zero after the insertion if it was not or has got a bit. *)
Lemma insert_nonzero netuid t words l w : in_bounds t ->
  (forall l w, 0 <= get_word words netuid l w < 2 ^ 128) ->
  get_word (ticks_insert netuid t words) netuid l w <> 0
  <-> get_word words netuid l w <> 0 \/ w = word_at (TickIndexBitmap_from t) l.
Proof.
  intros Ht Hw. rewrite !word_nonzero by (auto using insert_range). split.
  - intros (c & Hc & Hb%insert_bit); [|done|lia]. destruct Hb as [Hb|[-> _]]; [|by right].
    left. by exists c.
  - intros [(c & Hc & Hb)| ->].
    + exists c. split; [done|]. apply insert_bit; [done|lia|by left].
    + exists (bit_at (TickIndexBitmap_from t) l). pose proof (layer_bit_range t l Ht) as Hr.
      split; [done|]. apply insert_bit; [done|unfold bit_at; lia|by right].
Qed.

Lemma insert_represents netuid t words active : in_bounds t -> represents words netuid active ->
  represents (ticks_insert netuid t words) netuid ({[t]} ∪ active).
Proof.
  intros Ht [Hw Hb Hm Htop Hin]. destruct (bitmap_from t Ht) as [Hi Hbm].
  assert (Hmod : forall x, 0 <= x mod 128) by (intros; apply Z.mod_pos_bound; lia).
  split.
  - intros l w. by apply insert_range.
  - intros i H0. rewrite insert_bit, Hb, elem_of_union, elem_of_singleton, Hbm by auto. simpl.
    unfold word_at, bit_at. simpl. rewrite div_mod_inj. split; intros [H|H]; auto; [left|right]; lia.
  - intros w H0. rewrite insert_bit, insert_nonzero, Hm, Hbm by auto. unfold word_at, bit_at. simpl.
    by rewrite div_mod_inj.
  - intros w H0. rewrite insert_bit, insert_nonzero, Htop, Hbm by (auto; lia).
    unfold word_at, bit_at. simpl. tauto.
  - intros t' [->%elem_of_singleton|H]%elem_of_union; auto.
Qed.

(** *** Removal *)

Lemma remove_word_bottom netuid t words netuid' w : in_bounds t ->
  get_word (ticks_remove netuid t words) netuid' LayerLevel_Bottom w
  = if decide (netuid = netuid' /\ word_at (TickIndexBitmap_from t) LayerLevel_Bottom = w)
    then Z.land (get_word words netuid LayerLevel_Bottom w)
           (u128_not (bit_mask (TickIndexBitmap_from t) LayerLevel_Bottom))
    else get_word words netuid' LayerLevel_Bottom w.
Proof.
  intros Ht. unfold ticks_remove. rewrite (proj1 (in_bounds_range t) Ht).
  set (b := Z.land (get_word words netuid LayerLevel_Bottom _) _).
  destruct (b =? 0); case_match; unfold b; word_cases.
Qed.

Lemma remove_word_middle netuid t words netuid' w : in_bounds t ->
  let bm := TickIndexBitmap_from t in
  get_word (ticks_remove netuid t words) netuid' LayerLevel_Middle w
  = if decide ((netuid = netuid' /\ word_at bm LayerLevel_Middle = w)
               /\ get_word (ticks_remove netuid t words) netuid LayerLevel_Bottom
                    (word_at bm LayerLevel_Bottom) = 0)
    then Z.land (get_word words netuid LayerLevel_Middle w) (u128_not (bit_mask bm LayerLevel_Middle))
    else get_word words netuid' LayerLevel_Middle w.
Proof.
  intros Ht bm. set (b := get_word (ticks_remove _ _ _) netuid LayerLevel_Bottom _).
  assert (Hb : b = Z.land (get_word words netuid LayerLevel_Bottom (word_at bm LayerLevel_Bottom))
                     (u128_not (bit_mask bm LayerLevel_Bottom)))
    by (unfold b; rewrite remove_word_bottom by done; by rewrite decide_True).
  unfold ticks_remove. rewrite (proj1 (in_bounds_range t) Ht). fold bm. rewrite <- Hb.
  destruct (Z.eqb_spec b 0) as [E|E]; case_match; word_cases.
Qed.

Lemma remove_word_top netuid t words netuid' w : in_bounds t ->
  let bm := TickIndexBitmap_from t in
  get_word (ticks_remove netuid t words) netuid' LayerLevel_Top w
  = if decide ((netuid = netuid' /\ word_at bm LayerLevel_Top = w)
               /\ get_word (ticks_remove netuid t words) netuid LayerLevel_Middle
                    (word_at bm LayerLevel_Middle) = 0)
    then Z.land (get_word words netuid LayerLevel_Top w) (u128_not (bit_mask bm LayerLevel_Top))
    else get_word words netuid' LayerLevel_Top w.
Proof.
  intros Ht bm. unfold ticks_remove. rewrite (proj1 (in_bounds_range t) Ht). fold bm.
  set (b := Z.land (get_word words netuid LayerLevel_Bottom _) _).
  destruct (b =? 0); case_match; boolprop; word_cases.
Qed.

(** Each layer clears its bit when the word below it has become zero; the bottom layer
    always. *)
Definition clears (words' : BitmapWords) (netuid t : Z) (l : LayerLevel) : Prop :=
  match l with
  | LayerLevel_Bottom => True
  | LayerLevel_Middle =>
      get_word words' netuid LayerLevel_Bottom
        (word_at (TickIndexBitmap_from t) LayerLevel_Bottom) = 0
  | LayerLevel_Top =>
      get_word words' netuid LayerLevel_Middle
        (word_at (TickIndexBitmap_from t) LayerLevel_Middle) = 0
  end.

Lemma remove_word netuid t words l w : in_bounds t ->
  let words' := ticks_remove netuid t words in
  (word_at (TickIndexBitmap_from t) l = w /\ clears words' netuid t l
   /\ get_word words' netuid l w
      = Z.land (get_word words netuid l w) (u128_not (bit_mask (TickIndexBitmap_from t) l)))
  \/ (~ (word_at (TickIndexBitmap_from t) l = w /\ clears words' netuid t l)
      /\ get_word words' netuid l w = get_word words netuid l w).
Proof.
  intros Ht words'. destruct l; unfold words', clears;
    [rewrite (remove_word_top _ _ _ _ _ Ht)|rewrite (remove_word_middle _ _ _ _ _ Ht)
     |rewrite (remove_word_bottom _ _ _ _ _ Ht)];
    case_decide; tauto.
Qed.

Lemma remove_bit netuid t words l w c : in_bounds t -> 0 <= c < 128 ->
  let words' := ticks_remove netuid t words in
  Z.testbit (get_word words' netuid l w) c = true
  <-> Z.testbit (get_word words netuid l w) c = true
      /\ ~ ((w = word_at (TickIndexBitmap_from t) l /\ c = bit_at (TickIndexBitmap_from t) l)
            /\ clears words' netuid t l).
Proof.
  intros Ht Hc words'. pose proof (layer_bit_range t l Ht) as Hb.
  destruct (remove_word netuid t words l w Ht) as [(<- & Hcl & E)|[Hn E]]; unfold words';
    rewrite E.
  - unfold bit_mask. rewrite testbit_clear, andb_true_iff, negb_true_iff, Z.eqb_neq by lia.
    unfold bit_at. tauto.
  - split; [|tauto]. intros H. split; [done|]. intros [[-> _] ?]. tauto.
Qed.

Lemma remove_range netuid t words l w : in_bounds t ->
  (forall l w, 0 <= get_word words netuid l w < 2 ^ 128) ->
  0 <= get_word (ticks_remove netuid t words) netuid l w < 2 ^ 128.
Proof.
  intros Ht Hw. destruct (remove_word netuid t words l w Ht) as [(_ & _ & ->)|[_ ->]]; [|done].
  by apply clear_range.
Qed.

(** Another word than that of the tick does not change. *)
Lemma remove_word_ne netuid t words l w : in_bounds t ->
  w <> word_at (TickIndexBitmap_from t) l ->
  get_word (ticks_remove netuid t words) netuid l w = get_word words netuid l w.
Proof.
  intros Ht Hw. destruct (remove_word netuid t words l w Ht) as [(<- & _)|[_ ?]]; done.
Qed.

Lemma remove_represents netuid t words active : in_bounds t -> represents words netuid active ->
  represents (ticks_remove netuid t words) netuid (active ∖ {[t]}).
Proof.
  intros Ht [Hw Hb Hm Htop Hin]. pose proof (bitmap_from t Ht) as [Hi Hbm].
  assert (Hmod : forall x, 0 <= x mod 128 < 128) by (intros; apply Z.mod_pos_bound; lia).
  assert (Hsub : forall l w, get_word (ticks_remove netuid t words) netuid l w <> 0 ->
    get_word words netuid l w <> 0).
  { intros l w. rewrite !word_nonzero by (auto using remove_range).
    intros (c & Hc & H). apply remove_bit in H as [H _]; [|done..]. by exists c. }
  split.
  - intros l w. by apply remove_range.
  - intros i H0. rewrite remove_bit, Hb, elem_of_difference, elem_of_singleton, Hbm by auto.
    unfold word_at, bit_at. simpl. rewrite div_mod_inj. intuition lia.
  - intros w H0. rewrite remove_bit, Hm by auto. unfold clears.
    pose proof (Hsub LayerLevel_Bottom w).
    destruct (Z.eq_dec w (word_at (TickIndexBitmap_from t) LayerLevel_Bottom)) as [->|Hne].
    + rewrite Hbm in *. unfold word_at, bit_at in *. simpl in *. tauto.
    + rewrite (remove_word_ne _ _ _ _ _ Ht Hne). split; [tauto|]. intros H1. split; [done|].
      intros [H2 _]. destruct Hne. rewrite Hbm in *. unfold word_at, bit_at in *. simpl in *.
      by apply div_mod_inj.
  - intros w H0. rewrite remove_bit, Htop by auto. unfold clears.
    pose proof (Hsub LayerLevel_Middle w).
    destruct (Z.eq_dec w (word_at (TickIndexBitmap_from t) LayerLevel_Middle)) as [->|Hne].
    + rewrite Hbm in *. unfold word_at, bit_at in *. simpl in *. tauto.
    + rewrite (remove_word_ne _ _ _ _ _ Ht Hne). split; [tauto|]. intros H1. split; [done|].
      intros [[_ H2] _]. destruct Hne. rewrite H2, Hbm. done.
  - intros t' [H _]%elem_of_difference. auto.
Qed.

(** ** The search *)

Lemma fold_left_flat_map {A B C} (f : A -> B -> A) (g : C -> list B) l a :
  fold_left (fun a x => fold_left f (g x) a) l a = fold_left f (flat_map g l) a.
Proof.
  revert a. induction l as [|x l IH]; intros a; simpl; [done|]. by rewrite IH, fold_left_app.
Qed.

(** Of the indexes that the loops see, the closest is kept. *)
Lemma fold_keep_closer lower l m : m ∈ l -> (forall x, x ∈ l -> beyond lower x m) ->
  fold_left (keep_closer lower) l None = Some m.
Proof.
  assert (Hgen : forall l r, (m ∈ l \/ r = m) -> (forall x, x ∈ l -> beyond lower x m) ->
    beyond lower r m -> fold_left (keep_closer lower) l (Some r) = Some m).
  { clear l. intros l. induction l as [|x l IH]; intros r Hm Hall Hr; simpl.
    - destruct Hm as [[]%not_elem_of_nil| ->]. done.
    - pose proof (Hall x (list_elem_of_here _ _)) as Hx. unfold beyond in *.
      assert (Hall' : forall y, y ∈ l -> beyond lower y m) by (intros y Hy; apply Hall; by right).
      destruct lower; [destruct (Z.ltb_spec r x)|destruct (Z.ltb_spec x r)];
        apply IH; try done; (destruct Hm as [[->|Hm]%elem_of_cons|Hm]; [right; lia|by left|right; lia]). }
  intros Hm Hall. destruct l as [|x l]; [by apply not_elem_of_nil in Hm|]. simpl.
  apply Hgen.
  - apply elem_of_cons in Hm as [->|Hm]; auto.
  - intros y Hy. apply Hall. by right.
  - apply Hall. by left.
Qed.

Section Search.
Context (words : BitmapWords) (netuid : Z) (bm : TickIndexBitmap) (lower : bool).

Definition bottom_hits (w2 : Z) : list Z :=
  match find_closest_active_bit_candidates (get_word words netuid LayerLevel_Bottom w2)
          (start_bit w2 (word_at bm LayerLevel_Bottom) (bit_at bm LayerLevel_Bottom)) lower with
  | [] => []
  | bit :: _ => [layer_to_index (mk_BitmapLayer w2 bit)]
  end.

Definition middle_candidates (w1 : Z) : list Z :=
  find_closest_active_bit_candidates (get_word words netuid LayerLevel_Middle w1)
    (start_bit w1 (word_at bm LayerLevel_Middle) (bit_at bm LayerLevel_Middle)) lower.
Definition top_candidates : list Z :=
  find_closest_active_bit_candidates
    (get_word words netuid LayerLevel_Top (word_at bm LayerLevel_Top))
    (bit_at bm LayerLevel_Top) lower.

Definition middle_hits (w1 : Z) : list Z :=
  flat_map (fun c1 => bottom_hits (layer_to_index (mk_BitmapLayer w1 c1))) (middle_candidates w1).
Definition hits : list Z :=
  flat_map (fun c0 => middle_hits (layer_to_index (mk_BitmapLayer 0 c0))) top_candidates.
End Search.

Lemma fold_left_ext {A B} (f g : A -> B -> A) l a : (forall a b, f a b = g a b) ->
  fold_left f l a = fold_left g l a.
Proof. intros H. revert a. induction l as [|x l IH]; intros a; simpl; [done|]. by rewrite H. Qed.

Lemma find_closest_l2_eq words netuid bm lower w1 found c1 :
  find_closest_l2 words netuid bm lower w1 found c1
  = fold_left (keep_closer lower)
      (bottom_hits words netuid bm lower (layer_to_index (mk_BitmapLayer w1 c1))) found.
Proof.
  unfold find_closest_l2, bottom_hits. by destruct (find_closest_active_bit_candidates _ _ _).
Qed.

Lemma find_closest_l1_eq words netuid bm lower found c0 :
  find_closest_l1 words netuid bm lower found c0
  = fold_left (keep_closer lower)
      (middle_hits words netuid bm lower (layer_to_index (mk_BitmapLayer 0 c0))) found.
Proof.
  unfold middle_hits. rewrite <- fold_left_flat_map. apply fold_left_ext.
  intros. apply find_closest_l2_eq.
Qed.

Lemma find_closest_eq words netuid index lower : in_bounds index ->
  find_closest words netuid index lower
  = match fold_left (keep_closer lower) (hits words netuid (TickIndexBitmap_from index) lower) None with
    | None => None
    | Some result =>
        match TickIndex_from_offset_index result with Ok index => Some index | Err _ => None end
    end.
Proof.
  intros Hi. unfold find_closest. rewrite (proj1 (in_bounds_range index) Hi). cbv zeta.
  unfold hits. rewrite <- fold_left_flat_map. unfold top_candidates.
  erewrite fold_left_ext; [reflexivity|]. intros. apply find_closest_l1_eq.
Qed.

Lemma layer_to_index_small w b : 0 <= w < 128 * 128 -> 0 <= b < 128 ->
  layer_to_index (mk_BitmapLayer w b) = w * 128 + b.
Proof.
  intros Hw Hb. unfold layer_to_index, saturating_add, u32_saturate, uint_max. simpl. lia.
Qed.

Lemma start_bit_range w lw lb : 0 <= lb < 128 -> 0 <= start_bit w lw lb < 128.
Proof. unfold start_bit. destruct (w ?= lw); lia. Qed.

Section Closest.
Context (words : BitmapWords) (netuid : Z) (active : gset Z) (Hrep : represents words netuid active).
Context (index : Z) (Hindex : in_bounds index) (lower : bool).
Let bm := TickIndexBitmap_from index.
Let i0 := index + TickIndex_OFFSET.
(** The position of the index in the layers. *)
Let b0 := i0 / 128 / 128.
Let b1 := (i0 / 128) mod 128.
Let b2 := i0 mod 128.

Lemma position : 0 <= b0 < 128 /\ 0 <= b1 < 128 /\ 0 <= b2 < 128
  /\ i0 = (b0 * 128 + b1) * 128 + b2 /\ i0 / 128 = b0 * 128 + b1.
Proof.
  destruct (bitmap_from index Hindex) as [Hi _]. fold i0 in Hi. unfold b0, b1, b2.
  pose proof (Z.div_mod i0 128). pose proof (Z.div_mod (i0 / 128) 128).
  pose proof (Z.mod_pos_bound i0 128). pose proof (Z.mod_pos_bound (i0 / 128) 128). lia.
Qed.

Lemma bm_words : word_at bm LayerLevel_Top = 0 /\ bit_at bm LayerLevel_Top = b0
  /\ word_at bm LayerLevel_Middle = b0 /\ bit_at bm LayerLevel_Middle = b1
  /\ word_at bm LayerLevel_Bottom = b0 * 128 + b1 /\ bit_at bm LayerLevel_Bottom = b2.
Proof.
  destruct position as (_ & _ & _ & _ & <-).
  unfold bm, word_at, bit_at. destruct (bitmap_from index Hindex) as [_ ->]. done.
Qed.

(** A bit in each layer. *)
Lemma bottom_bit w n : 0 <= w -> 0 <= n < 128 ->
  Z.testbit (get_word words netuid LayerLevel_Bottom w) n = true
  <-> w * 128 + n - TickIndex_OFFSET ∈ active.
Proof.
  intros Hw Hn. rewrite <- (rep_bottom _ _ _ Hrep) by lia.
  replace ((w * 128 + n) / 128) with w by (apply (Z.div_unique _ _ _ n); lia).
  replace ((w * 128 + n) mod 128) with n by (apply (Z.mod_unique _ _ w); lia). done.
Qed.

Lemma middle_bit w n : 0 <= w -> 0 <= n < 128 ->
  Z.testbit (get_word words netuid LayerLevel_Middle w) n = true
  <-> get_word words netuid LayerLevel_Bottom (w * 128 + n) <> 0.
Proof.
  intros Hw Hn. rewrite <- (rep_middle _ _ _ Hrep) by lia.
  replace ((w * 128 + n) / 128) with w by (apply (Z.div_unique _ _ _ n); lia).
  replace ((w * 128 + n) mod 128) with n by (apply (Z.mod_unique _ _ w); lia). done.
Qed.

Lemma nonzero_bit l w : get_word words netuid l w <> 0 ->
  exists n, 0 <= n < 128 /\ Z.testbit (get_word words netuid l w) n = true.
Proof. apply word_nonzero, (rep_word _ _ _ Hrep). Qed.

(** The candidates of the layers and what follows from them. *)
Lemma top_sound c : c ∈ top_candidates words netuid bm lower ->
  0 <= c < 128 /\ get_word words netuid LayerLevel_Middle c <> 0 /\ beyond lower c b0.
Proof.
  destruct position as (H0 & _). destruct bm_words as (Hw & Hb & _).
  unfold top_candidates. rewrite Hw, Hb. intros (Hc & Ht & Hbe)%candidates_sound; [|done].
  split_and!; [lia..| |done]. by apply (rep_top _ _ _ Hrep).
Qed.

Lemma middle_sound w c : 0 <= w < 128 -> c ∈ middle_candidates words netuid bm lower w ->
  0 <= c < 128 /\ get_word words netuid LayerLevel_Bottom (w * 128 + c) <> 0
  /\ beyond lower c (start_bit w b0 b1).
Proof.
  intros Hw0. destruct position as (_ & H1 & _). destruct bm_words as (_ & _ & Hw & Hb & _).
  unfold middle_candidates. rewrite Hw, Hb.
  intros (Hc & Ht & Hbe)%candidates_sound; [|by apply start_bit_range].
  split_and!; [lia..| |done]. apply middle_bit; [lia|done|done].
Qed.

Lemma bottom_sound w x : 0 <= w < 128 * 128 -> x ∈ bottom_hits words netuid bm lower w ->
  exists c, 0 <= c < 128 /\ x = w * 128 + c /\ x - TickIndex_OFFSET ∈ active
            /\ beyond lower c (start_bit w (b0 * 128 + b1) b2).
Proof.
  intros Hw0. destruct position as (_ & _ & H2 & _). destruct bm_words as (_ & _ & _ & _ & Hw & Hb).
  unfold bottom_hits. rewrite Hw, Hb.
  destruct (find_closest_active_bit_candidates _ _ _) as [|c rest] eqn:E;
    [by intros ?%not_elem_of_nil|].
  intros ->%list_elem_of_singleton. destruct (candidates_sound (get_word words netuid LayerLevel_Bottom w)
    (start_bit w (b0 * 128 + b1) b2) lower c) as (Hc & Ht & Hbe);
    [by apply start_bit_range|rewrite E; by left|].
  rewrite layer_to_index_small by done. exists c. split_and!; [lia..|done| |done].
  apply bottom_bit; [lia|done|done].
Qed.

(** Every hit is an active tick on the right side. *)
Lemma hits_sound x : x ∈ hits words netuid bm lower ->
  x - TickIndex_OFFSET ∈ active /\ beyond lower x i0.
Proof.
  destruct position as (H0 & H1 & H2 & Hi & _).
  unfold hits, middle_hits. intros Hx.
  apply list_elem_of_In, in_flat_map in Hx as (c0 & Hc0%list_elem_of_In & Hx).
  apply top_sound in Hc0 as (Hc0 & _ & Hb0). rewrite layer_to_index_small, Z.mul_0_l, Z.add_0_l in Hx by lia.
  apply in_flat_map in Hx as (c1 & Hc1%list_elem_of_In & Hx).
  apply middle_sound in Hc1 as (Hc1 & _ & Hb1); [|lia].
  rewrite layer_to_index_small in Hx by lia.
  apply list_elem_of_In, bottom_sound in Hx as (c2 & Hc2 & -> & Ha & Hb2); [|lia].
  split; [done|]. clear Ha. rewrite Hi. unfold beyond, start_bit in *.
  destruct lower; destruct (Z.compare_spec c0 b0);
    destruct (Z.compare_spec (c0 * 128 + c1) (b0 * 128 + b1)); lia.
Qed.

Lemma bottom_complete w n : 0 <= w < 128 * 128 -> 0 <= n < 128 ->
  Z.testbit (get_word words netuid LayerLevel_Bottom w) n = true ->
  beyond lower n (start_bit w (b0 * 128 + b1) b2) ->
  exists c, 0 <= c < 128 /\ w * 128 + c ∈ bottom_hits words netuid bm lower w /\ beyond lower n c.
Proof.
  intros Hw0 Hn Ht Hbe. destruct position as (_ & _ & H2 & _).
  destruct bm_words as (_ & _ & _ & _ & Hw & Hb). unfold bottom_hits. rewrite Hw, Hb.
  destruct (candidates_head (get_word words netuid LayerLevel_Bottom w)
    (start_bit w (b0 * 128 + b1) b2) lower n) as (c & rest & E & Hc); try done.
  { by apply start_bit_range. }
  destruct (candidates_sound (get_word words netuid LayerLevel_Bottom w)
    (start_bit w (b0 * 128 + b1) b2) lower c) as (Hc0 & _);
    [by apply start_bit_range|rewrite E; by left|].
  rewrite E, layer_to_index_small by done. exists c. split_and!; [lia..|by left|done].
Qed.

Lemma hits_intro c0 c1 x : c0 ∈ top_candidates words netuid bm lower ->
  c1 ∈ middle_candidates words netuid bm lower c0 ->
  x ∈ bottom_hits words netuid bm lower (c0 * 128 + c1) -> x ∈ hits words netuid bm lower.
Proof.
  intros Hc0 Hc1 Hx. pose proof (top_sound _ Hc0) as (H0 & _).
  pose proof (middle_sound _ _ H0 Hc1) as (H1 & _).
  apply list_elem_of_In, in_flat_map. exists c0. split; [by apply list_elem_of_In|].
  rewrite layer_to_index_small, Z.mul_0_l, Z.add_0_l by lia.
  apply in_flat_map. exists c1. split; [by apply list_elem_of_In|].
  rewrite layer_to_index_small by lia. by apply list_elem_of_In.
Qed.

(** In a word beside that of the index the search sees every bit. *)
Lemma edge_beyond w lw lb n : beyond lower w lw -> w <> lw -> 0 <= n < 128 ->
  beyond lower n (start_bit w lw lb).
Proof. unfold beyond, start_bit. destruct lower; destruct (Z.compare_spec w lw); lia. Qed.

(** A word of the bottom layer beside that of the index contributes its closest bit. *)
Lemma beside_complete c0 c1 w n : c0 ∈ top_candidates words netuid bm lower ->
  c1 ∈ middle_candidates words netuid bm lower c0 ->
  beyond lower (c0 * 128 + c1) (b0 * 128 + b1) -> c0 * 128 + c1 <> b0 * 128 + b1 ->
  0 <= n < 128 -> beyond lower w (c0 * 128 + c1) ->
  Z.testbit (get_word words netuid LayerLevel_Bottom w) n = true ->
  exists x, x ∈ hits words netuid bm lower /\ beyond lower (w * 128 + n) x.
Proof.
  intros Hc0 Hc1 Hbe Hne Hn Hw Hbit. pose proof (top_sound _ Hc0) as (H0 & _).
  pose proof (middle_sound _ _ H0 Hc1) as (H1 & Hnz & _).
  assert (exists m, 0 <= m < 128
    /\ Z.testbit (get_word words netuid LayerLevel_Bottom (c0 * 128 + c1)) m = true
    /\ (w = c0 * 128 + c1 -> m = n)) as (m & Hm & Ht & Hmn).
  { destruct (Z.eq_dec w (c0 * 128 + c1)) as [->|E]; [by exists n|].
    destruct (nonzero_bit _ _ Hnz) as (m & ? & ?). by exists m. }
  destruct (bottom_complete (c0 * 128 + c1) m) as (c & Hc & Hx & Hb); [lia|done|done| |].
  { by apply edge_beyond. }
  exists ((c0 * 128 + c1) * 128 + c). split; [by eapply hits_intro|]. unfold beyond in *.
  destruct (Z.eq_dec w (c0 * 128 + c1)) as [E|E]; [rewrite (Hmn E) in *|]; destruct lower; lia.
Qed.

(** Some hit is as close as a tick whose bits are set: it is in the word of the index, in a
    word beside it below the same middle word, or below another middle word. *)
Section Tick.
Context (y0 y1 y2 : Z) (Hy0 : 0 <= y0 < 128) (Hy1 : 0 <= y1 < 128) (Hy2 : 0 <= y2 < 128).
Context (Htop : Z.testbit (get_word words netuid LayerLevel_Top 0) y0 = true).
Context (Hmiddle : Z.testbit (get_word words netuid LayerLevel_Middle y0) y1 = true).
Context (Hbottom : Z.testbit (get_word words netuid LayerLevel_Bottom (y0 * 128 + y1)) y2 = true).
Context (Hside : beyond lower ((y0 * 128 + y1) * 128 + y2) i0).
Let found : Prop :=
  exists x, x ∈ hits words netuid bm lower /\ beyond lower ((y0 * 128 + y1) * 128 + y2) x.

Ltac by_side := unfold beyond in *; destruct lower; lia.

Lemma same_top : y0 = b0 -> b0 ∈ top_candidates words netuid bm lower.
Proof.
  intros E. destruct position as (H0 & _). destruct bm_words as (Ew & Eb & _).
  unfold top_candidates. rewrite Ew, Eb. apply candidates_self; [done|by rewrite <- E].
Qed.

Lemma same_word_found : y0 = b0 -> y1 = b1 -> found.
Proof.
  intros E0 E1. destruct position as (H0 & H1 & H2 & Hi & _).
  destruct bm_words as (_ & _ & Ew & Eb & _).
  assert (Hc1 : b1 ∈ middle_candidates words netuid bm lower b0).
  { unfold middle_candidates. rewrite Ew, Eb. unfold start_bit. rewrite Z.compare_refl.
    apply candidates_self; [done|by rewrite <- E0, <- E1]. }
  destruct (bottom_complete (b0 * 128 + b1) y2) as (c & Hc & Hx & Hcb);
    [lia|lia|by rewrite <- E0, <- E1| |].
  - unfold start_bit. rewrite Z.compare_refl. by_side.
  - exists ((b0 * 128 + b1) * 128 + c). split; [eapply hits_intro; eauto using same_top|by_side].
Qed.

Lemma same_middle_found : y0 = b0 -> y1 <> b1 -> found.
Proof.
  intros E0 E1. destruct position as (H0 & H1 & H2 & Hi & _).
  destruct bm_words as (_ & _ & Ew & Eb & _).
  assert (Hst : start_bit b0 b0 b1 = b1) by (unfold start_bit; by rewrite Z.compare_refl).
  destruct (candidates_strict (get_word words netuid LayerLevel_Middle b0) b1 lower y1)
    as (d & Hd & Hne & Hyd); [lia|lia|done|by_side|by rewrite <- E0|].
  assert (Hc1 : d ∈ middle_candidates words netuid bm lower b0)
    by (unfold middle_candidates; by rewrite Ew, Eb, Hst).
  pose proof (middle_sound b0 d H0 Hc1) as (Hd0 & _ & Hdb). rewrite Hst in Hdb.
  apply (beside_complete b0 d); eauto using same_top; [by_side|lia|by_side].
Qed.

Lemma other_middle_found : y0 <> b0 -> found.
Proof.
  intros E0. destruct position as (H0 & H1 & H2 & Hi & _).
  destruct bm_words as (Ew0 & Eb0 & Ew1 & Eb1 & _).
  destruct (candidates_strict (get_word words netuid LayerLevel_Top 0) b0 lower y0)
    as (d0 & Hd0 & Hne & Hyd); [lia|lia|done|by_side|done|].
  assert (Hc0 : d0 ∈ top_candidates words netuid bm lower)
    by (unfold top_candidates; by rewrite Ew0, Eb0).
  pose proof (top_sound d0 Hc0) as (Hr0 & Hnz & Hb0).
  assert (exists m, 0 <= m < 128
    /\ Z.testbit (get_word words netuid LayerLevel_Middle d0) m = true
    /\ (y0 = d0 -> m = y1)) as (m & Hmr & Hmt & Hmy).
  { destruct (Z.eq_dec y0 d0) as [<-|En]; [by exists y1|].
    destruct (nonzero_bit _ _ Hnz) as (m & ? & ?). by exists m. }
  destruct (candidates_head (get_word words netuid LayerLevel_Middle d0) (start_bit d0 b0 b1) lower m)
    as (d1 & rest & E & Hd1); [by apply start_bit_range|done|by apply edge_beyond|done|].
  assert (Hc1 : d1 ∈ middle_candidates words netuid bm lower d0)
    by (unfold middle_candidates; rewrite Ew1, Eb1, E; by left).
  pose proof (middle_sound d0 d1 Hr0 Hc1) as (Hr1 & _).
  apply (beside_complete d0 d1); try done; [by_side|lia|].
  destruct (Z.eq_dec y0 d0) as [Ed|Ed]; [rewrite (Hmy Ed) in *|]; by_side.
Qed.

End Tick.

(** Some hit is as close as any active tick. *)
Lemma hits_complete t : t ∈ active -> beyond lower t index ->
  exists x, x ∈ hits words netuid bm lower /\ beyond lower (t + TickIndex_OFFSET) x.
Proof.
  intros Ht Hbe. destruct (bitmap_from t (rep_bounds _ _ _ Hrep t Ht)) as [Hy _].
  pose proof (Z.div_mod (t + TickIndex_OFFSET) 128 ltac:(lia)) as Hdiv.
  pose proof (Z.mod_pos_bound (t + TickIndex_OFFSET) 128 ltac:(lia)) as Hy2.
  set (w := (t + TickIndex_OFFSET) / 128) in *. set (y2 := (t + TickIndex_OFFSET) mod 128) in *.
  pose proof (Z.div_mod w 128 ltac:(lia)) as Hw. pose proof (Z.mod_pos_bound w 128 ltac:(lia)) as Hy1.
  set (y0 := w / 128) in *. set (y1 := w mod 128) in *.
  assert (Ey : t + TickIndex_OFFSET = (y0 * 128 + y1) * 128 + y2) by lia.
  assert (Hside : beyond lower ((y0 * 128 + y1) * 128 + y2) i0)
    by (rewrite <- Ey; unfold beyond, i0 in *; destruct lower; lia).
  assert (Hb : Z.testbit (get_word words netuid LayerLevel_Bottom (y0 * 128 + y1)) y2 = true).
  { apply bottom_bit; [lia|lia|]. rewrite <- Ey. by replace (_ - _) with t by lia. }
  assert (Hm : Z.testbit (get_word words netuid LayerLevel_Middle y0) y1 = true).
  { apply middle_bit; [lia|lia|]. apply word_nonzero; [apply (rep_word _ _ _ Hrep)|]. by exists y2. }
  assert (Htop : Z.testbit (get_word words netuid LayerLevel_Top 0) y0 = true).
  { apply (rep_top _ _ _ Hrep); [lia|]. apply word_nonzero; [apply (rep_word _ _ _ Hrep)|].
    by exists y1. }
  assert (Hy0 : 0 <= y0 < 128) by lia. rewrite Ey.
  destruct (Z.eq_dec y0 b0); [destruct (Z.eq_dec y1 b1)|].
  - by apply same_word_found.
  - by apply same_middle_found.
  - by apply other_middle_found.
Qed.

End Closest.

(** ** The bitmap as a set of ticks *)

(** [r] is the element of [active] closest to [index] on the side of the search. *)
Definition closest_in (active : gset Z) (index : Z) (lower : bool) (r : option Z) : Prop :=
  match r with
  | Some t => t ∈ active /\ beyond lower t index
              /\ forall t', t' ∈ active -> beyond lower t' index -> beyond lower t' t
  | None => forall t', t' ∈ active -> ~ beyond lower t' index
  end.

Lemma closest_exists lower (l : list Z) : l <> [] ->
  exists m, m ∈ l /\ forall x, x ∈ l -> beyond lower x m.
Proof.
  induction l as [|x l IH]; [done|]. intros _. destruct (decide (l = [])) as [->|Hl].
  { exists x. split; [by left|]. intros y ->%list_elem_of_singleton. apply beyond_refl. }
  destruct (IH Hl) as (m & Hm & Hall). unfold beyond in *.
  exists (if lower then Z.max x m else Z.min x m). split.
  - rewrite elem_of_cons. destruct lower; [destruct (Z.max_spec x m) as [[_ ->]|[_ ->]]
      |destruct (Z.min_spec x m) as [[_ ->]|[_ ->]]]; auto.
  - intros y [->|Hy]%elem_of_cons; [|specialize (Hall y Hy)]; destruct lower; lia.
Qed.

Lemma from_offset_index x : in_bounds (x - TickIndex_OFFSET) ->
  TickIndex_from_offset_index x = Ok (x - TickIndex_OFFSET).
Proof.
  intros Hx. unfold TickIndex_from_offset_index, TickIndex_new, i32_wrap, in_bounds in *.
  tick_consts. rewrite Z.mod_small by lia.
  replace (x - 887272 + 2 ^ 31 - 2 ^ 31) with (x - 887272) by lia.
  by rewrite (proj2 (Z.leb_le _ _)), (proj2 (Z.leb_le _ _)) by lia.
Qed.

Lemma find_closest_spec words netuid active index lower :
  represents words netuid active -> in_bounds index ->
  closest_in active index lower (find_closest words netuid index lower).
Proof.
  intros Hrep Hi. rewrite find_closest_eq by done.
  set (l := hits words netuid (TickIndexBitmap_from index) lower).
  destruct (decide (l = [])) as [El|El].
  { rewrite El. simpl. intros t Ht Hb.
    destruct (hits_complete words netuid active Hrep index Hi lower t Ht Hb) as (x & Hx & _).
    fold l in Hx. rewrite El in Hx. by apply not_elem_of_nil in Hx. }
  destruct (closest_exists lower l El) as (m & Hm & Hall). rewrite (fold_keep_closer lower l m) by done.
  destruct (hits_sound words netuid active Hrep index Hi lower m Hm) as [Ha Hb].
  rewrite from_offset_index by (by apply (rep_bounds _ _ _ Hrep)). simpl. split_and!; [done| |].
  - unfold beyond in *. destruct lower; lia.
  - intros t Ht Htb.
    destruct (hits_complete words netuid active Hrep index Hi lower t Ht Htb) as (x & Hx & Hx1).
    specialize (Hall x Hx). unfold beyond in *. destruct lower; lia.
Qed.

(** Operations on the bitmap and on sets of ticks, one for each subnet. *)
Inductive TickOp : Type :=
| TickOp_insert (netuid index : Z)
| TickOp_remove (netuid index : Z).

Definition run_tick_op (words : BitmapWords) (op : TickOp) : BitmapWords :=
  match op with
  | TickOp_insert netuid index => ticks_insert netuid index words
  | TickOp_remove netuid index => ticks_remove netuid index words
  end.

Definition set_tick_op (active : gmap Z (gset Z)) (op : TickOp) : gmap Z (gset Z) :=
  match op with
  | TickOp_insert netuid index =>
      if out_of_range index then active
      else <[netuid := {[index]} ∪ default ∅ (active !! netuid)]> active
  | TickOp_remove netuid index =>
      if out_of_range index then active
      else <[netuid := default ∅ (active !! netuid) ∖ {[index]}]> active
  end.

Lemma empty_represents netuid : represents ∅ netuid ∅.
Proof.
  assert (E : forall l w, get_word ∅ netuid l w = 0) by done.
  split; intros; rewrite ?E, ?Z.bits_0; try lia; try done; set_solver.
Qed.

(** The words of other subnets do not change. *)
Lemma run_tick_op_other op words netuid :
  match op with TickOp_insert n _ | TickOp_remove n _ => n <> netuid end ->
  forall l w, get_word (run_tick_op words op) netuid l w = get_word words netuid l w.
Proof.
  destruct op as [n t|n t]; simpl; intros Hn l w;
    (destruct (out_of_range t) eqn:E; [unfold ticks_insert, ticks_remove; by rewrite E|]);
    apply in_bounds_range in E.
  - rewrite insert_word by done. by rewrite decide_False by tauto.
  - destruct l; rewrite ?remove_word_top, ?remove_word_middle, ?remove_word_bottom by done;
      by rewrite decide_False by tauto.
Qed.

Lemma represents_ext words words' netuid active :
  (forall l w, get_word words' netuid l w = get_word words netuid l w) ->
  represents words netuid active -> represents words' netuid active.
Proof. intros E [H1 H2 H3 H4 H5]. split; intros; rewrite ?E; auto. Qed.

Lemma tick_op_represents op words sets :
  (forall netuid, represents words netuid (default ∅ (sets !! netuid))) ->
  forall netuid, represents (run_tick_op words op) netuid (default ∅ (set_tick_op sets op !! netuid)).
Proof.
  intros H netuid. destruct op as [n t|n t];
    (destruct (decide (n = netuid)) as [->|Hn];
     [|eapply represents_ext; [by apply run_tick_op_other|]]); simpl;
    (destruct (out_of_range t) eqn:E;
     [try (unfold ticks_insert, ticks_remove; rewrite E); apply H|]).
  - rewrite lookup_insert_eq. simpl. apply insert_represents; [by apply in_bounds_range|apply H].
  - rewrite lookup_insert_ne by done. apply H.
  - rewrite lookup_insert_eq. simpl. apply remove_represents; [by apply in_bounds_range|apply H].
  - rewrite lookup_insert_ne by done. apply H.
Qed.

Lemma tick_ops_represent ops netuid :
  represents (fold_left run_tick_op ops ∅) netuid
    (default ∅ (fold_left set_tick_op ops ∅ !! netuid)).
Proof.
  assert (Hgen : forall ops words sets,
    (forall netuid, represents words netuid (default ∅ (sets !! netuid))) ->
    forall netuid, represents (fold_left run_tick_op ops words) netuid
      (default ∅ (fold_left set_tick_op ops sets !! netuid))).
  { clear. intros ops. induction ops as [|op ops IH]; intros words sets H netuid; simpl; [done|].
    apply IH. by apply tick_op_represents. }
  apply Hgen. intros n. rewrite lookup_empty. apply empty_represents.
Qed.

(** C27 The bitmap of three layers implements a set of ticks for each subnet: after any
    sequence of insertions and removals, of whatever subnets, the search from any tick finds
    the closest active tick at or below it, or at or above it, and fails exactly if there is
    none.  A search from outside the bounds finds nothing. *)
Theorem tick_bitmap_refines_set ops netuid index lower :
  let active := default ∅ (fold_left set_tick_op ops ∅ !! netuid) in
  let found := find_closest (fold_left run_tick_op ops ∅) netuid index lower in
  if out_of_range index then found = None else closest_in active index lower found.
Proof.
  intros active found. destruct (out_of_range index) eqn:E.
  - unfold found, find_closest. by rewrite E.
  - apply find_closest_spec; [apply tick_ops_represent|by apply in_bounds_range].
Qed.

(** [tick_is_active] is membership, but for the highest tick of a subnet without any. *)
Theorem tick_is_active_iff words netuid active t :
  represents words netuid active -> in_bounds t ->
  tick_is_active words netuid t = true <-> t ∈ active \/ (t = TickIndex_MAX /\ active = ∅).
Proof.
  intros Hrep Ht. unfold tick_is_active, find_closest_lower. rewrite Z.eqb_eq.
  pose proof (find_closest_spec words netuid active t true Hrep Ht) as H. unfold closest_in, beyond in H.
  destruct (find_closest words netuid t true) as [r|]; simpl.
  - destruct H as (Hr & Hle & Hall). split; [intros ->; by left|].
    intros [Ha|[-> ->]]; [|set_solver]. specialize (Hall t Ha ltac:(lia)). lia.
  - split.
    + intros <-. right. split; [done|]. apply elem_of_equiv_empty_L. intros t' Ht'.
      apply (H t' Ht'). destruct (rep_bounds _ _ _ Hrep t' Ht'). done.
    + intros [Ha|[-> _]]; [|done]. destruct (H t Ha). lia.
Qed.

(** ** Arithmetic of tick indexes *)

Definition clamp_tick (z : Z) : Z := Z.max TickIndex_MIN (Z.min z TickIndex_MAX).

Lemma TickIndex_new_Ok v r : TickIndex_new v = Ok r <-> r = v /\ in_bounds v.
Proof.
  unfold TickIndex_new, in_bounds. destruct (Z.leb_spec TickIndex_MIN v), (Z.leb_spec v TickIndex_MAX);
    simpl; naive_solver lia.
Qed.

Lemma TickIndex_new_cases v :
  TickIndex_new v = Ok v /\ in_bounds v
  \/ TickIndex_new v = Err TickMathError_TickOutOfBounds /\ ~ in_bounds v.
Proof.
  unfold TickIndex_new, in_bounds.
  destruct (Z.leb_spec TickIndex_MIN v), (Z.leb_spec v TickIndex_MAX); simpl; intuition lia.
Qed.

Lemma in_bounds_saturate z : in_bounds (i32_saturate z) <-> in_bounds z.
Proof. unfold in_bounds, i32_saturate, i32_min, i32_max. tick_consts. lia. Qed.

Lemma saturate_in_bounds z : in_bounds z -> i32_saturate z = z.
Proof. unfold in_bounds, i32_saturate, i32_min, i32_max. tick_consts. lia. Qed.

Lemma new_saturate_Ok z r : TickIndex_new (i32_saturate z) = Ok r <-> r = z /\ in_bounds r.
Proof.
  rewrite TickIndex_new_Ok, in_bounds_saturate. split; intros [-> Hz].
  - by rewrite in_bounds_saturate, saturate_in_bounds.
  - by rewrite saturate_in_bounds.
Qed.

Lemma clamp_in_bounds z : in_bounds z -> clamp_tick z = z.
Proof. unfold clamp_tick, in_bounds. lia. Qed.

Lemma checked_mul_Ok self value r :
  TickIndex_checked_mul self value = Ok r <-> r = self * value /\ in_bounds r.
Proof.
  unfold TickIndex_checked_mul, i32_checked_mul.
  destruct (_ && _) eqn:E.
  - rewrite TickIndex_new_Ok. naive_solver.
  - split; [done|]. intros [-> Hr]. unfold in_bounds, i32_min, i32_max in *. tick_consts.
    apply andb_false_iff in E as [E|E]; apply Z.leb_gt in E; lia.
Qed.

(** A checked operation that fails means that the exact result is out of bounds. *)
Lemma checked_or_clamp (c : tick_result) z (up : bool) :
  (forall r, c = Ok r <-> r = z /\ in_bounds r) ->
  (~ in_bounds z -> up = (TickIndex_MAX <? z)) ->
  match c with Ok r => r | Err _ => if up then TickIndex_MAX else TickIndex_MIN end = clamp_tick z.
Proof.
  intros Hc Hup. destruct c as [r|e].
  - destruct (proj1 (Hc r) eq_refl) as [-> Hz]. by rewrite clamp_in_bounds.
  - assert (Hz : ~ in_bounds z) by (intros Hz; by discriminate (proj2 (Hc z) (conj eq_refl Hz))).
    rewrite Hup by done. unfold clamp_tick, in_bounds in *. tick_consts.
    destruct (Z.ltb_spec 443636 z); lia.
Qed.

Lemma match_if_negb {E A} (c : result E A) (b : bool) (x y : A) :
  match c with Ok r => r | Err _ => if b then x else y end
  = match c with Ok r => r | Err _ => if negb b then y else x end.
Proof. by destruct c, b. Qed.

Lemma opposite_signs_product self value : ~ in_bounds (self * value) ->
  negb (opposite_signs self value) = (TickIndex_MAX <? self * value).
Proof.
  unfold in_bounds, opposite_signs. tick_consts. intros H.
  destruct (Z.ltb_spec self 0), (Z.ltb_spec 0 value), (Z.ltb_spec 0 self), (Z.ltb_spec value 0),
    (Z.ltb_spec 443636 (self * value)); simpl; try done; nia.
Qed.

Lemma quot_in_bounds self value : in_bounds self -> value <> 0 -> in_bounds (Z.quot self value).
Proof.
  intros Hs Hv. unfold in_bounds in *. tick_consts.
  pose proof (Z.quot_abs self value Hv).
  assert (Z.abs self ÷ Z.abs value <= Z.abs self).
  { apply Z.quot_le_upper_bound; [lia|]. nia. }
  lia.
Qed.

(** The bounded arithmetic of tick indexes never leaves the bounds: a checked operation
    succeeds exactly if the exact result is in bounds and then returns it, and a saturating
    one returns the exact result clamped to the bounds; division truncates, and the
    saturating division by zero gives the highest tick. *)
Theorem tick_arithmetic_exact self value
    (Hself : in_bounds self) (Hvalue : i32_min <= value <= i32_max) :
  (forall r, TickIndex_checked_add self value = Ok r <-> r = self + value /\ in_bounds r)
  /\ (forall r, TickIndex_checked_sub self value = Ok r <-> r = self - value /\ in_bounds r)
  /\ (forall r, TickIndex_checked_mul self value = Ok r <-> r = self * value /\ in_bounds r)
  /\ TickIndex_saturating_add self value = clamp_tick (self + value)
  /\ TickIndex_saturating_sub self value = clamp_tick (self - value)
  /\ TickIndex_saturating_mul self value = clamp_tick (self * value)
  /\ TickIndex_saturating_div self value
     = (if value =? 0 then TickIndex_MAX else Z.quot self value).
Proof.
  split_and!; [intros; apply new_saturate_Ok|intros; apply new_saturate_Ok
    |intros; apply checked_mul_Ok| | | |].
  - apply checked_or_clamp; [intros; apply new_saturate_Ok|]. unfold in_bounds in *. tick_consts. lia.
  - unfold TickIndex_saturating_sub. rewrite match_if_negb.
    apply checked_or_clamp; [intros; apply new_saturate_Ok|]. unfold in_bounds in *. tick_consts. lia.
  - unfold TickIndex_saturating_mul. rewrite match_if_negb.
    apply checked_or_clamp; [intros; apply checked_mul_Ok|apply opposite_signs_product].
  - unfold TickIndex_saturating_div, TickIndex_checked_div. destruct (Z.eqb_spec value 0); [done|].
    pose proof (quot_in_bounds self value Hself n) as Hq.
    by rewrite (proj2 (new_saturate_Ok (Z.quot self value) _) (conj eq_refl Hq)).
Qed.
