(* ===== verification/PowerBounds.v ===== *)
(** * Bounds on powers and on base-2 logarithms

    An inequality [D * log2 y <= e] between integers says [y ^ D <= 2 ^ e].  With [D = 2^64]
    the exponents are logarithms with 64 fractional bits, and bounds on products, quotients
    and roots become additions of integers.  The power itself is never computed: a bound on
    a constant is certified by repeated squaring of a 144-bit mantissa, rounded in the
    direction of the bound. *)

From S2P Require Import Prelude.
From stdpp Require Import base tactics decidable numbers.
From Stdlib Require Import ZArith Lia.
Open Scope Z_scope.

(** ** Powers of successors *)

Lemma pow_succ_bernoulli (m : Z) (n : nat) :
  0 <= m -> (m + 1) ^ Z.of_nat n * (m - Z.of_nat n) <= m ^ Z.of_nat n * m.
Proof.
  intros Hm. induction n as [|n IH]; [change (Z.of_nat 0) with 0; rewrite !Z.pow_0_r; lia|].
  rewrite Nat2Z.inj_succ, !Z.pow_succ_r by lia.
  pose proof (Z.pow_nonneg (m + 1) (Z.of_nat n) ltac:(lia)).
  pose proof (Z.pow_nonneg m (Z.of_nat n) ltac:(lia)).
  remember ((m + 1) ^ Z.of_nat n) as p; remember (m ^ Z.of_nat n) as q.
  remember (Z.of_nat n) as k.
  assert (0 <= k) by lia. nia.
Qed.

(** A power grows at most twofold when the base, at least twice the exponent, is
    incremented. *)
Lemma pow_succ_double (m a : Z) : 0 <= a -> 2 * a <= m -> 0 < m -> (m + 1) ^ a <= 2 * m ^ a.
Proof.
  intros Ha Hm Hpos.
  pose proof (pow_succ_bernoulli m (Z.to_nat a) ltac:(lia)) as H. rewrite Z2Nat.id in H by lia.
  pose proof (Z.pow_nonneg (m + 1) a ltac:(lia)). pose proof (Z.pow_nonneg m a ltac:(lia)).
  nia.
Qed.

Lemma pow_succ_split (m a b : Z) :
  0 <= a -> 0 <= b -> 2 * a <= m -> 0 < m -> (m + 1) ^ (a * b) <= 2 ^ b * m ^ (a * b).
Proof.
  intros Ha Hb Hm Hpos. rewrite !Z.pow_mul_r, <- Z.pow_mul_l by lia.
  apply Z.pow_le_mono_l. split; [apply Z.pow_nonneg; lia|by apply pow_succ_double].
Qed.

(** ** Logarithms with 64 fractional bits *)

Lemma log_unit_sealed : {d : Z | d = 2 ^ 64}.
Proof. by exists (2 ^ 64). Qed.
Definition log_unit : Z := proj1_sig log_unit_sealed.
Lemma log_unit_eq : log_unit = 2 ^ 64.
Proof. exact (proj2_sig log_unit_sealed). Qed.
Lemma log_unit_pos : 0 < log_unit.
Proof. rewrite log_unit_eq. lia. Qed.

Definition log_le (y e : Z) : Prop := y ^ log_unit <= 2 ^ e.
Definition log_ge (y e : Z) : Prop := 2 ^ e <= y ^ log_unit.

Lemma log_le_pow2 (n : Z) : 0 <= n -> log_le (2 ^ n) (n * log_unit).
Proof. intros. unfold log_le. pose proof log_unit_pos. rewrite Z.pow_mul_r; lia. Qed.
Lemma log_ge_pow2 (n : Z) : 0 <= n -> log_ge (2 ^ n) (n * log_unit).
Proof. intros. unfold log_ge. pose proof log_unit_pos. rewrite Z.pow_mul_r; lia. Qed.

Lemma log_le_weaken (y e e' : Z) : log_le y e -> e <= e' -> log_le y e'.
Proof. unfold log_le. intros. etrans; [done|apply Z.pow_le_mono_r; lia]. Qed.
Lemma log_ge_weaken (y e e' : Z) : log_ge y e -> e' <= e -> log_ge y e'.
Proof. unfold log_ge. intros. etrans; [apply Z.pow_le_mono_r; [lia|done]|done]. Qed.

Lemma log_le_mono (x y e : Z) : log_le y e -> 0 <= x <= y -> log_le x e.
Proof. unfold log_le. intros. etrans; [|done]. by apply Z.pow_le_mono_l. Qed.
Lemma log_ge_mono (x y e : Z) : log_ge x e -> 0 <= x <= y -> log_ge y e.
Proof. unfold log_ge. intros. etrans; [done|]. by apply Z.pow_le_mono_l. Qed.

Lemma log_le_mul (x y e f : Z) :
  log_le x e -> log_le y f -> 0 < x -> 0 < y -> log_le (x * y) (e + f).
Proof.
  unfold log_le. intros Hx Hy Px Py. pose proof log_unit_pos.
  pose proof (Z.pow_pos_nonneg x log_unit ltac:(lia) ltac:(lia)).
  pose proof (Z.pow_pos_nonneg y log_unit ltac:(lia) ltac:(lia)).
  assert (0 <= e) by (destruct (decide (0 <= e)); [lia|rewrite (Z.pow_neg_r 2 e) in Hx; lia]).
  assert (0 <= f) by (destruct (decide (0 <= f)); [lia|rewrite (Z.pow_neg_r 2 f) in Hy; lia]).
  rewrite Z.pow_mul_l, Z.pow_add_r by lia. apply Z.mul_le_mono_nonneg; lia.
Qed.
Lemma log_ge_mul (x y e f : Z) :
  log_ge x e -> log_ge y f -> 0 <= e -> 0 <= f -> log_ge (x * y) (e + f).
Proof.
  unfold log_ge. intros Hx Hy He Hf. pose proof log_unit_pos.
  rewrite Z.pow_mul_l, Z.pow_add_r by lia.
  pose proof (Z.pow_pos_nonneg 2 e ltac:(lia) ltac:(lia)).
  pose proof (Z.pow_pos_nonneg 2 f ltac:(lia) ltac:(lia)).
  apply Z.mul_le_mono_nonneg; lia.
Qed.

(** Comparing logarithms compares the numbers. *)
Lemma log_le_ge (x y e f : Z) : log_le x e -> log_ge y f -> e <= f -> 0 <= y -> x <= y.
Proof.
  unfold log_le, log_ge. intros Hx Hy Hef Hy0. pose proof log_unit_pos.
  pose proof (Z.pow_le_mono_r 2 e f ltac:(lia) Hef).
  destruct (decide (x <= y)); [done|].
  pose proof (Z.pow_lt_mono_l y x log_unit ltac:(lia) ltac:(lia)). lia.
Qed.
Lemma log_lt_ge (x y e f : Z) :
  log_le x e -> log_ge y f -> e < f -> 0 <= f -> 0 <= y -> x < y.
Proof.
  unfold log_le, log_ge. intros Hx Hy Hef Hf Hy0. pose proof log_unit_pos.
  pose proof (Z.pow_lt_mono_r 2 e f ltac:(lia) ltac:(lia) Hef).
  destruct (decide (x < y)); [done|].
  pose proof (Z.pow_le_mono_l y x log_unit ltac:(lia)). lia.
Qed.

Lemma log_le_cancel (y n e : Z) :
  log_le (y * 2 ^ n) e -> 0 < y -> 0 <= n -> log_le y (e - n * log_unit).
Proof.
  unfold log_le. intros H Hy Hn. pose proof log_unit_pos.
  rewrite Z.pow_mul_l, <- Z.pow_mul_r in H by lia.
  pose proof (Z.pow_pos_nonneg y log_unit ltac:(lia) ltac:(lia)).
  pose proof (Z.pow_pos_nonneg 2 (n * log_unit) ltac:(lia) ltac:(nia)) as Hp.
  assert (n * log_unit <= e).
  { apply (Z.pow_le_mono_r_iff 2); [lia| |nia].
    destruct (decide (0 <= e)); [lia|rewrite (Z.pow_neg_r 2 e) in H; nia]. }
  replace e with (e - n * log_unit + n * log_unit) in H by lia.
  rewrite Z.pow_add_r in H by nia. by apply Z.mul_le_mono_pos_r in H.
Qed.
Lemma log_ge_cancel (y n e : Z) :
  log_ge (y * 2 ^ n) e -> 0 <= y -> 0 <= n -> log_ge y (e - n * log_unit).
Proof.
  unfold log_ge. intros H Hy Hn. pose proof log_unit_pos.
  pose proof (Z.pow_nonneg y log_unit Hy).
  destruct (decide (0 <= e - n * log_unit)) as [Hd|]; [|rewrite (Z.pow_neg_r 2 (_ - _)); lia].
  rewrite Z.pow_mul_l, <- Z.pow_mul_r in H by lia.
  replace e with (e - n * log_unit + n * log_unit) in H by lia.
  pose proof (Z.pow_pos_nonneg 2 (n * log_unit) ltac:(lia) ltac:(nia)) as Hp.
  rewrite Z.pow_add_r in H by nia. by apply Z.mul_le_mono_pos_r in H.
Qed.

(** One more or less in a large number does not matter. *)
Lemma log_unit_split : log_unit = 2 ^ 51 * 2 ^ 13.
Proof. rewrite log_unit_eq. reflexivity. Qed.

Lemma pow_unit_succ (y : Z) :
  2 ^ 52 <= y -> (y + 1) ^ log_unit <= 2 ^ 2 ^ 13 * y ^ log_unit.
Proof.
  intros Hy. assert (2 * 2 ^ 51 <= y /\ 0 < y) as [H2 Hpos] by lia.
  rewrite log_unit_split. by apply pow_succ_split.
Qed.

Lemma log_le_succ (y e : Z) : log_le y e -> 2 ^ 52 <= y -> 0 <= e -> log_le (y + 1) (e + 2 ^ 13).
Proof.
  unfold log_le. intros H Hy He. pose proof (pow_unit_succ y Hy) as Hs.
  rewrite Z.pow_add_r, Z.mul_comm by done. etrans; [exact Hs|].
  apply Z.mul_le_mono_nonneg_l; [apply Z.pow_nonneg; lia|done].
Qed.
Lemma log_ge_pred (y e : Z) : log_ge (y + 1) e -> 2 ^ 52 <= y -> log_ge y (e - 2 ^ 13).
Proof.
  unfold log_ge. intros H Hy. pose proof (pow_unit_succ y Hy) as Hs.
  destruct (decide (0 <= e - 2 ^ 13)) as [Hd|];
    [|rewrite (Z.pow_neg_r 2 (_ - _)) by (clear Hs; lia); apply Z.pow_nonneg; clear Hs; lia].
  replace e with (2 ^ 13 + (e - 2 ^ 13)) in H by (clear Hs; lia).
  rewrite Z.pow_add_r in H by done.
  apply (Z.mul_le_mono_pos_l _ _ (2 ^ 2 ^ 13)); [by apply Z.pow_pos_nonneg|]. by etrans.
Qed.

(** A bound on a [2^i]-th power is a bound on the logarithm. *)
Lemma log_ge_root (x m a b : Z) :
  log_unit = a * b -> 0 <= a -> 0 <= b -> 0 <= m -> 2 ^ m <= x ^ a -> log_ge x (m * b).
Proof.
  intros E Ha Hb Hm H. unfold log_ge. rewrite E, !Z.pow_mul_r by lia.
  apply Z.pow_le_mono_l. split; [apply Z.pow_nonneg; lia|done].
Qed.

(** With a little room above the power of two, half the exponent at least. *)
Lemma log_le_root (x m a b w : Z) :
  log_unit = a * b -> 0 <= a -> 0 <= b -> 0 <= m -> 2 * b <= w -> 0 < w -> 0 <= x ->
  x ^ a * w <= 2 ^ m * (w + 1) -> log_le x (m * b + 1).
Proof.
  intros E Ha Hb Hm Hw Hw0 Hx H. unfold log_le.
  pose proof (Z.pow_nonneg x a Hx) as Hxa.
  pose proof (pow_succ_double w b Hb Hw Hw0) as Hs.
  assert (Hp : (x ^ a * w) ^ b <= (2 ^ m * (w + 1)) ^ b) by (apply Z.pow_le_mono_l; nia).
  rewrite !Z.pow_mul_l, <- (Z.pow_mul_r x), <- E, <- (Z.pow_mul_r 2) in Hp by lia.
  rewrite Z.pow_add_r, Z.pow_1_r by nia.
  pose proof (Z.pow_pos_nonneg w b Hw0 Hb) as Hwb.
  pose proof (Z.pow_nonneg 2 (m * b) ltac:(lia)) as H2.
  apply (Z.mul_le_mono_pos_r _ _ (w ^ b) Hwb).
  etrans; [exact Hp|]. rewrite <- Z.mul_assoc. by apply Z.mul_le_mono_nonneg_l.
Qed.

(** ** Certificates for constants *)

Definition mantissa_bits : Z := 144.

Definition square_up (y : Z * Z) : Z * Z :=
  let '(m, e) := y in
  let s := Z.max 0 (Z.log2 (m * m) - mantissa_bits) in
  (Z.shiftr (m * m) s + 1, 2 * e + s).
Definition square_down (y : Z * Z) : Z * Z :=
  let '(m, e) := y in
  let s := Z.max 0 (Z.log2 (m * m) - mantissa_bits) in
  (Z.shiftr (m * m) s, 2 * e + s).

Definition certify_le (j : nat) (k e : Z) : bool :=
  let '(m, f) := Nat.iter j square_up (k, 0) in Z.log2_up m + f <=? e.
Definition certify_ge (j : nat) (k e : Z) : bool :=
  let '(m, f) := Nat.iter j square_down (k, 0) in e <=? Z.log2 m + f.

Lemma pow_double_exp (k : Z) (j : nat) : k ^ (2 ^ Z.of_nat (S j)) = k ^ (2 ^ Z.of_nat j) * k ^ (2 ^ Z.of_nat j).
Proof.
  rewrite Nat2Z.inj_succ, Z.pow_succ_r by lia.
  pose proof (Z.pow_nonneg 2 (Z.of_nat j) ltac:(lia)).
  rewrite <- Z.pow_add_r by lia. f_equal. lia.
Qed.

Lemma square_up_bound (k : Z) (j : nat) :
  0 < k -> let '(m, f) := Nat.iter j square_up (k, 0) in
  0 < m /\ 0 <= f /\ k ^ (2 ^ Z.of_nat j) <= m * 2 ^ f.
Proof.
  intros Hk. induction j as [|j IH].
  { cbn. rewrite Z.pow_1_r. lia. }
  rewrite pow_double_exp. cbn [Nat.iter nat_rect].
  change (nat_rect _ _ _ j) with (Nat.iter j square_up (k, 0)).
  destruct (Nat.iter j square_up (k, 0)) as [m f]. destruct IH as (Hm & Hf & IH).
  cbn. set (s := Z.max 0 (Z.log2 (m * m) - mantissa_bits)).
  assert (0 <= s) by lia. rewrite Z.shiftr_div_pow2 by lia.
  pose proof (Z.pow_pos_nonneg 2 s ltac:(lia) ltac:(lia)) as Hs.
  pose proof (Z.div_pos (m * m) (2 ^ s) ltac:(nia) Hs).
  pose proof (Z.mul_succ_div_gt (m * m) (2 ^ s) Hs).
  pose proof (Z.pow_nonneg k (2 ^ Z.of_nat j) ltac:(lia)).
  pose proof (Z.pow_pos_nonneg 2 f ltac:(lia) ltac:(lia)).
  split_and!; [lia..|].
  rewrite Z.pow_add_r, Z.mul_comm with (n := 2), Z.pow_mul_r, Z.pow_2_r by lia.
  transitivity ((m * 2 ^ f) * (m * 2 ^ f)); [apply Z.mul_le_mono_nonneg; lia|nia].
Qed.

Lemma square_down_bound (k : Z) (j : nat) :
  0 < k -> let '(m, f) := Nat.iter j square_down (k, 0) in
  0 < m /\ 0 <= f /\ m * 2 ^ f <= k ^ (2 ^ Z.of_nat j).
Proof.
  intros Hk. induction j as [|j IH].
  { cbn. rewrite Z.pow_1_r. lia. }
  rewrite pow_double_exp. cbn [Nat.iter nat_rect].
  change (nat_rect _ _ _ j) with (Nat.iter j square_down (k, 0)).
  destruct (Nat.iter j square_down (k, 0)) as [m f]. destruct IH as (Hm & Hf & IH).
  cbn. set (s := Z.max 0 (Z.log2 (m * m) - mantissa_bits)).
  assert (0 <= s <= Z.log2 (m * m)) as Hls.
  { pose proof (Z.log2_nonneg (m * m)). unfold mantissa_bits in *. lia. }
  rewrite Z.shiftr_div_pow2 by lia.
  pose proof (Z.pow_pos_nonneg 2 s ltac:(lia) ltac:(lia)) as Hs.
  pose proof (Z.mul_div_le (m * m) (2 ^ s) Hs).
  pose proof (Z.pow_pos_nonneg 2 f ltac:(lia) ltac:(lia)).
  assert (2 ^ s <= m * m).
  { etrans; [apply Z.pow_le_mono_r; [lia|apply Hls]|apply Z.log2_spec; nia]. }
  split_and!; [by apply Z.div_str_pos; split|lia|].
  rewrite Z.pow_add_r, Z.mul_comm with (n := 2), Z.pow_mul_r, Z.pow_2_r by lia.
  transitivity ((m * 2 ^ f) * (m * 2 ^ f)); [nia|apply Z.mul_le_mono_nonneg; nia].
Qed.

Lemma log_unit_iter : log_unit = 2 ^ Z.of_nat 64.
Proof. rewrite log_unit_eq. reflexivity. Qed.

Lemma certify_le_pow (j : nat) (k e : Z) :
  log_unit = 2 ^ Z.of_nat j -> 0 < k -> certify_le j k e = true -> log_le k e.
Proof.
  intros Hj Hk H. pose proof (square_up_bound k j Hk) as Hb. unfold certify_le in H.
  destruct (Nat.iter j square_up (k, 0)) as [m f]. destruct Hb as (Hm & Hf & Hb).
  rewrite <- Hj in Hb.
  apply Z.leb_le in H. unfold log_le. etrans; [exact Hb|].
  transitivity (2 ^ Z.log2_up m * 2 ^ f).
  - apply Z.mul_le_mono_nonneg_r; [apply Z.pow_nonneg; lia|].
    destruct (decide (m = 1)) as [->|]; [done|]. apply Z.log2_up_spec. lia.
  - rewrite <- Z.pow_add_r by (try apply Z.log2_up_nonneg; lia). apply Z.pow_le_mono_r; lia.
Qed.

Lemma certify_ge_pow (j : nat) (k e : Z) :
  log_unit = 2 ^ Z.of_nat j -> 0 < k -> certify_ge j k e = true -> log_ge k e.
Proof.
  intros Hj Hk H. pose proof (square_down_bound k j Hk) as Hb. unfold certify_ge in H.
  destruct (Nat.iter j square_down (k, 0)) as [m f]. destruct Hb as (Hm & Hf & Hb).
  rewrite <- Hj in Hb.
  apply Z.leb_le in H. unfold log_ge. etrans; [|exact Hb].
  transitivity (2 ^ Z.log2 m * 2 ^ f).
  - rewrite <- Z.pow_add_r by (try apply Z.log2_nonneg; lia). apply Z.pow_le_mono_r; lia.
  - apply Z.mul_le_mono_nonneg_r; [apply Z.pow_nonneg; lia|]. by apply Z.log2_spec.
Qed.

Lemma certify_le_sound (k e : Z) : 0 < k -> certify_le 64 k e = true -> log_le k e.
Proof. exact (certify_le_pow 64 k e log_unit_iter). Qed.
Lemma certify_ge_sound (k e : Z) : 0 < k -> certify_ge 64 k e = true -> log_ge k e.
Proof. exact (certify_ge_pow 64 k e log_unit_iter). Qed.
