(* ===== verification/TickPrice.v ===== *)
(** * Ticks and prices of the swap pallet

    [pallets/swap/src/tick.rs]: the square root of the price at a tick, and the tick of a
    square root of a price.  A price at tick [t] is [1.0001 ^ t]; its root is kept with 96
    fractional bits inside the computation ([U256]) and with 64 outside ([U64F64], modelled by
    its 128 bits).  The code works on 256-bit words: a word is an integer in [0, 2^256), and
    each operation is written with its saturation or its wrap-around. *)

From S2P Require Import Prelude Ticks.
From stdpp Require Import base tactics list.
From Stdlib Require Import ZArith Lia.
Open Scope Z_scope.

(** ** 256-bit words *)

Definition U256_MAX : Z := 2 ^ 256 - 1.
Definition u256_wrap (z : Z) : Z := z mod 2 ^ 256.
Definition u256_saturate (z : Z) : Z := Z.min z U256_MAX.

(** [from_limbs] takes the four 64-bit limbs, the least significant one first. *)
Definition U256_from_limbs (l0 l1 l2 l3 : Z) : Z :=
  l0 + l1 * 2 ^ 64 + l2 * 2 ^ 128 + l3 * 2 ^ 192.

(** Signed words are two's complement. *)
Definition i256_wrap (z : Z) : Z := (z + 2 ^ 255) mod 2 ^ 256 - 2 ^ 255.
Definition i256_saturate (z : Z) : Z := Z.max (- 2 ^ 255) (Z.min z (2 ^ 255 - 1)).

Definition MIN_SQRT_RATIO : Z := U256_from_limbs 4295128739 0 0 0.
Definition MAX_SQRT_RATIO : Z :=
  U256_from_limbs 6743328256752651558 17280870778742802505 4294805859 0.
Definition SQRT_10001 : Z := U256_from_limbs 11745905768312294533 13863 0 0.
Definition TICK_LOW : Z := U256_from_limbs 6552757943157144234 184476617836266586 0 0.
Definition TICK_HIGH : Z := U256_from_limbs 4998474450511881007 15793544031827761793 0 0.

(** ** The price at a tick *)

(** The factor of bit 0, and those of bits 1 to 19 with the mask of the bit: the inverses of
    the roots of [1.0001 ^ (2 ^ i)] with 128 fractional bits. *)
Definition sqrt_ratio_factor_0 : Z :=
  U256_from_limbs 12262481743371124737 18445821805675392311 0 0.

Definition sqrt_ratio_factors : list (Z * Z) :=
  [(2, U256_from_limbs 6459403834229662010 18444899583751176498 0 0);
   (4, U256_from_limbs 17226890335427755468 18443055278223354162 0 0);
   (8, U256_from_limbs 2032852871939366096 18439367220385604838 0 0);
   (16, U256_from_limbs 14545316742740207172 18431993317065449817 0 0);
   (32, U256_from_limbs 5129152022828963008 18417254355718160513 0 0);
   (64, U256_from_limbs 4894419605888772193 18387811781193591352 0 0);
   (128, U256_from_limbs 1280255884321894483 18329067761203520168 0 0);
   (256, U256_from_limbs 15924666964335305636 18212142134806087854 0 0);
   (512, U256_from_limbs 8010504389359918676 17980523815641551639 0 0);
   (1024, U256_from_limbs 10668036004952895731 17526086738831147013 0 0);
   (2048, U256_from_limbs 4878133418470705625 16651378430235024244 0 0);
   (4096, U256_from_limbs 9537173718739605541 15030750278693429944 0 0);
   (8192, U256_from_limbs 9972618978014552549 12247334978882834399 0 0);
   (16384, U256_from_limbs 10428997489610666743 8131365268884726200 0 0);
   (32768, U256_from_limbs 9305304367709015974 3584323654723342297 0 0);
   (65536, U256_from_limbs 14301143598189091785 696457651847595233 0 0);
   (131072, U256_from_limbs 7393154844743099908 26294789957452057 0 0);
   (262144, U256_from_limbs 2209338891292245656 37481735321082 0 0);
   (524288, U256_from_limbs 10518117631919034274 76158723 0 0)].

(** [if !(abs_tick & mask).is_zero() { ratio = ratio.saturating_mul(factor) >> 128 }] *)
Definition sqrt_ratio_step (abs_tick ratio : Z) (mask_factor : Z * Z) : Z :=
  let '(mask, factor) := mask_factor in
  if negb (Z.land abs_tick mask =? 0)
  then Z.shiftr (u256_saturate (ratio * factor)) 128
  else ratio.

(** [tick] is an [i32] other than the smallest one, whose opposite does not fit. *)
Definition get_sqrt_ratio_at_tick (tick : Z) : tick_result :=
  let abs_tick := if tick <? 0 then - tick else tick in
  if MAX_TICK <? abs_tick then Err TickMathError_TickOutOfBounds
  else
    let ratio := if negb (Z.land abs_tick 1 =? 0)
                 then sqrt_ratio_factor_0 else U256_from_limbs 0 0 1 0 in
    let ratio := fold_left (sqrt_ratio_step abs_tick) sqrt_ratio_factors ratio in
    let ratio := if 0 <? tick then U256_MAX / ratio else ratio in
    let shifted := Z.shiftr ratio 32 in
    let ceil := if negb (Z.land ratio (2 ^ 32 - 1) =? 0)
                then u256_saturate (shifted + 1) else shifted in
    Ok ceil.

(** ** The tick of a price *)

(** [f = if r > bound { 1 << shift } else { 0 }; msb |= f; r >>= f] *)
Definition msb_step (state : Z * Z) (bound_shift : Z * Z) : Z * Z :=
  let '(msb, r) := state in
  let '(bound, shift) := bound_shift in
  let f := if bound <? r then Z.shiftl 1 shift else 0 in
  (Z.lor msb f, Z.shiftr r f).

Definition msb_steps : list (Z * Z) :=
  [(U256_from_limbs 18446744073709551615 18446744073709551615 0 0, 7);
   (U256_from_limbs 18446744073709551615 0 0 0, 6);
   (U256_from_limbs 4294967295 0 0 0, 5);
   (U256_from_limbs 65535 0 0 0, 4); (255, 3); (15, 2); (3, 1); (1, 0)].

(** One squaring: the bit [f] of the logarithm is the integer part of the square.  [r] is
    returned both before and after the shift by [f]. *)
Definition log_square (r : Z) : Z * Z :=
  let r := Z.shiftr (u256_wrap (r * r)) 127 in
  (r, Z.shiftr r 128).

Definition log_step (state : Z * Z) (i : Z) : Z * Z :=
  let '(log_2, r) := state in
  let '(r, f) := log_square r in
  (Z.lor log_2 (i256_wrap (u256_wrap (Z.shiftl f i))), Z.shiftr r f).

(** [(51..=63).rev()] *)
Definition log_bits : list Z := [63; 62; 61; 60; 59; 58; 57; 56; 55; 54; 53; 52; 51].

(** The shift to the right of a signed word is followed by [low_i32], so that the bits it
    brings in do not matter. *)
Definition tick_of_log (log : Z) : Z := i32_wrap (Z.shiftr log 128).

Definition get_tick_at_sqrt_ratio (sqrt_price_x_96 : Z) : tick_result :=
  if negb ((MIN_SQRT_RATIO <=? sqrt_price_x_96) && (sqrt_price_x_96 <? MAX_SQRT_RATIO))
  then Err TickMathError_SqrtPriceOutOfBounds
  else
    let ratio := u256_wrap (Z.shiftl sqrt_price_x_96 32) in
    let msb := (fold_left msb_step msb_steps (0, ratio)).1 in
    let r := if 128 <=? msb then Z.shiftr ratio (msb - 127)
             else u256_wrap (Z.shiftl ratio (127 - msb)) in
    let log_2 := i256_wrap (Z.shiftl (i256_saturate (msb - 128)) 64) in
    let '(log_2, r) := fold_left log_step log_bits (log_2, r) in
    let '(_, f) := log_square r in
    let log_2 := Z.lor log_2 (i256_wrap (u256_wrap (Z.shiftl f 50))) in
    let log_sqrt10001 := i256_wrap (log_2 * SQRT_10001) in
    let tick_low := tick_of_log (i256_saturate (log_sqrt10001 - TICK_LOW)) in
    let tick_high := tick_of_log (i256_saturate (log_sqrt10001 + TICK_HIGH)) in
    if tick_low =? tick_high then Ok tick_low
    else
      at_high <-? get_sqrt_ratio_at_tick tick_high;
      if at_high <=? sqrt_price_x_96 then Ok tick_high else Ok tick_low.

(** ** Conversions of prices *)

(** A price is a [U64F64]: the integer of its 128 bits. *)
Definition u64f64_to_u256 (value target_fractional_bits : Z) : Z :=
  match target_fractional_bits ?= 64 with
  | Lt => Z.shiftr value (64 - target_fractional_bits)
  | Gt => u256_saturate (Z.shiftl value (target_fractional_bits - 64))
  | Eq => value
  end.
Definition u64f64_to_u256_q64_96 (value : Z) : Z := u64f64_to_u256 value 96.

(** [frac_bits] is below 320, so that the mask is the one of [diff] bits. *)
Definition q_to_u64f64 (x frac_bits : Z) : tick_result :=
  let diff := Z.max 0 (frac_bits - 64) in
  let shifted := if negb (diff =? 0) then Z.shiftr x diff else x in
  let mask := if negb (diff =? 0)
              then Z.max 0 (u256_saturate (Z.shiftl 1 diff) - 1) else 0 in
  let rounded := if negb (diff =? 0) && negb (Z.land x mask =? 0)
                 then u256_saturate (shifted + 1) else shifted in
  if negb (Z.shiftr rounded 128 =? 0) then Err TickMathError_Overflow else Ok rounded.
Definition u256_q64_96_to_u64f64 (value : Z) : tick_result := q_to_u64f64 value 96.

Definition TickIndex_try_to_sqrt_price (self : Z) : tick_result :=
  if negb ((TickIndex_MIN <=? self) && (self <=? TickIndex_MAX))
  then Err TickMathError_TickOutOfBounds
  else ratio <-? get_sqrt_ratio_at_tick self; u256_q64_96_to_u64f64 ratio.

Definition TickIndex_try_from_sqrt_price (sqrt_price : Z) : tick_result :=
  let price_x96 := u64f64_to_u256_q64_96 sqrt_price in
  tick <-? get_tick_at_sqrt_ratio price_x96;
  price_at_tick <-? get_sqrt_ratio_at_tick tick;
  if price_x96 <? price_at_tick then TickIndex_new (i32_saturate (tick - 1))
  else
    price_at_tick_plus <-? get_sqrt_ratio_at_tick (i32_saturate (tick + 1));
    if price_at_tick_plus <=? price_x96
    then TickIndex_new (i32_saturate (tick + 1)) else TickIndex_new tick.

(** The two fallback prices are decimal literals converted by the fixed-point library; they
    are arguments of the model. *)
Section Bounded.
Context (min_sqrt_price max_sqrt_price : Z).

Definition TickIndex_as_sqrt_price_bounded (self : Z) : Z :=
  match TickIndex_try_to_sqrt_price self with
  | Ok price => price
  | Err _ => if TickIndex_MAX <=? self then max_sqrt_price else min_sqrt_price
  end.

Definition TickIndex_from_sqrt_price_bounded (sqrt_price : Z) : Z :=
  match TickIndex_try_from_sqrt_price sqrt_price with
  | Ok index => index
  | Err _ =>
      let max_price := TickIndex_as_sqrt_price_bounded TickIndex_MAX in
      if max_price <? sqrt_price then TickIndex_MAX else TickIndex_MIN
  end.

End Bounded.
