(* ===== verification/TickOrder.v ===== *)
(** * The prices at ticks are ordered

    The ratio of [get_sqrt_ratio_at_tick] (TickPrice) is a product of one factor for each bit
    of the tick.  Incrementing the tick turns a run of low bits off and one bit on; the
    products of all runs are compared with the factor of the bit by computation, and the
    difference survives the truncations of the remaining steps.  So the price at a tick is
    strictly increasing, with a gap that depends on the price only. *)

From S2P Require Import Prelude Ticks TickBitmap TickPrice.
From stdpp Require Import base tactics list numbers.
From Stdlib Require Import ZArith Lia.
Open Scope Z_scope.

(** ** The product over the bits *)

Definition mul_shift (x k : Z) : Z := x * k / 2 ^ 128.

Fixpoint bits_product (n : Z) (ks : list Z) (x : Z) : Z :=
  match ks with
  | [] => x
  | k :: ks => bits_product (n / 2) ks (if Z.odd n then mul_shift x k else x)
  end.

Lemma bits_product_cons (n k : Z) ks x :
  bits_product n (k :: ks) x = bits_product (n / 2) ks (if Z.odd n then mul_shift x k else x).
Proof. done. Qed.

Definition tick_factors : list Z := sqrt_ratio_factor_0 :: map snd sqrt_ratio_factors.

(** The ratio of the absolute value of a tick. *)
Definition abs_ratio (n : Z) : Z := bits_product n tick_factors (2 ^ 128).

Definition factor_ok (k : Z) : Prop := 0 < k < 2 ^ 128.

Fixpoint masks_from (i : Z) (l : list (Z * Z)) : Prop :=
  match l with
  | [] => True
  | (mask, k) :: l => mask = 2 ^ i /\ factor_ok k /\ masks_from (i + 1) l
  end.

Lemma land_pow2_zero (n i : Z) : 0 <= i -> (Z.land n (2 ^ i) =? 0) = negb (Z.odd (n / 2 ^ i)).
Proof.
  intros Hi. rewrite Z.land_comm, land_pow2 by done.
  by rewrite Z.testbit_odd, Z.shiftr_div_pow2.
Qed.

Lemma mul_shift_range (x k : Z) : 0 <= x <= 2 ^ 128 -> factor_ok k -> 0 <= mul_shift x k <= x.
Proof.
  unfold factor_ok, mul_shift. intros Hx Hk. split; [apply Z.div_pos; nia|].
  apply Z.div_le_upper_bound; nia.
Qed.

Lemma step_bits (n x i k : Z) :
  0 <= i -> 0 <= x <= 2 ^ 128 -> factor_ok k ->
  sqrt_ratio_step n x (2 ^ i, k) = if Z.odd (n / 2 ^ i) then mul_shift x k else x.
Proof.
  intros Hi Hx Hk. cbn. rewrite land_pow2_zero, negb_involutive by done.
  destruct (Z.odd _); [|done]. unfold factor_ok in Hk. rewrite Z.shiftr_div_pow2 by lia.
  unfold mul_shift, u256_saturate, U256_MAX. rewrite Z.min_l by nia. done.
Qed.

Lemma fold_bits_product (n : Z) l : forall i x, 0 <= i -> 0 <= x <= 2 ^ 128 -> masks_from i l ->
  fold_left (sqrt_ratio_step n) l x = bits_product (n / 2 ^ i) (map snd l) x.
Proof.
  induction l as [|[mask k] l IH]; intros i x Hi Hx Hl; [done|].
  destruct Hl as (-> & Hk & Hl). cbn [fold_left map snd bits_product].
  rewrite step_bits by done.
  replace (n / 2 ^ i / 2) with (n / 2 ^ (i + 1)).
  - apply IH; [lia| |done]. pose proof (mul_shift_range x k Hx Hk). destruct (Z.odd _); lia.
  - rewrite Z.pow_add_r, Z.div_div by lia. done.
Qed.

Lemma tick_masks : masks_from 1 sqrt_ratio_factors.
Proof. unfold factor_ok. cbn -[Z.pow]. repeat split; vm_compute; congruence. Qed.

Lemma tick_factors_ok : Forall factor_ok tick_factors.
Proof. unfold factor_ok. repeat constructor; vm_compute; congruence. Qed.

Lemma first_factor (b : bool) :
  (if b then mul_shift (2 ^ 128) sqrt_ratio_factor_0 else 2 ^ 128) =
  (if b then sqrt_ratio_factor_0 else U256_from_limbs 0 0 1 0).
Proof. by destruct b; vm_compute. Qed.

Lemma abs_ratio_fold (n : Z) :
  fold_left (sqrt_ratio_step n) sqrt_ratio_factors
    (if negb (Z.land n 1 =? 0) then sqrt_ratio_factor_0 else U256_from_limbs 0 0 1 0) =
  abs_ratio n.
Proof.
  change 1 with (2 ^ 0) at 1. rewrite land_pow2_zero, Z.pow_0_r, Z.div_1_r, negb_involutive by lia.
  rewrite (fold_bits_product n _ 1); [|lia| |apply tick_masks].
  - unfold abs_ratio, tick_factors. rewrite bits_product_cons, Z.pow_1_r.
    exact (f_equal (bits_product (n / 2) (map snd sqrt_ratio_factors))
             (eq_sym (first_factor (Z.odd n)))).
  - destruct (Z.odd n); vm_compute; split; congruence.
Qed.

(** ** Bounds of the product *)

(** The product with all bits set is the smallest one. *)
Definition all_bits (ks : list Z) (x : Z) : Z := fold_left mul_shift ks x.

Lemma mul_shift_mono (x y k : Z) : x <= y -> factor_ok k -> mul_shift x k <= mul_shift y k.
Proof. unfold factor_ok, mul_shift. intros. apply Z.div_le_mono; nia. Qed.

Lemma all_bits_mono ks : forall x y, x <= y -> Forall factor_ok ks -> all_bits ks x <= all_bits ks y.
Proof.
  induction ks as [|k ks IH]; intros x y Hxy Hks; [done|].
  apply Forall_cons_1 in Hks as [Hk Hks]. apply IH; [by apply mul_shift_mono|done].
Qed.

Lemma all_bits_le ks : forall x, 0 <= x <= 2 ^ 128 -> Forall factor_ok ks -> all_bits ks x <= x.
Proof.
  induction ks as [|k ks IH]; intros x Hx Hks; [unfold all_bits; simpl; lia|].
  apply Forall_cons_1 in Hks as [Hk Hks]. pose proof (mul_shift_range x k Hx Hk).
  unfold all_bits in *. cbn. etrans; [apply IH; [lia|done]|lia].
Qed.

Lemma bits_product_range ks : forall n x, 0 <= x <= 2 ^ 128 -> Forall factor_ok ks ->
  all_bits ks x <= bits_product n ks x <= x.
Proof.
  induction ks as [|k ks IH]; intros n x Hx Hks; [unfold all_bits; simpl; lia|].
  apply Forall_cons_1 in Hks as [Hk Hks]. pose proof (mul_shift_range x k Hx Hk) as Hm.
  cbn [bits_product]. destruct (Z.odd n).
  - pose proof (IH (n / 2) (mul_shift x k) ltac:(lia) Hks). unfold all_bits in *. cbn. lia.
  - pose proof (IH (n / 2) x ltac:(lia) Hks).
    pose proof (all_bits_mono ks (mul_shift x k) x ltac:(lia) Hks). unfold all_bits in *. cbn. lia.
Qed.

Lemma abs_ratio_range (n : Z) : 2 ^ 52 <= abs_ratio n <= 2 ^ 128.
Proof.
  pose proof (bits_product_range tick_factors n (2 ^ 128) ltac:(lia) tick_factors_ok) as H.
  unfold abs_ratio. split; [|apply H]. etrans; [|apply H]. vm_compute. congruence.
Qed.

(** ** The gap between neighbours *)

(** [a] exceeds [b] by one part in [2^15], but for [m] truncations. *)
Definition gap (m a b : Z) : Prop := (2 ^ 15 + 1) * b <= 2 ^ 15 * (a + m).

Lemma gap_step (m a b k : Z) :
  0 <= m -> gap m a b -> factor_ok k -> gap (m + 1) (mul_shift a k) (mul_shift b k).
Proof.
  unfold gap, factor_ok, mul_shift. intros Hm H Hk.
  pose proof (Z.mul_div_le (b * k) (2 ^ 128) ltac:(lia)).
  pose proof (Z.mul_succ_div_gt (a * k) (2 ^ 128) ltac:(lia)).
  nia.
Qed.

Lemma gap_weaken (m m' a b : Z) : gap m a b -> m <= m' -> gap m' a b.
Proof. unfold gap. lia. Qed.

Lemma gap_product ks : forall n m a b, 0 <= m -> gap m a b -> Forall factor_ok ks ->
  gap (m + Z.of_nat (length ks)) (bits_product n ks a) (bits_product n ks b).
Proof.
  induction ks as [|k ks IH]; intros n m a b Hm H Hks.
  { eapply gap_weaken; [done|simpl; lia]. }
  apply Forall_cons_1 in Hks as [Hk Hks]. cbn [bits_product length].
  eapply (gap_weaken (m + 1 + Z.of_nat (length ks))); [|lia].
  apply IH; [lia| |done]. destruct (Z.odd n); [by apply gap_step|].
  eapply gap_weaken; [done|lia].
Qed.

(** The product of a run of low bits exceeds the factor of the next bit. *)
Fixpoint runs_exceed (a : Z) (ks : list Z) : bool :=
  match ks with
  | [] => true
  | k :: ks => ((2 ^ 15 + 1) * mul_shift (2 ^ 128) k <=? 2 ^ 15 * a) && runs_exceed (mul_shift a k) ks
  end.

Lemma gap_succ ks : forall n a, 0 <= n -> n + 1 < 2 ^ Z.of_nat (length ks) ->
  runs_exceed a ks = true -> Forall factor_ok ks ->
  gap (Z.of_nat (length ks)) (bits_product n ks a) (bits_product (n + 1) ks (2 ^ 128)).
Proof.
  induction ks as [|k ks IH]; intros n a Hn Hlt Hr Hks; [simpl in Hlt; lia|].
  cbn [runs_exceed] in Hr. apply andb_true_iff in Hr as [Hk%Z.leb_le Hr].
  apply Forall_cons_1 in Hks as [Hok Hks]. cbn [bits_product].
  rewrite Z.add_1_r, Z.odd_succ, <- Z.negb_odd. rewrite length_cons, Nat2Z.inj_succ in *.
  rewrite Z.pow_succ_r in Hlt by lia.
  pose proof (Z.div_mod n 2 ltac:(lia)) as Hd. rewrite Zmod_odd in Hd.
  destruct (Z.odd n); simpl negb; cbn iota.
  - replace (Z.succ n / 2) with (n / 2 + 1) by (apply (Z.div_unique _ 2 _ 0); lia).
    eapply gap_weaken; [apply IH; [apply Z.div_pos; lia|lia|done|done]|lia].
  - replace (Z.succ n / 2) with (n / 2) by (apply (Z.div_unique _ 2 _ 1); lia).
    eapply (gap_weaken (0 + Z.of_nat (length ks))); [|lia].
    apply gap_product; [lia| |done]. unfold gap. lia.
Qed.

Lemma tick_factors_length : Z.of_nat (length tick_factors) = 20.
Proof. reflexivity. Qed.
Lemma tick_runs_exceed : runs_exceed (2 ^ 128) tick_factors = true.
Proof. by vm_compute. Qed.

Lemma abs_ratio_gap (n : Z) :
  0 <= n -> n + 1 < 2 ^ 20 -> gap 20 (abs_ratio n) (abs_ratio (n + 1)).
Proof.
  intros Hn Hlt. pose proof (gap_succ tick_factors n (2 ^ 128) Hn) as H.
  rewrite tick_factors_length in H. exact (H Hlt tick_runs_exceed tick_factors_ok).
Qed.

(** ** Prices at positive and negative ticks *)

(** The ratio with 128 fractional bits, and the price with 96, rounded up.  They are defined
    for all ticks of 20 bits, a few more than [get_sqrt_ratio_at_tick] accepts. *)
Definition signed_ratio (t : Z) : Z := if 0 <? t then U256_MAX / abs_ratio t else abs_ratio (- t).
Definition round_up (r : Z) : Z := (r + (2 ^ 32 - 1)) / 2 ^ 32.
Definition tick_price (t : Z) : Z := round_up (signed_ratio t).

Definition tick_wide (t : Z) : Prop := - 2 ^ 20 < t < 2 ^ 20.

Lemma round_up_le (r p : Z) : round_up r <= p <-> r <= p * 2 ^ 32.
Proof.
  unfold round_up. pose proof (Z.mul_div_le (r + (2 ^ 32 - 1)) (2 ^ 32) ltac:(lia)).
  pose proof (Z.mul_succ_div_gt (r + (2 ^ 32 - 1)) (2 ^ 32) ltac:(lia)). lia.
Qed.

Lemma land_mask_zero (r n : Z) : 0 <= n -> Z.land r (2 ^ n - 1) = r mod 2 ^ n.
Proof. intros. rewrite <- Z.land_ones, Z.ones_equiv by done. f_equal; lia. Qed.

(** The code adds one to the quotient unless the division by a power of two is exact. *)
Lemma ceil_shift (r n : Z) :
  0 <= r < 2 ^ 256 -> 0 < n ->
  (if negb (Z.land r (2 ^ n - 1) =? 0) then u256_saturate (Z.shiftr r n + 1) else Z.shiftr r n) =
  (r + (2 ^ n - 1)) / 2 ^ n.
Proof.
  intros Hr Hn. rewrite land_mask_zero, Z.shiftr_div_pow2 by lia.
  pose proof (Z.pow_gt_1 2 n ltac:(lia)) as [Hp _]. specialize (Hp Hn).
  pose proof (Z.div_mod r (2 ^ n) ltac:(lia)) as Hd.
  pose proof (Z.mod_pos_bound r (2 ^ n) ltac:(lia)) as Hm.
  destruct (Z.eqb_spec (r mod 2 ^ n) 0) as [E|E]; cbn [negb].
  - apply (Z.div_unique _ _ _ (2 ^ n - 1)); lia.
  - unfold u256_saturate, U256_MAX. rewrite Z.min_l by nia.
    apply (Z.div_unique _ _ _ (r mod 2 ^ n - 1)); lia.
Qed.

Lemma signed_ratio_range (t : Z) : 2 ^ 52 <= signed_ratio t < 2 ^ 256.
Proof.
  unfold signed_ratio. pose proof (abs_ratio_range t). pose proof (abs_ratio_range (- t)).
  destruct (Z.ltb_spec 0 t); [|lia]. unfold U256_MAX. split.
  - apply Z.div_le_lower_bound; nia.
  - apply Z.div_lt_upper_bound; nia.
Qed.

Lemma get_sqrt_ratio_at_tick_price (t : Z) :
  get_sqrt_ratio_at_tick t =
  if MAX_TICK <? Z.abs t then Err TickMathError_TickOutOfBounds else Ok (tick_price t).
Proof.
  unfold get_sqrt_ratio_at_tick.
  replace (if t <? 0 then - t else t) with (Z.abs t) by (destruct (Z.ltb_spec t 0); lia).
  destruct (MAX_TICK <? Z.abs t); [done|]. rewrite abs_ratio_fold.
  replace (if 0 <? t then U256_MAX / abs_ratio (Z.abs t) else abs_ratio (Z.abs t))
    with (signed_ratio t).
  - rewrite ceil_shift; [done| |lia]. pose proof (signed_ratio_range t). lia.
  - unfold signed_ratio. destruct (Z.ltb_spec 0 t).
    + by rewrite Z.abs_eq by lia.
    + by rewrite Z.abs_neq by lia.
Qed.

(** ** The order of prices *)

Lemma quotient_gap (a b m : Z) :
  gap 20 a b -> 2 ^ 52 <= b -> 0 <= m -> 0 < a ->
  (m / a) * (2 ^ 47 + 2 ^ 32 - 1) < 2 ^ 47 * (m / b + 1).
Proof.
  unfold gap. intros H Hb Hm Ha. pose proof (Z.mul_div_le m a Ha).
  pose proof (Z.mul_succ_div_gt m b ltac:(lia)). pose proof (Z.div_pos m a Hm Ha).
  set (p := m / a) in *. set (q := m / b) in *.
  assert (p * (2 ^ 32 * (2 ^ 15 + 1) * b - b) <= p * (2 ^ 47 * a)).
  { apply Z.mul_le_mono_nonneg_l; lia. }
  nia.
Qed.

Lemma signed_ratio_gap (t : Z) :
  tick_wide t -> tick_wide (t + 1) ->
  signed_ratio t <= 2 ^ 16 * (signed_ratio (t + 1) - signed_ratio t).
Proof.
  unfold tick_wide, signed_ratio. intros Ht Ht'. destruct (Z.ltb_spec 0 (t + 1)).
  - pose proof (abs_ratio_gap t ltac:(lia) ltac:(lia)) as Hg.
    pose proof (abs_ratio_range t). pose proof (abs_ratio_range (t + 1)).
    pose proof (quotient_gap _ _ U256_MAX Hg ltac:(lia) ltac:(by vm_compute) ltac:(lia)) as Hq.
    assert (2 ^ 128 - 1 <= U256_MAX / abs_ratio t).
    { apply Z.div_le_lower_bound; unfold U256_MAX; nia. }
    destruct (Z.ltb_spec 0 t); [lia|]. replace t with 0 in * by lia.
    change (abs_ratio (- 0)) with (abs_ratio 0) in *. lia.
  - destruct (Z.ltb_spec 0 t); [lia|].
    pose proof (abs_ratio_gap (- (t + 1)) ltac:(lia) ltac:(lia)) as Hg.
    replace (- (t + 1) + 1) with (- t) in Hg by lia. pose proof (abs_ratio_range (- t)).
    unfold gap in Hg. lia.
Qed.

Lemma increasing_range (f : Z -> Z) (t1 t2 : Z) :
  (forall t, t1 <= t -> t < t2 -> f t < f (t + 1)) -> t1 < t2 -> f t1 < f t2.
Proof.
  intros Hstep Hlt. replace t2 with (t1 + Z.of_nat (S (Z.to_nat (t2 - t1 - 1)))) by lia.
  assert (Hn : t1 + Z.of_nat (S (Z.to_nat (t2 - t1 - 1))) <= t2) by lia.
  induction (Z.to_nat (t2 - t1 - 1)) as [|n IH].
  - apply Hstep; lia.
  - etrans; [apply IH; lia|]. replace (t1 + Z.of_nat (S (S n))) with (t1 + Z.of_nat (S n) + 1) by lia.
    apply Hstep; lia.
Qed.

Lemma tick_price_step (t : Z) :
  tick_wide t -> tick_wide (t + 1) -> tick_price t < tick_price (t + 1).
Proof.
  intros Ht Ht'. pose proof (signed_ratio_gap t Ht Ht'). pose proof (signed_ratio_range t).
  apply Z.lt_nge. unfold tick_price. rewrite round_up_le. intros Hle.
  pose proof (proj1 (round_up_le (signed_ratio t) (round_up (signed_ratio t))) ltac:(lia)).
  assert (round_up (signed_ratio t) * 2 ^ 32 <= signed_ratio t + 2 ^ 32).
  { unfold round_up. pose proof (Z.mul_div_le (signed_ratio t + (2 ^ 32 - 1)) (2 ^ 32) ltac:(lia)). lia. }
  lia.
Qed.

Lemma tick_price_lt (t1 t2 : Z) :
  tick_wide t1 -> tick_wide t2 -> t1 < t2 -> tick_price t1 < tick_price t2.
Proof.
  unfold tick_wide. intros H1 H2 Hlt. apply increasing_range; [|done].
  intros t Hle Hle'. apply tick_price_step; unfold tick_wide; lia.
Qed.

Lemma tick_price_le_inv (t1 t2 : Z) :
  tick_wide t1 -> tick_wide t2 -> tick_price t1 <= tick_price t2 -> t1 <= t2.
Proof.
  intros H1 H2 Hle. destruct (decide (t1 <= t2)) as [|Hn]; [done|].
  pose proof (tick_price_lt t2 t1 H2 H1 ltac:(lia)). lia.
Qed.
