(* ===== verification/TickLog.v ===== *)
(** * The tick of a price

    [get_tick_at_sqrt_ratio] and [try_from_sqrt_price] (TickPrice) compute the tick from a
    binary logarithm of 14 fractional bits.  The logarithm of the price at each tick is
    bounded by certified bounds on the factors (PowerBounds), the squaring loop is bounded
    the same way, and the two estimates of the code enclose the tick: the result is the tick
    whose price interval contains the price, for every price. *)

From S2P Require Import Prelude Ticks TickBitmap PowerBounds TickPrice TickOrder.
From stdpp Require Import base tactics list numbers.
From Stdlib Require Import ZArith Lia.
Open Scope Z_scope.

(** ** Logarithms of the prices at ticks *)

(** The logarithm of the root of 1.0001, with 64 fractional bits, lies between these. *)
Definition tick_log_low : Z := 1330584781654114.
Definition tick_log_high : Z := 1330584781654115.

Fixpoint certified (w : Z) (ks : list Z) : Prop :=
  match ks with
  | [] => True
  | k :: ks =>
      certify_le 64 k (128 * 2 ^ 64 - tick_log_low * w) = true /\
      certify_ge 64 k (128 * 2 ^ 64 - tick_log_high * w) = true /\ certified (2 * w) ks
  end.

Lemma tick_factors_certified : certified 1 tick_factors.
Proof.
  repeat (refine (conj _ (conj _ _)); [vm_compute; reflexivity..|]). exact I.
Qed.

Lemma certified_cons (w k : Z) ks :
  certified w (k :: ks) -> 0 < k ->
  log_le k (128 * log_unit - tick_log_low * w) /\
  log_ge k (128 * log_unit - tick_log_high * w) /\ certified (2 * w) ks.
Proof.
  intros (H1 & H2 & H3) Hk. rewrite log_unit_eq.
  split_and!; [by apply certify_le_sound|by apply certify_ge_sound|exact H3].
Qed.

(** One truncated multiplication: its logarithm is a sum, but for the truncation. *)
Lemma mul_shift_log_le (x k e f : Z) :
  log_le x e -> log_le k f -> 0 < x -> 0 < k -> 0 < mul_shift x k ->
  log_le (mul_shift x k) (e + f - 128 * log_unit).
Proof.
  intros Hx Hk Px Pk Py. apply log_le_cancel; [|done|lia].
  eapply log_le_mono; [by apply log_le_mul|]. unfold mul_shift in *.
  pose proof (Z.mul_div_le (x * k) (2 ^ 128) ltac:(lia)). lia.
Qed.

Lemma mul_shift_log_ge (x k e f : Z) :
  log_ge x e -> log_ge k f -> 0 <= e -> 0 <= f -> 0 < x -> 0 < k -> 2 ^ 52 <= mul_shift x k ->
  log_ge (mul_shift x k) (e + f - 128 * log_unit - 2 ^ 13).
Proof.
  intros Hx Hk He Hf Px Pk Py. apply log_ge_pred; [|done].
  apply log_ge_cancel; [|lia|lia].
  eapply log_ge_mono; [by apply log_ge_mul|]. unfold mul_shift in *.
  pose proof (Z.mul_succ_div_gt (x * k) (2 ^ 128) ltac:(lia)). nia.
Qed.

Lemma half_bit (n : Z) : n = (if Z.odd n then 1 else 0) + 2 * (n / 2).
Proof. pose proof (Z.div_mod n 2 ltac:(lia)) as H. rewrite Zmod_odd in H. lia. Qed.

Lemma bits_product_log_le ks : forall n x e w,
  0 <= n < 2 ^ Z.of_nat (length ks) -> 0 < x -> 0 < all_bits ks x -> x <= 2 ^ 128 ->
  Forall factor_ok ks -> certified w ks -> log_le x e ->
  log_le (bits_product n ks x) (e - tick_log_low * w * n).
Proof.
  induction ks as [|k ks IH]; intros n x e w Hn Hx Hall Hle Hks Hc He.
  { simpl in *. replace n with 0 by lia. eapply log_le_weaken; [done|lia]. }
  rewrite length_cons, Nat2Z.inj_succ, Z.pow_succ_r in Hn by lia.
  apply Forall_cons_1 in Hks as [Hk Hks]. apply certified_cons in Hc as (Hc1 & _ & Hc2); [|apply Hk].
  pose proof (mul_shift_range x k ltac:(lia) Hk) as Hm.
  assert (Hall' : 0 < all_bits ks (mul_shift x k)) by apply Hall.
  pose proof (all_bits_le ks (mul_shift x k) ltac:(lia) Hks).
  pose proof (half_bit n) as Hb. rewrite bits_product_cons. destruct (Z.odd n).
  - assert (Hk0 : 0 < k) by apply Hk.
    pose proof (mul_shift_log_le _ _ _ _ He Hc1 Hx Hk0 ltac:(lia)) as Hy.
    eapply log_le_weaken; [eapply IH; [lia|lia|done|lia|done|done|exact Hy]|lia].
  - eapply log_le_weaken; [eapply IH; [lia|lia| |lia|done|done|done]|lia].
    pose proof (all_bits_mono ks (mul_shift x k) x ltac:(lia) Hks). lia.
Qed.

Lemma bits_product_log_ge ks : forall n x e w,
  0 <= n < 2 ^ Z.of_nat (length ks) -> 0 <= w -> 2 ^ 52 <= all_bits ks x -> x <= 2 ^ 128 -> 0 < x ->
  tick_log_high * w * (2 ^ Z.of_nat (length ks) - 1) + 2 ^ 13 * Z.of_nat (length ks) <= e ->
  e <= 128 * log_unit ->
  Forall factor_ok ks -> certified w ks -> log_ge x e ->
  log_ge (bits_product n ks x) (e - tick_log_high * w * n - 2 ^ 13 * Z.of_nat (length ks)).
Proof.
  induction ks as [|k ks IH]; intros n x e w Hn Hw Hall Hle Hx Hroom Htop Hks Hc He.
  { simpl in *. replace n with 0 by lia. eapply log_ge_weaken; [done|lia]. }
  rewrite length_cons, Nat2Z.inj_succ in *. rewrite Z.pow_succ_r in * by lia.
  apply Forall_cons_1 in Hks as [Hk Hks]. apply certified_cons in Hc as (_ & Hc1 & Hc2); [|apply Hk].
  pose proof (mul_shift_range x k ltac:(lia) Hk) as Hm.
  assert (Hall' : 2 ^ 52 <= all_bits ks (mul_shift x k)) by apply Hall.
  pose proof (all_bits_le ks (mul_shift x k) ltac:(lia) Hks).
  pose proof (half_bit n) as Hb.
  pose proof (Z.pow_pos_nonneg 2 (Z.of_nat (length ks)) ltac:(lia) ltac:(lia)).
  assert (Hw' : tick_log_high * w <= tick_log_high * w * 2 ^ Z.of_nat (length ks)).
  { unfold tick_log_high. nia. }
  assert (0 <= tick_log_high * w) by (unfold tick_log_high; lia).
  pose proof (all_bits_mono ks (mul_shift x k) x ltac:(lia) Hks).
  rewrite bits_product_cons. destruct (Z.odd n).
  - assert (Hge : log_ge (mul_shift x k) (e + (128 * log_unit - tick_log_high * w) - 128 * log_unit - 2 ^ 13)).
    { apply mul_shift_log_ge; [done|done|lia|lia|lia|apply Hk|lia]. }
    eapply log_ge_weaken; [eapply (IH _ _ _ (2 * w)); [..|exact Hge]; try done; lia|lia].
  - eapply log_ge_weaken; [eapply (IH _ _ _ (2 * w)); [..|exact He]; try done; lia|lia].
Qed.

Definition log_slack : Z := 20 * 2 ^ 13.

Lemma all_tick_bits : 2 ^ 52 <= all_bits tick_factors (2 ^ 128).
Proof. vm_compute. congruence. Qed.

Lemma abs_ratio_log_le (n : Z) :
  0 <= n < 2 ^ 20 -> log_le (abs_ratio n) (128 * log_unit - tick_log_low * n).
Proof.
  intros Hn. pose proof (bits_product_log_le tick_factors n (2 ^ 128) (128 * log_unit) 1) as H.
  rewrite tick_factors_length in H. eapply log_le_weaken.
  - apply H; [done|lia| |lia|apply tick_factors_ok|apply tick_factors_certified|by apply log_le_pow2].
    pose proof all_tick_bits. lia.
  - lia.
Qed.

Lemma abs_ratio_log_ge (n : Z) :
  0 <= n < 2 ^ 20 -> log_ge (abs_ratio n) (128 * log_unit - tick_log_high * n - log_slack).
Proof.
  intros Hn. pose proof (bits_product_log_ge tick_factors n (2 ^ 128) (128 * log_unit) 1) as H.
  rewrite tick_factors_length in H. eapply log_ge_weaken.
  - apply H; [done|lia|apply all_tick_bits|lia|lia| |lia|apply tick_factors_ok
             |apply tick_factors_certified|by apply log_ge_pow2].
    rewrite log_unit_eq. vm_compute. congruence.
  - unfold log_slack. lia.
Qed.

(** ** The integer part of the logarithm *)

Lemma lor_add_low (a b n : Z) : 0 <= n -> 0 <= b < 2 ^ n -> Z.lor (a * 2 ^ n) b = a * 2 ^ n + b.
Proof.
  intros Hn Hb. rewrite <- Z.add_lor_land.
  replace (Z.land (a * 2 ^ n) b) with 0; [lia|].
  symmetry. apply Z.bits_inj'. intros i Hi.
  rewrite Z.land_spec, Z.bits_0, <- Z.shiftl_mul_pow2 by done.
  destruct (decide (i < n)) as [Hin|Hin].
  - by rewrite Z.shiftl_spec_low.
  - replace (Z.testbit b i) with false; [apply andb_false_r|]. symmetry.
    pose proof (Z.pow_le_mono_r 2 n i ltac:(lia) ltac:(lia)).
    apply Z.testbit_false; [done|]. by rewrite Z.div_small by lia.
Qed.

(** [msb] is a multiple of [2^s], and [r], what is left of [x], has at most [2^s] bits. *)
Definition msb_inv (x s : Z) (state : Z * Z) : Prop :=
  exists a, 0 <= a /\ state.1 = a * 2 ^ s /\ state.2 = x / 2 ^ state.1 /\ 0 < state.2 < 2 ^ 2 ^ s.

Lemma msb_step_inv (x s : Z) state :
  0 <= s -> msb_inv x (s + 1) state -> msb_inv x s (msb_step state (2 ^ 2 ^ s - 1, s)).
Proof.
  intros Hs (a & Ha & Hmsb & Hr & Hlt). destruct state as [msb r]. simpl in Hmsb, Hr, Hlt.
  pose proof (Z.pow_pos_nonneg 2 s ltac:(lia) Hs) as H2s.
  pose proof (Z.pow_pos_nonneg 2 (2 ^ s) ltac:(lia) ltac:(lia)) as H22s.
  rewrite Z.pow_add_r, Z.pow_1_r in Hmsb, Hlt by lia. unfold msb_step.
  destruct (Z.ltb_spec (2 ^ 2 ^ s - 1) r) as [Hgt|Hle].
  - rewrite Z.shiftl_1_l, Hmsb. replace (a * (2 ^ s * 2)) with (a * 2 ^ (s + 1))
      by (rewrite Z.pow_add_r; lia).
    rewrite lor_add_low by (rewrite ?Z.pow_add_r; lia).
    exists (2 * a + 1). cbn [fst snd]. rewrite Z.shiftr_div_pow2 by lia.
    assert (E : a * 2 ^ (s + 1) + 2 ^ s = (2 * a + 1) * 2 ^ s) by (rewrite Z.pow_add_r; lia).
    split_and!; [lia|exact E| |apply Z.div_str_pos; lia|].
    + rewrite Hr, Hmsb, Z.div_div by (apply Z.pow_nonzero || apply Z.pow_pos_nonneg; nia).
      rewrite <- Z.pow_add_r by nia. do 2 f_equal. rewrite Z.pow_add_r; lia.
    + apply Z.div_lt_upper_bound; [lia|]. rewrite <- Z.pow_add_r by lia.
      replace (2 ^ s + 2 ^ s) with (2 ^ s * 2) by lia. lia.
  - rewrite Z.lor_0_r, Z.shiftr_0_r. exists (2 * a). cbn [fst snd]. split_and!; [lia..|done|lia|lia].
Qed.

Lemma msb_steps_shape : msb_steps = map (fun s => (2 ^ 2 ^ s - 1, s)) [7; 6; 5; 4; 3; 2; 1; 0].
Proof. reflexivity. Qed.

Lemma msb_log2 (x : Z) : 0 < x < 2 ^ 256 -> (fold_left msb_step msb_steps (0, x)).1 = Z.log2 x.
Proof.
  intros Hx. assert (H : msb_inv x 0 (fold_left msb_step msb_steps (0, x))).
  { rewrite msb_steps_shape. cbn [map fold_left].
    do 8 (apply msb_step_inv; [lia|]). exists 0. cbn [fst snd].
    split_and!; [lia|lia|by rewrite Z.pow_0_r, Z.div_1_r|lia|by apply Hx]. }
  destruct H as (a & Ha & Hmsb & Hr & Hlt).
  rewrite Z.pow_0_r, Z.pow_1_r in Hlt. rewrite Z.pow_0_r in Hmsb.
  set (msb := (fold_left msb_step msb_steps (0, x)).1) in *.
  symmetry. apply Z.log2_unique; [lia|].
  replace (fold_left msb_step msb_steps (0, x)).2 with 1 in Hr by lia.
  pose proof (Z.pow_pos_nonneg 2 msb ltac:(lia) ltac:(lia)).
  pose proof (Z.div_mod x (2 ^ msb) ltac:(lia)). pose proof (Z.mod_pos_bound x (2 ^ msb) ltac:(lia)).
  rewrite Z.pow_succ_r by lia. rewrite <- Hr in *. lia.
Qed.

(** ** The fractional bits of the logarithm *)

(** After [i] squarings, [x ^ (2 ^ i)] is [2 ^ m * r / 2 ^ 127] with an error of at most [w] in
    [r], and [log_2] is [m] scaled to 64 fractional bits, relative to [2 ^ 128]. *)
Record log_inv (x i m w log_2 r : Z) : Prop := mk_log_inv {
  log_inv_lower : 2 ^ m * r <= 2 ^ 127 * x ^ 2 ^ i;
  log_inv_upper : 2 ^ 127 * x ^ 2 ^ i <= 2 ^ m * (r + w);
  log_inv_norm : 2 ^ 127 <= r < 2 ^ 128;
  log_inv_m : 0 <= m;
  log_inv_w : 0 < w <= 2 * 4 ^ i - 1;
  log_inv_log : log_2 = (m - 128 * 2 ^ i) * 2 ^ (64 - i);
}.

Lemma log_square_spec (r : Z) :
  2 ^ 127 <= r < 2 ^ 128 ->
  exists f, log_square r = (r * r / 2 ^ 127, f) /\ (f = 0 \/ f = 1) /\
    2 ^ 127 * 2 ^ f <= r * r / 2 ^ 127 < 2 ^ 128 * 2 ^ f.
Proof.
  intros Hr. unfold log_square, u256_wrap. rewrite Z.mod_small by nia.
  rewrite !Z.shiftr_div_pow2 by lia.
  assert (Hq : 2 ^ 127 <= r * r / 2 ^ 127 < 2 ^ 129).
  { split; [apply Z.div_le_lower_bound; nia|apply Z.div_lt_upper_bound; nia]. }
  set (q := r * r / 2 ^ 127) in *. exists (q / 2 ^ 128). split; [done|].
  destruct (decide (q < 2 ^ 128)).
  - rewrite Z.div_small by lia. lia.
  - replace (q / 2 ^ 128) with 1 by (apply (Z.div_unique _ _ _ (q - 2 ^ 128)); lia). lia.
Qed.

Lemma log_bit_word (f i : Z) :
  (f = 0 \/ f = 1) -> 0 <= i < 64 -> i256_wrap (u256_wrap (Z.shiftl f i)) = f * 2 ^ i.
Proof.
  intros Hf Hi. rewrite Z.shiftl_mul_pow2 by lia.
  pose proof (Z.pow_pos_nonneg 2 i ltac:(lia) ltac:(lia)).
  pose proof (Z.pow_lt_mono_r 2 i 64 ltac:(lia) ltac:(lia) ltac:(lia)).
  unfold u256_wrap, i256_wrap. rewrite (Z.mod_small (f * 2 ^ i)) by nia.
  rewrite Z.mod_small by nia. lia.
Qed.

(** The arithmetic of one squaring, with [p] for the power of [x]. *)
Lemma log_lower_step (m r p q f r' : Z) :
  0 <= m -> 0 <= r -> 0 <= f -> 2 ^ m * r <= 2 ^ 127 * p -> q * 2 ^ 127 <= r * r ->
  r' * 2 ^ f <= q -> 2 ^ (2 * m + f) * r' <= 2 ^ 127 * (p * p).
Proof.
  intros Hm Hr Hf Hp Hq Hr'. rewrite Z.pow_add_r, Z.mul_comm with (n := 2), Z.pow_mul_r, Z.pow_2_r by lia.
  pose proof (Z.pow_pos_nonneg 2 m ltac:(lia) Hm) as H2m. set (u := 2 ^ m) in *.
  assert (u * u * (r * r) <= 2 ^ 127 * p * (2 ^ 127 * p)).
  { replace (u * u * (r * r)) with (u * r * (u * r)) by lia. apply Z.mul_le_mono_nonneg; nia. }
  assert (u * u * (q * 2 ^ 127) <= u * u * (r * r)) by (apply Z.mul_le_mono_nonneg_l; nia).
  assert (u * u * (r' * 2 ^ f) <= u * u * q) by (apply Z.mul_le_mono_nonneg_l; nia).
  lia.
Qed.

Lemma log_upper_step (m r w p q f r' : Z) :
  0 <= m -> 0 <= r < 2 ^ 128 -> 0 < w <= 2 ^ 63 -> 0 <= f -> 0 <= p ->
  2 ^ 127 * p <= 2 ^ m * (r + w) -> r * r < (q + 1) * 2 ^ 127 -> q < (r' + 1) * 2 ^ f ->
  2 ^ 127 * (p * p) <= 2 ^ (2 * m + f) * (r' + (4 * w + 3)).
Proof.
  intros Hm Hr Hw Hf Hp0 Hp Hq Hr'.
  rewrite Z.pow_add_r, Z.mul_comm with (n := 2), Z.pow_mul_r, Z.pow_2_r by lia.
  pose proof (Z.pow_pos_nonneg 2 m ltac:(lia) Hm) as H2m. set (u := 2 ^ m) in *.
  pose proof (Z.pow_pos_nonneg 2 f ltac:(lia) Hf) as H2f. set (v := 2 ^ f) in *.
  assert (2 ^ 127 * p * (2 ^ 127 * p) <= u * u * ((r + w) * (r + w))).
  { replace (u * u * ((r + w) * (r + w))) with (u * (r + w) * (u * (r + w))) by lia.
    apply Z.mul_le_mono_nonneg; nia. }
  assert ((r + w) * (r + w) <= 2 ^ 127 * (v * (r' + (4 * w + 3)))).
  { assert (r * r <= 2 ^ 127 * (v * (r' + 1))) by lia.
    assert (2 * (r * w) <= 2 ^ 127 * (4 * w)) by nia.
    assert (w * w <= 2 ^ 127) by nia.
    assert (4 * w + 2 <= v * (4 * w + 2)) by nia. lia. }
  assert (u * u * ((r + w) * (r + w)) <= u * u * (2 ^ 127 * (v * (r' + (4 * w + 3)))))
    by (apply Z.mul_le_mono_nonneg_l; nia).
  lia.
Qed.

Lemma pow_square_exp (x i : Z) : 0 <= i -> x ^ 2 ^ (i + 1) = x ^ 2 ^ i * x ^ 2 ^ i.
Proof.
  intros Hi. pose proof (Z.pow_nonneg 2 i ltac:(lia)).
  rewrite <- Z.pow_add_r, Z.pow_add_r by lia. f_equal. lia.
Qed.

Definition log_state (x i : Z) (state : Z * Z) : Prop :=
  exists m w, log_inv x i m w state.1 state.2.

Lemma log_step_inv (x i : Z) state :
  0 <= i <= 13 -> 0 <= x -> log_state x i state -> log_state x (i + 1) (log_step state (63 - i)).
Proof.
  intros Hi Hx (m & w & [Hlo Hup Hr Hm Hw Hlog]). destruct state as [l r]. cbn [fst snd] in *.
  destruct (log_square_spec r Hr) as (f & Es & Hf & Hq). unfold log_step. rewrite Es.
  rewrite log_bit_word by (done || lia). rewrite Z.shiftr_div_pow2 by lia.
  pose proof (Z.pow_nonneg x (2 ^ i) Hx) as Hp.
  pose proof (Z.mul_div_le (r * r) (2 ^ 127) ltac:(lia)).
  pose proof (Z.mul_succ_div_gt (r * r) (2 ^ 127) ltac:(lia)).
  set (q := r * r / 2 ^ 127) in *.
  pose proof (Z.pow_pos_nonneg 2 f ltac:(lia) ltac:(lia)) as H2f.
  pose proof (Z.mul_div_le q (2 ^ f) H2f). pose proof (Z.mul_succ_div_gt q (2 ^ f) H2f).
  pose proof (Z.pow_le_mono_r 4 i 13 ltac:(lia) ltac:(lia)) as Hw4.
  exists (2 * m + f), (4 * w + 3). cbn [fst snd]. split.
  - rewrite pow_square_exp by lia. apply (log_lower_step m r _ q); lia.
  - rewrite pow_square_exp by lia. apply (log_upper_step m r w _ q); lia.
  - split; [apply Z.div_le_lower_bound; lia|apply Z.div_lt_upper_bound; lia].
  - lia.
  - rewrite Z.pow_add_r by lia. lia.
  - subst l. replace (64 - i) with (63 - i + 1) by lia.
    replace (64 - (i + 1)) with (63 - i) by lia.
    pose proof (Z.pow_pos_nonneg 2 (63 - i) ltac:(lia) ltac:(lia)).
    rewrite lor_add_low by (rewrite ?Z.pow_add_r; lia).
    rewrite !Z.pow_add_r by lia. destruct Hf as [-> | ->]; lia.
Qed.

(** The start: [x] shifted to 128 bits. *)
Definition log_norm (x : Z) : Z :=
  if 128 <=? Z.log2 x then Z.shiftr x (Z.log2 x - 127)
  else u256_wrap (Z.shiftl x (127 - Z.log2 x)).

Lemma log_norm_spec (x : Z) :
  0 < x < 2 ^ 256 ->
  2 ^ Z.log2 x * log_norm x <= 2 ^ 127 * x /\ 2 ^ 127 * x <= 2 ^ Z.log2 x * (log_norm x + 1) /\
  2 ^ 127 <= log_norm x < 2 ^ 128.
Proof.
  intros Hx. unfold log_norm. pose proof (Z.log2_spec x ltac:(lia)) as Hl.
  pose proof (Z.log2_nonneg x). set (k := Z.log2 x) in *. rewrite Z.pow_succ_r in Hl by lia.
  destruct (Z.leb_spec 128 k).
  - rewrite Z.shiftr_div_pow2 by lia.
    pose proof (Z.pow_pos_nonneg 2 (k - 127) ltac:(lia) ltac:(lia)) as Hp.
    pose proof (Z.mul_div_le x (2 ^ (k - 127)) Hp). pose proof (Z.mul_succ_div_gt x (2 ^ (k - 127)) Hp).
    assert (E : 2 ^ k = 2 ^ 127 * 2 ^ (k - 127)) by (rewrite <- Z.pow_add_r by lia; f_equal; lia).
    rewrite E in *. split_and!; [lia..| |].
    + apply Z.div_le_lower_bound; lia.
    + apply Z.div_lt_upper_bound; lia.
  - rewrite Z.shiftl_mul_pow2 by lia.
    pose proof (Z.pow_pos_nonneg 2 (127 - k) ltac:(lia) ltac:(lia)) as Hp.
    assert (E : 2 ^ 127 = 2 ^ k * 2 ^ (127 - k)) by (rewrite <- Z.pow_add_r by lia; f_equal; lia).
    assert (2 ^ 127 <= x * 2 ^ (127 - k) < 2 ^ 128) by (change (2 ^ 128) with (2 * 2 ^ 127); nia).
    unfold u256_wrap. rewrite Z.mod_small by lia. split_and!; nia.
Qed.

Lemma log_start (x : Z) :
  0 < x < 2 ^ 256 -> log_state x 0 ((Z.log2 x - 128) * 2 ^ 64, log_norm x).
Proof.
  intros Hx. pose proof (log_norm_spec x Hx) as (H1 & H2 & H3). exists (Z.log2 x), 1.
  cbn [fst snd]. pose proof (Z.log2_nonneg x).
  split; rewrite ?Z.pow_0_r, ?Z.pow_1_r; lia.
Qed.

(** The bounds on the logarithm of [x] after the last squaring. *)
Lemma log_state_bounds (x : Z) state :
  0 < x -> log_state x 14 state ->
  log_ge x (state.1 + 128 * log_unit) /\ log_le x (state.1 + 128 * log_unit + 2 ^ 50 + 1).
Proof.
  intros Hx (m & w & [Hlo Hup Hr Hm Hw Hlog]). destruct state as [l r]. cbn [fst snd] in *.
  assert (Hunit : log_unit = 2 ^ 14 * 2 ^ 50) by (rewrite log_unit_eq; reflexivity).
  change (64 - 14) with 50 in Hlog.
  assert (El : l + 128 * log_unit = m * 2 ^ 50) by (rewrite log_unit_eq; lia).
  rewrite El. remember (x ^ 2 ^ 14) as p eqn:Ep.
  pose proof (Z.pow_pos_nonneg 2 m ltac:(lia) Hm) as H2m. split.
  - apply (log_ge_root x m (2 ^ 14) (2 ^ 50)); [done|lia|lia|done|]. rewrite <- Ep. nia.
  - replace (m * 2 ^ 50 + 2 ^ 50 + 1) with ((m + 1) * 2 ^ 50 + 1) by lia.
    apply (log_le_root x (m + 1) (2 ^ 14) (2 ^ 50) (2 ^ 98)); [done|lia..|]. rewrite <- Ep.
    rewrite Z.pow_add_r by lia. nia.
Qed.

(** ** The two estimates enclose the tick *)

(** The slope of the logarithm in the tick, against the constants of the code. *)
Lemma slope_low (t l : Z) :
  - 2 ^ 20 < t <= 0 -> t * 2 ^ 128 <= l * SQRT_10001 - TICK_LOW -> tick_log_low * t <= l.
Proof. unfold tick_log_low, SQRT_10001, TICK_LOW, U256_from_limbs. lia. Qed.
Lemma slope_low_pos (t l : Z) :
  0 < t < 2 ^ 20 -> t * 2 ^ 128 <= l * SQRT_10001 - TICK_LOW ->
  tick_log_high * t + log_slack <= l.
Proof. unfold tick_log_high, log_slack, SQRT_10001, TICK_LOW, U256_from_limbs. lia. Qed.
Lemma slope_high (t l : Z) :
  - 2 ^ 20 < t <= 0 -> l * SQRT_10001 + TICK_HIGH < t * 2 ^ 128 ->
  l + 2 ^ 50 + 1 < tick_log_high * t - log_slack.
Proof. unfold tick_log_high, log_slack, SQRT_10001, TICK_HIGH, U256_from_limbs. lia. Qed.
Lemma slope_high_pos (t l : Z) :
  0 < t < 2 ^ 20 -> l * SQRT_10001 + TICK_HIGH < t * 2 ^ 128 ->
  l + 2 ^ 50 + 1 + 2 ^ 13 < tick_log_low * t.
Proof. unfold tick_log_low, SQRT_10001, TICK_HIGH, U256_from_limbs. lia. Qed.

Lemma tick_logs_room (n : Z) :
  0 <= n < 2 ^ 20 -> 0 <= 128 * log_unit - tick_log_high * n - log_slack.
Proof. intros. rewrite log_unit_eq. unfold tick_log_high, log_slack. lia. Qed.

Section Estimates.
Context (x l : Z) (Hx : 2 ^ 64 <= x).
Hypothesis Hlow : log_ge x (l + 128 * log_unit).
Hypothesis Hhigh : log_le x (l + 128 * log_unit + 2 ^ 50 + 1).

Lemma log_range_low : - 64 * log_unit - 2 ^ 51 <= l.
Proof.
  destruct (decide (- 64 * log_unit - 2 ^ 51 <= l)) as [|Hn]; [done|].
  assert (x < x); [|lia]. apply (log_lt_ge x x _ (64 * log_unit) Hhigh); [|lia| |lia].
  - eapply log_ge_mono; [by apply (log_ge_pow2 64)|lia].
  - rewrite log_unit_eq. lia.
Qed.

Lemma log_range_high : x < 2 ^ 192 -> l <= 64 * log_unit.
Proof.
  intros Hx'. destruct (decide (l <= 64 * log_unit)) as [|Hn]; [done|].
  assert (x < x); [|lia].
  apply (log_lt_ge x x (192 * log_unit) (l + 128 * log_unit)); [|done|lia| |lia].
  - eapply log_le_mono; [by apply (log_le_pow2 192)|lia].
  - pose proof log_unit_pos. lia.
Qed.

Lemma estimate_low (t : Z) :
  tick_wide t -> t * 2 ^ 128 <= l * SQRT_10001 - TICK_LOW -> signed_ratio t <= x.
Proof.
  intros Ht Hest. unfold tick_wide in Ht. unfold signed_ratio. destruct (Z.ltb_spec 0 t).
  - pose proof (slope_low_pos t l ltac:(lia) Hest) as Hs. pose proof (abs_ratio_range t).
    pose proof (tick_logs_room t ltac:(lia)). pose proof log_unit_pos.
    assert (0 <= l) by (unfold tick_log_high, log_slack in Hs; lia).
    assert (2 ^ 256 <= x * abs_ratio t).
    { pose proof (abs_ratio_log_ge t ltac:(lia)) as Ha.
      eapply log_le_ge; [by apply (log_le_pow2 256)|apply (log_ge_mul _ _ _ _ Hlow Ha); lia|lia|nia]. }
    apply Z.lt_succ_r, Z.div_lt_upper_bound; unfold U256_MAX; nia.
  - pose proof (slope_low t l ltac:(lia) Hest) as Hs.
    eapply log_le_ge; [apply abs_ratio_log_le; lia|exact Hlow|lia|lia].
Qed.

Lemma estimate_high (t : Z) :
  tick_wide t -> l * SQRT_10001 + TICK_HIGH < t * 2 ^ 128 -> x < signed_ratio t.
Proof.
  intros Ht Hest. unfold tick_wide in Ht. unfold signed_ratio. pose proof log_range_low as Hl.
  assert (Hl' : 0 <= l + 128 * log_unit + 2 ^ 50 + 1) by (rewrite log_unit_eq in *; lia).
  destruct (Z.ltb_spec 0 t).
  - pose proof (slope_high_pos t l ltac:(lia) Hest) as Hs. pose proof (abs_ratio_range t).
    assert ((x + 1) * abs_ratio t < 2 ^ 256).
    { eapply (log_lt_ge _ _ _ (256 * log_unit)).
      - pose proof (log_le_succ _ _ Hhigh ltac:(lia) Hl') as Hs'.
        apply (log_le_mul _ _ _ _ Hs' (abs_ratio_log_le t ltac:(lia))); lia.
      - by apply log_ge_pow2.
      - lia.
      - pose proof log_unit_pos. lia.
      - lia. }
    apply Z.lt_le_trans with (x + 1); [lia|]. apply Z.div_le_lower_bound; unfold U256_MAX; lia.
  - pose proof (slope_high t l ltac:(lia) Hest) as Hs. pose proof (abs_ratio_range (- t)).
    pose proof (tick_logs_room (- t) ltac:(lia)).
    eapply log_lt_ge; [exact Hhigh|apply abs_ratio_log_ge; lia|lia|lia|lia].
Qed.
End Estimates.

(** ** The code computes the estimates *)

(** The logarithm of the code, with the last squaring written as a step of the loop. *)
Definition price_log (x : Z) : Z :=
  (fold_left log_step (log_bits ++ [50]) ((Z.log2 x - 128) * 2 ^ 64, log_norm x)).1.

Lemma price_log_bounds (x : Z) :
  0 < x < 2 ^ 256 ->
  log_ge x (price_log x + 128 * log_unit) /\
  log_le x (price_log x + 128 * log_unit + 2 ^ 50 + 1).
Proof.
  intros Hx. apply log_state_bounds; [lia|]. cbn [log_bits app fold_left].
  assert (Hx0 : 0 <= x) by lia.
  apply (log_step_inv x 13); [lia|done|]. apply (log_step_inv x 12); [lia|done|].
  apply (log_step_inv x 11); [lia|done|]. apply (log_step_inv x 10); [lia|done|].
  apply (log_step_inv x 9); [lia|done|]. apply (log_step_inv x 8); [lia|done|].
  apply (log_step_inv x 7); [lia|done|]. apply (log_step_inv x 6); [lia|done|].
  apply (log_step_inv x 5); [lia|done|]. apply (log_step_inv x 4); [lia|done|].
  apply (log_step_inv x 3); [lia|done|]. apply (log_step_inv x 2); [lia|done|].
  apply (log_step_inv x 1); [lia|done|]. apply (log_step_inv x 0); [lia|done|].
  by apply log_start.
Qed.

Lemma i32_wrap_id (z : Z) : - 2 ^ 31 <= z < 2 ^ 31 -> i32_wrap z = z.
Proof. intros. unfold i32_wrap. rewrite Z.mod_small; lia. Qed.
Lemma i256_wrap_id (z : Z) : - 2 ^ 255 <= z < 2 ^ 255 -> i256_wrap z = z.
Proof. intros. unfold i256_wrap. rewrite Z.mod_small; lia. Qed.
Lemma i256_saturate_id (z : Z) : - 2 ^ 255 <= z < 2 ^ 255 -> i256_saturate z = z.
Proof. unfold i256_saturate. lia. Qed.

Definition low_estimate (l : Z) : Z := (l * SQRT_10001 - TICK_LOW) / 2 ^ 128.
Definition high_estimate (l : Z) : Z := (l * SQRT_10001 + TICK_HIGH) / 2 ^ 128.

Lemma estimates_range (l : Z) :
  - 2 ^ 70 - 2 ^ 51 <= l <= 2 ^ 70 ->
  - 887275 <= low_estimate l <= high_estimate l /\ high_estimate l <= 887275 /\
  high_estimate l <= low_estimate l + 1.
Proof.
  intros Hl. unfold low_estimate, high_estimate, SQRT_10001, TICK_LOW, TICK_HIGH, U256_from_limbs.
  split_and!; [apply Z.div_le_lower_bound; lia|apply Z.div_le_mono; lia| |].
  - apply Z.lt_succ_r, Z.div_lt_upper_bound; lia.
  - rewrite <- Z.div_add by lia. apply Z.div_le_mono; lia.
Qed.

Lemma sqrt_ratio_bounds (p : Z) :
  MIN_SQRT_RATIO <= p < MAX_SQRT_RATIO -> 2 ^ 64 <= p * 2 ^ 32 < 2 ^ 192.
Proof. unfold MIN_SQRT_RATIO, MAX_SQRT_RATIO, U256_from_limbs. lia. Qed.

Lemma price_log_range (p : Z) :
  MIN_SQRT_RATIO <= p < MAX_SQRT_RATIO -> - 2 ^ 70 - 2 ^ 51 <= price_log (p * 2 ^ 32) <= 2 ^ 70.
Proof.
  intros Hp%sqrt_ratio_bounds. destruct (price_log_bounds (p * 2 ^ 32) ltac:(lia)) as [H1 H2].
  pose proof (log_range_low _ _ (proj1 Hp) H2).
  pose proof (log_range_high _ _ (proj1 Hp) H1 (proj2 Hp)).
  rewrite log_unit_eq in *. lia.
Qed.

Lemma log_2_word (l : Z) : - 2 ^ 70 - 2 ^ 51 <= l <= 2 ^ 70 ->
  tick_of_log (i256_saturate (i256_wrap (l * SQRT_10001) - TICK_LOW)) = low_estimate l /\
  tick_of_log (i256_saturate (i256_wrap (l * SQRT_10001) + TICK_HIGH)) = high_estimate l.
Proof.
  intros Hl. pose proof (estimates_range l Hl) as (H1 & H2 & H3). unfold tick_of_log.
  rewrite i256_wrap_id by (unfold SQRT_10001, U256_from_limbs; lia).
  rewrite !i256_saturate_id
    by (unfold SQRT_10001, TICK_LOW, TICK_HIGH, U256_from_limbs; lia).
  rewrite !Z.shiftr_div_pow2 by lia. fold (low_estimate l) (high_estimate l).
  by rewrite !i32_wrap_id by lia.
Qed.

Lemma get_tick_estimates (p : Z) :
  MIN_SQRT_RATIO <= p < MAX_SQRT_RATIO ->
  let l := price_log (p * 2 ^ 32) in
  get_tick_at_sqrt_ratio p =
  if low_estimate l =? high_estimate l then Ok (low_estimate l)
  else at_high <-? get_sqrt_ratio_at_tick (high_estimate l);
       if at_high <=? p then Ok (high_estimate l) else Ok (low_estimate l).
Proof.
  intros Hp l. pose proof (sqrt_ratio_bounds p Hp) as Hx.
  pose proof (log_2_word l (price_log_range p Hp)) as [Elo Ehi].
  rewrite <- Elo, <- Ehi. unfold get_tick_at_sqrt_ratio.
  rewrite (proj2 (Z.leb_le _ _) (proj1 Hp)), (proj2 (Z.ltb_lt _ _) (proj2 Hp)). cbn [negb andb].
  replace (u256_wrap (Z.shiftl p 32)) with (p * 2 ^ 32)
    by (unfold u256_wrap; rewrite Z.shiftl_mul_pow2, Z.mod_small; lia).
  rewrite msb_log2 by lia. fold (log_norm (p * 2 ^ 32)).
  pose proof (Z.log2_nonneg (p * 2 ^ 32)).
  assert (Z.log2 (p * 2 ^ 32) < 256) by (apply Z.log2_lt_pow2; lia).
  replace (i256_wrap (Z.shiftl (i256_saturate (Z.log2 (p * 2 ^ 32) - 128)) 64))
    with ((Z.log2 (p * 2 ^ 32) - 128) * 2 ^ 64)
    by (rewrite i256_saturate_id, Z.shiftl_mul_pow2, i256_wrap_id; lia).
  subst l. unfold price_log. rewrite fold_left_app. cbn [fold_left].
  destruct (fold_left log_step log_bits _) as [log_2 r]. cbn [log_step].
  by destruct (log_square r) as [q f].
Qed.
