(* ===== verification/TickInverse.v ===== *)
(** * Ticks and prices are inverse to each other

    The conversions of [pallets/swap/src/tick.rs] between ticks and prices, for every tick and
    every price: the tick of a price is the one whose interval contains it, the price of a
    tick leads back to the tick, and the bounded conversion is the nearest tick below. *)

From S2P Require Import Prelude Ticks TickBitmap PowerBounds TickPrice TickOrder TickLog.
From stdpp Require Import base tactics list numbers.
From Stdlib Require Import ZArith Lia.
Open Scope Z_scope.

(** ** The tick of a ratio *)

Lemma tick_price_min : tick_price (- MAX_TICK) = MIN_SQRT_RATIO.
Proof. vm_compute. reflexivity. Qed.
Lemma tick_price_max : tick_price MAX_TICK = MAX_SQRT_RATIO.
Proof. vm_compute. reflexivity. Qed.

Lemma MAX_TICK_eq : MAX_TICK = 887272.
Proof. reflexivity. Qed.

(** [t] is the tick whose interval of prices contains [p]. *)
Definition tick_contains (t p : Z) : Prop := tick_price t <= p < tick_price (t + 1).

Lemma tick_contains_unique (t1 t2 p : Z) :
  tick_wide t1 -> tick_wide t2 -> tick_wide (t1 + 1) -> tick_wide (t2 + 1) ->
  tick_contains t1 p -> tick_contains t2 p -> t1 = t2.
Proof.
  unfold tick_contains. intros H1 H2 H1' H2' [L1 U1] [L2 U2].
  destruct (Z.lt_trichotomy t1 t2) as [Hlt|[|Hlt]]; [|done|].
  - assert (t2 <= t1); [|lia].
    destruct (decide (t2 <= t1)) as [|Hn]; [done|].
    destruct (decide (t1 + 1 = t2)) as [<-|]; [lia|].
    pose proof (tick_price_lt (t1 + 1) t2 H1' H2 ltac:(lia)). lia.
  - destruct (decide (t2 + 1 = t1)) as [<-|]; [lia|].
    pose proof (tick_price_lt (t2 + 1) t1 H2' H1 ltac:(lia)). lia.
Qed.

Lemma get_sqrt_ratio_ok (t : Z) : - MAX_TICK <= t <= MAX_TICK -> get_sqrt_ratio_at_tick t = Ok (tick_price t).
Proof.
  intros Ht. rewrite get_sqrt_ratio_at_tick_price.
  destruct (Z.ltb_spec MAX_TICK (Z.abs t)); [lia|done].
Qed.

Lemma price_below_max (t p : Z) :
  - 887276 <= t <= 887276 -> MIN_SQRT_RATIO <= p < MAX_SQRT_RATIO ->
  tick_price t <= p -> t < MAX_TICK.
Proof.
  rewrite <- tick_price_max. intros Ht Hp Hle. apply Z.lt_nge. intros Hn.
  destruct (decide (t = MAX_TICK)) as [->|]; [lia|]. pose proof MAX_TICK_eq.
  pose proof (tick_price_lt MAX_TICK t) as H'. unfold tick_wide in H'. lia.
Qed.
Lemma price_above_min (t p : Z) :
  - 887276 <= t <= 887276 -> MIN_SQRT_RATIO <= p < MAX_SQRT_RATIO ->
  p < tick_price t -> - MAX_TICK < t.
Proof.
  rewrite <- tick_price_min. intros Ht Hp Hle. apply Z.lt_nge. intros Hn.
  destruct (decide (t = - MAX_TICK)) as [->|]; [lia|]. pose proof MAX_TICK_eq.
  pose proof (tick_price_lt t (- MAX_TICK)) as H'. unfold tick_wide in H'. lia.
Qed.

(** The estimates enclose the price. *)
Section Enclose.
Context (p l : Z) (Hx : 2 ^ 64 <= p * 2 ^ 32) (Hl : - 2 ^ 70 - 2 ^ 51 <= l <= 2 ^ 70).
Hypothesis Hge : log_ge (p * 2 ^ 32) (l + 128 * log_unit).

Lemma low_estimate_price : tick_price (low_estimate l) <= p.
Proof.
  pose proof (estimates_range l Hl) as (B1 & B2 & B3). unfold tick_price. apply round_up_le.
  assert (W : tick_wide (low_estimate l)) by (unfold tick_wide; lia).
  assert (E : low_estimate l * 2 ^ 128 <= l * SQRT_10001 - TICK_LOW).
  { unfold low_estimate. rewrite (Z.mul_comm (_ / _)). by apply Z.mul_div_le. }
  exact (estimate_low _ _ Hx Hge _ W E).
Qed.

Hypothesis Hle : log_le (p * 2 ^ 32) (l + 128 * log_unit + 2 ^ 50 + 1).

Lemma high_estimate_price : p < tick_price (high_estimate l + 1).
Proof.
  pose proof (estimates_range l Hl) as (B1 & B2 & B3). unfold tick_price.
  assert (W : tick_wide (high_estimate l + 1)) by (unfold tick_wide; lia).
  assert (E : l * SQRT_10001 + TICK_HIGH < (high_estimate l + 1) * 2 ^ 128).
  { unfold high_estimate. rewrite Z.add_1_r, (Z.mul_comm (Z.succ _)). by apply Z.mul_succ_div_gt. }
  pose proof (estimate_high _ _ Hx Hge Hle _ W E) as H.
  apply Z.lt_nge. intros Hn%round_up_le. lia.
Qed.
End Enclose.

Lemma get_tick_contains (p : Z) :
  MIN_SQRT_RATIO <= p < MAX_SQRT_RATIO ->
  exists t, get_tick_at_sqrt_ratio p = Ok t /\ - MAX_TICK <= t < MAX_TICK /\ tick_contains t p.
Proof.
  intros Hp. pose proof (sqrt_ratio_bounds p Hp) as Hx. pose proof (price_log_range p Hp) as Hl.
  destruct (price_log_bounds (p * 2 ^ 32) ltac:(lia)) as [Hge Hle].
  pose proof (low_estimate_price p _ (proj1 Hx) Hl Hge) as Hlow.
  pose proof (high_estimate_price p _ (proj1 Hx) Hl Hge Hle) as Hhigh.
  pose proof (estimates_range _ Hl) as (B1 & B2 & B3).
  pose proof (get_tick_estimates p Hp) as Eg. cbv zeta in Eg. rewrite Eg. clear Eg.
  remember (low_estimate (price_log (p * 2 ^ 32))) as lo eqn:El.
  remember (high_estimate (price_log (p * 2 ^ 32))) as hi eqn:Eh. clear El Eh.
  pose proof MAX_TICK_eq. pose proof (price_below_max lo p ltac:(lia) Hp Hlow).
  pose proof (price_above_min (hi + 1) p ltac:(lia) Hp Hhigh).
  destruct (Z.eqb_spec lo hi) as [->|E].
  - exists hi. split_and!; [done|lia|lia|by split].
  - rewrite get_sqrt_ratio_ok by lia. cbn [rbind].
    destruct (Z.leb_spec (tick_price hi) p) as [Hle'|Hgt].
    + pose proof (price_below_max hi p ltac:(lia) Hp Hle'). exists hi.
      split_and!; [done|lia|lia|by split].
    + pose proof (price_above_min hi p ltac:(lia) Hp Hgt). exists lo.
      replace hi with (lo + 1) in * by lia. split_and!; [done|lia|lia|by split].
Qed.

(** ** From prices to ticks *)

(** A [U64F64]. *)
Definition price_ok (b : Z) : Prop := 0 <= b < 2 ^ 128.

Lemma price_x96 (b : Z) : price_ok b -> u64f64_to_u256_q64_96 b = b * 2 ^ 32.
Proof.
  unfold price_ok. intros Hb. unfold u64f64_to_u256_q64_96, u64f64_to_u256. cbn -[Z.pow].
  unfold u256_saturate, U256_MAX. rewrite Z.shiftl_mul_pow2 by lia. rewrite Z.min_l; lia.
Qed.

(** The verification after the estimate never moves the tick. *)
Lemma try_from_contains (b t : Z) :
  price_ok b -> get_tick_at_sqrt_ratio (b * 2 ^ 32) = Ok t -> - MAX_TICK <= t < MAX_TICK ->
  tick_contains t (b * 2 ^ 32) -> TickIndex_try_from_sqrt_price b = TickIndex_new t.
Proof.
  intros Hb Hget Ht [Hlo Hup]. unfold TickIndex_try_from_sqrt_price. cbv zeta.
  rewrite price_x96, Hget by done. cbn [rbind]. pose proof MAX_TICK_eq.
  replace (i32_saturate (t + 1)) with (t + 1) by (unfold i32_saturate, i32_min, i32_max; lia).
  rewrite !get_sqrt_ratio_ok by lia. cbn [rbind].
  rewrite (proj2 (Z.ltb_ge _ _) Hlo), (proj2 (Z.leb_gt _ _) Hup). done.
Qed.

Lemma try_from_out (b : Z) :
  price_ok b -> ~ (MIN_SQRT_RATIO <= b * 2 ^ 32 < MAX_SQRT_RATIO) ->
  TickIndex_try_from_sqrt_price b = Err TickMathError_SqrtPriceOutOfBounds.
Proof.
  intros Hb Hn. unfold TickIndex_try_from_sqrt_price, get_tick_at_sqrt_ratio. cbv zeta.
  rewrite price_x96 by done.
  destruct (Z.leb_spec MIN_SQRT_RATIO (b * 2 ^ 32)), (Z.ltb_spec (b * 2 ^ 32) MAX_SQRT_RATIO);
    [lia|done..].
Qed.

Lemma TickIndex_new_ok (t : Z) : in_bounds t -> TickIndex_new t = Ok t.
Proof.
  intros [H1 H2]. unfold TickIndex_new.
  by rewrite (proj2 (Z.leb_le _ _) H1), (proj2 (Z.leb_le _ _) H2).
Qed.
Lemma TickIndex_new_inv (t t' : Z) : TickIndex_new t = Ok t' -> t' = t /\ in_bounds t.
Proof.
  unfold TickIndex_new, in_bounds. destruct (_ && _) eqn:E; [|done]. intros [= <-].
  apply andb_true_iff in E as [?%Z.leb_le ?%Z.leb_le]. done.
Qed.

Lemma in_bounds_wide (t : Z) : in_bounds t -> tick_wide t /\ tick_wide (t + 1) /\ - MAX_TICK <= t /\ t + 1 <= MAX_TICK.
Proof. unfold in_bounds, tick_wide. tick_consts. pose proof MAX_TICK_eq. lia. Qed.

Lemma contains_in_range (t p : Z) :
  in_bounds t -> tick_contains t p -> MIN_SQRT_RATIO <= p < MAX_SQRT_RATIO.
Proof.
  intros (W & W' & Hlo & Hhi)%in_bounds_wide [H1 H2]. pose proof MAX_TICK_eq.
  rewrite <- tick_price_min, <- tick_price_max.
  assert (tick_wide MAX_TICK /\ tick_wide (- MAX_TICK)) as [Wm Wn] by (unfold tick_wide; lia).
  pose proof (tick_price_lt (- MAX_TICK) t Wn W). pose proof (tick_price_lt (t + 1) MAX_TICK W' Wm).
  assert (tick_price (- MAX_TICK) <= tick_price t) by (destruct (decide (t = - MAX_TICK)) as [->|]; lia).
  assert (tick_price (t + 1) <= tick_price MAX_TICK); [|lia].
  destruct (decide (t + 1 = MAX_TICK)) as [->|]; lia.
Qed.

Lemma try_from_iff (b t : Z) :
  price_ok b ->
  TickIndex_try_from_sqrt_price b = Ok t <-> in_bounds t /\ tick_contains t (b * 2 ^ 32).
Proof.
  intros Hb. split.
  - intros Hok. destruct (decide (MIN_SQRT_RATIO <= b * 2 ^ 32 < MAX_SQRT_RATIO)) as [Hr|Hr];
      [|by rewrite try_from_out in Hok].
    destruct (get_tick_contains _ Hr) as (t' & Hget & Ht & Hc).
    rewrite (try_from_contains b t') in Hok by done.
    apply TickIndex_new_inv in Hok as [-> ?]. done.
  - intros [Ht Hc]. pose proof (contains_in_range t _ Ht Hc) as Hr.
    destruct (get_tick_contains _ Hr) as (t' & Hget & Ht' & Hc').
    rewrite (try_from_contains b t') by done.
    destruct (in_bounds_wide t Ht) as (W & W' & _). pose proof MAX_TICK_eq.
    assert (t' = t) as -> by (apply (tick_contains_unique _ _ (b * 2 ^ 32)); unfold tick_wide in *; done || lia).
    by apply TickIndex_new_ok.
Qed.

(** ** From ticks to prices *)

Lemma round_up_below (r p : Z) : p < round_up r <-> p * 2 ^ 32 < r.
Proof. rewrite !Z.lt_nge, round_up_le. done. Qed.

Lemma tick_price_le (t1 t2 : Z) :
  tick_wide t1 -> tick_wide t2 -> t1 <= t2 -> tick_price t1 <= tick_price t2.
Proof.
  intros H1 H2 Hle. destruct (decide (t1 = t2)) as [->|]; [lia|].
  pose proof (tick_price_lt t1 t2 H1 H2 ltac:(lia)). lia.
Qed.

(** The prices at tick indexes fit in a [U64F64], and are far apart. *)
Lemma index_price_range (t : Z) :
  in_bounds t -> 2 ^ 63 <= tick_price t /\ round_up (tick_price t) < 2 ^ 128.
Proof.
  intros Ht. destruct (in_bounds_wide t Ht) as (W & _ & _ & _).
  unfold in_bounds in Ht. tick_consts.
  assert (Wm : tick_wide (- 443636)) by (unfold tick_wide; lia).
  assert (WM : tick_wide 443636) by (unfold tick_wide; lia).
  pose proof (tick_price_le _ _ Wm W ltac:(lia)) as Hm.
  pose proof (tick_price_le _ _ W WM ltac:(lia)) as HM.
  assert (Em : 2 ^ 63 <= tick_price (- 443636)) by (vm_compute; congruence).
  assert (EM : tick_price 443636 <= 2 ^ 128) by (vm_compute; congruence).
  split; [lia|]. apply Z.le_lt_trans with (2 ^ 96); [apply round_up_le|]; lia.
Qed.

Lemma index_price_gap (t : Z) : in_bounds t -> tick_price t + 2 ^ 32 < tick_price (t + 1).
Proof.
  intros Ht. destruct (in_bounds_wide t Ht) as (W & W' & _).
  pose proof (index_price_range t Ht) as [Hp _]. pose proof (signed_ratio_gap t W W') as Hg.
  unfold tick_price in *.
  assert (Hr : (2 ^ 63 - 1) * 2 ^ 32 < signed_ratio t) by (apply round_up_below; lia).
  apply round_up_below.
  assert (round_up (signed_ratio t) * 2 ^ 32 < signed_ratio t + 2 ^ 32); [|lia].
  unfold round_up. pose proof (Z.mul_div_le (signed_ratio t + (2 ^ 32 - 1)) (2 ^ 32) ltac:(lia)). lia.
Qed.

Lemma try_to_price (t : Z) :
  TickIndex_try_to_sqrt_price t =
  if decide (in_bounds t) then Ok (round_up (tick_price t)) else Err TickMathError_TickOutOfBounds.
Proof.
  unfold TickIndex_try_to_sqrt_price. destruct (decide (in_bounds t)) as [Ht|Ht].
  - rewrite (proj2 (Z.leb_le _ _) (proj1 Ht)), (proj2 (Z.leb_le _ _) (proj2 Ht)). cbn [negb andb].
    destruct (in_bounds_wide t Ht) as (_ & _ & H1 & H2). rewrite get_sqrt_ratio_ok by lia. cbn [rbind].
    pose proof (index_price_range t Ht) as [Hlo Hhi].
    unfold u256_q64_96_to_u64f64, q_to_u64f64. change (Z.max 0 (96 - 64)) with 32.
    change (negb (32 =? 0)) with true. cbn [andb].
    change (Z.max 0 (u256_saturate (Z.shiftl 1 32) - 1)) with (2 ^ 32 - 1).
    assert (tick_price t < 2 ^ 256).
    { pose proof (proj1 (round_up_le (tick_price t) (2 ^ 128)) ltac:(lia)). lia. }
    rewrite ceil_shift by lia. fold (round_up (tick_price t)).
    assert (0 <= round_up (tick_price t)) by (apply Z.div_pos; lia).
    rewrite Z.shiftr_div_pow2, Z.div_small by lia. done.
  - unfold in_bounds in Ht.
    by destruct (Z.leb_spec TickIndex_MIN t), (Z.leb_spec t TickIndex_MAX); [lia|..].
Qed.

Lemma tick_contains_price (t b : Z) :
  tick_contains t (b * 2 ^ 32) <-> round_up (tick_price t) <= b < round_up (tick_price (t + 1)).
Proof. unfold tick_contains. rewrite round_up_le, round_up_below. done. Qed.

(** A price between those of two tick indexes has a tick index. *)
Lemma try_from_between (b : Z) :
  price_ok b -> round_up (tick_price TickIndex_MIN) <= b <= round_up (tick_price TickIndex_MAX) ->
  is_ok (TickIndex_try_from_sqrt_price b) = true.
Proof.
  intros Hb [Hlo' Hhi]. pose proof (proj1 (round_up_le _ _) Hlo') as Hlo.
  assert (BM : in_bounds TickIndex_MAX /\ in_bounds TickIndex_MIN) by (unfold in_bounds; tick_consts; lia).
  destruct BM as [BM Bm]. pose proof (in_bounds_wide _ Bm) as (Wm & _ & Hm & _).
  pose proof (in_bounds_wide _ BM) as (WM & WM' & _ & HM). pose proof MAX_TICK_eq.
  assert (Hhi' : b * 2 ^ 32 < tick_price (TickIndex_MAX + 1)).
  { pose proof (index_price_gap _ BM). unfold round_up in Hhi at 1.
    pose proof (Z.mul_div_le (tick_price TickIndex_MAX + (2 ^ 32 - 1)) (2 ^ 32) ltac:(lia)). lia. }
  assert (Hr : MIN_SQRT_RATIO <= b * 2 ^ 32 < MAX_SQRT_RATIO).
  { rewrite <- tick_price_min, <- tick_price_max.
    pose proof (tick_price_le (- MAX_TICK) TickIndex_MIN ltac:(unfold tick_wide; lia) Wm ltac:(lia)).
    pose proof (tick_price_le (TickIndex_MAX + 1) MAX_TICK WM' ltac:(unfold tick_wide; lia) ltac:(lia)). lia. }
  destruct (get_tick_contains _ Hr) as (t & Hget & Ht & Hc). rewrite (try_from_contains b t) by done.
  assert (W : tick_wide t /\ tick_wide (t + 1)) by (unfold tick_wide; lia). destruct W as [W W'].
  destruct Hc as [C1 C2]. rewrite TickIndex_new_ok; [done|]. split.
  - destruct (decide (TickIndex_MIN <= t)); [done|].
    pose proof (tick_price_le (t + 1) TickIndex_MIN W' Wm ltac:(lia)). lia.
  - destruct (decide (t <= TickIndex_MAX)); [done|].
    pose proof (tick_price_le (TickIndex_MAX + 1) t WM' W ltac:(lia)). lia.
Qed.

(** ** The conversions *)

(** C30 The root of the price at a tick is defined exactly for the ticks between [MIN_TICK] and
    [MAX_TICK] and strictly increasing there, from [MIN_SQRT_RATIO] to [MAX_SQRT_RATIO]. *)
Theorem sqrt_ratio_increasing (t1 t2 : Z) :
  MIN_TICK <= t1 -> t1 < t2 -> t2 <= MAX_TICK ->
  exists p1 p2, get_sqrt_ratio_at_tick t1 = Ok p1 /\ get_sqrt_ratio_at_tick t2 = Ok p2 /\
    MIN_SQRT_RATIO <= p1 /\ p1 < p2 /\ p2 <= MAX_SQRT_RATIO.
Proof.
  change MIN_TICK with (- MAX_TICK). intros H1 Hlt H2. exists (tick_price t1), (tick_price t2).
  rewrite !get_sqrt_ratio_ok by lia. rewrite <- tick_price_min, <- tick_price_max.
  pose proof MAX_TICK_eq. split_and!; [done|done|..];
    (apply tick_price_le || apply tick_price_lt); unfold tick_wide; lia.
Qed.

(** C28 The tick of a price, for every [U64F64]: [try_from_sqrt_price] returns the index [t]
    exactly if [t] is in bounds and the price lies in the interval of [t], from the price at
    [t] up to the price at [t + 1], which is excluded. *)
Theorem try_from_sqrt_price_exact (price t : Z) :
  0 <= price < 2 ^ 128 ->
  TickIndex_try_from_sqrt_price price = Ok t <->
  TickIndex_MIN <= t <= TickIndex_MAX /\
  exists lower upper, get_sqrt_ratio_at_tick t = Ok lower /\
    get_sqrt_ratio_at_tick (t + 1) = Ok upper /\ lower <= u64f64_to_u256_q64_96 price < upper.
Proof.
  intros Hb. rewrite try_from_iff, price_x96 by done. unfold tick_contains. split.
  - intros [Ht Hc]. split; [done|]. destruct (in_bounds_wide t Ht) as (_ & _ & H1 & H2).
    exists (tick_price t), (tick_price (t + 1)). by rewrite !get_sqrt_ratio_ok by lia.
  - intros (Ht & lower & upper & Hl & Hu & Hc). split; [done|].
    destruct (in_bounds_wide t Ht) as (_ & _ & H1 & H2).
    rewrite get_sqrt_ratio_ok in Hl, Hu by lia. congruence.
Qed.

(** C29 From a tick to its price and back: every tick index has a price, and the tick of that
    price is the index. *)
Theorem sqrt_price_roundtrip (t : Z) :
  TickIndex_MIN <= t <= TickIndex_MAX ->
  exists price, TickIndex_try_to_sqrt_price t = Ok price /\
    TickIndex_try_from_sqrt_price price = Ok t.
Proof.
  intros Ht. exists (round_up (tick_price t)). rewrite try_to_price, decide_True by done.
  split; [done|]. pose proof (index_price_range t Ht) as [H1 H2]. apply try_from_iff.
  - split; [apply Z.div_pos; lia|done].
  - split; [done|]. split; [apply (proj1 (round_up_le _ _)), Z.le_refl|].
    pose proof (index_price_gap t Ht). unfold round_up.
    pose proof (Z.mul_div_le (tick_price t + (2 ^ 32 - 1)) (2 ^ 32) ltac:(lia)). lia.
Qed.

Lemma from_bounded_is (lo hi b t : Z) :
  TickIndex_try_from_sqrt_price b = Ok t -> TickIndex_from_sqrt_price_bounded lo hi b = t.
Proof. intros E. unfold TickIndex_from_sqrt_price_bounded. by rewrite E. Qed.

Lemma as_bounded_price (lo hi t : Z) :
  in_bounds t -> TickIndex_as_sqrt_price_bounded lo hi t = round_up (tick_price t).
Proof.
  intros Ht. unfold TickIndex_as_sqrt_price_bounded. by rewrite try_to_price, decide_True.
Qed.

Lemma index_price_le (t1 t2 : Z) :
  in_bounds t1 -> in_bounds t2 -> t1 <= t2 ->
  round_up (tick_price t1) <= round_up (tick_price t2).
Proof.
  intros H1 H2 Hle. unfold round_up. apply Z.div_le_mono; [lia|].
  pose proof (tick_price_le t1 t2 (proj1 (in_bounds_wide _ H1)) (proj1 (in_bounds_wide _ H2)) Hle). lia.
Qed.

(** The bounded conversion is the floor on the tick indexes, for every price and whatever
    the fallback prices are: an index is at most the result exactly if it is the lowest one or
    its price is at most the given one.  So the conversion is total, stays within bounds and
    is monotone. *)
Theorem from_sqrt_price_bounded_floor (min_price max_price price t : Z) :
  0 <= price < 2 ^ 128 -> TickIndex_MIN <= t <= TickIndex_MAX ->
  TickIndex_MIN <= TickIndex_from_sqrt_price_bounded min_price max_price price <= TickIndex_MAX /\
  (t <= TickIndex_from_sqrt_price_bounded min_price max_price price <->
   t = TickIndex_MIN \/ TickIndex_as_sqrt_price_bounded min_price max_price t <= price).
Proof.
  intros Hb Ht. rewrite as_bounded_price by done.
  assert (BM : in_bounds TickIndex_MAX /\ in_bounds TickIndex_MIN) by (unfold in_bounds; tick_consts; lia).
  destruct BM as [BM Bm].
  destruct (TickIndex_try_from_sqrt_price price) as [t'|e] eqn:E.
  - rewrite (from_bounded_is _ _ _ _ E). apply try_from_iff in E as [Ht' Hc]; [|done].
    apply tick_contains_price in Hc as [C1 C2]. split; [done|]. split.
    + intros Hle. right. etrans; [by apply (index_price_le t t')|done].
    + intros [->|Hle]; [apply Ht'|]. destruct (decide (t <= t')); [done|].
      assert (B1 : in_bounds (t' + 1)) by (unfold in_bounds in *; lia).
      pose proof (index_price_le (t' + 1) t B1 Ht ltac:(lia)). lia.
  - unfold TickIndex_from_sqrt_price_bounded. rewrite E, as_bounded_price by done.
    pose proof (index_price_le t TickIndex_MAX Ht BM (proj2 Ht)).
    pose proof (index_price_le TickIndex_MIN t Bm Ht (proj1 Ht)).
    destruct (Z.ltb_spec (round_up (tick_price TickIndex_MAX)) price) as [Hgt|Hle]; split.
    + apply BM.
    + split; [right; lia|intros _; apply Ht].
    + apply Bm.
    + split; [intros; left; apply Z.le_antisymm; [done|apply Ht]|].
      intros [->|Hp]; [lia|]. pose proof (try_from_between price Hb ltac:(lia)) as Hok.
      by rewrite E in Hok.
Qed.

(** ** Witnesses *)

(** The whole range of ticks. *)
Lemma sqrt_ratio_increasing_witness :
  exists p1 p2, get_sqrt_ratio_at_tick MIN_TICK = Ok p1 /\ get_sqrt_ratio_at_tick MAX_TICK = Ok p2 /\
    MIN_SQRT_RATIO <= p1 /\ p1 < p2 /\ p2 <= MAX_SQRT_RATIO.
Proof. apply (sqrt_ratio_increasing MIN_TICK MAX_TICK); vm_compute; congruence. Defined.

(** The price 1 belongs to tick 0; it is the lower end of its interval. *)
Lemma try_from_sqrt_price_exact_witness :
  0 <= 2 ^ 64 < 2 ^ 128 /\
  TickIndex_MIN <= 0 <= TickIndex_MAX /\
  exists lower upper, get_sqrt_ratio_at_tick 0 = Ok lower /\ get_sqrt_ratio_at_tick (0 + 1) = Ok upper /\
    lower <= u64f64_to_u256_q64_96 (2 ^ 64) < upper.
Proof.
  split; [lia|]. apply (try_from_sqrt_price_exact (2 ^ 64) 0); [lia|]. vm_compute. reflexivity.
Defined.

(** The lowest tick index. *)
Lemma sqrt_price_roundtrip_witness :
  exists price, TickIndex_try_to_sqrt_price TickIndex_MIN = Ok price /\
    TickIndex_try_from_sqrt_price price = Ok TickIndex_MIN.
Proof. apply (sqrt_price_roundtrip TickIndex_MIN). vm_compute. split; congruence. Defined.

(** The largest price is out of range, and is cut to the highest index. *)
Lemma from_sqrt_price_bounded_floor_witness :
  TickIndex_MAX <= TickIndex_from_sqrt_price_bounded 0 0 (2 ^ 128 - 1).
Proof.
  apply (from_sqrt_price_bounded_floor 0 0 (2 ^ 128 - 1) TickIndex_MAX);
    [lia|vm_compute; split; congruence|right; vm_compute; congruence].
Defined.
