(* ===== verification/SafeFloat.v ===== *)
(** * Decimal floating-point numbers of the share pools

    [primitives/share-pool/src/lib.rs], [SafeFloat]: a mantissa of 21 decimal digits and an
    [i64] exponent.  Intermediate results are 256-bit words.  The loops of [normalize] are
    run with the fuel that the comment of the source promises to be enough; running out of it
    is an outcome of its own, and never happens ([normalize_terminates]). *)

From S2P Require Import Prelude.
From stdpp Require Import base tactics option numbers.
From Stdlib Require Import ZArith Lia.
Open Scope Z_scope.

Definition SAFE_FLOAT_MAX : Z := 1000000000000000000000.
Definition SAFE_FLOAT_MAX_EXP : Z := 21.

(** [i64]: checked and saturating results. *)
Definition i64_min : Z := - 2 ^ 63.
Definition i64_max : Z := 2 ^ 63 - 1.
Definition i64_checked (z : Z) : option Z :=
  if (i64_min <=? z) && (z <=? i64_max) then Some z else None.
Definition i64_saturate (z : Z) : Z := Z.max i64_min (Z.min z i64_max).

Definition saturating_mul (w a b : Z) : Z := Z.min (a * b) (uint_max w).

Record SafeFloat : Type := mk_SafeFloat { mantissa : Z; exponent : Z }.

#[export] Instance SafeFloat_eq_dec : EqDecision SafeFloat.
Proof. solve_decision. Defined.

Definition SafeFloat_zero : SafeFloat := {| mantissa := 0; exponent := 0 |}.

(** [checked_pow] does not overflow for the exponents that remain. *)
Definition cappow10 (e : Z) : Z :=
  if saturating_add 64 SAFE_FLOAT_MAX_EXP 1 <? e then saturating_mul 128 SAFE_FLOAT_MAX 10
  else if e =? 0 then 1
  else default 0 (if 10 ^ e <? 2 ^ 256 then Some (10 ^ e) else None).

(** ** Normalization *)

(** How a loop ends: with its variables, by [return false], or not within its fuel. *)
Inductive loop_end : Type :=
| Loop_done (fuel : nat) (mantissa exponent : Z)
| Loop_gives_up
| Loop_out_of_fuel.

(** [while normalized_mantissa > max_mantissa] *)
Fixpoint shrink_loop (fuel : nat) (normalized_mantissa normalized_exponent : Z) : loop_end :=
  if SAFE_FLOAT_MAX <? normalized_mantissa then
    match fuel with
    | O => Loop_out_of_fuel
    | S fuel =>
        match checked_div normalized_mantissa 10 with
        | None => Loop_gives_up
        | Some next_mantissa =>
            match i64_checked (normalized_exponent + 1) with
            | None => Loop_gives_up
            | Some next_exponent => shrink_loop fuel next_mantissa next_exponent
            end
        end
    end
  else Loop_done fuel normalized_mantissa normalized_exponent.

Definition min_mantissa : Z := default 0 (checked_div SAFE_FLOAT_MAX 10).

(** [while normalized_mantissa <= min_mantissa] *)
Fixpoint grow_loop (fuel : nat) (normalized_mantissa normalized_exponent : Z) : loop_end :=
  if normalized_mantissa <=? min_mantissa then
    match fuel with
    | O => Loop_out_of_fuel
    | S fuel =>
        match checked_mul 256 normalized_mantissa 10 with
        | None => Loop_gives_up
        | Some next_mantissa =>
            match i64_checked (normalized_exponent - 1) with
            | None => Loop_gives_up
            | Some next_exponent => grow_loop fuel next_mantissa next_exponent
            end
        end
    end
  else Loop_done fuel normalized_mantissa normalized_exponent.

Definition normalize_loops (fuel : nat) (new_mantissa new_exponent : Z) : loop_end :=
  match shrink_loop fuel new_mantissa new_exponent with
  | Loop_done fuel m e => grow_loop fuel m e
  | stop => stop
  end.

(** "No more than 78 iterations together." *)
Definition normalize_fuel : nat := 78.

(** [normalize] of a fresh number; [None] is the result [false], which leaves it as it is. *)
Definition SafeFloat_normalize (new_mantissa new_exponent : Z) : option SafeFloat :=
  if new_mantissa =? 0 then Some SafeFloat_zero
  else match normalize_loops normalize_fuel new_mantissa new_exponent with
       | Loop_done _ m e => Some {| mantissa := m mod 2 ^ 128; exponent := e |}
       | _ => None
       end.

Definition SafeFloat_new (mantissa exponent : Z) : option SafeFloat :=
  if SAFE_FLOAT_MAX <? mantissa then None else SafeFloat_normalize mantissa exponent.

(** ** Arithmetic *)

Definition SafeFloat_is_zero (self : SafeFloat) : bool := mantissa self =? 0.

(** The [i128] subtractions do not saturate. *)
Definition SafeFloat_div (self a : SafeFloat) : option SafeFloat :=
  let maybe_m1_scaled := checked_mul 256 (mantissa self) SAFE_FLOAT_MAX in
  let new_exponent := exponent self - exponent a - SAFE_FLOAT_MAX_EXP in
  if (i64_max <? new_exponent) || (new_exponent <? i64_min) then None
  else m1_scaled ← maybe_m1_scaled;
       new_mantissa ← checked_div m1_scaled (mantissa a);
       SafeFloat_normalize new_mantissa new_exponent.

Definition SafeFloat_add (self a : SafeFloat) : option SafeFloat :=
  if SafeFloat_is_zero self then Some a
  else if SafeFloat_is_zero a then Some self
  else
    let '(new_mantissa, new_exponent) :=
      if exponent a <=? exponent self then
        let exp_diff := i64_saturate (exponent self - exponent a) in
        let m1 := mantissa self in
        let m2 := default 0 (checked_div (mantissa a) (cappow10 exp_diff)) in
        (saturating_add 256 m1 m2, exponent self)
      else
        let exp_diff := i64_saturate (exponent a - exponent self) in
        let m1 := default 0 (checked_div (mantissa self) (cappow10 exp_diff)) in
        let m2 := mantissa a in
        (saturating_add 256 m1 m2, exponent a) in
    SafeFloat_normalize new_mantissa new_exponent.

Definition SafeFloat_sub (self a : SafeFloat) : option SafeFloat :=
  if SafeFloat_is_zero self && SafeFloat_is_zero a then Some SafeFloat_zero
  else if SafeFloat_is_zero self then None
  else if SafeFloat_is_zero a then Some self
  else
    let '(new_mantissa, new_exponent) :=
      if exponent a <=? exponent self then
        let exp_diff := i64_saturate (exponent self - exponent a) in
        let m1 := mantissa self in
        let m2 := default 0 (checked_div (mantissa a) (cappow10 exp_diff)) in
        (saturating_sub m1 m2, exponent self)
      else
        let exp_diff := i64_saturate (exponent a - exponent self) in
        let m1 := default 0 (checked_div (mantissa self) (cappow10 exp_diff)) in
        let m2 := mantissa a in
        (saturating_sub m1 m2, exponent a) in
    SafeFloat_normalize new_mantissa new_exponent.

Definition SafeFloat_mul_div (self a b : SafeFloat) : option SafeFloat :=
  if mantissa b =? 0 then None
  else
    let self_a_mantissa := default 0 (checked_mul 256 (mantissa self) (mantissa a)) in
    self_a_exponent ← i64_checked (exponent self + exponent a);
    new_exponent ← i64_checked (self_a_exponent - exponent b);
    let new_mantissa := default 0 (checked_div self_a_mantissa (mantissa b)) in
    SafeFloat_normalize new_mantissa new_exponent.

Definition SafeFloat_gt (self a : SafeFloat) : bool :=
  if exponent self =? exponent a then mantissa a <? mantissa self
  else if exponent a <? exponent self then
    let exp_diff := i64_saturate (exponent self - exponent a) in
    if 1 <? exp_diff then true
    else mantissa a <? saturating_mul 256 10 (mantissa self)
  else
    let exp_diff := i64_saturate (exponent a - exponent self) in
    if 1 <? exp_diff then false
    else saturating_mul 256 10 (mantissa a) <? mantissa self.

(** ** Conversions *)

Definition u64_from_SafeFloat (value : SafeFloat) : Z :=
  if exponent value =? 0 then saturated_into 64 (mantissa value)
  else
    let scale := cappow10 (Z.abs (exponent value)) in
    let q := if 0 <? exponent value then saturating_mul 256 (mantissa value) scale
             else default 0 (checked_div (mantissa value) scale) in
    if q =? 0 then 0 else saturated_into 64 q.

Definition SafeFloat_from_u64 (value : Z) : SafeFloat :=
  default SafeFloat_zero (SafeFloat_new value 0).

(** The bits of a [U64F64]: 64 for the integer part, 64 for the fraction. *)
Definition SafeFloat_from_U64F64 (bits : Z) : SafeFloat :=
  let int := Z.shiftr bits 64 in
  let frac := Z.land bits (2 ^ 64 - 1) in
  if bits =? 0 then SafeFloat_zero
  else
    let safe_int := default SafeFloat_zero (SafeFloat_new int 0) in
    let safe_frac_num := default SafeFloat_zero (SafeFloat_new frac 0) in
    let safe_two64 := default SafeFloat_zero (SafeFloat_new (2 ^ 64) 0) in
    let safe_frac := default SafeFloat_zero (SafeFloat_div safe_frac_num safe_two64) in
    default SafeFloat_zero (SafeFloat_add safe_int safe_frac).
