(* ===== verification/SafeFloatBounds.v ===== *)
(** * Accuracy of the decimal floating-point numbers

    Each operation of [SafeFloat] returns a normal number, and its result is the exact one
    but for a truncation that is bounded relative to the exact result (subtraction: relative
    to the minuend).  The value of a number is scaled by [10 ^ (2 ^ 63)], so that all values
    are integers. *)

From S2P Require Import Prelude SafeFloat.
From stdpp Require Import base tactics option numbers.
From Stdlib Require Import ZArith Lia.
Open Scope Z_scope.

(** ** Scaled values *)

(** The scale is sealed: it is never computed. *)
Lemma pow10_sealed : {f : Z -> Z | forall e, f e = 10 ^ (e + 2 ^ 63)}.
Proof. by exists (fun e => 10 ^ (e + 2 ^ 63)). Qed.
Definition pow10 : Z -> Z := proj1_sig pow10_sealed.
Lemma pow10_eq (e : Z) : pow10 e = 10 ^ (e + 2 ^ 63).
Proof. exact (proj2_sig pow10_sealed e). Qed.

Lemma pow10_pos (e : Z) : i64_min <= e -> 0 < pow10 e.
Proof. unfold i64_min. intros. rewrite pow10_eq. apply Z.pow_pos_nonneg; lia. Qed.

Lemma pow10_add (e d : Z) : i64_min <= e -> 0 <= d -> pow10 (e + d) = 10 ^ d * pow10 e.
Proof.
  unfold i64_min. intros. rewrite !pow10_eq, <- Z.pow_add_r by lia. f_equal. lia.
Qed.

Lemma pow10_mono (e f : Z) : i64_min <= e -> e <= f -> pow10 e <= pow10 f.
Proof. unfold i64_min. intros. rewrite !pow10_eq. apply Z.pow_le_mono_r; lia. Qed.

(** Products of scales depend on the sum of the exponents. *)
Lemma pow10_mul (e f g h : Z) :
  i64_min <= e -> i64_min <= f -> i64_min <= g -> i64_min <= h -> e + f = g + h ->
  pow10 e * pow10 f = pow10 g * pow10 h.
Proof.
  unfold i64_min. intros. rewrite !pow10_eq, <- !Z.pow_add_r by lia. f_equal. lia.
Qed.

Definition scaled (x : SafeFloat) : Z := mantissa x * pow10 (exponent x).

(** The scale of integers. *)
Definition one : Z := pow10 0.
Lemma one_pos : 0 < one.
Proof. apply pow10_pos. unfold i64_min. lia. Qed.

(** ** Normal numbers *)

Definition i64_ok (e : Z) : Prop := i64_min <= e <= i64_max.

Definition digits_ok (x : SafeFloat) : Prop :=
  10 ^ 20 < mantissa x <= 10 ^ 21 /\ i64_ok (exponent x).
Definition normal (x : SafeFloat) : Prop := x = SafeFloat_zero \/ digits_ok x.

Lemma normal_zero : normal SafeFloat_zero.
Proof. by left. Qed.

Lemma digits_nonzero (x : SafeFloat) : digits_ok x -> SafeFloat_is_zero x = false.
Proof. unfold digits_ok, SafeFloat_is_zero. intros. apply Z.eqb_neq. lia. Qed.

Lemma digits_scaled (x : SafeFloat) :
  digits_ok x -> 10 ^ 20 * pow10 (exponent x) < scaled x <= 10 ^ 21 * pow10 (exponent x) /\ 0 < pow10 (exponent x).
Proof.
  unfold digits_ok, scaled, i64_ok. intros [Hm He]. pose proof (pow10_pos (exponent x) (proj1 He)). nia.
Qed.

Lemma scaled_pos (x : SafeFloat) : digits_ok x -> 0 < scaled x.
Proof. intros Hx. pose proof (digits_scaled x Hx). lia. Qed.

Lemma normal_cases (x : SafeFloat) :
  normal x -> (SafeFloat_is_zero x = true /\ x = SafeFloat_zero) \/ (SafeFloat_is_zero x = false /\ digits_ok x).
Proof. intros [->|Hx]; [by left|]. right. split; [by apply digits_nonzero|done]. Qed.

Lemma scaled_nonneg (x : SafeFloat) : normal x -> 0 <= scaled x.
Proof. intros [->|Hx]; [done|]. pose proof (scaled_pos x Hx). lia. Qed.

Lemma scaled_zero_inv (x : SafeFloat) : normal x -> scaled x <= 0 -> x = SafeFloat_zero.
Proof. intros [->|Hx] Hs; [done|]. pose proof (scaled_pos x Hx). lia. Qed.

(** A number with a larger exponent is larger. *)
Lemma exponent_order (a b : SafeFloat) :
  digits_ok a -> digits_ok b -> exponent a < exponent b -> scaled a < scaled b.
Proof.
  intros Ha Hb Hlt. pose proof (digits_scaled a Ha). pose proof (digits_scaled b Hb).
  destruct Ha as [_ Ha]. pose proof (pow10_add (exponent a) 1 (proj1 Ha) ltac:(lia)) as E.
  pose proof (pow10_mono (exponent a + 1) (exponent b)) as Hm. unfold i64_ok, i64_min in *.
  specialize (Hm ltac:(lia) ltac:(lia)). lia.
Qed.

(** ** Normalization *)

Lemma i64_checked_Some (z z' : Z) : i64_checked z = Some z' <-> z' = z /\ i64_ok z.
Proof.
  unfold i64_checked, i64_ok. destruct (Z.leb_spec i64_min z), (Z.leb_spec z i64_max); naive_solver lia.
Qed.
Lemma i64_checked_None (z : Z) : i64_checked z = None <-> ~ i64_ok z.
Proof.
  unfold i64_checked, i64_ok. destruct (Z.leb_spec i64_min z), (Z.leb_spec z i64_max); naive_solver lia.
Qed.

Lemma MAX_pow : SAFE_FLOAT_MAX = 10 ^ 21.
Proof. reflexivity. Qed.
Lemma MIN_pow : min_mantissa = 10 ^ 20.
Proof. reflexivity. Qed.

Lemma shrink_loop_spec fuel : forall M E,
  0 <= M <= 10 ^ 21 * 10 ^ Z.of_nat fuel -> i64_ok E ->
  match shrink_loop fuel M E with
  | Loop_done f m e => exists d, 0 <= d /\ Z.of_nat fuel = Z.of_nat f + d /\ e = E + d /\ i64_ok e /\
      m = M / 10 ^ d /\ m <= 10 ^ 21 /\ (0 < d -> 10 ^ 20 <= m /\ 10 ^ 21 < M)
  | Loop_gives_up => i64_max < E + Z.of_nat fuel
  | Loop_out_of_fuel => False
  end.
Proof.
  induction fuel as [|fuel IH]; intros M E HM HE; cbn [shrink_loop]; rewrite MAX_pow;
    (destruct (Z.ltb_spec (10 ^ 21) M) as [Hgt|Hle];
     [|exists 0; rewrite Z.pow_0_r, Z.div_1_r; split_and!; first [lia|done]]).
  - change (Z.of_nat 0) with 0 in HM. lia.
  - cbn [checked_div Z.eqb]. rewrite Nat2Z.inj_succ, Z.pow_succ_r in HM by lia.
    destruct (i64_checked (E + 1)) as [E'|] eqn:EE.
    2: { apply i64_checked_None in EE. unfold i64_ok in *. lia. }
    apply i64_checked_Some in EE as [-> HE']. assert (HM' : 0 <= M / 10 <= 10 ^ 21 * 10 ^ Z.of_nat fuel).
    { split; [apply Z.div_pos; lia|apply Z.div_le_upper_bound; lia]. }
    specialize (IH (M / 10) (E + 1) HM' HE').
    destruct (shrink_loop fuel (M / 10) (E + 1)) as [f m e| |]; [|lia|done].
    destruct IH as (d & Hd & Hf & -> & He & -> & Hm & Hd'). exists (d + 1).
    rewrite Z.add_comm with (n := d), Z.pow_add_r, Z.pow_1_r, <- Z.div_div by (try apply Z.pow_pos_nonneg; lia).
    split_and!; first [lia|done|idtac].
    intros _. split; [|done]. destruct (decide (0 < d)) as [Hpos|]; [by apply Hd'|].
    replace d with 0 by lia. rewrite Z.pow_0_r, Z.div_1_r. apply Z.div_le_lower_bound; lia.
Qed.

Lemma grow_loop_spec fuel : forall m e,
  0 < m <= 10 ^ 21 -> 10 ^ 20 < m * 10 ^ Z.of_nat fuel -> i64_ok e ->
  match grow_loop fuel m e with
  | Loop_done f m' e' => exists g, 0 <= g /\ Z.of_nat fuel = Z.of_nat f + g /\ e' = e - g /\ i64_ok e' /\
      m' = m * 10 ^ g /\ 10 ^ 20 < m' <= 10 ^ 21
  | Loop_gives_up => e - Z.of_nat fuel < i64_min
  | Loop_out_of_fuel => False
  end.
Proof.
  induction fuel as [|fuel IH]; intros m e Hm Hlarge He; cbn [grow_loop]; rewrite MIN_pow;
    (destruct (Z.leb_spec m (10 ^ 20)) as [Hle|Hgt];
     [|exists 0; rewrite Z.pow_0_r, Z.mul_1_r; split_and!; first [lia|done]]).
  - change (Z.of_nat 0) with 0 in Hlarge. lia.
  - rewrite Nat2Z.inj_succ, Z.pow_succ_r in Hlarge by lia.
    unfold checked_mul. rewrite (proj2 (Z.ltb_lt _ _)) by lia.
    destruct (i64_checked (e - 1)) as [e1|] eqn:EE.
    2: { apply i64_checked_None in EE. unfold i64_ok in *. lia. }
    apply i64_checked_Some in EE as [-> He1].
    specialize (IH (m * 10) (e - 1) ltac:(lia) ltac:(lia) He1).
    destruct (grow_loop fuel (m * 10) (e - 1)) as [f m' e'| |]; [|lia|done].
    destruct IH as (g & Hg & Hf & -> & He' & -> & Hm'). exists (g + 1).
    rewrite Z.pow_add_r by lia. split_and!; first [lia|done].
Qed.

(** Truncation to [m / 10^d] and scaling back. *)
Lemma truncation_error (M d P : Z) :
  0 <= d -> 0 < P -> 0 < M -> (0 < d -> 10 ^ 20 <= M / 10 ^ d) ->
  M / 10 ^ d * (10 ^ d * P) <= M * P /\
  (M * P - M / 10 ^ d * (10 ^ d * P)) * 10 ^ 20 < M / 10 ^ d * (10 ^ d * P).
Proof.
  intros Hd HP HM Hlarge. destruct (decide (0 < d)) as [Hpos|Hz].
  - specialize (Hlarge Hpos). pose proof (Z.pow_pos_nonneg 10 d ltac:(lia) Hd) as H10.
    pose proof (Z.div_mod M (10 ^ d) ltac:(lia)). pose proof (Z.mod_pos_bound M (10 ^ d) H10).
    set (q := M / 10 ^ d) in *. set (r := M mod 10 ^ d) in *. set (t := 10 ^ d) in *.
    assert (M * P = q * (t * P) + r * P) by nia.
    assert (r * P < t * P) by nia.
    assert (10 ^ 20 * (t * P) <= q * (t * P)) by nia. lia.
  - replace d with 0 by lia. rewrite Z.pow_0_r, Z.div_1_r. nia.
Qed.

(** The truncated number and the next one enclose the exact value.  (A mantissa that the first
    loop shrinks to [10 ^ 20] grows back to [10 ^ 21], which has a wider gap above it.) *)
Lemma truncation_tight (M d g E : Z) :
  0 <= d -> 0 <= g -> 0 < M -> i64_min <= E -> i64_min <= E + d - g ->
  10 ^ 20 < M / 10 ^ d * 10 ^ g <= 10 ^ 21 -> d = 0 \/ 10 ^ 20 <= M / 10 ^ d ->
  let m := M / 10 ^ d * 10 ^ g in let P := pow10 (E + d - g) in
  M * pow10 E < (m + 1) * P \/ m = 10 ^ 21 /\ M * pow10 E < (m + 10) * P.
Proof.
  intros Hd Hg HM HE HEg Hm Hcase m P. pose proof (pow10_pos _ HE) as PE.
  pose proof (pow10_pos _ HEg) as PP. fold P in PP.
  assert (Ed : 10 ^ d * pow10 E = 10 ^ g * P).
  { unfold P. rewrite <- !pow10_add by lia. f_equal. lia. }
  pose proof (Z.pow_pos_nonneg 10 d ltac:(lia) Hd) as H10.
  pose proof (Z.mul_succ_div_gt M (10 ^ d) H10) as Hgt. unfold Z.succ in Hgt.
  assert (Hub : M * pow10 E < (M / 10 ^ d + 1) * (10 ^ g * P)) by (rewrite <- Ed; nia).
  destruct Hcase as [->|Hl].
  - left. rewrite Z.pow_0_r, Z.mul_1_l in Ed. subst m. rewrite Z.pow_0_r, Z.div_1_r, Ed. nia.
  - destruct (decide (g = 0)) as [->|Hg0].
    { left. subst m. rewrite Z.pow_0_r in *. lia. }
    assert (g = 1) as ->.
    { destruct (decide (g = 1)) as [|]; [done|]. exfalso.
      pose proof (Z.pow_le_mono_r 10 2 g ltac:(lia) ltac:(lia)). nia. }
    right. rewrite Z.pow_1_r in *. subst m. assert (M / 10 ^ d = 10 ^ 20) as E20 by lia.
    rewrite E20 in *. split; [done|]. lia.
Qed.

(** Normalization of a non-zero 256-bit mantissa ends within 58 iterations, and gives up only
    if the exponent is within its fuel of the end of its range. *)
Lemma normalize_loops_spec (fuel : nat) (M E : Z) :
  58 <= Z.of_nat fuel -> 0 < M < 2 ^ 256 -> i64_ok E ->
  match normalize_loops fuel M E with
  | Loop_done _ m e =>
      10 ^ 20 < m <= 10 ^ 21 /\ i64_ok e /\ Z.abs (e - E) <= Z.of_nat fuel /\
      m * pow10 e <= M * pow10 E /\ (M * pow10 E - m * pow10 e) * 10 ^ 20 < m * pow10 e /\
      (M <= 10 ^ 21 -> m * pow10 e = M * pow10 E) /\
      (M * pow10 E < (m + 1) * pow10 e \/ m = 10 ^ 21 /\ M * pow10 E < (m + 10) * pow10 e)
  | Loop_gives_up => E < i64_min + Z.of_nat fuel \/ i64_max - Z.of_nat fuel < E
  | Loop_out_of_fuel => False
  end.
Proof.
  intros Hfuel HM HE. unfold normalize_loops.
  pose proof (Z.pow_le_mono_r 10 58 (Z.of_nat fuel) ltac:(lia) Hfuel) as H58.
  pose proof (shrink_loop_spec fuel M E ltac:(lia) HE) as Hs.
  destruct (shrink_loop fuel M E) as [f m e| |]; [|lia|done].
  destruct Hs as (d & Hd & Hf & -> & He & -> & Hm & Hd').
  pose proof (Z.pow_pos_nonneg 10 d ltac:(lia) Hd) as H10.
  assert (Hcase : (d = 0 /\ M / 10 ^ d = M) \/ (0 < d < 58 /\ 10 ^ 20 <= M / 10 ^ d)).
  { destruct (decide (0 < d)) as [Hpos|]; [right|left; replace d with 0 by lia; by rewrite Z.div_1_r].
    destruct (Hd' Hpos) as [Hl _]. split; [split; [done|]|done].
    apply (Z.pow_lt_mono_r_iff 10); [lia..|]. pose proof (Z.mul_div_le M (10 ^ d) H10). nia. }
  assert (Hgrow : 10 ^ 20 < M / 10 ^ d * 10 ^ Z.of_nat f).
  { destruct Hcase as [[-> ->]|[Hd58 Hl]].
    - pose proof (Z.pow_le_mono_r 10 58 (Z.of_nat f) ltac:(lia) ltac:(lia)). nia.
    - pose proof (Z.pow_le_mono_r 10 1 (Z.of_nat f) ltac:(lia) ltac:(lia)). nia. }
  pose proof (grow_loop_spec f (M / 10 ^ d) (E + d) ltac:(lia) Hgrow He) as Hg.
  destruct (grow_loop f (M / 10 ^ d) (E + d)) as [f' m' e'| |]; [|lia|done].
  destruct Hg as (g & Hg0 & Hf' & -> & He' & -> & Hm').
  assert (Ev : M / 10 ^ d * 10 ^ g * pow10 (E + d - g) = M / 10 ^ d * (10 ^ d * pow10 E)).
  { rewrite <- Z.mul_assoc, <- pow10_add by (apply He' || lia).
    rewrite <- pow10_add by (apply HE || lia). do 2 f_equal. lia. }
  rewrite Ev. pose proof (truncation_error M d (pow10 E) Hd (pow10_pos E (proj1 HE)) (proj1 HM)
    (fun H => proj1 (Hd' H))) as [T1 T2].
  split_and!; [lia|lia|exact He'|lia|done|done| |].
  - intros HMle. replace d with 0 by (destruct (decide (0 < d)) as [Hp%Hd'|]; lia).
    rewrite Z.pow_0_r, Z.div_1_r. lia.
  - apply (truncation_tight M d g E); [done|done|lia|apply HE|apply He'|lia|].
    destruct Hcase as [[-> _]|[_ ?]]; [by left|by right].
Qed.

Lemma normalize_Some (M E : Z) r :
  0 <= M < 2 ^ 256 -> i64_ok E -> SafeFloat_normalize M E = Some r ->
  normal r /\ scaled r <= M * pow10 E /\ (M * pow10 E - scaled r) * 10 ^ 20 <= scaled r /\
  (M <= 10 ^ 21 -> scaled r = M * pow10 E).
Proof.
  intros HM HE. unfold SafeFloat_normalize. destruct (Z.eqb_spec M 0) as [->|Hne].
  - intros [= <-]. split; [apply normal_zero|]. unfold scaled. simpl. lia.
  - pose proof (normalize_loops_spec normalize_fuel M E ltac:(by vm_compute) ltac:(lia) HE) as Hs.
    destruct (normalize_loops normalize_fuel M E) as [f m e| |]; [|done..]. intros [= <-].
    destruct Hs as (Hm & He & _ & H1 & H2 & H3 & _). unfold scaled. cbn [mantissa exponent].
    rewrite Z.mod_small by lia. split_and!; [right; by split|done|lia|done].
Qed.

Lemma multiple_gap (m n d P : Z) : 0 <= d -> 0 < P -> n * P < m * (10 ^ d * P) -> (n + 1) * P <= m * (10 ^ d * P).
Proof.
  intros Hd HP Hlt. rewrite Z.mul_assoc in *. apply Z.mul_le_mono_nonneg_r; [lia|].
  apply Z.mul_lt_mono_pos_r in Hlt; lia.
Qed.

(** Normalization rounds down: its result is the largest normal number that is at most the
    exact value. *)
Lemma normalize_floor (M E : Z) r x :
  0 <= M < 2 ^ 256 -> i64_ok E -> SafeFloat_normalize M E = Some r ->
  normal x -> scaled x <= M * pow10 E -> scaled x <= scaled r.
Proof.
  intros HM HE. unfold SafeFloat_normalize. destruct (Z.eqb_spec M 0) as [->|Hne].
  { intros [= <-] _ Hx. exact Hx. }
  pose proof (normalize_loops_spec normalize_fuel M E ltac:(by vm_compute) ltac:(lia) HE) as Hs.
  destruct (normalize_loops normalize_fuel M E) as [f m e| |]; [|done..]. intros [= <-].
  destruct Hs as (Hm & He & _ & _ & _ & _ & Ht). unfold scaled at 3. cbn [mantissa exponent].
  rewrite Z.mod_small by lia. pose proof (pow10_pos e (proj1 He)) as PP.
  intros [->|Hx] Hle; [change (scaled SafeFloat_zero) with 0; nia|].
  apply Z.nlt_ge. intros Hlt. assert (Hr : digits_ok {| mantissa := m; exponent := e |}) by (by split).
  assert (He' : e <= exponent x).
  { apply Z.nlt_ge. intros Hex. pose proof (exponent_order _ _ Hx Hr Hex) as Ho.
    unfold scaled in Ho at 2. cbn [mantissa exponent] in Ho. lia. }
  destruct Hx as [Hmx Hex]. unfold scaled in *.
  pose proof (pow10_add e (exponent x - e) (proj1 He) ltac:(lia)) as Ee.
  replace (e + (exponent x - e)) with (exponent x) in Ee by lia. rewrite Ee in *.
  destruct Ht as [Ht|[-> Ht]].
  - pose proof (multiple_gap (mantissa x) m (exponent x - e) (pow10 e) ltac:(lia) PP Hlt). lia.
  - destruct (decide (exponent x = e)) as [E0|Hne'].
    { replace (exponent x - e) with 0 in * by lia. rewrite Z.pow_0_r in *. nia. }
    replace (10 ^ (exponent x - e) * pow10 e) with (10 ^ (exponent x - e - 1) * (10 * pow10 e)) in *
      by (rewrite Z.mul_assoc, (Z.mul_comm _ 10), <- Z.pow_succ_r by lia; do 2 f_equal; lia).
    pose proof (multiple_gap (mantissa x) (10 ^ 20) (exponent x - e - 1) (10 * pow10 e)). lia.
Qed.

Lemma normalize_exponent (M E : Z) r :
  0 <= M < 2 ^ 256 -> i64_ok E -> SafeFloat_normalize M E = Some r ->
  Z.abs (exponent r) <= Z.abs E + 78.
Proof.
  intros HM HE. unfold SafeFloat_normalize. destruct (Z.eqb_spec M 0) as [->|Hne].
  - intros [= <-]. simpl. lia.
  - pose proof (normalize_loops_spec normalize_fuel M E ltac:(by vm_compute) ltac:(lia) HE) as Hs.
    destruct (normalize_loops normalize_fuel M E) as [f m e| |]; [|done..]. intros [= <-].
    change (Z.of_nat normalize_fuel) with 78 in Hs. simpl. lia.
Qed.

Lemma normalize_total (M E : Z) :
  0 <= M < 2 ^ 256 -> i64_min + 78 <= E <= i64_max - 78 -> is_Some (SafeFloat_normalize M E).
Proof.
  intros HM HE. unfold SafeFloat_normalize. destruct (Z.eqb_spec M 0) as [->|Hne]; [done|].
  pose proof (normalize_loops_spec normalize_fuel M E ltac:(by vm_compute) ltac:(lia)
    ltac:(unfold i64_ok; lia)) as Hs. change (Z.of_nat normalize_fuel) with 78 in Hs.
  destruct (normalize_loops normalize_fuel M E) as [f m e| |]; [done|lia|done].
Qed.

(** ** Integers *)

Lemma new_integer (v : Z) :
  0 <= v <= 10 ^ 21 ->
  exists r, SafeFloat_new v 0 = Some r /\ normal r /\ scaled r = v * one /\ Z.abs (exponent r) <= 78.
Proof.
  intros Hv. unfold SafeFloat_new. rewrite MAX_pow, (proj2 (Z.ltb_ge _ _) (proj2 Hv)).
  destruct (normalize_total v 0) as [r Hr]; [lia|unfold i64_min, i64_max; lia|].
  exists r. apply normalize_Some in Hr as E; [|lia|unfold i64_ok, i64_min, i64_max; lia].
  destruct E as (H1 & _ & _ & H4). apply normalize_exponent in Hr as Hx; [|lia|].
  - split_and!; [done|done|apply H4; lia|lia].
  - unfold i64_ok, i64_min, i64_max. lia.
Qed.

Lemma from_u64_spec (v : Z) :
  0 <= v < 2 ^ 64 -> normal (SafeFloat_from_u64 v) /\ scaled (SafeFloat_from_u64 v) = v * one.
Proof.
  intros Hv. destruct (new_integer v ltac:(lia)) as (r & Hr & H1 & H2 & _).
  unfold SafeFloat_from_u64. by rewrite Hr.
Qed.

(** ** Alignment of the smaller operand *)

Lemma cappow10_small (e : Z) : 0 <= e <= 22 -> cappow10 e = 10 ^ e.
Proof.
  intros He. unfold cappow10. change (saturating_add 64 SAFE_FLOAT_MAX_EXP 1) with 22.
  rewrite (proj2 (Z.ltb_ge _ _)) by lia. destruct (Z.eqb_spec e 0) as [->|]; [done|].
  pose proof (Z.pow_le_mono_r 10 e 22 ltac:(lia) ltac:(lia)).
  by rewrite (proj2 (Z.ltb_lt _ _)) by lia.
Qed.
Lemma cappow10_large (e : Z) : 22 < e -> cappow10 e = 10 ^ 22.
Proof.
  intros He. unfold cappow10. change (saturating_add 64 SAFE_FLOAT_MAX_EXP 1) with 22.
  by rewrite (proj2 (Z.ltb_lt _ _)) by lia.
Qed.

Definition aligned (m e f : Z) : Z := default 0 (checked_div m (cappow10 (i64_saturate (f - e)))).

Lemma aligned_spec (b : SafeFloat) (f : Z) :
  digits_ok b -> exponent b <= f -> i64_ok f ->
  let m := aligned (mantissa b) (exponent b) f in
  m * pow10 f <= scaled b < (m + 1) * pow10 f /\ 0 <= m <= mantissa b /\
  (exponent b < f -> m <= 10 ^ 20).
Proof.
  intros [Hm He] Hf Hf64. unfold i64_ok, i64_min, i64_max in *. unfold aligned.
  pose proof (pow10_pos (exponent b)) as HP. unfold i64_min in HP. specialize (HP ltac:(lia)).
  assert (Ef : pow10 f = 10 ^ (f - exponent b) * pow10 (exponent b)).
  { rewrite <- pow10_add by (unfold i64_min; lia). f_equal. lia. }
  rewrite Ef. unfold scaled. set (P := pow10 (exponent b)) in *. set (m := mantissa b) in *.
  unfold i64_saturate, i64_min, i64_max. rewrite Z.max_r by lia.
  destruct (decide (f - exponent b <= 22)) as [Hle|Hgt].
  - rewrite Z.min_l, cappow10_small by lia. set (d := f - exponent b) in *.
    pose proof (Z.pow_pos_nonneg 10 d ltac:(lia) ltac:(lia)) as H10.
    unfold checked_div. rewrite (proj2 (Z.eqb_neq _ _)) by lia. simpl default.
    pose proof (Z.mul_div_le m (10 ^ d) H10). pose proof (Z.mul_succ_div_gt m (10 ^ d) H10).
    split_and!; [nia|nia|apply Z.div_pos; lia|apply Z.div_le_upper_bound; nia|].
    intros Hlt. pose proof (Z.pow_le_mono_r 10 1 d ltac:(lia) ltac:(lia)).
    apply Z.div_le_upper_bound; [done|]. lia.
  - rewrite cappow10_large by lia. unfold checked_div. change (10 ^ 22 =? 0) with false.
    simpl default. rewrite Z.div_small by lia.
    pose proof (Z.pow_le_mono_r 10 22 (f - exponent b) ltac:(lia) ltac:(lia)).
    split_and!; [lia| |lia..]. nia.
Qed.

(** ** Addition *)

(** The sum of a number and a smaller one that is aligned with it. *)
Lemma add_aligned (a b r : SafeFloat) :
  digits_ok a -> digits_ok b -> exponent b <= exponent a ->
  SafeFloat_normalize
    (saturating_add 256 (mantissa a) (aligned (mantissa b) (exponent b) (exponent a)))
    (exponent a) = Some r ->
  normal r /\ scaled r <= scaled a + scaled b /\
  (scaled a + scaled b - scaled r) * 10 ^ 20 <= 2 * (scaled a + scaled b).
Proof.
  intros Ha Hb Hle Hr.
  pose proof (aligned_spec b (exponent a) Hb Hle (proj2 Ha)) as (B1 & B2 & _). simpl in B1, B2.
  set (m2 := aligned (mantissa b) (exponent b) (exponent a)) in *.
  pose proof (digits_scaled a Ha) as [A1 HP]. destruct Ha as [Hma Hea], Hb as [Hmb Heb].
  assert (Esum : saturating_add 256 (mantissa a) m2 = mantissa a + m2)
    by (unfold saturating_add, uint_max; rewrite Z.min_l; lia).
  rewrite Esum in Hr. apply normalize_Some in Hr as (H1 & H2 & H3 & _); [|lia|done].
  unfold scaled in A1 at 1 2. unfold scaled in B1 |- *. split_and!; [done|unfold scaled in H2; nia|].
  unfold scaled in H2, H3. nia.
Qed.

Lemma add_spec (a b r : SafeFloat) :
  normal a -> normal b -> SafeFloat_add a b = Some r ->
  normal r /\ scaled r <= scaled a + scaled b /\
  (scaled a + scaled b - scaled r) * 10 ^ 20 <= 2 * (scaled a + scaled b).
Proof.
  intros Ha Hb. unfold SafeFloat_add.
  pose proof (scaled_nonneg a Ha). pose proof (scaled_nonneg b Hb).
  destruct (normal_cases a Ha) as [[-> ->]|[-> Ha']].
  { intros [= <-]. change (scaled SafeFloat_zero) with 0. split_and!; [done|lia..]. }
  destruct (normal_cases b Hb) as [[-> ->]|[-> Hb']].
  { intros [= <-]. change (scaled SafeFloat_zero) with 0. split_and!; [done|lia..]. }
  destruct (Z.leb_spec (exponent b) (exponent a)) as [Hle|Hgt]; intros Hr.
  - by apply (add_aligned a b r).
  - rewrite (Z.add_comm (scaled a)). apply (add_aligned b a r); [done|done|lia|].
    unfold saturating_add in *. by rewrite Z.add_comm.
Qed.

(** The exact sum on the grid of the larger exponent: the result is the largest normal number
    below it. *)
Definition grid_sum (x y r : SafeFloat) : Prop :=
  exists D, let P := pow10 (Z.max (exponent x) (exponent y)) in
    scaled x <= D * P /\ scaled y <= D * P /\ D * P <= scaled x + scaled y < (D + 1) * P /\
    (forall z, normal z -> scaled z <= D * P -> scaled z <= scaled r).

Lemma add_aligned_grid (a b r : SafeFloat) :
  digits_ok a -> digits_ok b -> exponent b <= exponent a ->
  SafeFloat_normalize
    (saturating_add 256 (mantissa a) (aligned (mantissa b) (exponent b) (exponent a)))
    (exponent a) = Some r -> grid_sum a b r.
Proof.
  intros Ha Hb Hle Hr.
  pose proof (aligned_spec b (exponent a) Hb Hle (proj2 Ha)) as (B1 & B2 & _). simpl in B1, B2.
  set (m2 := aligned (mantissa b) (exponent b) (exponent a)) in *.
  assert (Esum : saturating_add 256 (mantissa a) m2 = mantissa a + m2)
    by (destruct Ha, Hb; unfold saturating_add, uint_max; rewrite Z.min_l; lia).
  rewrite Esum in Hr. exists (mantissa a + m2). rewrite Z.max_l by done.
  pose proof (digits_scaled a Ha) as [A1 HP]. pose proof (digits_scaled b Hb) as [A2 _].
  assert (Hab : scaled b <= (mantissa a + m2) * pow10 (exponent a)).
  { destruct (decide (exponent b < exponent a)) as [Hlt|Heq].
    - pose proof (exponent_order b a Hb Ha Hlt). unfold scaled in *. nia.
    - assert (Ee : exponent b = exponent a) by lia. unfold scaled in *. rewrite Ee in *.
      assert (mantissa b <= m2) by nia. destruct Ha. nia. }
  assert (Ea : scaled a = mantissa a * pow10 (exponent a)) by done.
  destruct Ha as [Hma Hea], Hb as [Hmb Heb].
  split_and!; [nia|done|nia|nia|]. intros z Nz Hz.
  eapply normalize_floor; [|exact Hea|exact Hr|done|done]. lia.
Qed.

Lemma add_grid (a b r : SafeFloat) :
  digits_ok a -> digits_ok b -> SafeFloat_add a b = Some r -> grid_sum a b r.
Proof.
  intros Ha Hb. unfold SafeFloat_add. rewrite (digits_nonzero a Ha), (digits_nonzero b Hb).
  destruct (Z.leb_spec (exponent b) (exponent a)) as [Hle|Hgt]; intros Hr.
  - by apply add_aligned_grid.
  - unfold saturating_add in Hr. rewrite Z.add_comm in Hr.
    destruct (add_aligned_grid b a r Hb Ha ltac:(lia) Hr) as (D & D1 & D2 & D3 & D4).
    exists D. rewrite Z.max_comm. split_and!; [done|done|lia|lia|done].
Qed.

(** A sum is at least each operand, and larger summands have a larger sum, roundings included. *)
Lemma add_ge (a b r : SafeFloat) :
  normal a -> normal b -> SafeFloat_add a b = Some r -> scaled a <= scaled r /\ scaled b <= scaled r.
Proof.
  intros Na Nb Hr. destruct Na as [->|Ha].
  { injection Hr as <-. change (scaled SafeFloat_zero) with 0. split; [by apply scaled_nonneg|done]. }
  destruct Nb as [->|Hb].
  { unfold SafeFloat_add in Hr. rewrite (digits_nonzero a Ha) in Hr. injection Hr as <-.
    split; [done|]. pose proof (scaled_pos a Ha). change (scaled SafeFloat_zero) with 0. lia. }
  destruct (add_grid a b r Ha Hb Hr) as (D & D1 & D2 & _ & D4).
  split; apply D4; [by right|done|by right|done].
Qed.

Lemma add_mono (a b c ra rb : SafeFloat) :
  normal a -> normal b -> normal c -> scaled a <= scaled b ->
  SafeFloat_add a c = Some ra -> SafeFloat_add b c = Some rb -> scaled ra <= scaled rb.
Proof.
  intros Na Nb Nc Hle Ea Eb. destruct (add_ge b c rb Nb Nc Eb) as [Gb Gc].
  destruct (add_spec a c ra Na Nc Ea) as (Nra & Sa & _).
  destruct (decide (scaled ra <= scaled b)) as [|Hb']; [lia|].
  destruct (decide (scaled ra <= scaled c)) as [|Hc']; [lia|].
  pose proof (scaled_nonneg b Nb). pose proof (scaled_nonneg c Nc).
  destruct Nra as [Z|Hra]; [rewrite Z in Hb'; change (scaled SafeFloat_zero) with 0 in Hb'; lia|].
  destruct Nb as [->|Hb]; [change (scaled SafeFloat_zero) with 0 in *; lia|].
  destruct Nc as [->|Hc]; [change (scaled SafeFloat_zero) with 0 in *; lia|].
  destruct (add_grid b c rb Hb Hc Eb) as (D & _ & _ & [D2 D3] & D4).
  set (f := Z.max (exponent b) (exponent c)) in *.
  assert (Hf : f <= exponent ra).
  { assert (Ho : forall x, digits_ok x -> scaled x < scaled ra -> exponent x <= exponent ra).
    { intros x Hx Hlt. apply Z.nlt_ge. intros Hex. pose proof (exponent_order ra x Hra Hx Hex). lia. }
    apply Z.max_lub; apply Ho; (done || lia). }
  assert (Pf : 0 < pow10 f) by (apply pow10_pos; unfold f; destruct Hb as [_ []]; lia).
  apply D4; [by right|]. apply Z.nlt_ge. intros Hlt. unfold scaled in Hlt.
  assert (Ef : pow10 (exponent ra) = 10 ^ (exponent ra - f) * pow10 f).
  { rewrite <- pow10_add by (lia || (unfold f; destruct Hb as [_ []]; lia)). f_equal. lia. }
  rewrite Ef in Hlt. pose proof (multiple_gap _ _ _ _ (Zle_minus_le_0 _ _ Hf) Pf Hlt) as Hgap.
  rewrite <- Ef in Hgap. change (mantissa ra * pow10 (exponent ra)) with (scaled ra) in Hgap. lia.
Qed.

Definition safe_exponent (x : SafeFloat) : Prop := - 2 ^ 62 <= exponent x <= 2 ^ 62.

Lemma add_total (a b : SafeFloat) :
  normal a -> normal b -> safe_exponent a -> safe_exponent b -> is_Some (SafeFloat_add a b).
Proof.
  intros Ha Hb Sa Sb. unfold SafeFloat_add. unfold safe_exponent in *.
  destruct (normal_cases a Ha) as [[-> ->]|[-> Ha']]; [done|].
  destruct (normal_cases b Hb) as [[-> ->]|[-> Hb']]; [done|].
  destruct (Z.leb_spec (exponent b) (exponent a)) as [Hle|Hgt].
  - pose proof (aligned_spec b (exponent a) Hb' Hle (proj2 Ha')) as (_ & B2 & _).
    unfold aligned in B2. simpl in B2. destruct Ha' as [Hma _], Hb' as [Hmb _].
    apply normalize_total; [unfold saturating_add, uint_max; lia|unfold i64_min, i64_max; lia].
  - pose proof (aligned_spec a (exponent b) Ha' ltac:(lia) (proj2 Hb')) as (_ & B2 & _).
    unfold aligned in B2. simpl in B2. destruct Ha' as [Hma _], Hb' as [Hmb _].
    apply normalize_total; [unfold saturating_add, uint_max; lia|unfold i64_min, i64_max; lia].
Qed.

(** ** Subtraction *)

Lemma sub_arith (ma m2 P Sb : Z) :
  0 < P -> 10 ^ 20 < ma -> 0 <= m2 -> m2 * P <= Sb < (m2 + 1) * P ->
  Z.max 0 (ma * P - Sb) <= Z.max (ma - m2) 0 * P /\
  (Z.max (ma - m2) 0 * P - Z.max 0 (ma * P - Sb)) * 10 ^ 20 <= ma * P /\
  (ma * P <= Sb -> Z.max (ma - m2) 0 * P <= 0).
Proof.
  intros HP Hma Hm2 [Hlo Hhi]. destruct (decide (m2 <= ma)) as [Hm|Hm].
  - rewrite (Z.max_l (ma - m2)) by lia. destruct (decide (ma * P <= Sb)) as [Hle|Hgt].
    + assert (ma = m2) as -> by nia. lia.
    + rewrite Z.max_r by lia. split_and!; nia.
  - rewrite (Z.max_r (ma - m2)) by lia. assert (ma * P <= Sb) by nia. lia.
Qed.

Lemma sub_spec (a b r : SafeFloat) :
  normal a -> normal b -> SafeFloat_sub a b = Some r ->
  normal r /\ Z.max 0 (scaled a - scaled b) <= scaled r /\
  (scaled r - Z.max 0 (scaled a - scaled b)) * 10 ^ 20 <= scaled a /\
  (scaled a <= scaled b -> r = SafeFloat_zero).
Proof.
  intros Ha Hb. unfold SafeFloat_sub.
  pose proof (scaled_nonneg a Ha). pose proof (scaled_nonneg b Hb).
  destruct (normal_cases a Ha) as [[-> ->]|[-> Ha']], (normal_cases b Hb) as [[-> ->]|[-> Hb']];
    cbn [andb]; [|done|..].
  { intros [= <-]. change (scaled SafeFloat_zero) with 0. split_and!; [done|lia..|done]. }
  { intros [= <-]. change (scaled SafeFloat_zero) with 0. pose proof (scaled_pos a Ha').
    split_and!; [done|lia..]. }
  destruct (Z.leb_spec (exponent b) (exponent a)) as [Hle|Hgt]; intros Hr.
  - pose proof (aligned_spec b (exponent a) Hb' Hle (proj2 Ha')) as (B1 & B2 & _).
    unfold aligned in B1, B2. simpl in B1, B2. set (m2 := default 0 (checked_div _ _)) in *.
    pose proof (digits_scaled a Ha') as [_ HP]. destruct Ha' as [Hma Hea].
    apply normalize_Some in Hr as (H1 & _ & _ & H4); [|unfold saturating_sub; lia|done].
    specialize (H4 ltac:(unfold saturating_sub; lia)). unfold saturating_sub in H4.
    pose proof (sub_arith _ _ _ _ HP (proj1 Hma) (proj1 B2) B1) as (S1 & S2 & S3).
    fold (scaled a) in S1, S2, S3. rewrite <- H4 in S1, S2, S3.
    split_and!; [done..|]. intros Hs. by apply scaled_zero_inv; [|apply S3].
  - pose proof (aligned_spec a (exponent b) Ha' ltac:(lia) (proj2 Hb')) as (_ & _ & B3).
    unfold aligned in B3. simpl in B3. specialize (B3 Hgt).
    pose proof (exponent_order a b Ha' Hb' Hgt) as Hlt. pose proof (scaled_pos a Ha').
    assert (r = SafeFloat_zero) as ->.
    { destruct Hb' as [Hmb _]. unfold saturating_sub in Hr. rewrite Z.max_r in Hr by lia.
      unfold SafeFloat_normalize in Hr. simpl in Hr. congruence. }
    change (scaled SafeFloat_zero) with 0. split_and!; [by left|lia..|done].
Qed.

Lemma sub_total (a b : SafeFloat) :
  digits_ok a -> normal b -> safe_exponent a -> safe_exponent b -> is_Some (SafeFloat_sub a b).
Proof.
  intros Ha Hb Sa Sb. unfold SafeFloat_sub. unfold safe_exponent in *.
  rewrite (digits_nonzero a Ha). cbn [andb].
  destruct (normal_cases b Hb) as [[-> ->]|[-> Hb']]; [done|].
  destruct (Z.leb_spec (exponent b) (exponent a)) as [Hle|Hgt].
  - pose proof (aligned_spec b (exponent a) Hb' Hle (proj2 Ha)) as (_ & B2 & _).
    unfold aligned in B2. simpl in B2. destruct Ha as [Hma _], Hb' as [Hmb _].
    apply normalize_total; [unfold saturating_sub; lia|unfold i64_min, i64_max; lia].
  - pose proof (aligned_spec a (exponent b) Ha ltac:(lia) (proj2 Hb')) as (_ & B2 & _).
    unfold aligned in B2. simpl in B2. destruct Ha as [Hma _], Hb' as [Hmb _].
    apply normalize_total; [unfold saturating_sub; lia|unfold i64_min, i64_max; lia].
Qed.

(** ** Multiplication followed by division *)

(** [q] is the truncated quotient [p / m], [R] its normalization. *)
Lemma quotient_error (p m q R P W : Z) :
  0 < m -> 0 < P -> 0 < W -> 10 ^ 19 <= q -> q * m <= p < (q + 1) * m ->
  0 <= R <= q * P -> (q * P - R) * 10 ^ 20 <= R ->
  R * (m * W) <= p * (P * W) /\
  (p * (P * W) - R * (m * W)) * (5 * 10 ^ 18) <= p * (P * W).
Proof.
  intros Hm HP HW Hq Hp HR Herr.
  assert (HT : R * (m * W) <= q * P * (m * W)) by (apply Z.mul_le_mono_nonneg_r; nia).
  assert (HT' : (q * P * (m * W) - R * (m * W)) * 10 ^ 20 <= R * (m * W)).
  { replace ((q * P * (m * W) - R * (m * W)) * 10 ^ 20) with ((q * P - R) * 10 ^ 20 * (m * W)) by lia.
    apply Z.mul_le_mono_nonneg_r; nia. }
  assert (HQ : q * m * (P * W) <= p * (P * W)) by (apply Z.mul_le_mono_nonneg_r; nia).
  assert (HQ' : (p - q * m) * (P * W) <= m * (P * W)) by (apply Z.mul_le_mono_nonneg_r; nia).
  assert (HQ'' : 10 ^ 19 * (m * (P * W)) <= q * (m * (P * W))) by (apply Z.mul_le_mono_nonneg_r; nia).
  lia.
Qed.

Lemma mul_div_digits (s a b r : SafeFloat) :
  digits_ok s -> digits_ok a -> digits_ok b -> SafeFloat_mul_div s a b = Some r ->
  normal r /\ scaled r * scaled b <= scaled s * scaled a /\
  (scaled s * scaled a - scaled r * scaled b) * (5 * 10 ^ 18) <= scaled s * scaled a.
Proof.
  intros [Hs Es] [Ha Ea] [Hb Eb]. unfold SafeFloat_mul_div.
  rewrite (proj2 (Z.eqb_neq _ _)) by lia. intros H.
  apply bind_Some in H as (e1 & [-> E1]%i64_checked_Some & H).
  apply bind_Some in H as (e2 & [-> E2]%i64_checked_Some & H).
  assert (Hprod : mantissa s * mantissa a < 2 ^ 256) by nia.
  unfold checked_mul, checked_div in H. rewrite (proj2 (Z.ltb_lt _ _) Hprod) in H.
  rewrite (proj2 (Z.eqb_neq _ _)) in H by lia. simpl default in H.
  pose proof (Z.mul_div_le (mantissa s * mantissa a) (mantissa b) ltac:(lia)) as D1.
  pose proof (Z.mul_succ_div_gt (mantissa s * mantissa a) (mantissa b) ltac:(lia)) as D2.
  assert (D3 : 10 ^ 19 <= mantissa s * mantissa a / mantissa b) by (apply Z.div_le_lower_bound; nia).
  set (q := mantissa s * mantissa a / mantissa b) in *.
  apply normalize_Some in H as (H1 & H2 & H3 & _); [|nia|done].
  split; [done|]. set (e := exponent s + exponent a - exponent b) in *.
  assert (Ep : pow10 e * pow10 (exponent b) = pow10 (exponent s) * pow10 (exponent a)).
  { apply pow10_mul; unfold i64_ok in *; lia. }
  replace (scaled s * scaled a) with (mantissa s * mantissa a * (pow10 e * pow10 (exponent b)))
    by (unfold scaled; rewrite Ep; lia).
  apply (quotient_error _ _ q); [lia|apply pow10_pos, E2|apply pow10_pos, Eb|done|lia| |done].
  split; [by apply scaled_nonneg|done].
Qed.

Lemma mul_div_spec (s a b r : SafeFloat) :
  normal s -> normal a -> digits_ok b -> SafeFloat_mul_div s a b = Some r ->
  normal r /\ scaled r * scaled b <= scaled s * scaled a /\
  (scaled s * scaled a - scaled r * scaled b) * (5 * 10 ^ 18) <= scaled s * scaled a.
Proof.
  intros Hs Ha Hb H.
  assert (Hzero : mantissa s * mantissa a = 0 -> r = SafeFloat_zero).
  { intros Hz. unfold SafeFloat_mul_div in H. destruct Hb as [Hmb _].
    rewrite (proj2 (Z.eqb_neq _ _)) in H by lia.
    apply bind_Some in H as (e1 & _ & H). apply bind_Some in H as (e2 & _ & H).
    unfold checked_mul, checked_div in H. rewrite Hz in H. simpl default in H.
    rewrite (proj2 (Z.eqb_neq _ _)) in H by lia. by injection H as <-. }
  destruct Hs as [->|Hs]; [|destruct Ha as [->|Ha]; [|by apply mul_div_digits]].
  - rewrite Hzero by done. change (scaled SafeFloat_zero) with 0. split_and!; [by left|lia..].
  - rewrite Hzero by (simpl; lia). change (scaled SafeFloat_zero) with 0. split_and!; [by left|lia..].
Qed.

Lemma mul_div_total (s a b : SafeFloat) :
  normal s -> normal a -> digits_ok b ->
  - 2 ^ 61 <= exponent s <= 2 ^ 61 -> - 2 ^ 61 <= exponent a <= 2 ^ 61 -> - 2 ^ 61 <= exponent b <= 2 ^ 61 ->
  is_Some (SafeFloat_mul_div s a b).
Proof.
  intros Hs Ha Hb Xs Xa Xb. unfold SafeFloat_mul_div.
  assert (Hmb : mantissa b <> 0) by (destruct Hb; lia). rewrite (proj2 (Z.eqb_neq _ _) Hmb).
  assert (Hm : forall x, normal x -> 0 <= mantissa x <= 10 ^ 21).
  { intros x [->|[? _]]; [simpl; lia|lia]. }
  pose proof (Hm s Hs). pose proof (Hm a Ha).
  assert (E1 : i64_checked (exponent s + exponent a) = Some (exponent s + exponent a)).
  { apply i64_checked_Some. unfold i64_ok, i64_min, i64_max. lia. }
  rewrite E1. cbn [mbind option_bind].
  assert (E2 : i64_checked (exponent s + exponent a - exponent b) = Some (exponent s + exponent a - exponent b)).
  { apply i64_checked_Some. unfold i64_ok, i64_min, i64_max. lia. }
  rewrite E2. cbn [mbind option_bind]. unfold checked_mul, checked_div.
  rewrite (proj2 (Z.ltb_lt _ _)) by nia. rewrite (proj2 (Z.eqb_neq _ _) Hmb). simpl default.
  apply normalize_total; [|unfold i64_min, i64_max; lia].
  destruct Hb as [Hb _]. split; [apply Z.div_pos; nia|apply Z.div_lt_upper_bound; nia].
Qed.

(** ** Conversions *)

Lemma one_split (e : Z) : i64_ok e -> e <= 0 -> one = 10 ^ (- e) * pow10 e.
Proof. intros He Hle. unfold one. rewrite <- pow10_add by (apply He || lia). f_equal. lia. Qed.

Lemma cappow10_pos (e : Z) : 0 <= e -> 0 < cappow10 e.
Proof.
  intros He. destruct (decide (e <= 22));
    [rewrite cappow10_small by lia|rewrite cappow10_large by lia]; apply Z.pow_pos_nonneg; lia.
Qed.

(** The scaled mantissa is the integer part of the value, or both exceed [u64]. *)
Lemma u64_up (x : SafeFloat) (q := saturating_mul 256 (mantissa x) (cappow10 (Z.abs (exponent x)))) :
  digits_ok x -> 0 < exponent x ->
  0 <= q /\ (q = scaled x / one \/ (2 ^ 64 <= q /\ 2 ^ 64 <= scaled x / one)).
Proof.
  intros [Hm He] Hpos. pose proof one_pos as H1.
  assert (E : scaled x / one = mantissa x * 10 ^ exponent x).
  { unfold scaled. replace (exponent x) with (0 + exponent x) at 1 by lia.
    rewrite pow10_add by (unfold i64_min; lia). fold one. by rewrite Z.mul_assoc, Z.div_mul by lia. }
  pose proof (cappow10_pos (Z.abs (exponent x)) ltac:(lia)).
  rewrite E. subst q. rewrite Z.abs_eq in * by lia. unfold saturating_mul, uint_max.
  split; [nia|]. destruct (decide (exponent x <= 22)) as [Hle|Hgt].
  - rewrite cappow10_small by lia. left.
    pose proof (Z.pow_le_mono_r 10 (exponent x) 22 ltac:(lia) ltac:(lia)).
    pose proof (Z.pow_nonneg 10 (exponent x) ltac:(lia)). rewrite Z.min_l; nia.
  - rewrite cappow10_large by lia. right.
    pose proof (Z.pow_le_mono_r 10 22 (exponent x) ltac:(lia) ltac:(lia)). split; nia.
Qed.

Lemma u64_down (x : SafeFloat) :
  digits_ok x -> exponent x <= 0 ->
  default 0 (checked_div (mantissa x) (cappow10 (Z.abs (exponent x)))) = scaled x / one.
Proof.
  intros [Hm He] Hneg. unfold scaled. rewrite (one_split (exponent x) He) by lia.
  pose proof (pow10_pos (exponent x) (proj1 He)).
  pose proof (cappow10_pos (Z.abs (exponent x)) ltac:(lia)).
  rewrite Z.div_mul_cancel_r by (try apply Z.pow_nonzero; lia).
  unfold checked_div. rewrite (proj2 (Z.eqb_neq _ _)) by lia. simpl default.
  rewrite Z.abs_neq by lia. destruct (decide (- exponent x <= 22)) as [Hle|Hgt].
  - by rewrite cappow10_small by lia.
  - rewrite cappow10_large by lia.
    pose proof (Z.pow_le_mono_r 10 22 (- exponent x) ltac:(lia) ltac:(lia)).
    by rewrite !Z.div_small by lia.
Qed.

Lemma u64_from_digits (x : SafeFloat) :
  digits_ok x -> u64_from_SafeFloat x = Z.min (scaled x / one) (2 ^ 64 - 1).
Proof.
  intros Hx. pose proof one_pos. pose proof (scaled_pos x Hx).
  assert (0 <= scaled x / one) by (apply Z.div_pos; lia).
  unfold u64_from_SafeFloat, saturated_into. change (uint_max 64) with (2 ^ 64 - 1).
  destruct (Z.eqb_spec (exponent x) 0) as [E|Hne].
  { unfold scaled in *. rewrite E in *. fold one in *. by rewrite Z.div_mul by lia. }
  destruct (Z.ltb_spec 0 (exponent x)) as [Hpos|Hneg].
  - pose proof (u64_up x Hx Hpos) as [Hq Hcase]. cbv zeta in Hq, Hcase.
    destruct (Z.eqb_spec (saturating_mul 256 (mantissa x) (cappow10 (Z.abs (exponent x)))) 0); lia.
  - rewrite u64_down by (done || lia). destruct (Z.eqb_spec (scaled x / one) 0); lia.
Qed.

(** The conversion to [u64] is the floor, cut at the largest [u64]. *)
Lemma u64_from_spec (x : SafeFloat) :
  normal x -> u64_from_SafeFloat x = Z.min (scaled x / one) (2 ^ 64 - 1).
Proof.
  intros [->|Hx]; [|by apply u64_from_digits]. pose proof one_pos.
  change (scaled SafeFloat_zero) with 0. rewrite Z.div_0_l by lia. done.
Qed.

Lemma gt_digits (a b : SafeFloat) :
  digits_ok a -> digits_ok b -> SafeFloat_gt a b = true <-> scaled b < scaled a.
Proof.
  intros Ha Hb. unfold SafeFloat_gt. unfold saturating_mul, uint_max, i64_saturate, i64_min, i64_max.
  destruct (Z.eqb_spec (exponent a) (exponent b)) as [E|Hne].
  - rewrite Z.ltb_lt. unfold scaled. rewrite E. pose proof (pow10_pos (exponent b)) as HP.
    destruct Hb as [_ [Hb _]]. specialize (HP Hb). nia.
  - destruct (Z.ltb_spec (exponent b) (exponent a)) as [Hlt|Hge].
    + pose proof (exponent_order b a Hb Ha Hlt). destruct Ha as [Ha _], Hb as [Hb _].
      destruct (Z.ltb_spec 1 (Z.max (- 2 ^ 63) (Z.min (exponent a - exponent b) (2 ^ 63 - 1)))); [done|].
      rewrite Z.ltb_lt, Z.min_l; lia.
    + pose proof (exponent_order a b Ha Hb ltac:(lia)). destruct Ha as [Ha _], Hb as [Hb _].
      destruct (Z.ltb_spec 1 (Z.max (- 2 ^ 63) (Z.min (exponent b - exponent a) (2 ^ 63 - 1)))).
      * split; [done|lia].
      * rewrite Z.ltb_lt, Z.min_l; lia.
Qed.

(** Zero counts as greater than every number below [10 ^ 20]: its exponent is the one of
    large integers. *)
Lemma gt_zero (x : SafeFloat) :
  digits_ok x -> SafeFloat_gt SafeFloat_zero x = true <-> exponent x < -1.
Proof.
  intros [Hm He]. unfold i64_ok, i64_min, i64_max in He.
  unfold SafeFloat_gt, i64_saturate, i64_min, i64_max, saturating_mul, uint_max. cbn [exponent mantissa SafeFloat_zero].
  destruct (Z.eqb_spec 0 (exponent x)) as [E|Hne]; [rewrite Z.ltb_lt; lia|].
  destruct (Z.ltb_spec (exponent x) 0) as [Hlt|Hge].
  - destruct (Z.ltb_spec 1 (Z.max (- 2 ^ 63) (Z.min (0 - exponent x) (2 ^ 63 - 1)))).
    + split; [lia|done].
    + rewrite Z.ltb_lt. lia.
  - destruct (Z.ltb_spec 1 (Z.max (- 2 ^ 63) (Z.min (exponent x - 0) (2 ^ 63 - 1)))); [split; [done|lia]|].
    rewrite Z.ltb_lt. lia.
Qed.

(** ** Division *)

Lemma div_digits (a b r : SafeFloat) :
  digits_ok a -> digits_ok b -> SafeFloat_div a b = Some r ->
  normal r /\ scaled r * scaled b <= scaled a * one /\
  (scaled a * one - scaled r * scaled b) * (5 * 10 ^ 18) <= scaled a * one.
Proof.
  intros [Ha Ea] [Hb Eb]. unfold SafeFloat_div. change SAFE_FLOAT_MAX_EXP with 21. rewrite MAX_pow.
  set (e := exponent a - exponent b - 21).
  destruct (Z.ltb_spec i64_max e) as [|He1]; [done|]. destruct (Z.ltb_spec e i64_min) as [|He2]; [done|].
  simpl orb. cbn iota. unfold checked_mul, checked_div.
  rewrite (proj2 (Z.ltb_lt _ _)) by lia. cbn [mbind option_bind].
  rewrite (proj2 (Z.eqb_neq _ _)) by lia. cbn [mbind option_bind]. intros H.
  pose proof (Z.mul_div_le (mantissa a * 10 ^ 21) (mantissa b) ltac:(lia)) as D1.
  pose proof (Z.mul_succ_div_gt (mantissa a * 10 ^ 21) (mantissa b) ltac:(lia)) as D2.
  assert (D3 : 10 ^ 19 <= mantissa a * 10 ^ 21 / mantissa b) by (apply Z.div_le_lower_bound; lia).
  set (q := mantissa a * 10 ^ 21 / mantissa b) in *.
  assert (Hq : q < 2 ^ 256) by nia.
  apply normalize_Some in H as (H1 & H2 & H3 & _); [|lia|by split].
  split; [done|].
  assert (Ep : pow10 e * pow10 (exponent b) = pow10 (exponent a) * pow10 (-21)).
  { apply pow10_mul; unfold i64_ok, i64_min in *; lia. }
  assert (E1 : one = 10 ^ 21 * pow10 (-21)) by (apply (one_split (-21)); unfold i64_ok, i64_min, i64_max; lia).
  replace (scaled a * one) with (mantissa a * 10 ^ 21 * (pow10 e * pow10 (exponent b)))
    by (unfold scaled; rewrite Ep, E1; lia).
  apply (quotient_error _ _ q); [lia|by apply pow10_pos|apply pow10_pos, Eb|done|lia| |done].
  split; [by apply scaled_nonneg|done].
Qed.

Lemma div_spec (a b r : SafeFloat) :
  normal a -> normal b -> SafeFloat_div a b = Some r ->
  normal r /\ scaled r * scaled b <= scaled a * one /\
  (scaled a * one - scaled r * scaled b) * (5 * 10 ^ 18) <= scaled a * one.
Proof.
  intros Ha [->|Hb] H.
  { exfalso. revert H. unfold SafeFloat_div. cbn [SafeFloat_zero mantissa].
    destruct (_ || _); [done|]. destruct (checked_mul _ _ _); done. }
  destruct Ha as [->|Ha]; [|by apply div_digits].
  assert (r = SafeFloat_zero) as ->.
  { revert H. unfold SafeFloat_div. cbn [SafeFloat_zero mantissa]. destruct (_ || _); [done|].
    change (checked_mul 256 0 SAFE_FLOAT_MAX) with (Some 0). cbn [mbind option_bind].
    destruct Hb as [Hb _]. unfold checked_div. rewrite (proj2 (Z.eqb_neq _ _)) by lia.
    cbn [mbind option_bind]. by intros [= <-]. }
  change (scaled SafeFloat_zero) with 0. split_and!; [by left|lia..].
Qed.

(** ** Exponents of results *)

Lemma normal_mantissa (x : SafeFloat) : normal x -> 0 <= mantissa x <= 10 ^ 21.
Proof. intros [->|[? _]]; [simpl; lia|lia]. Qed.

Lemma mul_div_exponent (s a b r : SafeFloat) :
  normal s -> normal a -> digits_ok b -> SafeFloat_mul_div s a b = Some r ->
  Z.abs (exponent r) <= Z.abs (exponent s) + Z.abs (exponent a) + Z.abs (exponent b) + 78.
Proof.
  intros Hs Ha [Hb _]. unfold SafeFloat_mul_div. rewrite (proj2 (Z.eqb_neq _ _)) by lia. intros H.
  apply bind_Some in H as (e1 & [-> E1]%i64_checked_Some & H).
  apply bind_Some in H as (e2 & [-> E2]%i64_checked_Some & H).
  pose proof (normal_mantissa s Hs). pose proof (normal_mantissa a Ha).
  unfold checked_mul, checked_div in H. rewrite (proj2 (Z.ltb_lt _ _)) in H by nia.
  rewrite (proj2 (Z.eqb_neq _ _)) in H by lia. simpl default in H.
  apply normalize_exponent in H; [lia| |done].
  split; [apply Z.div_pos; nia|apply Z.div_lt_upper_bound; nia].
Qed.

Lemma add_exponent (a b r : SafeFloat) :
  normal a -> normal b -> SafeFloat_add a b = Some r ->
  Z.abs (exponent r) <= Z.max (Z.abs (exponent a)) (Z.abs (exponent b)) + 78.
Proof.
  intros Ha Hb. unfold SafeFloat_add.
  destruct (normal_cases a Ha) as [[-> ->]|[-> Ha']]; [intros [= <-]; simpl; lia|].
  destruct (normal_cases b Hb) as [[-> ->]|[-> Hb']]; [intros [= <-]; simpl; lia|].
  destruct (Z.leb_spec (exponent b) (exponent a)) as [Hle|Hgt]; intros H.
  - pose proof (aligned_spec b (exponent a) Hb' Hle (proj2 Ha')) as (_ & B2 & _).
    unfold aligned in B2. simpl in B2. destruct Ha' as [Hma Hea], Hb' as [Hmb _].
    apply normalize_exponent in H; [lia|unfold saturating_add, uint_max; lia|done].
  - pose proof (aligned_spec a (exponent b) Ha' ltac:(lia) (proj2 Hb')) as (_ & B2 & _).
    unfold aligned in B2. simpl in B2. destruct Ha' as [Hma _], Hb' as [Hmb Heb].
    apply normalize_exponent in H; [lia|unfold saturating_add, uint_max; lia|done].
Qed.

Lemma sub_exponent (a b r : SafeFloat) :
  normal a -> normal b -> SafeFloat_sub a b = Some r ->
  Z.abs (exponent r) <= Z.max (Z.abs (exponent a)) (Z.abs (exponent b)) + 78.
Proof.
  intros Ha Hb. unfold SafeFloat_sub.
  destruct (normal_cases a Ha) as [[-> ->]|[-> Ha']], (normal_cases b Hb) as [[-> ->]|[-> Hb']];
    cbn [andb]; [intros [= <-]; simpl; lia|done|intros [= <-]; simpl; lia|].
  destruct (Z.leb_spec (exponent b) (exponent a)) as [Hle|Hgt]; intros H.
  - pose proof (aligned_spec b (exponent a) Hb' Hle (proj2 Ha')) as (_ & B2 & _).
    unfold aligned in B2. simpl in B2. destruct Ha' as [Hma Hea], Hb' as [Hmb _].
    apply normalize_exponent in H; [lia|unfold saturating_sub; lia|done].
  - pose proof (aligned_spec a (exponent b) Ha' ltac:(lia) (proj2 Hb')) as (_ & B2 & _).
    unfold aligned in B2. simpl in B2. destruct Ha' as [Hma _], Hb' as [Hmb Heb].
    apply normalize_exponent in H; [lia|unfold saturating_sub; lia|done].
Qed.

(** ** Subtraction is monotone *)

(** The aligned subtrahend is the multiple of the unit below it. *)
Lemma aligned_div (b : SafeFloat) (f : Z) :
  digits_ok b -> exponent b <= f -> i64_ok f ->
  aligned (mantissa b) (exponent b) f = scaled b / pow10 f.
Proof.
  intros Hb Hle Hf. pose proof (aligned_spec b f Hb Hle Hf) as (B1 & _). simpl in B1.
  pose proof (pow10_pos f (proj1 Hf)).
  apply (Z.div_unique_pos _ _ _ (scaled b - aligned (mantissa b) (exponent b) f * pow10 f)); lia.
Qed.

Lemma aligned_coarser (b : SafeFloat) (f g : Z) :
  digits_ok b -> exponent b <= f -> f <= g -> i64_ok f -> i64_ok g ->
  aligned (mantissa b) (exponent b) g * pow10 g <= aligned (mantissa b) (exponent b) f * pow10 f.
Proof.
  intros Hb Hf Hg Of Og. rewrite !aligned_div by (done || lia).
  pose proof (pow10_pos f (proj1 Of)) as Pf.
  assert (Eg : pow10 g = pow10 f * 10 ^ (g - f)).
  { rewrite Z.mul_comm, <- pow10_add by (apply Of || lia). f_equal. lia. }
  pose proof (Z.pow_pos_nonneg 10 (g - f) ltac:(lia) ltac:(lia)) as Pd.
  rewrite Eg, <- Z.div_div by lia.
  pose proof (Z.mul_div_le (scaled b / pow10 f) (10 ^ (g - f)) Pd). nia.
Qed.

(** What is left of a number after a subtraction, when the subtrahend has no larger exponent. *)
Lemma sub_exact (a b r : SafeFloat) :
  digits_ok a -> digits_ok b -> exponent b <= exponent a -> SafeFloat_sub a b = Some r ->
  scaled r = Z.max (scaled a - aligned (mantissa b) (exponent b) (exponent a) * pow10 (exponent a)) 0.
Proof.
  intros Ha Hb Hle. unfold SafeFloat_sub. rewrite (digits_nonzero a Ha), (digits_nonzero b Hb).
  cbn [andb]. rewrite (proj2 (Z.leb_le _ _) Hle).
  fold (aligned (mantissa b) (exponent b) (exponent a)). intros H.
  pose proof (aligned_spec b (exponent a) Hb Hle (proj2 Ha)) as (_ & B2 & _). simpl in B2.
  pose proof (digits_scaled a Ha) as [_ HP]. destruct Ha as [Hma Hea].
  apply normalize_Some in H as (_ & _ & _ & H4); [|unfold saturating_sub; lia|done].
  rewrite H4 by (unfold saturating_sub; lia). unfold saturating_sub, scaled. nia.
Qed.

Lemma sub_mono (a b c ra rb : SafeFloat) :
  normal a -> normal b -> normal c -> scaled a <= scaled b ->
  SafeFloat_sub a c = Some ra -> SafeFloat_sub b c = Some rb -> scaled ra <= scaled rb.
Proof.
  intros Na Nb Nc Hle Ea Eb.
  destruct (sub_spec a c ra Na Nc Ea) as (Nra & _ & _ & Za).
  destruct (sub_spec b c rb Nb Nc Eb) as (Nrb & _ & _ & _).
  pose proof (scaled_nonneg rb Nrb) as Hrb.
  destruct (decide (scaled a <= scaled c)) as [Hac|Hac]; [rewrite (Za Hac); exact Hrb|].
  destruct (normal_cases c Nc) as [[_ ->]|[_ Hc]].
  { assert (forall x r, normal x -> SafeFloat_sub x SafeFloat_zero = Some r -> r = x) as Hid.
    { intros x r Nx H. unfold SafeFloat_sub in H. destruct (normal_cases x Nx) as [[Z ->]|[Z _]];
        rewrite Z in H; simpl in H; congruence. }
    by rewrite (Hid a ra Na Ea), (Hid b rb Nb Eb). }
  pose proof (scaled_pos c Hc).
  destruct Na as [->|Ha]; [change (scaled SafeFloat_zero) with 0 in Hac; lia|].
  destruct Nb as [->|Hb]; [change (scaled SafeFloat_zero) with 0 in Hle; lia|].
  assert (Xac : exponent c <= exponent a).
  { destruct (decide (exponent c <= exponent a)); [done|].
    pose proof (exponent_order a c Ha Hc ltac:(lia)). lia. }
  assert (Xab : exponent a <= exponent b).
  { destruct (decide (exponent a <= exponent b)); [done|].
    pose proof (exponent_order b a Hb Ha ltac:(lia)). lia. }
  rewrite (sub_exact a c ra), (sub_exact b c rb) by (done || lia).
  pose proof (aligned_coarser c (exponent a) (exponent b) Hc Xac Xab (proj2 Ha) (proj2 Hb)). lia.
Qed.

(** ** The properties *)

Lemma new_normal (m e : Z) (r : SafeFloat) :
  0 <= m -> i64_ok e -> SafeFloat_new m e = Some r -> normal r.
Proof.
  intros Hm He. unfold SafeFloat_new. rewrite MAX_pow. destruct (Z.ltb_spec (10 ^ 21) m); [done|].
  intros H'. by apply normalize_Some in H' as [? _]; [|lia|].
Qed.

Lemma default_normal (o : option SafeFloat) :
  (forall r, o = Some r -> normal r) -> normal (default SafeFloat_zero o).
Proof. destruct o; [intros H; by apply H|intros _; apply normal_zero]. Qed.

Lemma from_U64F64_normal (bits : Z) : 0 <= bits < 2 ^ 128 -> normal (SafeFloat_from_U64F64 bits).
Proof.
  intros Hb. unfold SafeFloat_from_U64F64. destruct (Z.eqb bits 0); [apply normal_zero|].
  assert (H0 : i64_ok 0) by (unfold i64_ok, i64_min, i64_max; lia).
  assert (Hnew : forall m, 0 <= m -> normal (default SafeFloat_zero (SafeFloat_new m 0))).
  { intros m Hm. apply default_normal. intros r. by apply new_normal. }
  apply default_normal. intros r Hr. apply add_spec in Hr as [Hr _]; [done| |].
  - apply Hnew. rewrite Z.shiftr_div_pow2 by lia. apply Z.div_pos; lia.
  - apply default_normal. intros r' Hr'. apply div_spec in Hr' as [Hr' _]; [done| |].
    + apply Hnew. apply Z.land_nonneg. lia.
    + apply Hnew. lia.
Qed.

(** Every number that the operations return is normal: it is zero, or its mantissa has the
    full 21 digits and its exponent fits an [i64]. *)
Theorem safefloat_closed (a b c r : SafeFloat) (m e bits v : Z) :
  normal a -> normal b -> normal c -> 0 <= m -> i64_min <= e <= i64_max ->
  0 <= bits < 2 ^ 128 -> 0 <= v < 2 ^ 64 ->
  (SafeFloat_new m e = Some r \/ SafeFloat_add a b = Some r \/ SafeFloat_sub a b = Some r \/
   SafeFloat_div a b = Some r \/ SafeFloat_mul_div a b c = Some r \/
   r = SafeFloat_from_U64F64 bits \/ r = SafeFloat_from_u64 v) ->
  normal r.
Proof.
  intros Ha Hb Hc Hm He Hbits Hv [H|[H|[H|[H|[H|[->| ->]]]]]].
  - by apply new_normal in H.
  - by apply add_spec in H as [? _].
  - by apply sub_spec in H as [? _].
  - by apply div_spec in H as [? _].
  - destruct Hc as [->|Hc]; [done|]. by apply mul_div_spec in H as [? _].
  - by apply from_U64F64_normal.
  - by apply from_u64_spec.
Qed.

(** C39 The two loops of [normalize] terminate: whatever 256-bit mantissa they start with, 58
    iterations together are enough (the source promises 78), and they give up only if the
    exponent is that close to the end of its range. *)
Theorem normalize_terminates (new_mantissa new_exponent : Z) (fuel : nat) :
  0 < new_mantissa < 2 ^ 256 -> i64_min <= new_exponent <= i64_max -> (58 <= fuel)%nat ->
  normalize_loops fuel new_mantissa new_exponent <> Loop_out_of_fuel /\
  (i64_min + Z.of_nat fuel <= new_exponent <= i64_max - Z.of_nat fuel ->
   exists left m e, normalize_loops fuel new_mantissa new_exponent = Loop_done left m e).
Proof.
  intros HM HE Hf. pose proof (normalize_loops_spec fuel new_mantissa new_exponent ltac:(lia) HM HE) as Hs.
  destruct (normalize_loops fuel new_mantissa new_exponent) as [left m e| |]; [|split; [done|lia]|done].
  split; [done|]. intros _. by exists left, m, e.
Qed.

(** With exponents away from the ends of their range the operations return a number. *)
Definition workable (x : SafeFloat) : Prop := normal x /\ Z.abs (exponent x) <= 2 ^ 61.

Lemma div_total (a b : SafeFloat) : workable a -> workable b -> digits_ok b -> is_Some (SafeFloat_div a b).
Proof.
  intros [Ha Xa] [_ Xb] Hb. unfold SafeFloat_div, SAFE_FLOAT_MAX_EXP, i64_max, i64_min.
  rewrite (proj2 (Z.ltb_ge _ _)), (proj2 (Z.ltb_ge _ _)) by lia. cbn [orb].
  assert (Hm : 0 <= mantissa a <= 10 ^ 21).
  { destruct Ha as [->|[Ha _]]; [done|lia]. }
  unfold checked_mul. rewrite MAX_pow, (proj2 (Z.ltb_lt _ _)) by lia.
  cbn [mbind option_bind]. destruct Hb as [Hb _]. unfold checked_div.
  rewrite (proj2 (Z.eqb_neq _ _)) by lia. cbn [mbind option_bind].
  apply normalize_total; [|unfold i64_min, i64_max; lia].
  split; [apply Z.div_pos; lia|apply Z.div_lt_upper_bound; lia].
Qed.

Lemma operations_total (a b c : SafeFloat) :
  workable a -> workable b -> workable c ->
  is_Some (SafeFloat_add a b) /\
  (is_Some (SafeFloat_sub a b) <-> mantissa a <> 0 \/ mantissa b = 0) /\
  (is_Some (SafeFloat_mul_div a b c) <-> mantissa c <> 0) /\
  (is_Some (SafeFloat_div a b) <-> mantissa b <> 0).
Proof.
  intros Wa Wb Wc. pose proof Wa as [Ha Xa]. pose proof Wb as [Hb Xb]. pose proof Wc as [Hc Xc].
  split_and!.
  - apply add_total; [done|done|unfold safe_exponent; lia..].
  - destruct Ha as [->|Ha].
    + unfold SafeFloat_sub. cbn [SafeFloat_is_zero SafeFloat_zero mantissa]. unfold SafeFloat_is_zero. simpl.
      destruct (Z.eqb_spec (mantissa b) 0) as [E|E]; simpl; [split; eauto|].
      split; [by intros [? [=]]|intros [H|H]; done].
    + split; [intros _; left; destruct Ha; lia|]. intros _. apply sub_total; [done|done|unfold safe_exponent; lia..].
  - destruct Hc as [->|Hc]; [split; [by intros [? [=]]|done]|].
    split; [intros _; destruct Hc; lia|]. intros _. apply mul_div_total; [done|done|done|lia..].
  - destruct Hb as [->|Hb].
    + split; [|done]. unfold SafeFloat_div, checked_div. destruct (_ || _); [by intros [? [=]]|].
      destruct (checked_mul _ _ _); by intros [? [=]].
    + split; [intros _; destruct Hb; lia|]. intros _. by apply div_total.
Qed.

(** C32 The operations are accurate: a sum is truncated by at most two parts in [10^20], a
    difference exceeds the exact one by at most one part in [10^20] of the minuend and is zero
    if the exact one is not positive, quotients are truncated by at most one part in
    [5 * 10^18], and the conversion to [u64] is the floor, cut at the largest [u64].  If the
    exponents are within [2^61], a sum is always returned, a difference unless a number is
    subtracted from zero, and a quotient unless the divisor is zero. *)
Theorem safefloat_accurate (a b c : SafeFloat) :
  normal a -> normal b -> normal c ->
  (forall r, SafeFloat_add a b = Some r ->
     scaled r <= scaled a + scaled b /\
     (scaled a + scaled b - scaled r) * 10 ^ 20 <= 2 * (scaled a + scaled b)) /\
  (forall r, SafeFloat_sub a b = Some r ->
     scaled a - scaled b <= scaled r /\
     (scaled b <= scaled a -> (scaled r - (scaled a - scaled b)) * 10 ^ 20 <= scaled a) /\
     (scaled a <= scaled b -> scaled r = 0)) /\
  (forall r, SafeFloat_mul_div a b c = Some r ->
     scaled r * scaled c <= scaled a * scaled b /\
     (scaled a * scaled b - scaled r * scaled c) * (5 * 10 ^ 18) <= scaled a * scaled b) /\
  (forall r, SafeFloat_div a b = Some r ->
     scaled r * scaled b <= scaled a * one /\
     (scaled a * one - scaled r * scaled b) * (5 * 10 ^ 18) <= scaled a * one) /\
  u64_from_SafeFloat a = Z.min (scaled a / one) (2 ^ 64 - 1) /\
  (workable a -> workable b -> workable c ->
   is_Some (SafeFloat_add a b) /\
   (is_Some (SafeFloat_sub a b) <-> mantissa a <> 0 \/ mantissa b = 0) /\
   (is_Some (SafeFloat_mul_div a b c) <-> mantissa c <> 0) /\
   (is_Some (SafeFloat_div a b) <-> mantissa b <> 0)).
Proof.
  intros Ha Hb Hc. split_and!; [| | | |by apply u64_from_spec|apply operations_total]; intros r H.
  - by apply add_spec in H as (_ & ? & ?).
  - apply sub_spec in H as (_ & H1 & H2 & H3); [|done..]. split_and!; [lia|intros; lia|].
    intros Hle. by rewrite H3.
  - destruct Hc as [->|Hc]; [done|]. by apply mul_div_spec in H as (_ & ? & ?).
  - by apply div_spec in H as (_ & ? & ?).
Qed.

(** ** Examples *)

Definition float_600 : SafeFloat := SafeFloat_from_u64 600.
Definition float_7 : SafeFloat := SafeFloat_from_u64 7.

Lemma safefloat_closed_witness : SafeFloat_sub float_600 float_7 = Some (SafeFloat_from_u64 593) /\
  normal (SafeFloat_from_u64 593).
Proof.
  assert (E : SafeFloat_sub float_600 float_7 = Some (SafeFloat_from_u64 593)) by (vm_compute; reflexivity).
  split; [exact E|].
  apply (safefloat_closed float_600 float_7 float_7 (SafeFloat_from_u64 593) 0 0 0 0);
    [apply from_u64_spec; lia..|lia|unfold i64_min, i64_max; lia|lia|lia|].
  right. right. left. exact E.
Defined.

Lemma normalize_terminates_witness :
  normalize_loops 58 (2 ^ 256 - 1) 0 <> Loop_out_of_fuel.
Proof.
  apply (normalize_terminates (2 ^ 256 - 1) 0 58); [lia|unfold i64_min, i64_max; lia|lia].
Defined.

Lemma safefloat_accurate_witness :
  u64_from_SafeFloat float_600 = 600 /\
  is_Some (SafeFloat_mul_div float_600 float_7 float_600).
Proof.
  assert (N1 : normal float_600) by (apply from_u64_spec; lia).
  assert (N2 : normal float_7) by (apply from_u64_spec; lia).
  destruct (safefloat_accurate float_600 float_7 float_600 N1 N2 N1) as (_ & _ & _ & _ & _ & T).
  split; [vm_compute; reflexivity|].
  apply T; [split; [assumption|vm_compute; discriminate]..|vm_compute; discriminate].
Defined.
