(* ===== verification/SharePool.v ===== *)
(** * Share pools

    [primitives/share-pool/src/lib.rs]: a pool holds one integer value that is shared by keys
    in proportion to their shares, which are decimal floating-point numbers.  A key that adds
    value gets shares at the current price, one that removes value gives shares back.  The
    storage of a pool is an interface, [SharePoolDataOperations]; what the pool relies on is
    stated by [SharePoolLaws]. *)

From S2P Require Import Prelude SafeFloat SafeFloatBounds.
From stdpp Require Import base tactics option numbers.
From Stdlib Require Import ZArith Lia.
Open Scope Z_scope.

(** ** The storage of a pool *)

Class SharePoolDataOperations (Ops Key : Type) : Type := {
  get_shared_value : Ops -> Z;
  get_share : Ops -> Key -> SafeFloat;
  try_get_share : Ops -> Key -> result unit SafeFloat;
  get_denominator : Ops -> SafeFloat;
  set_shared_value : Z -> Ops -> Ops;
  set_share : Key -> SafeFloat -> Ops -> Ops;
  set_denominator : SafeFloat -> Ops -> Ops;
}.

(** A written value is read back, and leaves the others alone.  Shares are stored as normal
    numbers only. *)
Class SharePoolLaws (Ops Key : Type) `{EqDecision Key, SharePoolDataOperations Ops Key} : Prop := {
  law_value_set o v : 0 <= v < 2 ^ 64 -> get_shared_value (set_shared_value v o) = v;
  law_value_share o k x : get_shared_value (set_share k x o) = get_shared_value o;
  law_value_denominator o x : get_shared_value (set_denominator x o) = get_shared_value o;
  law_share_set o k x k' : normal x ->
    get_share (set_share k x o) k' = if decide (k = k') then x else get_share o k';
  law_share_value o v k : get_share (set_shared_value v o) k = get_share o k;
  law_share_denominator o x k : get_share (set_denominator x o) k = get_share o k;
  law_denominator_set o x : normal x -> get_denominator (set_denominator x o) = x;
  law_denominator_value o v : get_denominator (set_shared_value v o) = get_denominator o;
  law_denominator_share o k x : get_denominator (set_share k x o) = get_denominator o;
  law_try_share o k : get_share o k = match try_get_share o k with Ok x => x | Err _ => SafeFloat_zero end;
}.

#[export] Hint Mode SharePoolDataOperations ! - : typeclass_instances.

(** ** Operations of a pool *)

Section Pool.
Context {Ops Key : Type} `{SharePoolDataOperations Ops Key}.

Definition SharePool_get_value_from_shares (o : Ops) (current_share : SafeFloat) : Z :=
  let shared_value := default SafeFloat_zero (SafeFloat_new (get_shared_value o) 0) in
  let denominator := get_denominator o in
  u64_from_SafeFloat (default SafeFloat_zero (SafeFloat_mul_div shared_value current_share denominator)).

Definition SharePool_get_value (o : Ops) (key : Key) : Z :=
  let shared_value := default SafeFloat_zero (SafeFloat_new (get_shared_value o) 0) in
  let current_share := get_share o key in
  let denominator := get_denominator o in
  u64_from_SafeFloat (default SafeFloat_zero (SafeFloat_mul_div shared_value current_share denominator)).

Definition SharePool_try_get_value (o : Ops) (key : Key) : result unit Z :=
  match try_get_share o key with
  | Ok _ => Ok (SharePool_get_value o key)
  | Err i => Err i
  end.

(** [update] is an [i64]; its opposite wraps for the smallest one, and the cast to [u64]
    gives its absolute value again. *)
Definition SharePool_update_value_for_all (update : Z) (o : Ops) : Ops :=
  let shared_value := get_shared_value o in
  set_shared_value (if 0 <=? update then saturating_add 64 shared_value update
                    else saturating_sub shared_value (- update)) o.

Definition SharePool_get_shares_per_update (update shared_value : Z) (denominator : SafeFloat) : SafeFloat :=
  let shared_value := default SafeFloat_zero (SafeFloat_new shared_value 0) in
  let update_sf := default SafeFloat_zero (SafeFloat_new (Z.abs update) 0) in
  default SafeFloat_zero (SafeFloat_mul_div update_sf denominator shared_value).

Definition SharePool_sim_update_value_for_one (o : Ops) (update : Z) : bool :=
  let shared_value := get_shared_value o in
  let denominator := get_denominator o in
  if mantissa denominator =? 0 then true
  else negb (SafeFloat_is_zero (SharePool_get_shares_per_update update shared_value denominator)).

Definition SharePool_update_value_for_one (key : Key) (update : Z) (o : Ops) : Ops :=
  let shared_value := get_shared_value o in
  let current_share := get_share o key in
  let denominator := get_denominator o in
  let o :=
    if SafeFloat_is_zero denominator then
      let update_float := default SafeFloat_zero (SafeFloat_new (Z.abs update) 0) in
      set_share key update_float (set_denominator update_float o)
    else
      let shares_per_update := SharePool_get_shares_per_update update shared_value denominator in
      let '(new_denominator, new_current_share) :=
        if 0 <? update then
          (default denominator (SafeFloat_add denominator shares_per_update),
           default current_share (SafeFloat_add current_share shares_per_update))
        else
          (default denominator (SafeFloat_sub denominator shares_per_update),
           default current_share (SafeFloat_sub current_share shares_per_update)) in
      set_share key new_current_share (set_denominator new_denominator o) in
  SharePool_update_value_for_all update o.

End Pool.
