(* ===== verification/SharePoolSafety.v ===== *)
(** * A share pool keeps its price

    [update_value_for_one] (SharePool) changes the value of the pool and its shares at the
    current price.  All computations are truncated to 21 digits, and values to integers; the
    price is kept up to a few parts in [10^19], so that the value of the key that is updated
    moves by the update, and the value of the other keys stays, up to five units.  An update
    keeps the pool and the shares in the range in which this holds ([pool_kept]). *)

From S2P Require Import Prelude SafeFloat SafeFloatBounds SharePool.
From stdpp Require Import base tactics option numbers.
From Stdlib Require Import ZArith Lia.
Open Scope Z_scope.

(** Values are below [2^63] units, exponents far from the ends of their range. *)
Definition value_ok (v : Z) : Prop := 0 <= v < 2 ^ 63.
Definition moderate (x : SafeFloat) : Prop := Z.abs (exponent x) <= 2 ^ 60.

(** A share that is at most the denominator, up to one part in [10^19]. *)
Definition within (c d : SafeFloat) : Prop := (scaled c - scaled d) * 10 ^ 19 <= scaled d.

Lemma within_le (c d : SafeFloat) : normal d -> scaled c <= scaled d -> within c d.
Proof. intros Hd Hle. unfold within. pose proof (scaled_nonneg d Hd). lia. Qed.

(** Multiply both sides of a hypothesis, so that products can be compared linearly. *)
Tactic Notation "scale_le" hyp(H) constr(k) "as" ident(H') :=
  pose proof (Z.mul_le_mono_nonneg_l _ _ k ltac:(nia) H) as H'.
Tactic Notation "scale_lt" hyp(H) constr(k) "as" ident(H') :=
  pose proof (Zmult_lt_compat_l _ _ k ltac:(lia) H) as H'.

(** ** The value of a share *)

Definition share_value (v : Z) (c d : SafeFloat) : Z :=
  u64_from_SafeFloat (default SafeFloat_zero
    (SafeFloat_mul_div (default SafeFloat_zero (SafeFloat_new v 0)) c d)).

Lemma new_value (v : Z) :
  value_ok v ->
  exists x, SafeFloat_new v 0 = Some x /\ normal x /\ scaled x = v * one /\ Z.abs (exponent x) <= 78.
Proof. unfold value_ok. intros Hv. apply new_integer. lia. Qed.

(** The value of a share is its exact part of the pool, less fewer than three units. *)
Lemma share_value_bracket (v : Z) (c d : SafeFloat) :
  value_ok v -> normal c -> digits_ok d -> moderate c -> moderate d -> within c d ->
  let g := share_value v c d in
  0 <= g /\ g * scaled d <= v * scaled c < (g + 3) * scaled d.
Proof.
  intros Hv Hc Hd Mc Md Hw g. destruct (new_value v Hv) as (x & Ex & Nx & Sx & Xx).
  unfold moderate, value_ok in *.
  destruct (mul_div_total x c d) as [r Er]; [done|done|done|lia..|].
  assert (Eg : g = u64_from_SafeFloat r) by (subst g; unfold share_value; rewrite Ex; simpl; by rewrite Er).
  apply mul_div_spec in Er as (Nr & H1 & H2); [|done..]. rewrite Sx in H1, H2.
  pose proof one_pos as H1p. pose proof (scaled_pos d Hd) as Hdp. pose proof (scaled_nonneg c Hc) as Hcp.
  pose proof (scaled_nonneg r Nr) as Hrp. unfold within in Hw.
  set (C := scaled c) in *. set (D := scaled d) in *. set (R := scaled r) in *. set (u := one) in *.
  assert (Hvc : v * C * 10 ^ 19 <= 2 ^ 63 * D * (10 ^ 19 + 1)) by nia.
  assert (HvC : v * C * u * 10 ^ 19 <= 2 ^ 63 * D * (10 ^ 19 + 1) * u) by nia.
  assert (HR : R < 2 ^ 64 * u).
  { apply (Z.mul_lt_mono_pos_r D); [done|]. nia. }
  rewrite Eg, u64_from_spec by done. fold R u.
  pose proof (Z.mul_div_le R u H1p) as Q1. pose proof (Z.mul_succ_div_gt R u H1p) as Q2.
  assert (Hq : 0 <= R / u < 2 ^ 64).
  { split; [apply Z.div_pos; lia|apply Z.div_lt_upper_bound; lia]. }
  rewrite Z.min_l by lia. set (q := R / u) in *. split; [lia|].
  assert (q * D * u <= v * C * u) by nia.
  assert (v * C * u < (q + 3) * D * u) by nia.
  split; nia.
Qed.

(** ** Shares for an update *)

(** Exponents before an update: a little room is left for the results. *)
Definition small (x : SafeFloat) : Prop := Z.abs (exponent x) <= 2 ^ 59.

Lemma small_moderate (x : SafeFloat) : small x -> moderate x.
Proof. unfold small, moderate. lia. Qed.

Lemma shares_spec (u v : Z) (d : SafeFloat) :
  Z.abs u < 2 ^ 63 -> value_ok v -> 0 < v -> digits_ok d -> small d ->
  let s := SharePool_get_shares_per_update u v d in
  normal s /\ Z.abs (exponent s) <= Z.abs (exponent d) + 312 /\ 0 <= scaled s /\
  scaled s * v <= Z.abs u * scaled d /\
  (Z.abs u * scaled d - scaled s * v) * (5 * 10 ^ 18) <= Z.abs u * scaled d.
Proof.
  intros Hu Hv Hv0 Hd Md s. destruct (new_value v Hv) as (x & Ex & Nx & Sx & Xx).
  destruct (new_value (Z.abs u)) as (y & Ey & Ny & Sy & Xy); [unfold value_ok; lia|].
  pose proof one_pos as H1. unfold small, value_ok in *.
  assert (Hx : digits_ok x).
  { destruct Nx as [->|Hx]; [|done]. change (scaled SafeFloat_zero) with 0 in Sx. nia. }
  destruct (mul_div_total y d x) as [r Er]; [done|by right|done|lia..|].
  assert (Es : s = r).
  { subst s. unfold SharePool_get_shares_per_update. rewrite Ex, Ey. simpl. by rewrite Er. }
  rewrite Es. apply mul_div_exponent in Er as Xr; [|done|by right|done].
  apply mul_div_spec in Er as (Nr & R1 & R2); [|done|by right|done]. rewrite Sx, Sy in R1, R2.
  pose proof (scaled_nonneg r Nr). split_and!; [done|lia|done|nia|nia].
Qed.

(** ** The price is kept *)

(** Adding value, with [s] new shares at price [v / d] for [u] units. *)
Lemma price_after_add (u v d s d' : Z) :
  0 < u -> 0 < v -> 0 < d -> 0 <= s -> s * v <= u * d ->
  (u * d - s * v) * (5 * 10 ^ 18) <= u * d ->
  d' <= d + s -> (d + s - d') * 10 ^ 20 <= 2 * (d + s) ->
  0 <= d * (v + u) - d' * v /\ (d * (v + u) - d' * v) * (4 * 10 ^ 18) <= d * (v + u).
Proof.
  intros Hu Hv Hd Hs S1 S2 D1 D2.
  assert (E : d * (v + u) - d' * v = (u * d - s * v) + (d + s - d') * v) by lia.
  assert (A : (d + s - d') * v * 10 ^ 20 <= 2 * (d * v + s * v)) by nia.
  rewrite E. split; nia.
Qed.

(** Removing [u] units of value for [s] shares. *)
Lemma price_after_sub (u v d s d' : Z) :
  0 <= u <= v -> 0 < v -> 0 < d -> 0 <= s -> s * v <= u * d ->
  (u * d - s * v) * (5 * 10 ^ 18) <= u * d ->
  d - s <= d' -> (d' - (d - s)) * 10 ^ 20 <= d ->
  0 <= d' * v - d * (v - u) /\ (d' * v - d * (v - u)) * (4 * 10 ^ 18) <= d * v.
Proof.
  intros Hu Hv Hd Hs S1 S2 D1 D2.
  assert (E : d' * v - d * (v - u) = (u * d - s * v) + (d' - (d - s)) * v) by lia.
  assert (A : (d' - (d - s)) * v * 10 ^ 20 <= d * v) by nia.
  assert (B : u * d <= v * d) by nia. rewrite E. split; nia.
Qed.

(** If the price moves by one part in [4 * 10^18] at most, the value of a share moves by five
    units at most. *)
Lemma value_kept (v v' c d d' g g' : Z) :
  0 <= v < 2 ^ 63 -> 0 <= v' < 2 ^ 63 -> 0 <= c -> 0 < d -> 0 < d' ->
  (c - d) * 10 ^ 19 <= d -> (c - d') * 10 ^ 19 <= d' ->
  Z.abs (d * v' - d' * v) * (4 * 10 ^ 18) <= d * 2 ^ 63 ->
  g * d <= v * c < (g + 3) * d -> g' * d' <= v' * c < (g' + 3) * d' ->
  Z.abs (g' - g) <= 5.
Proof.
  intros Hv Hv' Hc Hd Hd' Wc Wc' Hp [G1 G2] [G1' G2'].
  assert (P1 : (d * v' * c - d' * v * c) * (4 * 10 ^ 18) <= d * 2 ^ 63 * c) by nia.
  assert (P2 : (d' * v * c - d * v' * c) * (4 * 10 ^ 18) <= d * 2 ^ 63 * c) by nia.
  assert (Pc : d * c * 10 ^ 19 <= d * d' * (10 ^ 19 + 1)) by nia.
  assert (Q1 : g * d * d' <= v * c * d') by nia.
  assert (Q2 : v * c * d' < (g + 3) * d * d') by nia.
  assert (Q3 : g' * d' * d <= v' * c * d) by nia.
  assert (Q4 : v' * c * d < (g' + 3) * d' * d) by nia.
  assert (Hdd : 0 < d * d') by nia.
  assert (g' * (d * d') < (g + 6) * (d * d')) by nia.
  assert (g * (d * d') < (g' + 6) * (d * d')) by nia.
  assert (g' < g + 6) by nia. assert (g < g' + 6) by nia. lia.
Qed.

(** The value of the key that adds [u] units. *)
Lemma value_added (v u c s c' d d' g g' : Z) :
  0 < u -> 0 < v -> v + u < 2 ^ 63 -> 0 <= c -> 0 <= s -> 0 <= c' -> 0 < d -> 0 < d' ->
  s * v <= u * d -> (u * d - s * v) * (5 * 10 ^ 18) <= u * d ->
  c' <= c + s -> (c + s - c') * 10 ^ 20 <= 2 * (c + s) ->
  0 <= d * (v + u) - d' * v -> (d * (v + u) - d' * v) * (4 * 10 ^ 18) <= d * (v + u) ->
  c <= d -> (c' - d') * 10 ^ 19 <= d' ->
  g * d <= v * c < (g + 3) * d -> g' * d' <= (v + u) * c' < (g' + 3) * d' ->
  Z.abs (g' - (g + u)) <= 5.
Proof.
  intros Hu Hv Hvu Hc Hs Hc' Hd Hd' S1 S2 C1 C2 P1 P2 Wc Wc' [G1 G2] [G1' G2'].
  scale_le C1 v as C1v. scale_le C2 v as C2v. scale_le Wc v as Wcv.
  assert (Hvm : v <= 2 ^ 63) by lia. assert (Hum : u <= 2 ^ 63) by lia.
  assert (Hvum : v + u <= 2 ^ 63) by lia.
  scale_le Hvm d as Hvd. scale_le Hum d as Hud. scale_le Hvum (d * c') as Hvud.
  assert (A1 : v * c' < (g + u + 3) * d) by lia.
  assert (A2 : 10 * (g + u) * d - 23 * d <= 10 * (v * c')) by lia.
  scale_le P1 c' as P1c. scale_le P2 c' as P2c. scale_le Wc' d as Wcd.
  scale_lt A1 d' as A1d. scale_le A2 d' as A2d. scale_le G1' d as G1d. scale_lt G2' d as G2d.
  assert (Hdd : 0 < d * d') by lia.
  assert (g' * (d * d') < (g + u + 6) * (d * d')) by lia.
  assert ((g + u) * (d * d') < (g' + 6) * (d * d')) by lia.
  assert (g' < g + u + 6) by (by apply (Z.mul_lt_mono_pos_r (d * d'))).
  assert (g + u < g' + 6) by (by apply (Z.mul_lt_mono_pos_r (d * d'))). lia.
Qed.

(** The value of the key that removes [u] units. *)
Lemma value_removed (v u c s c' d d' g g' : Z) :
  0 < u -> 0 < v -> v < 2 ^ 63 -> u <= v -> 0 <= c -> 0 <= s -> 0 <= c' -> 0 < d -> 0 < d' ->
  s * v <= u * d -> (u * d - s * v) * (5 * 10 ^ 18) <= u * d ->
  c - s <= c' -> (c' - (c - s)) * 10 ^ 20 <= c ->
  0 <= d' * v - d * (v - u) -> (d' * v - d * (v - u)) * (4 * 10 ^ 18) <= d * v ->
  c <= d -> c' <= d' ->
  g * d <= v * c < (g + 3) * d -> g' * d' <= (v - u) * c' < (g' + 3) * d' ->
  Z.abs (g' - (g - u)) <= 5.
Proof.
  intros Hu Hv Hvm Huv Hc Hs Hc' Hd Hd' S1 S2 C1 C2 P1 P2 Wc Wc' [G1 G2] [G1' G2'].
  scale_le C1 v as C1v. scale_le C2 v as C2v. scale_le Wc v as Wcv.
  assert (Hvl : v <= 2 ^ 63) by lia. assert (Hul : u <= 2 ^ 63) by lia.
  scale_le Hvl d as Hvd. scale_le Hul d as Hud. scale_le Hvl (d * c') as Hvdc.
  assert (A1 : (g - u) * d <= v * c') by lia.
  assert (A2 : 10 * (v * c') < 10 * (g - u) * d + 50 * d) by lia.
  scale_le P1 c' as P1c. scale_le P2 c' as P2c. scale_le Wc' d as Wcd.
  scale_le A1 d' as A1d. scale_lt A2 d' as A2d. scale_le G1' d as G1d. scale_lt G2' d as G2d.
  assert (Hdd : 0 < d * d') by lia.
  assert (g' * (d * d') < (g - u + 6) * (d * d')) by lia.
  assert ((g - u) * (d * d') < (g' + 6) * (d * d')) by lia.
  assert (g' < g - u + 6) by (by apply (Z.mul_lt_mono_pos_r (d * d'))).
  assert (g - u < g' + 6) by (by apply (Z.mul_lt_mono_pos_r (d * d'))). lia.
Qed.

(** ** The pool *)

Section Pool.
Context {Ops Key : Type} `{Laws : SharePoolLaws Ops Key}.

Lemma get_value_share (o : Ops) (k : Key) :
  SharePool_get_value o k = share_value (get_shared_value o) (get_share o k) (get_denominator o).
Proof. done. Qed.

(** What an update of a pool with shares does to the storage. *)
Lemma update_storage (o : Ops) (k : Key) (u : Z) (d' c' : SafeFloat) :
  SafeFloat_is_zero (get_denominator o) = false -> normal d' -> normal c' ->
  value_ok (get_shared_value o) -> value_ok (get_shared_value o + u) ->
  (let s := SharePool_get_shares_per_update u (get_shared_value o) (get_denominator o) in
   (0 < u /\ SafeFloat_add (get_denominator o) s = Some d' /\ SafeFloat_add (get_share o k) s = Some c') \/
   (u <= 0 /\ SafeFloat_sub (get_denominator o) s = Some d' /\
    default (get_share o k) (SafeFloat_sub (get_share o k) s) = c')) ->
  let o' := SharePool_update_value_for_one k u o in
  get_shared_value o' = get_shared_value o + u /\ get_denominator o' = d' /\
  get_share o' k = c' /\ (forall k', k' <> k -> get_share o' k' = get_share o k').
Proof.
  intros Hd Nd Nc Hv Hv' Hcase o'. unfold value_ok in *.
  assert (Eo : o' = SharePool_update_value_for_all u (set_share k c' (set_denominator d' o))).
  { subst o'. unfold SharePool_update_value_for_one. rewrite Hd.
    destruct Hcase as [(Hu & Ed & Ec)|(Hu & Ed & Ec)].
    - rewrite (proj2 (Z.ltb_lt _ _) Hu), Ed, Ec. done.
    - rewrite (proj2 (Z.ltb_ge _ _) Hu), Ed, Ec. done. }
  rewrite Eo. unfold SharePool_update_value_for_all.
  rewrite law_denominator_value, law_denominator_share, law_denominator_set by done.
  rewrite law_value_share, law_value_denominator, law_value_set.
  - split_and!; [|done| |].
    + unfold saturating_add, saturating_sub, uint_max. destruct (Z.leb_spec 0 u); lia.
    + by rewrite law_share_value, law_share_set, decide_True by done.
    + intros k' Hk. by rewrite law_share_value, law_share_set, decide_False, law_share_denominator by done.
  - unfold saturating_add, saturating_sub, uint_max. destruct (Z.leb_spec 0 u); lia.
Qed.

(** A pool in use: it has value and shares, and the share of a key is at most all of them.
    [b] bounds the exponents. *)
Definition pool_ok (b : Z) (o : Ops) : Prop :=
  value_ok (get_shared_value o) /\ 0 < get_shared_value o /\
  digits_ok (get_denominator o) /\ Z.abs (exponent (get_denominator o)) <= b.
Definition share_ok (b : Z) (o : Ops) (k : Key) : Prop :=
  normal (get_share o k) /\ Z.abs (exponent (get_share o k)) <= b /\
  scaled (get_share o k) <= scaled (get_denominator o).

Lemma pool_ok_mono (b b' : Z) (o : Ops) : b <= b' -> pool_ok b o -> pool_ok b' o.
Proof. unfold pool_ok. intuition lia. Qed.
Lemma share_ok_mono (b b' : Z) (o : Ops) (k : Key) : b <= b' -> share_ok b o k -> share_ok b' o k.
Proof. unfold share_ok. intuition lia. Qed.

(** What is known after an update by [k]: the pool is in use and so is the share of [k], with
    exponents that have grown by a constant at most; so are the shares that [ok] considers. *)
Definition pool_kept (b : Z) (ok : Key -> Prop) (k : Key) (o' : Ops) : Prop :=
  pool_ok b o' /\ share_ok b o' k /\ forall k', k' <> k -> ok k' -> share_ok b o' k'.

Lemma pool_bracket (o : Ops) (k : Key) :
  pool_ok (2 ^ 59) o -> share_ok (2 ^ 59) o k ->
  let g := SharePool_get_value o k in
  0 <= g /\ g * scaled (get_denominator o) <= get_shared_value o * scaled (get_share o k) <
    (g + 3) * scaled (get_denominator o).
Proof.
  intros (Hv & _ & Hd & Md) (Nc & Mc & Hle). rewrite get_value_share.
  apply share_value_bracket; [done|done|done|by apply small_moderate..|].
  apply within_le; [by right|done].
Qed.

(** The value of another key, if the price is kept. *)
Lemma other_value_kept (o o' : Ops) (k : Key) :
  pool_ok (2 ^ 59) o -> share_ok (2 ^ 59) o k -> value_ok (get_shared_value o') ->
  digits_ok (get_denominator o') -> moderate (get_denominator o') ->
  get_share o' k = get_share o k -> within (get_share o k) (get_denominator o') ->
  Z.abs (scaled (get_denominator o) * get_shared_value o' -
         scaled (get_denominator o') * get_shared_value o) * (4 * 10 ^ 18) <=
    scaled (get_denominator o) * 2 ^ 63 ->
  Z.abs (SharePool_get_value o' k - SharePool_get_value o k) <= 5.
Proof.
  intros Ho Hk Hv' Hd' Md' Ec Hw Hp. pose proof (pool_bracket o k Ho Hk) as [_ G].
  destruct Ho as (Hv & _ & Hd & _). destruct Hk as (Nc & Mc & Hle).
  pose proof (share_value_bracket (get_shared_value o') (get_share o k) (get_denominator o')
    Hv' Nc Hd' (small_moderate _ Mc) Md' Hw) as [_ G'].
  rewrite (get_value_share o'), Ec.
  pose proof (scaled_pos _ Hd) as Pd. pose proof (scaled_pos _ Hd') as Pd'.
  eapply (value_kept _ _ _ _ _ _ _ Hv Hv' (scaled_nonneg _ Nc) Pd Pd' ltac:(lia) Hw Hp G G').
Qed.

Lemma normal_digits (x : SafeFloat) : normal x -> 0 < scaled x -> digits_ok x.
Proof. intros [->|Hx] Hp; [change (scaled SafeFloat_zero) with 0 in Hp; lia|done]. Qed.

(** Adding value: the new shares [s], the new denominator and the new share. *)
Lemma deposit_shares (b : Z) (o : Ops) (k : Key) (u : Z) :
  b <= 2 ^ 59 -> pool_ok b o -> share_ok b o k -> 0 < u -> value_ok (get_shared_value o + u) ->
  let o' := SharePool_update_value_for_one k u o in
  let v := get_shared_value o in let c := scaled (get_share o k) in
  let d := scaled (get_denominator o) in
  let c' := scaled (get_share o' k) in let d' := scaled (get_denominator o') in
  get_shared_value o' = v + u /\ (forall k', k' <> k -> get_share o' k' = get_share o k') /\
  normal (get_denominator o') /\ Z.abs (exponent (get_denominator o')) <= b + 390 /\
  normal (get_share o' k) /\ Z.abs (exponent (get_share o' k)) <= b + 390 /\ c' <= d' /\ d <= d' /\
  exists s, 0 <= s /\ s * v <= u * d /\ (u * d - s * v) * (5 * 10 ^ 18) <= u * d /\
    c' <= c + s /\ (c + s - c') * 10 ^ 20 <= 2 * (c + s) /\
    d' <= d + s /\ (d + s - d') * 10 ^ 20 <= 2 * (d + s).
Proof.
  intros Hb Ho Hk Hu Hv'. cbv zeta.
  destruct Ho as (Hv & Hv0 & Hd & Md). destruct Hk as (Nc & Mc & Hle).
  pose proof (shares_spec u (get_shared_value o) (get_denominator o)) as Hs.
  destruct Hs as (Ns & Xs & Ps & S1 & S2); [unfold value_ok in *; lia|done|done|done|unfold small; lia|].
  rewrite Z.abs_eq in S1, S2 by lia.
  remember (SharePool_get_shares_per_update u (get_shared_value o) (get_denominator o)) as s eqn:Es.
  destruct (add_total (get_denominator o) s) as [d' Ed]; [by right|done|unfold safe_exponent; lia..|].
  destruct (add_total (get_share o k) s) as [c' Ec]; [done|done|unfold safe_exponent; lia..|].
  destruct (add_spec _ _ _ (or_intror Hd) Ns Ed) as (Nd' & D1 & D2).
  destruct (add_spec _ _ _ Nc Ns Ec) as (Nc' & C1 & C2).
  pose proof (add_exponent _ _ _ (or_intror Hd) Ns Ed) as Xd. pose proof (add_exponent _ _ _ Nc Ns Ec) as Xc.
  pose proof (add_mono _ _ _ _ _ Nc (or_intror Hd) Ns Hle Ec Ed) as Hcd.
  destruct (add_ge _ _ _ (or_intror Hd) Ns Ed) as [Hdd _].
  destruct (update_storage o k u d' c') as (Ev & Edo & Eco & Eko);
    [by apply digits_nonzero|done|done|done|done|left; rewrite <- Es; by split_and!|].
  rewrite Ev, Edo, Eco. split_and!; [done|done|done| |done| |done|done|].
  - clear - Md Xs Xd. lia.
  - clear - Md Mc Xs Xc. lia.
  - exists (scaled s). by split_and!.
Qed.

Lemma deposit_kept (b : Z) (o : Ops) (k : Key) (u : Z) :
  b <= 2 ^ 59 -> pool_ok b o -> share_ok b o k -> 0 < u -> value_ok (get_shared_value o + u) ->
  pool_kept (b + 390) (share_ok b o) k (SharePool_update_value_for_one k u o).
Proof.
  intros Hb Ho Hk Hu Hv'. pose proof (deposit_shares b o k u Hb Ho Hk Hu Hv') as D. cbv zeta in D.
  destruct D as (Ev & Eko & Nd' & Xd & Nc' & Xc & Hcd & Hdd & _).
  destruct Ho as (Hv & Hv0 & Hd & Md). pose proof (scaled_pos _ Hd) as Pd.
  unfold pool_kept, pool_ok, share_ok. rewrite Ev. unfold value_ok in *.
  split_and!; [lia|lia|lia|by apply normal_digits; [|lia]|done|done|done|done|].
  intros k' Hne (Nk & Xk & Hle). rewrite Eko by done. split_and!; [done|lia|lia].
Qed.

Lemma deposit_moves (o : Ops) (k : Key) (u : Z) :
  pool_ok (2 ^ 59) o -> share_ok (2 ^ 59) o k -> 0 < u -> value_ok (get_shared_value o + u) ->
  let o' := SharePool_update_value_for_one k u o in
  get_shared_value o' = get_shared_value o + u /\
  Z.abs (SharePool_get_value o' k - (SharePool_get_value o k + u)) <= 5 /\
  (forall k', k' <> k -> share_ok (2 ^ 59) o k' ->
     Z.abs (SharePool_get_value o' k' - SharePool_get_value o k') <= 5).
Proof.
  intros Ho Hk Hu Hv' o'. pose proof (pool_bracket o k Ho Hk) as [_ G].
  pose proof (deposit_shares _ o k u (Z.le_refl _) Ho Hk Hu Hv') as D. cbv zeta in D. fold o' in D.
  destruct D as (Ev & Eko & Nd' & Xd & Nc' & Xc & Hcd & Hdd & s & Ps & S1 & S2 & C1 & C2 & D1 & D2).
  pose proof Ho as (Hv & Hv0 & Hd & Md). pose proof Hk as (Nc & Mc & Hle). unfold value_ok in Hv, Hv'.
  assert (Md' : moderate (get_denominator o')) by (unfold moderate; clear - Xd; lia).
  assert (Mc' : moderate (get_share o' k)) by (unfold moderate; clear - Xc; lia).
  pose proof (scaled_pos _ Hd) as Pd. pose proof (scaled_nonneg _ Nc) as Pc.
  pose proof (scaled_nonneg _ Nc') as Pc'.
  assert (Pd' : 0 < scaled (get_denominator o')) by lia. pose proof (normal_digits _ Nd' Pd') as Hd'.
  destruct (price_after_add _ _ _ _ _ Hu Hv0 Pd Ps S1 S2 D1 D2) as [P1 P2].
  split; [done|]. split.
  - pose proof (within_le _ _ Nd' Hcd) as Hw. rewrite <- Ev in Hv'.
    pose proof (share_value_bracket _ _ _ Hv' Nc' Hd' Mc' Md' Hw) as [_ G'].
    rewrite (get_value_share o'). rewrite Ev in *.
    by apply (value_added (get_shared_value o) u (scaled (get_share o k)) s (scaled (get_share o' k))
      (scaled (get_denominator o)) (scaled (get_denominator o'))); try apply Hv'.
  - intros k' Hne Hk'. apply other_value_kept; [done|done| |done|done|by apply Eko| |]; rewrite ?Ev.
    + done.
    + apply within_le; [done|]. destruct Hk' as (_ & _ & Hle'). lia.
    + rewrite Z.abs_eq by lia.
      assert (Hm : get_shared_value o + u <= 2 ^ 63) by lia.
      pose proof (Z.mul_le_mono_nonneg_l _ _ _ (Z.lt_le_incl _ _ Pd) Hm). lia.
Qed.

(** A share of nothing, and a share in a pool without shares. *)
Lemma share_value_zero (v : Z) (d : SafeFloat) : value_ok v -> digits_ok d -> small d -> share_value v SafeFloat_zero d = 0.
Proof.
  intros Hv Hd Md. pose proof (scaled_pos d Hd).
  destruct (share_value_bracket v SafeFloat_zero d) as (G0 & G1 & _);
    [done|by left|done|unfold moderate; simpl; lia|by apply small_moderate|..].
  - unfold within. change (scaled SafeFloat_zero) with 0. lia.
  - change (scaled SafeFloat_zero) with 0 in G1. nia.
Qed.
Lemma share_value_none (v : Z) (c : SafeFloat) : share_value v c SafeFloat_zero = 0.
Proof. done. Qed.

Lemma get_value_le_pool (o : Ops) (k : Key) :
  pool_ok (2 ^ 59) o -> share_ok (2 ^ 59) o k -> SharePool_get_value o k <= get_shared_value o.
Proof.
  intros Ho Hk. destruct (pool_bracket o k Ho Hk) as (_ & G & _).
  destruct Ho as (Hv & Hv0 & Hd & _). destruct Hk as (Nc & _ & Hle).
  pose proof (scaled_pos _ Hd) as Pd. apply (Z.mul_le_mono_pos_r _ _ _ Pd).
  etrans; [exact G|]. apply Z.mul_le_mono_nonneg_l; [lia|done].
Qed.

(** Removing value [w], at most the value of the key: the shares [s] that are given back, the
    new denominator and the new share. *)
Lemma withdraw_shares (b : Z) (o : Ops) (k : Key) (w : Z) :
  b <= 2 ^ 59 -> pool_ok b o -> share_ok b o k -> 0 < w <= SharePool_get_value o k ->
  let o' := SharePool_update_value_for_one k (- w) o in
  let v := get_shared_value o in let c := scaled (get_share o k) in
  let d := scaled (get_denominator o) in
  let c' := scaled (get_share o' k) in let d' := scaled (get_denominator o') in
  get_shared_value o' = v - w /\ (forall k', k' <> k -> get_share o' k' = get_share o k') /\
  normal (get_denominator o') /\ Z.abs (exponent (get_denominator o')) <= b + 390 /\
  normal (get_share o' k) /\ Z.abs (exponent (get_share o' k)) <= b + 390 /\ c' <= d' /\
  exists s, 0 <= s <= c /\ s * v <= w * d /\ (w * d - s * v) * (5 * 10 ^ 18) <= w * d /\
    c - s <= c' /\ (c' - (c - s)) * 10 ^ 20 <= c /\
    d - s <= d' /\ (d' - (d - s)) * 10 ^ 20 <= d.
Proof.
  intros Hb Ho Hk Hw. cbv zeta. pose proof (pool_ok_mono _ _ _ Hb Ho) as Ho59.
  pose proof (share_ok_mono _ _ _ _ Hb Hk) as Hk59. pose proof (pool_bracket o k Ho59 Hk59) as [_ G].
  pose proof (get_value_le_pool o k Ho59 Hk59) as Hwv. clear Ho59 Hk59.
  destruct Ho as (Hv & Hv0 & Hd & Md). destruct Hk as (Nc & Mc & Hle).
  pose proof (shares_spec (- w) (get_shared_value o) (get_denominator o)) as Hs.
  destruct Hs as (Ns & Xs & Ps & S1 & S2); [unfold value_ok in Hv; lia|done..|unfold small; lia|].
  rewrite Z.abs_neq, Z.opp_involutive in S1, S2 by lia.
  remember (SharePool_get_shares_per_update (- w) (get_shared_value o) (get_denominator o)) as s eqn:Es.
  pose proof (scaled_pos _ Hd) as Pd. pose proof (scaled_nonneg _ Nc) as Pc.
  assert (Hwd : w * scaled (get_denominator o) <= SharePool_get_value o k * scaled (get_denominator o))
    by (apply Z.mul_le_mono_nonneg_r; lia).
  assert (Hsc : scaled s <= scaled (get_share o k)) by (apply (Z.mul_le_mono_pos_r _ _ _ Hv0); lia).
  assert (Hc : digits_ok (get_share o k)).
  { apply normal_digits; [done|]. destruct (decide (0 < scaled (get_share o k))) as [|Hn]; [done|].
    assert (E : scaled (get_share o k) = 0) by lia. rewrite E, Z.mul_0_r in G.
    pose proof (Z.mul_pos_pos w _ ltac:(lia) Pd). lia. }
  assert (Xs' : safe_exponent s) by (unfold safe_exponent; clear - Hb Md Xs; lia).
  destruct (sub_total (get_denominator o) s) as [d' Ed]; [done|done|unfold safe_exponent, small in *; lia|done|].
  destruct (sub_total (get_share o k) s) as [c' Ec]; [done|done|unfold safe_exponent, small in *; lia|done|].
  destruct (sub_spec _ _ _ (or_intror Hd) Ns Ed) as (Nd' & D1 & D2 & _).
  destruct (sub_spec _ _ _ Nc Ns Ec) as (Nc' & C1 & C2 & _).
  pose proof (sub_exponent _ _ _ (or_intror Hd) Ns Ed) as Xd. pose proof (sub_exponent _ _ _ Nc Ns Ec) as Xc.
  pose proof (sub_mono _ _ _ _ _ Nc (or_intror Hd) Ns Hle Ec Ed) as Hcd.
  destruct (update_storage o k (- w) d' c') as (Ev & Edo & Eco & Eko);
    [by apply digits_nonzero|done|done|done|unfold value_ok in *; lia|right; rewrite <- Es, Ed, Ec; split_and!; [lia|done|done]|].
  rewrite Ev, Edo, Eco. rewrite Z.max_r in C1, C2, D1, D2 by lia.
  split_and!; [lia|done|done| |done| |done|].
  - clear - Md Xs Xd. lia.
  - clear - Md Mc Xs Xc. lia.
  - exists (scaled s). split_and!; done.
Qed.

Lemma withdraw_kept (b : Z) (o : Ops) (k : Key) (w : Z) :
  b <= 2 ^ 59 -> pool_ok b o -> share_ok b o k -> 0 < w <= SharePool_get_value o k ->
  w < get_shared_value o ->
  pool_kept (b + 390)
    (fun k' => share_ok b o k' /\
       scaled (get_share o k) + scaled (get_share o k') <= scaled (get_denominator o))
    k (SharePool_update_value_for_one k (- w) o).
Proof.
  intros Hb Ho Hk Hw Hwv. pose proof (withdraw_shares b o k w Hb Ho Hk Hw) as W. cbv zeta in W.
  destruct W as (Ev & Eko & Nd' & Xd & Nc' & Xc & Hcd & s & Hs & S1 & _ & _ & _ & D1 & _).
  destruct Ho as (Hv & Hv0 & Hd & Md). pose proof (scaled_pos _ Hd) as Pd.
  assert (s < scaled (get_denominator o)) by nia.
  unfold pool_kept, pool_ok, share_ok. rewrite Ev. unfold value_ok in *.
  split_and!; [lia|lia|lia|by apply normal_digits; [|lia]|done|done|done|done|].
  intros k' Hne [(Nk & Xk & Hle) Hfit]. rewrite Eko by done. split_and!; [done|lia|lia].
Qed.

Lemma withdraw_moves (o : Ops) (k : Key) (w : Z) :
  pool_ok (2 ^ 59) o -> share_ok (2 ^ 59) o k -> 0 < w <= SharePool_get_value o k ->
  let o' := SharePool_update_value_for_one k (- w) o in
  get_shared_value o' = get_shared_value o - w /\
  Z.abs (SharePool_get_value o' k - (SharePool_get_value o k - w)) <= 5 /\
  (forall k', k' <> k -> share_ok (2 ^ 59) o k' ->
     scaled (get_share o k) + scaled (get_share o k') <= scaled (get_denominator o) ->
     Z.abs (SharePool_get_value o' k' - SharePool_get_value o k') <= 5).
Proof.
  intros Ho Hk Hw o'. pose proof (withdraw_shares _ o k w (Z.le_refl _) Ho Hk Hw) as W.
  cbv zeta in W. fold o' in W.
  destruct W as (Ev & Eko & Nd' & Xd & Nc' & Xc & Hcd & s & Hs & S1 & S2 & C1 & C2 & D1 & D2).
  assert (Md' : moderate (get_denominator o')) by (unfold moderate; clear - Xd; lia).
  assert (Mc' : moderate (get_share o' k)) by (unfold moderate; clear - Xc; lia).
  pose proof (pool_bracket o k Ho Hk) as [_ G]. pose proof (get_value_le_pool o k Ho Hk) as Hwv.
  pose proof Ho as (Hv & Hv0 & Hd & Md). pose proof Hk as (Nc & Mc & Hle).
  pose proof (scaled_pos _ Hd) as Pd. pose proof (scaled_nonneg _ Nc') as Pc'.
  assert (Hv' : value_ok (get_shared_value o')) by (unfold value_ok in *; lia).
  split; [done|]. destruct (decide (0 < scaled (get_denominator o'))) as [Pd'|Hz].
  - pose proof (normal_digits _ Nd' Pd') as Hd'.
    assert (Hwv' : 0 <= w <= get_shared_value o) by lia.
    destruct (price_after_sub _ _ _ _ _ Hwv' Hv0 Pd (proj1 Hs) S1 S2 D1 D2) as [P1 P2].
    split.
    + pose proof (share_value_bracket _ _ _ Hv' Nc' Hd' Mc' Md' (within_le _ _ Nd' Hcd)) as [_ G'].
      rewrite Ev in G'. rewrite (get_value_share o'), Ev.
      apply (value_removed (get_shared_value o) w (scaled (get_share o k)) s (scaled (get_share o' k))
        (scaled (get_denominator o)) (scaled (get_denominator o'))); try done; unfold value_ok in *; lia.
    + intros k' Hne Hk' Hfit. apply other_value_kept; [done..|by apply Eko|apply within_le; [done|lia]|].
      rewrite Ev, Z.abs_neq by lia. unfold value_ok in Hv.
      pose proof (Z.mul_le_mono_nonneg_l _ (2 ^ 63) _ (Z.lt_le_incl _ _ Pd) (Z.lt_le_incl _ _ (proj2 Hv))). lia.
  - pose proof (scaled_zero_inv _ Nd' ltac:(lia)) as Ed'.
    assert (Hall : SharePool_get_value o k = w).
    { assert (get_shared_value o <= w); [|lia]. apply (Z.mul_le_mono_pos_r _ _ _ Pd).
      assert (s = scaled (get_denominator o)) as Es by lia. rewrite Es in S1. lia. }
    rewrite !get_value_share, Ed', share_value_none. rewrite get_value_share in Hall. split; [lia|].
    intros k' Hne (Nk & _ & _) Hfit. rewrite get_value_share, get_value_share, Ed', share_value_none.
    assert (Ek : get_share o k' = SafeFloat_zero) by (apply scaled_zero_inv; [done|lia]).
    by rewrite Ek, share_value_zero.
Qed.

(** ** The properties *)

Lemma normalize_digits (x : SafeFloat) :
  digits_ok x -> SafeFloat_normalize (mantissa x) (exponent x) = Some x.
Proof.
  intros [Hm He]. unfold SafeFloat_normalize. rewrite (proj2 (Z.eqb_neq _ _)) by lia.
  unfold normalize_loops, normalize_fuel. cbn [shrink_loop].
  rewrite MAX_pow, (proj2 (Z.ltb_ge _ _)) by lia. cbn [grow_loop].
  rewrite MIN_pow, (proj2 (Z.leb_gt _ _)) by lia. rewrite Z.mod_small by lia. by destruct x.
Qed.

Lemma mul_div_same (y x : SafeFloat) :
  normal y -> digits_ok x -> moderate y -> moderate x -> SafeFloat_mul_div y x x = Some y.
Proof.
  intros Ny Hx My Mx. unfold moderate in *. unfold SafeFloat_mul_div.
  pose proof (normal_mantissa y Ny). destruct Hx as [Hx _].
  rewrite (proj2 (Z.eqb_neq _ _)) by lia.
  assert (E1 : i64_checked (exponent y + exponent x) = Some (exponent y + exponent x)).
  { apply i64_checked_Some. unfold i64_ok, i64_min, i64_max. lia. }
  rewrite E1. cbn [mbind option_bind].
  assert (E2 : i64_checked (exponent y + exponent x - exponent x) = Some (exponent y)).
  { apply i64_checked_Some. unfold i64_ok, i64_min, i64_max. lia. }
  rewrite E2. cbn [mbind option_bind]. unfold checked_mul, checked_div.
  rewrite (proj2 (Z.ltb_lt _ _)) by nia. rewrite (proj2 (Z.eqb_neq _ _)) by lia. simpl default.
  rewrite Z.div_mul by lia. destruct Ny as [->|Hy]; [done|by apply normalize_digits].
Qed.

(** The first key gets all: an update of a pool without shares gives the key the whole value
    of the pool, to the unit, and puts the pool in use. *)
Lemma first_update_storage (o : Ops) (k : Key) (u : Z) :
  SafeFloat_is_zero (get_denominator o) = true -> 0 < u -> 0 <= get_shared_value o ->
  get_shared_value o + u < 2 ^ 63 ->
  let o' := SharePool_update_value_for_one k u o in
  get_shared_value o' = get_shared_value o + u /\ get_share o' k = get_denominator o' /\
  (forall k', k' <> k -> get_share o' k' = get_share o k') /\
  digits_ok (get_denominator o') /\ Z.abs (exponent (get_denominator o')) <= 78.
Proof.
  intros Hz Hu Hv Hvu o'. destruct (new_value u) as (x & Ex & Nx & Sx & Xx); [unfold value_ok; lia|].
  assert (Eo : o' = SharePool_update_value_for_all u (set_share k x (set_denominator x o))).
  { subst o'. unfold SharePool_update_value_for_one. by rewrite Hz, Z.abs_eq, Ex by lia. }
  pose proof one_pos. rewrite Eo. unfold SharePool_update_value_for_all.
  rewrite law_denominator_value, law_denominator_share, law_denominator_set by done.
  rewrite law_value_share, law_value_denominator, law_value_set.
  - split_and!; [| | |apply normal_digits; [done|rewrite Sx; nia]|done].
    + rewrite (proj2 (Z.leb_le _ _)) by lia. unfold saturating_add, uint_max. lia.
    + by rewrite law_share_value, law_share_set, decide_True by done.
    + intros k' Hne. by rewrite law_share_value, law_share_set, decide_False, law_share_denominator by done.
  - rewrite (proj2 (Z.leb_le _ _)) by lia. unfold saturating_add, uint_max. lia.
Qed.

Lemma first_update_gets_all (o : Ops) (k : Key) (u : Z) :
  SafeFloat_is_zero (get_denominator o) = true -> 0 < u -> 0 <= get_shared_value o ->
  get_shared_value o + u < 2 ^ 63 ->
  let o' := SharePool_update_value_for_one k u o in
  get_shared_value o' = get_shared_value o + u /\
  SharePool_get_value o' k = get_shared_value o + u /\
  pool_kept 78 (fun k' => get_share o k' = SafeFloat_zero) k o'.
Proof.
  intros Hz Hu Hv Hvu o'. destruct (first_update_storage o k u Hz Hu Hv Hvu) as (Ev & Ec & Ek & Hd & Xd).
  fold o' in Ev, Ec, Ek, Hd, Xd. pose proof one_pos. split_and!; [done| |].
  - destruct (new_value (get_shared_value o + u)) as (y & Ey & Ny & Sy & Xy); [unfold value_ok; lia|].
    rewrite get_value_share, Ev, Ec. unfold share_value. rewrite Ey. simpl default.
    rewrite mul_div_same by (done || unfold moderate; lia). simpl default.
    rewrite u64_from_spec, Sy, Z.div_mul by (done || lia). lia.
  - unfold pool_kept, pool_ok, share_ok. rewrite Ev, Ec. unfold value_ok.
    split_and!; [lia|lia|lia|done|done|by right|done|done|].
    intros k' Hne E0. rewrite Ek, E0 by done. pose proof (scaled_pos _ Hd).
    split_and!; [apply normal_zero|simpl; lia|change (scaled SafeFloat_zero) with 0; lia].
Qed.

Lemma shares_normal (u v : Z) (d : SafeFloat) :
  0 <= v -> normal d -> normal (SharePool_get_shares_per_update u v d).
Proof.
  intros Hv Nd. unfold SharePool_get_shares_per_update.
  assert (H0 : i64_ok 0) by (unfold i64_ok, i64_min, i64_max; lia).
  assert (Hnew : forall m, 0 <= m -> normal (default SafeFloat_zero (SafeFloat_new m 0))).
  { intros m Hm. apply default_normal. intros r. by apply new_normal. }
  apply default_normal. intros r Hr.
  destruct (Hnew v Hv) as [E|Hx]; [rewrite E in Hr; done|].
  apply mul_div_spec in Hr as [Hr _]; [done|apply Hnew; lia|done|done].
Qed.

Lemma add_zero_r (x : SafeFloat) : normal x -> default x (SafeFloat_add x SafeFloat_zero) = x.
Proof.
  intros Nx. unfold SafeFloat_add. by destruct (normal_cases x Nx) as [[-> ->]|[-> _]].
Qed.

(** The simulation tells whether value can be added: if it fails, the pool has shares, and
    an update with a positive amount changes no share, so that the key gets nothing and the
    value goes to the others; if it succeeds on a pool in use, the key gets a positive number
    of shares. *)
Theorem sim_update_exact (o : Ops) (k : Key) (u : Z) :
  normal (get_denominator o) -> (forall k', normal (get_share o k')) ->
  0 <= get_shared_value o -> 0 < u ->
  (SharePool_sim_update_value_for_one o u = false ->
   let o' := SharePool_update_value_for_one k u o in
   SafeFloat_is_zero (get_denominator o) = false /\ get_denominator o' = get_denominator o /\
   forall k', get_share o' k' = get_share o k') /\
  (SharePool_sim_update_value_for_one o u = true -> SafeFloat_is_zero (get_denominator o) = false ->
   0 < scaled (SharePool_get_shares_per_update u (get_shared_value o) (get_denominator o))).
Proof.
  intros Nd Nc Hv Hu. unfold SharePool_sim_update_value_for_one.
  change (mantissa (get_denominator o) =? 0) with (SafeFloat_is_zero (get_denominator o)).
  destruct (SafeFloat_is_zero (get_denominator o)) eqn:Ez; [done|].
  pose proof (shares_normal u (get_shared_value o) (get_denominator o) Hv Nd) as Ns.
  destruct (normal_cases _ Ns) as [[Ei Es]|[Ei Hs]]; rewrite Ei; simpl negb.
  2: { split; [done|]. intros _ _. by apply scaled_pos. }
  split; [intros _|done]. unfold SharePool_update_value_for_one.
  rewrite Ez, (proj2 (Z.ltb_lt _ _) Hu), Es, !add_zero_r by done.
  unfold SharePool_update_value_for_all.
  rewrite law_denominator_value, law_denominator_share, law_denominator_set by done.
  split_and!; [done|done|]. intros k'.
  rewrite law_share_value, law_share_set, law_share_denominator by done.
  by destruct (decide (k = k')) as [->|].
Qed.
End Pool.
