(* ===== verification/StakePool.v ===== *)
(** * Stakes as share pools

    [pallets/subtensor/src/staking/stake_utils.rs]: the stake of a hotkey on a subnet is a
    share pool whose keys are the coldkeys that stake to it.  The storage layer reads shares in
    the deprecated fixed-point format as long as they have not been rewritten, and migrates an
    entry when it is written.  The layer is shown to satisfy the laws that share pools rely on
    (SharePool), so that what is proved of pools holds of stakes. *)

From stdpp Require Import base tactics option numbers gmap countable.
From S2P Require Import Prelude SafeFloat SafeFloatBounds SharePool SharePoolSafety.
From Stdlib Require Import ZArith Lia.
Open Scope Z_scope.

(** ** Storage *)

Section Stake.
Context {AccountId : Type} `{Countable AccountId}.

(** Subnets are numbers.  [Alpha] and [TotalHotkeyShares] hold the bits of a [U64F64]. *)
Record StakeStore : Type := mk_StakeStore {
  StakingHotkeys : gmap AccountId (list AccountId);
  TotalHotkeyAlpha : gmap (AccountId * Z) Z;
  TotalHotkeyShares : gmap (AccountId * Z) Z;
  Alpha : gmap (AccountId * AccountId * Z) Z;
  TotalHotkeySharesV2 : gmap (AccountId * Z) SafeFloat;
  AlphaV2 : gmap (AccountId * AccountId * Z) SafeFloat;
}.

#[export] Instance StakeStore_eta : Eta StakeStore := fun s =>
  mk_StakeStore (StakingHotkeys s) (TotalHotkeyAlpha s) (TotalHotkeyShares s) (Alpha s)
    (TotalHotkeySharesV2 s) (AlphaV2 s).

(** The handle of a pool, with the storage it works on. *)
Record HotkeyAlphaSharePoolDataOperations : Type := mk_alpha_pool {
  pool_netuid : Z;
  pool_hotkey : AccountId;
  pool_store : StakeStore;
}.

#[export] Instance alpha_pool_eta : Eta HotkeyAlphaSharePoolDataOperations := fun p =>
  mk_alpha_pool (pool_netuid p) (pool_hotkey p) (pool_store p).

Definition alpha_get_shared_value (self : HotkeyAlphaSharePoolDataOperations) : Z :=
  default 0 (TotalHotkeyAlpha (pool_store self) !! (pool_hotkey self, pool_netuid self)).

Definition alpha_get_share (self : HotkeyAlphaSharePoolDataOperations) (key : AccountId) : SafeFloat :=
  match Alpha (pool_store self) !! (pool_hotkey self, key, pool_netuid self) with
  | Some share_v1 => SafeFloat_from_U64F64 share_v1
  | None => default SafeFloat_zero (AlphaV2 (pool_store self) !! (pool_hotkey self, key, pool_netuid self))
  end.

Definition alpha_try_get_share (self : HotkeyAlphaSharePoolDataOperations) (key : AccountId)
    : result unit SafeFloat :=
  match Alpha (pool_store self) !! (pool_hotkey self, key, pool_netuid self) with
  | Some share_v1 => Ok (SafeFloat_from_U64F64 share_v1)
  | None =>
      match AlphaV2 (pool_store self) !! (pool_hotkey self, key, pool_netuid self) with
      | Some share => Ok share
      | None => Err tt
      end
  end.

Definition alpha_get_denominator (self : HotkeyAlphaSharePoolDataOperations) : SafeFloat :=
  match TotalHotkeyShares (pool_store self) !! (pool_hotkey self, pool_netuid self) with
  | Some denominator_v1 => SafeFloat_from_U64F64 denominator_v1
  | None => default SafeFloat_zero (TotalHotkeySharesV2 (pool_store self) !! (pool_hotkey self, pool_netuid self))
  end.

Definition alpha_set_shared_value (value : Z) (self : HotkeyAlphaSharePoolDataOperations)
    : HotkeyAlphaSharePoolDataOperations :=
  let k := (pool_hotkey self, pool_netuid self) in
  self <| pool_store ::= fun s =>
    s <| TotalHotkeyAlpha ::= if negb (value =? 0) then <[k := value]> else delete k |> |>.

(** Removing an entry that is not there changes nothing. *)
Definition alpha_set_share (key : AccountId) (share : SafeFloat)
    (self : HotkeyAlphaSharePoolDataOperations) : HotkeyAlphaSharePoolDataOperations :=
  let k := (pool_hotkey self, key, pool_netuid self) in
  self <| pool_store ::= fun s =>
    s <| Alpha ::= delete k |>
      <| AlphaV2 ::= if negb (SafeFloat_is_zero share) then <[k := share]> else delete k |> |>.

Definition alpha_set_denominator (update : SafeFloat) (self : HotkeyAlphaSharePoolDataOperations)
    : HotkeyAlphaSharePoolDataOperations :=
  let k := (pool_hotkey self, pool_netuid self) in
  self <| pool_store ::= fun s =>
    s <| TotalHotkeyShares ::= delete k |>
      <| TotalHotkeySharesV2 ::= if negb (SafeFloat_is_zero update) then <[k := update]> else delete k |> |>.

#[export] Instance alpha_pool_operations :
    SharePoolDataOperations HotkeyAlphaSharePoolDataOperations AccountId := {
  get_shared_value := alpha_get_shared_value;
  get_share := alpha_get_share;
  try_get_share := alpha_try_get_share;
  get_denominator := alpha_get_denominator;
  set_shared_value := alpha_set_shared_value;
  set_share := alpha_set_share;
  set_denominator := alpha_set_denominator;
}.

(** ** Stakes *)

Definition get_alpha_share_pool (hotkey : AccountId) (netuid : Z) (s : StakeStore)
    : HotkeyAlphaSharePoolDataOperations := mk_alpha_pool netuid hotkey s.

(** [amount as i64] for a [u64], and [neg], which wraps for the smallest [i64]. *)
Definition u64_as_i64 (amount : Z) : Z := (amount + 2 ^ 63) mod 2 ^ 64 - 2 ^ 63.
Definition i64_neg (z : Z) : Z := if z =? i64_min then i64_min else - z.

Definition get_stake_for_hotkey_and_coldkey_on_subnet (hotkey coldkey : AccountId) (netuid : Z)
    (s : StakeStore) : Z :=
  match SharePool_try_get_value (get_alpha_share_pool hotkey netuid s) coldkey with
  | Ok value => value
  | Err _ => 0
  end.

Definition get_stake_for_hotkey_on_subnet (hotkey : AccountId) (netuid : Z) (s : StakeStore) : Z :=
  default 0 (TotalHotkeyAlpha s !! (hotkey, netuid)).

Definition increase_stake_for_hotkey_on_subnet (hotkey : AccountId) (netuid amount : Z)
    (s : StakeStore) : StakeStore :=
  pool_store (SharePool_update_value_for_all (u64_as_i64 amount) (get_alpha_share_pool hotkey netuid s)).

Definition decrease_stake_for_hotkey_on_subnet (hotkey : AccountId) (netuid amount : Z)
    (s : StakeStore) : StakeStore :=
  pool_store (SharePool_update_value_for_all (i64_neg (u64_as_i64 amount)) (get_alpha_share_pool hotkey netuid s)).

Definition increase_stake_for_hotkey_and_coldkey_on_subnet (hotkey coldkey : AccountId)
    (netuid amount : Z) (s : StakeStore) : StakeStore :=
  let s :=
    if negb (amount =? 0) then
      let staking_hotkeys := default [] (StakingHotkeys s !! coldkey) in
      if bool_decide (hotkey ∈ staking_hotkeys) then s
      else s <| StakingHotkeys ::= <[coldkey := staking_hotkeys ++ [hotkey]]> |>
    else s in
  pool_store (SharePool_update_value_for_one coldkey (u64_as_i64 amount)
                (get_alpha_share_pool hotkey netuid s)).

Definition try_increase_stake_for_hotkey_and_coldkey_on_subnet (hotkey : AccountId)
    (netuid amount : Z) (s : StakeStore) : bool :=
  SharePool_sim_update_value_for_one (get_alpha_share_pool hotkey netuid s) (u64_as_i64 amount).

Definition decrease_stake_for_hotkey_and_coldkey_on_subnet (hotkey coldkey : AccountId)
    (netuid amount : Z) (s : StakeStore) : StakeStore :=
  let pool := get_alpha_share_pool hotkey netuid s in
  match SharePool_try_get_value pool coldkey with
  | Ok value =>
      if amount <=? value
      then pool_store (SharePool_update_value_for_one coldkey (i64_neg (u64_as_i64 amount)) pool)
      else s
  | Err _ => s
  end.

End Stake.
Arguments StakeStore AccountId {_ _}.
Arguments HotkeyAlphaSharePoolDataOperations AccountId {_ _}.

(** ** The storage layer satisfies the laws of pools *)

Section Laws.
Context {AccountId : Type} `{Countable AccountId}.

Lemma normal_stored (x : SafeFloat) : normal x -> SafeFloat_is_zero x = true -> x = SafeFloat_zero.
Proof. intros Nx Ex. destruct (normal_cases x Nx) as [[_ ->]|[E _]]; [done|congruence]. Qed.

#[export] Instance alpha_pool_laws : SharePoolLaws (HotkeyAlphaSharePoolDataOperations AccountId) AccountId.
Proof.
  split; intros [n h s]; cbn -[SafeFloat_from_U64F64].
  - intros v Hv. unfold alpha_get_shared_value. cbn. destruct (Z.eqb_spec v 0) as [->|]; cbn.
    + by rewrite lookup_delete_eq.
    + by rewrite lookup_insert_eq.
  - done.
  - done.
  - intros k x k' Nx. unfold alpha_get_share. cbn. destruct (decide (k = k')) as [<-|Hne].
    + rewrite lookup_delete_eq. destruct (SafeFloat_is_zero x) eqn:Ex; cbn.
      * by rewrite lookup_delete_eq, (normal_stored x).
      * by rewrite lookup_insert_eq.
    + rewrite lookup_delete_ne by congruence. destruct (SafeFloat_is_zero x); cbn.
      * by rewrite lookup_delete_ne by congruence.
      * by rewrite lookup_insert_ne by congruence.
  - done.
  - done.
  - intros x Nx. unfold alpha_get_denominator. cbn. rewrite lookup_delete_eq.
    destruct (SafeFloat_is_zero x) eqn:Ex; cbn.
    + by rewrite lookup_delete_eq, (normal_stored x).
    + by rewrite lookup_insert_eq.
  - done.
  - done.
  - intros k. unfold alpha_get_share, alpha_try_get_share. cbn.
    destruct (Alpha s !! (h, k, n)); [done|]. by destruct (AlphaV2 s !! (h, k, n)).
Qed.
End Laws.

(** ** Stakes move with their pools *)

Section Stakes.
Context {AccountId : Type} `{Countable AccountId}.
Implicit Types (s : StakeStore AccountId) (h c : AccountId).

Lemma mul_div_zero_share (v d : SafeFloat) :
  u64_from_SafeFloat (default SafeFloat_zero (SafeFloat_mul_div v SafeFloat_zero d)) = 0.
Proof.
  unfold SafeFloat_mul_div. destruct (Z.eqb_spec (mantissa d) 0) as [|Hd]; [done|].
  cbn [mantissa exponent SafeFloat_zero].
  assert (Em : default 0 (checked_mul 256 (mantissa v) 0) = 0).
  { unfold checked_mul. rewrite Z.mul_0_r. done. }
  rewrite Em. destruct (i64_checked (exponent v + _)); [|done]. cbn [mbind option_bind].
  destruct (i64_checked (_ - _)); [|done]. cbn [mbind option_bind].
  unfold checked_div. by rewrite (proj2 (Z.eqb_neq _ _) Hd).
Qed.

(** A coldkey without an entry has no stake. *)
Lemma stake_is_value h c n s :
  get_stake_for_hotkey_and_coldkey_on_subnet h c n s =
  SharePool_get_value (get_alpha_share_pool h n s) c.
Proof.
  unfold get_stake_for_hotkey_and_coldkey_on_subnet, SharePool_try_get_value.
  pose proof (law_try_share (get_alpha_share_pool h n s) c) as E.
  destruct (try_get_share (get_alpha_share_pool h n s) c) as [x|e]; [done|].
  unfold SharePool_get_value. rewrite E. by rewrite mul_div_zero_share.
Qed.

Lemma total_is_value h n s :
  get_stake_for_hotkey_on_subnet h n s = get_shared_value (get_alpha_share_pool h n s).
Proof. done. Qed.

(** An update stays within its pool. *)
Lemma update_handle h c n u s :
  SharePool_update_value_for_one c u (get_alpha_share_pool h n s) =
  get_alpha_share_pool h n (pool_store (SharePool_update_value_for_one c u (get_alpha_share_pool h n s))).
Proof.
  unfold SharePool_update_value_for_one. destruct (SafeFloat_is_zero _); [done|].
  by destruct (0 <? u).
Qed.

(** Reading a pool depends on its own entries only. *)
Definition same_pool h n s s' : Prop :=
  TotalHotkeyAlpha s' !! (h, n) = TotalHotkeyAlpha s !! (h, n) /\
  TotalHotkeyShares s' !! (h, n) = TotalHotkeyShares s !! (h, n) /\
  TotalHotkeySharesV2 s' !! (h, n) = TotalHotkeySharesV2 s !! (h, n) /\
  forall c, Alpha s' !! (h, c, n) = Alpha s !! (h, c, n) /\ AlphaV2 s' !! (h, c, n) = AlphaV2 s !! (h, c, n).

Lemma same_pool_stakes h n s s' :
  same_pool h n s s' ->
  get_stake_for_hotkey_on_subnet h n s' = get_stake_for_hotkey_on_subnet h n s /\
  forall c, get_stake_for_hotkey_and_coldkey_on_subnet h c n s' =
            get_stake_for_hotkey_and_coldkey_on_subnet h c n s.
Proof.
  intros (E1 & E2 & E3 & E4). unfold get_stake_for_hotkey_on_subnet. rewrite E1. split; [done|].
  intros c. destruct (E4 c) as [E5 E6]. rewrite !stake_is_value.
  unfold SharePool_get_value. cbn. unfold alpha_get_shared_value, alpha_get_share, alpha_get_denominator. cbn.
  by rewrite E1, E2, E3, E5, E6.
Qed.

Lemma set_all_other_pool h n h' n' c v x y s :
  (h', n') <> (h, n) ->
  same_pool h' n' s (pool_store (set_shared_value v (set_share c x (set_denominator y (get_alpha_share_pool h n s))))).
Proof.
  intros Hne. unfold same_pool. cbn. split_and!; [|..|intros c'; split].
  - destruct (v =? 0); cbn; [by rewrite lookup_delete_ne|by rewrite lookup_insert_ne].
  - by rewrite lookup_delete_ne.
  - destruct (SafeFloat_is_zero y); cbn; [by rewrite lookup_delete_ne|by rewrite lookup_insert_ne].
  - rewrite lookup_delete_ne; congruence.
  - destruct (SafeFloat_is_zero x); cbn; [rewrite lookup_delete_ne|rewrite lookup_insert_ne]; congruence.
Qed.

Lemma update_other_pool h n h' n' c u s :
  (h', n') <> (h, n) ->
  same_pool h' n' s (pool_store (SharePool_update_value_for_one c u (get_alpha_share_pool h n s))).
Proof.
  intros Hne. unfold SharePool_update_value_for_one.
  destruct (SafeFloat_is_zero _); [by apply set_all_other_pool|].
  destruct (0 <? u); by apply set_all_other_pool.
Qed.

Lemma u64_as_i64_small (a : Z) : 0 <= a < 2 ^ 63 -> u64_as_i64 a = a /\ i64_neg (u64_as_i64 a) = - a.
Proof.
  intros Ha. assert (E : u64_as_i64 a = a).
  { unfold u64_as_i64. rewrite Z.mod_small; lia. }
  rewrite E. split; [done|]. unfold i64_neg. by rewrite (proj2 (Z.eqb_neq _ _)) by (unfold i64_min; lia).
Qed.

(** What an update leaves behind, seen from every stake: the total and the stake of [c] move by
    [u], the other stakes stay.  [ok] says which coldkeys of the same pool are considered. *)
Definition stakes_moved (u : Z) (ok : AccountId -> Prop) h c n s s' : Prop :=
  get_stake_for_hotkey_on_subnet h n s' = get_stake_for_hotkey_on_subnet h n s + u /\
  Z.abs (get_stake_for_hotkey_and_coldkey_on_subnet h c n s' -
         (get_stake_for_hotkey_and_coldkey_on_subnet h c n s + u)) <= 5 /\
  (forall c', c' <> c -> ok c' ->
     Z.abs (get_stake_for_hotkey_and_coldkey_on_subnet h c' n s' -
            get_stake_for_hotkey_and_coldkey_on_subnet h c' n s) <= 5) /\
  (forall h' n', (h', n') <> (h, n) ->
     get_stake_for_hotkey_on_subnet h' n' s' = get_stake_for_hotkey_on_subnet h' n' s /\
     forall c', get_stake_for_hotkey_and_coldkey_on_subnet h' c' n' s' =
                get_stake_for_hotkey_and_coldkey_on_subnet h' c' n' s).

Lemma update_stakes_moved (ok : AccountId -> Prop) h c n u s :
  let pool := get_alpha_share_pool h n s in
  let pool' := SharePool_update_value_for_one c u pool in
  get_shared_value pool' = get_shared_value pool + u ->
  Z.abs (SharePool_get_value pool' c - (SharePool_get_value pool c + u)) <= 5 ->
  (forall c', c' <> c -> ok c' -> Z.abs (SharePool_get_value pool' c' - SharePool_get_value pool c') <= 5) ->
  stakes_moved u ok h c n s (pool_store pool').
Proof.
  intros pool pool' E1 E2 E3. pose proof (update_handle h c n u s) as Eh. fold pool pool' in Eh.
  unfold stakes_moved. split_and!.
  - rewrite !total_is_value, <- Eh. done.
  - rewrite !stake_is_value, <- Eh. done.
  - intros c' Hne Hok. rewrite !stake_is_value, <- Eh. by apply E3.
  - intros h' n' Hne. by apply same_pool_stakes, update_other_pool.
Qed.

Lemma stake_le_total h c n s :
  pool_ok (2 ^ 59) (get_alpha_share_pool h n s) -> share_ok (2 ^ 59) (get_alpha_share_pool h n s) c ->
  0 <= get_stake_for_hotkey_and_coldkey_on_subnet h c n s <= get_stake_for_hotkey_on_subnet h n s.
Proof.
  intros Ho Hc. rewrite stake_is_value, total_is_value.
  split; [apply (pool_bracket _ _ Ho Hc)|by apply get_value_le_pool].
Qed.

(** The pool after an update is the pool of the new storage. *)
Lemma kept_pool b ok h c n u s :
  pool_kept b ok c (SharePool_update_value_for_one c u (get_alpha_share_pool h n s)) ->
  pool_kept b ok c (get_alpha_share_pool h n
    (pool_store (SharePool_update_value_for_one c u (get_alpha_share_pool h n s)))).
Proof. by rewrite <- update_handle. Qed.

(** An increase updates the pool, after a write to the list of hotkeys, which no stake reads. *)
Lemma increase_update h c n a s (Q : StakeStore AccountId -> Prop) :
  0 < a < 2 ^ 63 ->
  (forall hotkeys, Q (pool_store (SharePool_update_value_for_one c a
     (get_alpha_share_pool h n (s <| StakingHotkeys := hotkeys |>))))) ->
  Q (increase_stake_for_hotkey_and_coldkey_on_subnet h c n a s).
Proof.
  intros Ha HQ. unfold increase_stake_for_hotkey_and_coldkey_on_subnet.
  rewrite (proj2 (Z.eqb_neq a 0)), (proj1 (u64_as_i64_small a ltac:(lia))) by lia. cbn [negb].
  case_bool_decide; [|apply HQ]. specialize (HQ (StakingHotkeys s)). by destruct s.
Qed.

Lemma first_increase h c n a s :
  SafeFloat_is_zero (get_denominator (get_alpha_share_pool h n s)) = true ->
  0 < a -> 0 <= get_stake_for_hotkey_on_subnet h n s -> get_stake_for_hotkey_on_subnet h n s + a < 2 ^ 63 ->
  let s' := increase_stake_for_hotkey_and_coldkey_on_subnet h c n a s in
  get_stake_for_hotkey_on_subnet h n s' = get_stake_for_hotkey_on_subnet h n s + a /\
  get_stake_for_hotkey_and_coldkey_on_subnet h c n s' = get_stake_for_hotkey_on_subnet h n s + a /\
  pool_kept 78 (fun c' => get_share (get_alpha_share_pool h n s) c' = SafeFloat_zero) c
    (get_alpha_share_pool h n s').
Proof.
  intros Hz Ha Hv Hva. rewrite total_is_value in Hv, Hva |- *. cbv zeta.
  apply increase_update; [lia|]. intros hotkeys. set (s1 := s <| StakingHotkeys := hotkeys |>).
  pose proof (first_update_gets_all (get_alpha_share_pool h n s1) c a) as F.
  destruct (F Hz Ha Hv Hva) as (E1 & E2 & E3).
  rewrite update_handle in E1, E2, E3. by rewrite total_is_value, stake_is_value.
Qed.

Lemma increase_moves b h c n a s :
  b <= 2 ^ 59 -> pool_ok b (get_alpha_share_pool h n s) -> share_ok b (get_alpha_share_pool h n s) c ->
  0 < a -> get_stake_for_hotkey_on_subnet h n s + a < 2 ^ 63 ->
  let s' := increase_stake_for_hotkey_and_coldkey_on_subnet h c n a s in
  stakes_moved a (share_ok b (get_alpha_share_pool h n s)) h c n s s' /\
  pool_kept (b + 390) (share_ok b (get_alpha_share_pool h n s)) c (get_alpha_share_pool h n s').
Proof.
  intros Hb Ho Hc Ha Hv. rewrite total_is_value in Hv. assert (Hv0 := proj1 Ho). unfold value_ok in Hv0.
  cbv zeta. apply increase_update; [lia|]. intros hotkeys. set (s1 := s <| StakingHotkeys := hotkeys |>).
  change (pool_ok b (get_alpha_share_pool h n s1)) in Ho. change (share_ok b (get_alpha_share_pool h n s1) c) in Hc.
  assert (Hva : value_ok (get_shared_value (get_alpha_share_pool h n s) + a)) by (unfold value_ok; lia).
  change (value_ok (get_shared_value (get_alpha_share_pool h n s1) + a)) in Hva.
  split; [|pose proof (deposit_kept b _ c a Hb Ho Hc Ha Hva) as K; apply kept_pool in K; exact K].
  destruct (deposit_moves _ c a (pool_ok_mono _ _ _ Hb Ho) (share_ok_mono _ _ _ _ Hb Hc) Ha Hva) as (E1 & E2 & E3).
  refine (update_stakes_moved (share_ok b (get_alpha_share_pool h n s1)) h c n a s1 E1 E2 _).
  intros c' Hne Hok. apply E3; [done|]. by apply (share_ok_mono b).
Qed.

Definition fits b h c n s (c' : AccountId) : Prop :=
  let pool := get_alpha_share_pool h n s in
  share_ok b pool c' /\ scaled (get_share pool c) + scaled (get_share pool c') <= scaled (get_denominator pool).

Lemma decrease_moves b h c n a s :
  b <= 2 ^ 59 -> pool_ok b (get_alpha_share_pool h n s) -> share_ok b (get_alpha_share_pool h n s) c -> 0 < a ->
  let s' := decrease_stake_for_hotkey_and_coldkey_on_subnet h c n a s in
  if a <=? get_stake_for_hotkey_and_coldkey_on_subnet h c n s
  then stakes_moved (- a) (fits b h c n s) h c n s s' /\
       (a < get_stake_for_hotkey_on_subnet h n s ->
        pool_kept (b + 390) (fits b h c n s) c (get_alpha_share_pool h n s'))
  else s' = s.
Proof.
  intros Hb Ho Hc Ha s'. pose proof (pool_ok_mono _ _ _ Hb Ho) as Ho59. pose proof (share_ok_mono _ _ _ _ Hb Hc) as Hc59.
  pose proof (stake_le_total h c n s Ho59 Hc59) as Hle.
  assert (Hv0 := proj1 Ho). unfold value_ok in Hv0. rewrite <- total_is_value in Hv0.
  assert (Es : s' = if a <=? get_stake_for_hotkey_and_coldkey_on_subnet h c n s
    then pool_store (SharePool_update_value_for_one c (i64_neg (u64_as_i64 a)) (get_alpha_share_pool h n s)) else s).
  { subst s'. unfold decrease_stake_for_hotkey_and_coldkey_on_subnet, get_stake_for_hotkey_and_coldkey_on_subnet.
    destruct (SharePool_try_get_value _ c) as [v|e]; [done|]. by rewrite (proj2 (Z.leb_gt a 0)). }
  destruct (Z.leb_spec a (get_stake_for_hotkey_and_coldkey_on_subnet h c n s)) as [Hs|Hs]; [|done].
  rewrite (proj2 (u64_as_i64_small a ltac:(lia))) in Es. rewrite Es.
  rewrite stake_is_value in Hs. split.
  - destruct (withdraw_moves _ c a Ho59 Hc59 (conj Ha Hs)) as (E1 & E2 & E3).
    apply update_stakes_moved; [done|done|].
    intros c' Hne [Hok Hd]. apply E3; [done| |done]. by apply (share_ok_mono b).
  - rewrite total_is_value. intros Hlt. apply kept_pool.
    exact (withdraw_kept b _ c a Hb Ho Hc (conj Ha Hs) Hlt).
Qed.

(** C31 Stakes move by the amount that is staked or unstaked.  Throughout, the total of the
    hotkey stays below [2 ^ 63], and the exponents of the shares are at most [b <= 2 ^ 59].
    - The first stake of a pool without shares gets the whole total, to the unit, and puts the
      pool in use: positive total, a denominator with full digits, and the share of the coldkey
      (of every coldkey without one, too) is a normal number of at most all shares.
    - In a pool in use, for a coldkey with such a share, an increase adds the amount to the
      total exactly and to the stake of the coldkey up to five units; every other coldkey with
      such a share keeps its stake up to five units, and all other pools keep their total and
      their stakes exactly.  The pool stays in use, and so do all these shares.
    - A decrease of more than the coldkey has changes nothing.  Otherwise it takes the amount
      away in the same way; the other coldkeys that keep their stake are those whose share is,
      together with that of the coldkey, at most all shares.  The pool and these shares stay in
      use unless the whole total is taken.
    An operation makes the bound on the exponents grow by 390 at most: from the first stake on
    (78), more than [10 ^ 15] operations are covered. *)
Theorem stakes_move b h c n a s :
  b <= 2 ^ 59 -> 0 < a ->
  (SafeFloat_is_zero (get_denominator (get_alpha_share_pool h n s)) = true ->
   0 <= get_stake_for_hotkey_on_subnet h n s -> get_stake_for_hotkey_on_subnet h n s + a < 2 ^ 63 ->
   let s' := increase_stake_for_hotkey_and_coldkey_on_subnet h c n a s in
   get_stake_for_hotkey_on_subnet h n s' = get_stake_for_hotkey_on_subnet h n s + a /\
   get_stake_for_hotkey_and_coldkey_on_subnet h c n s' = get_stake_for_hotkey_on_subnet h n s + a /\
   pool_kept 78 (fun c' => get_share (get_alpha_share_pool h n s) c' = SafeFloat_zero) c
     (get_alpha_share_pool h n s')) /\
  (pool_ok b (get_alpha_share_pool h n s) -> share_ok b (get_alpha_share_pool h n s) c ->
   (get_stake_for_hotkey_on_subnet h n s + a < 2 ^ 63 ->
    let s' := increase_stake_for_hotkey_and_coldkey_on_subnet h c n a s in
    stakes_moved a (share_ok b (get_alpha_share_pool h n s)) h c n s s' /\
    pool_kept (b + 390) (share_ok b (get_alpha_share_pool h n s)) c (get_alpha_share_pool h n s')) /\
   (let s' := decrease_stake_for_hotkey_and_coldkey_on_subnet h c n a s in
    if a <=? get_stake_for_hotkey_and_coldkey_on_subnet h c n s
    then stakes_moved (- a) (fits b h c n s) h c n s s' /\
         (a < get_stake_for_hotkey_on_subnet h n s ->
          pool_kept (b + 390) (fits b h c n s) c (get_alpha_share_pool h n s'))
    else s' = s)).
Proof.
  intros Hb Ha. split; [intros Hz Hv Hva; by apply first_increase|].
  intros Ho Hc. split; [intros Hv; by apply increase_moves|by apply decrease_moves].
Qed.
End Stakes.

(** ** Examples *)

(** A hotkey with two coldkeys, one of them still in the deprecated format. *)
Definition stake_sample : StakeStore Z := {|
  StakingHotkeys := {[ 7 := [1]; 8 := [1] ]};
  TotalHotkeyAlpha := {[ (1, 3) := 1000 ]};
  TotalHotkeyShares := ∅;
  Alpha := {[ (1, 8, 3) := 400 * 2 ^ 64 ]};
  TotalHotkeySharesV2 := {[ (1, 3) := SafeFloat_from_u64 1000 ]};
  AlphaV2 := {[ (1, 7, 3) := SafeFloat_from_u64 600 ]};
|}.

Lemma stake_sample_values :
  map (fun c => get_stake_for_hotkey_and_coldkey_on_subnet 1 c 3 stake_sample) [7; 8; 9] = [600; 400; 0].
Proof. vm_compute. reflexivity. Qed.

Lemma stake_sample_pool : pool_ok 78 (get_alpha_share_pool 1 3 stake_sample).
Proof.
  split_and!; [split; vm_compute; [discriminate|reflexivity]|vm_compute; reflexivity| |vm_compute; discriminate].
  destruct (from_u64_spec 1000 ltac:(lia)) as [[E|Hd] _]; [vm_compute in E; discriminate|].
  exact Hd.
Qed.

Lemma stake_sample_share : share_ok 78 (get_alpha_share_pool 1 3 stake_sample) 7.
Proof.
  destruct (from_u64_spec 600 ltac:(lia)) as [N1 S1]. destruct (from_u64_spec 1000 ltac:(lia)) as [N2 S2].
  split_and!; [exact N1|vm_compute; discriminate|].
  change (scaled (SafeFloat_from_u64 600) <= scaled (SafeFloat_from_u64 1000)).
  rewrite S1, S2. pose proof one_pos. lia.
Qed.

(** A coldkey that stakes 1000, stakes 50 more, and cannot take 601 out of 600. *)
Lemma stakes_move_witness :
  get_stake_for_hotkey_and_coldkey_on_subnet 1 9 4
    (increase_stake_for_hotkey_and_coldkey_on_subnet 1 9 4 1000 stake_sample) = 1000 /\
  pool_ok 468 (get_alpha_share_pool 1 3 (increase_stake_for_hotkey_and_coldkey_on_subnet 1 7 3 50 stake_sample)) /\
  decrease_stake_for_hotkey_and_coldkey_on_subnet 1 7 3 601 stake_sample = stake_sample.
Proof.
  assert (Hb : 78 <= 2 ^ 59) by lia.
  assert (Hz : SafeFloat_is_zero (get_denominator (get_alpha_share_pool 1 4 stake_sample)) = true)
    by (vm_compute; reflexivity).
  assert (H0 : 0 <= get_stake_for_hotkey_on_subnet 1 4 stake_sample) by (vm_compute; discriminate).
  assert (H1 : get_stake_for_hotkey_on_subnet 1 4 stake_sample + 1000 < 2 ^ 63) by (vm_compute; reflexivity).
  assert (H2 : get_stake_for_hotkey_on_subnet 1 3 stake_sample + 50 < 2 ^ 63) by (vm_compute; reflexivity).
  split_and!.
  - exact (proj1 (proj2 (proj1 (stakes_move 78 1 9 4 1000 stake_sample Hb eq_refl) Hz H0 H1))).
  - exact (proj1 (proj2 (proj1 (proj2 (stakes_move 78 1 7 3 50 stake_sample Hb eq_refl)
      stake_sample_pool stake_sample_share) H2))).
  - exact (proj2 (proj2 (stakes_move 78 1 7 3 601 stake_sample Hb eq_refl)
      stake_sample_pool stake_sample_share)).
Defined.

(** A drained pool: shares are left, but nothing backs them. *)
Definition drained_sample : StakeStore Z := {|
  StakingHotkeys := ∅;
  TotalHotkeyAlpha := ∅;
  TotalHotkeyShares := ∅;
  Alpha := ∅;
  TotalHotkeySharesV2 := {[ (1, 3) := SafeFloat_from_u64 1000 ]};
  AlphaV2 := {[ (1, 7, 3) := SafeFloat_from_u64 1000 ]};
|}.

Lemma drained_normal :
  normal (get_denominator (get_alpha_share_pool 1 3 drained_sample)) /\
  forall k, normal (get_share (get_alpha_share_pool 1 3 drained_sample) k).
Proof.
  pose proof (proj1 (from_u64_spec 1000 ltac:(lia))) as N. split; [exact N|].
  intros k. cbn. unfold alpha_get_share. cbn [pool_store get_alpha_share_pool pool_hotkey pool_netuid Alpha AlphaV2 drained_sample].
  rewrite lookup_empty. destruct (decide (k = 7)) as [->|Hne]; [exact N|].
  rewrite lookup_singleton_ne by congruence. apply normal_zero.
Qed.

Lemma sim_update_exact_witness :
  let pool := get_alpha_share_pool 1 3 drained_sample in
  SharePool_sim_update_value_for_one pool 50 = false /\
  get_denominator (SharePool_update_value_for_one 8 50 pool) = get_denominator pool.
Proof.
  intros pool. assert (E : SharePool_sim_update_value_for_one pool 50 = false) by (vm_compute; reflexivity).
  split; [exact E|]. destruct drained_normal as [N1 N2].
  assert (Hv : 0 <= get_shared_value pool) by (vm_compute; discriminate).
  exact (proj1 (proj2 (proj1 (sim_update_exact pool 8 50 N1 N2 Hv eq_refl) E))).
Defined.
