(* ===== verification/Scale.v ===== *)
(** * The interface of the SCALE codec

    What the hand-written [Encode] and [Decode] implementations of the registry and
    commitments pallets use of [parity-scale-codec] and [sp_runtime]: inputs, the codecs of
    the primitive and bounded types, and [AppendZerosInput].  They are parameters; the laws
    state what the codec documents of them.  A derived implementation encodes the fields of
    a struct one after the other, which is [pair_codec]. *)

From S2P Require Import Prelude.
From stdpp Require Import base tactics list option.
From Stdlib Require Import ZArith Lia.
Open Scope Z_scope.

(** [codec::Input]: [read] fills a buffer of the given length or fails. *)
Class Input (I : Type) := read : nat -> I -> option (list Z * I).
#[export] Hint Mode Input ! : typeclass_instances.

(** [feeds i l]: the next bytes of the input are [l].  [ends i l]: they are all it has. *)
Class InputLaws (I : Type) `{IN : Input I} := {
  feeds : I -> list Z -> Prop;
  ends : I -> list Z -> Prop;
  read_feeds i a b : feeds i (a ++ b) -> exists i', read (length a) i = Some (a, i') /\ feeds i' b;
  read_sound n i a i' : read n i = Some (a, i') ->
    length a = n /\ forall b, feeds i' b -> feeds i (a ++ b);
  ends_cons i b l : ends i (b :: l) -> exists i', read 1 i = Some ([b], i') /\ ends i' l;
  ends_nil i : ends i [] -> read 1 i = None;
}.

Lemma feeds_cons {I : Type} `{InputLaws I} (i : I) b l : feeds i (b :: l) ->
  exists i', read 1 i = Some ([b], i') /\ feeds i' l.
Proof. apply (read_feeds i [b] l). Qed.

(** [Encode] and [Decode]. *)
Record Codec (A : Type) : Type := mk_Codec {
  encode : A -> list Z;
  decode : forall (I : Type), Input I -> I -> option (A * I);
}.
Arguments mk_Codec {A} _ _.
Arguments encode {A} _ _.
Arguments decode {A} _ {I _} _.

(** What is encoded is read back, with the rest of the input left. *)
Definition codec_ok {A} (c : Codec A) (wf : A -> Prop) : Prop :=
  forall I (IN : Input I) (L : InputLaws I) a i rest, wf a -> feeds i (encode c a ++ rest) ->
    exists i', decode c i = Some (a, i') /\ feeds i' rest.

(** What is read back is well-formed and was encoded there. *)
Definition codec_sound {A} (c : Codec A) (wf : A -> Prop) : Prop :=
  forall I (IN : Input I) (L : InputLaws I) a i i', decode c i = Some (a, i') ->
    wf a /\ forall b, feeds i' b -> feeds i (encode c a ++ b).

(** ** Structs *)

Definition pair_codec {A B} (c : Codec A) (d : Codec B) : Codec (A * B) := mk_Codec
  (fun p => encode c (fst p) ++ encode d (snd p))
  (fun I _ (i : I) => '(a, i) ← decode c i; '(b, i) ← decode d i; Some ((a, b), i)).

Definition map_codec {A B} (f : A -> B) (g : B -> A) (c : Codec A) : Codec B := mk_Codec
  (fun b => encode c (g b))
  (fun I _ (i : I) => '(a, i) ← decode c i; Some (f a, i)).

Lemma pair_codec_ok {A B} (c : Codec A) (d : Codec B) P Q :
  codec_ok c P -> codec_ok d Q -> codec_ok (pair_codec c d) (fun p => P (fst p) /\ Q (snd p)).
Proof.
  intros Hc Hd I IN L [a b] i rest [Ha Hb] Hf. simpl in *. rewrite <- app_assoc in Hf.
  destruct (Hc _ _ _ _ _ _ Ha Hf) as (i1 & E1 & Hf1).
  destruct (Hd _ _ _ _ _ _ Hb Hf1) as (i2 & E2 & Hf2).
  exists i2. rewrite E1. simpl. by rewrite E2.
Qed.

Lemma map_codec_ok {A B} (f : A -> B) (g : B -> A) (c : Codec A) P Q :
  codec_ok c P -> (forall b, Q b -> P (g b)) -> (forall b, f (g b) = b) ->
  codec_ok (map_codec f g c) Q.
Proof.
  intros Hc HQ Hfg I IN L b i rest Hb Hf. simpl in *.
  destruct (Hc _ _ _ _ _ _ (HQ b Hb) Hf) as (i1 & E1 & Hf1).
  exists i1. rewrite E1. simpl. by rewrite Hfg.
Qed.

(** ** The codecs of other types *)

Class Scale := {
  u8_codec : Codec Z;
  u32_codec : Codec Z;
  u64_codec : Codec Z;
  (** [[u8; N]] *)
  array_codec : nat -> Codec (list Z);
  option_codec : forall A, Codec A -> Codec (option A);
  (** [BoundedVec<A, N>] *)
  bounded_vec_codec : forall A, nat -> Codec A -> Codec (list A);
  AppendZerosInput : Type -> Type;
  AppendZerosInput_new : forall I, I -> AppendZerosInput I;
  append_zeros_input :: forall I, Input I -> Input (AppendZerosInput I);
  (** The input that was borrowed. *)
  AppendZerosInput_inner : forall I, AppendZerosInput I -> I;
}.
Arguments option_codec {_ A} _.
Arguments bounded_vec_codec {_ A} _ _.
Arguments AppendZerosInput_new {_ I} _.
Arguments AppendZerosInput_inner {_ I} _.

(** A [BoundedVec] is as long as its bound at most, which is far below the limits of the
    compact encoding of lengths. *)
Definition bounded {A} (n : nat) (P : A -> Prop) (l : list A) : Prop := (length l <= n)%nat /\ Forall P l.

Definition if_some {A} (P : A -> Prop) (o : option A) : Prop :=
  match o with Some a => P a | None => True end.

Class ScaleLaws `{S : Scale} := {
  u8_ok : codec_ok u8_codec (in_range 8);
  u32_ok : codec_ok u32_codec (in_range 32);
  u64_ok : codec_ok u64_codec (in_range 64);
  (** An array is its bytes. *)
  array_encode n a : encode (array_codec n) a = a;
  array_decode n I (IN : Input I) (i : I) : decode (array_codec n) i = read n i;
  option_ok A (c : Codec A) P : codec_ok c P -> codec_ok (option_codec c) (if_some P);
  bounded_vec_ok A n (c : Codec A) P : Z.of_nat n < 2 ^ 14 -> codec_ok c P ->
    codec_ok (bounded_vec_codec n c) (bounded n P);
  (** The bytes of the borrowed input come first, and zeros when it is at its end. *)
  append_zeros_laws :: forall I (IN : Input I), InputLaws I -> InputLaws (AppendZerosInput I);
  append_zeros_feeds I (IN : Input I) (L : InputLaws I) i l :
    feeds i l -> feeds (AppendZerosInput_new i) l;
  append_zeros_end I (IN : Input I) (L : InputLaws I) i l k :
    ends i l -> feeds (AppendZerosInput_new i) (l ++ replicate k 0);
}.

Lemma array_ok `{ScaleLaws} n : codec_ok (array_codec n) (fun a => length a = n).
Proof.
  intros I IN L a i rest <- Hf. rewrite array_encode in Hf. rewrite array_decode. by apply read_feeds.
Qed.
