(* ===== verification/ScaleDemo.v ===== *)
(** * A codec that satisfies the interface

    A concrete codec, on inputs that are lists of bytes: integers in little-endian order,
    options and vectors after their tags and lengths.  It shows that the laws of [Scale] can
    hold, and the witnesses of the pallets compute with it. *)

From stdpp Require Import base tactics list option.
From S2P Require Import Prelude Scale.
From Stdlib Require Import ZArith Lia.
Open Scope Z_scope.

(** ** Inputs *)

#[export] Instance list_input : Input (list Z) := fun n l =>
  if (length l <? n)%nat then None else Some (take n l, drop n l).

#[export] Instance list_input_laws : InputLaws (list Z).
Proof.
  refine {| feeds i l := l `prefix_of` i; ends i l := i = l |}.
  - intros i a b [rest ->]. exists (b ++ rest). unfold read, list_input.
    rewrite <- app_assoc. rewrite (proj2 (Nat.ltb_ge _ _)) by (rewrite length_app; lia).
    rewrite take_app_length, drop_app_length. split; [done|by exists rest].
  - intros n i a i'. unfold read, list_input. destruct (Nat.ltb_spec (length i) n); [done|].
    intros [= <- <-]. split; [rewrite length_take; lia|].
    intros b [rest E]. exists rest. rewrite <- app_assoc, <- E. by rewrite take_drop.
  - intros i b l ->. exists l. by unfold read, list_input.
  - by intros i ->.
Defined.

Record zeros (I : Type) : Type := mk_zeros { zeros_inner : I }.
Arguments mk_zeros {I}.
Arguments zeros_inner {I} _.

Definition zeros_byte {I : Type} `{Input I} (z : zeros I) : Z * zeros I :=
  match read 1 (zeros_inner z) with
  | Some ([b], i) => (b, mk_zeros i)
  | _ => (0, z)
  end.

Fixpoint zeros_read {I : Type} `{Input I} (n : nat) (z : zeros I) : list Z * zeros I :=
  match n with
  | O => ([], z)
  | S n => let '(b, z) := zeros_byte z in let '(l, z) := zeros_read n z in (b :: l, z)
  end.

#[export] Instance zeros_input {I : Type} `{Input I} : Input (zeros I) := fun n z => Some (zeros_read n z).

Fixpoint zeros_feed {I : Type} `{Input I} (z : zeros I) (l : list Z) : Prop :=
  match l with
  | [] => True
  | b :: l => (zeros_byte z).1 = b /\ zeros_feed (zeros_byte z).2 l
  end.

#[export] Instance zeros_input_laws {I : Type} `{InputLaws I} : InputLaws (zeros I).
Proof.
  refine {| feeds z l := zeros_feed z l; ends _ _ := False |}; [| |done|done].
  - intros z a b Hf. unfold read, zeros_input.
    assert (E : exists z', zeros_read (length a) z = (a, z') /\ zeros_feed z' b).
    { revert z Hf. induction a as [|x a IH]; intros z Hf; simpl in *; [by exists z|].
      destruct (zeros_byte z) as [y z1]. simpl in Hf. destruct Hf as [-> Hf].
      destruct (IH z1 Hf) as (z' & -> & Hz). by exists z'. }
    destruct E as (z' & -> & Hz). by exists z'.
  - intros n z a z'. unfold read, zeros_input. intros [= E].
    revert z a E. induction n as [|n IH]; intros z a; simpl; [by intros [= <- <-]|].
    destruct (zeros_byte z) as [y z1] eqn:Ey. destruct (zeros_read n z1) as [l z2] eqn:El.
    intros [= <- ->]. destruct (IH z1 l El) as [<- Hb]. split; [done|].
    intros b Hf. simpl. rewrite Ey. split; [done|]. by apply Hb.
Defined.

(** ** Codecs *)

Fixpoint le_bytes (n : nat) (z : Z) : list Z :=
  match n with O => [] | S n => z mod 256 :: le_bytes n (z / 256) end.

Lemma le_bytes_length n z : length (le_bytes n z) = n.
Proof. revert z. induction n; intros z; simpl; auto. Qed.

Lemma from_le_bytes_le n z : 0 <= z < 256 ^ Z.of_nat n -> from_le_bytes (le_bytes n z) = z.
Proof.
  revert z. induction n as [|n IH]; intros z Hz; simpl from_le_bytes; [simpl in Hz; lia|].
  replace (Z.of_nat (S n)) with (1 + Z.of_nat n) in Hz by lia. rewrite Z.pow_add_r in Hz by lia.
  rewrite IH; [pose proof (Z.div_mod z 256); lia|].
  split; [apply Z.div_pos; lia|apply Z.div_lt_upper_bound; lia].
Qed.

Definition uint_codec (n : nat) : Codec Z := mk_Codec (le_bytes n)
  (fun I _ (i : I) => '(l, i) ← read n i; Some (from_le_bytes l, i)).

Lemma uint_codec_ok n : codec_ok (uint_codec n) (fun z => 0 <= z < 256 ^ Z.of_nat n).
Proof.
  intros I IN L z i rest Hz Hf. simpl in *.
  destruct (read_feeds i (le_bytes n z) rest Hf) as (i' & E & Hf').
  rewrite le_bytes_length in E. exists i'. rewrite E. simpl. by rewrite from_le_bytes_le.
Qed.

Definition demo_option_codec A (c : Codec A) : Codec (option A) := mk_Codec
  (fun o => match o with None => [0] | Some a => 1 :: encode c a end)
  (fun I _ (i : I) => '(l, i) ← read 1 i;
     match l with
     | [0] => Some (None, i)
     | [1] => '(a, i) ← decode c i; Some (Some a, i)
     | _ => None
     end).

(** The compact encoding of a length in one or two bytes. *)
Definition length_bytes (n : nat) : list Z :=
  if (Z.of_nat n <? 64) then [Z.of_nat n * 4] else le_bytes 2 (Z.of_nat n * 4 + 1).

Definition read_length {I : Type} `{Input I} (i : I) : option (nat * I) :=
  '(l, i) ← read 1 i;
  match l with
  | [b] => if b mod 4 =? 0 then Some (Z.to_nat (b / 4), i)
           else '(h, i) ← read 1 i;
                match h with [c] => Some (Z.to_nat ((c * 256 + b) / 4), i) | _ => None end
  | _ => None
  end.

Fixpoint decode_times {A} (c : Codec A) (n : nat) {I : Type} `{Input I} (i : I) : option (list A * I) :=
  match n with
  | O => Some ([], i)
  | S n => '(a, i) ← decode c i; '(l, i) ← decode_times c n i; Some (a :: l, i)
  end.

Definition demo_vec_codec A (bound : nat) (c : Codec A) : Codec (list A) := mk_Codec
  (fun l => length_bytes (length l) ++ flat_map (encode c) l)
  (fun I _ (i : I) => '(n, i) ← read_length i;
     if (n <=? bound)%nat then decode_times c n i else None).

#[export] Instance demo_scale : Scale := {
  u8_codec := uint_codec 1;
  u32_codec := uint_codec 4;
  u64_codec := uint_codec 8;
  array_codec n := mk_Codec (fun l => l) (fun I _ (i : I) => read n i);
  option_codec := demo_option_codec;
  bounded_vec_codec := demo_vec_codec;
  AppendZerosInput := zeros;
  AppendZerosInput_new I i := mk_zeros i;
  append_zeros_input I _ := zeros_input;
  AppendZerosInput_inner I z := zeros_inner z;
}.

Lemma demo_option_ok A (c : Codec A) P : codec_ok c P -> codec_ok (demo_option_codec A c) (if_some P).
Proof.
  intros Hc I IN L [a|] i rest Ha Hf; simpl in *.
  - destruct (feeds_cons i _ _ Hf) as (i1 & -> & Hf1). simpl.
    destruct (Hc _ _ _ _ _ _ Ha Hf1) as (i2 & -> & Hf2). by exists i2.
  - destruct (feeds_cons i _ _ Hf) as (i1 & -> & Hf1). by exists i1.
Qed.

Lemma read_length_ok I (IN : Input I) (L : InputLaws I) n (i : I) rest : Z.of_nat n < 2 ^ 14 ->
  feeds i (length_bytes n ++ rest) -> exists i', read_length i = Some (n, i') /\ feeds i' rest.
Proof.
  intros Hn Hf. unfold read_length, length_bytes in *. destruct (Z.ltb_spec (Z.of_nat n) 64).
  - destruct (feeds_cons i _ _ Hf) as (i1 & E & Hf1). rewrite E. simpl.
    rewrite Z.mod_mul, Z.div_mul by lia. rewrite Nat2Z.id. by exists i1.
  - cbn [le_bytes app] in Hf. set (z := Z.of_nat n * 4 + 1) in *.
    destruct (feeds_cons i _ _ Hf) as (i1 & E & Hf1). rewrite E. simpl.
    destruct (feeds_cons i1 _ _ Hf1) as (i2 & E2 & Hf2). rewrite E2. simpl.
    assert (Hz : z / 256 mod 256 * 256 + z mod 256 = z).
    { rewrite (Z.mod_small (z / 256)); [pose proof (Z.div_mod z 256); lia|].
      split; [apply Z.div_pos; lia|apply Z.div_lt_upper_bound; lia]. }
    assert (Hm : z mod 256 mod 4 = 1).
    { rewrite Z.mod_mod_divide by (by exists 64). unfold z.
      rewrite Z.add_comm, Z.mod_add by lia. done. }
    rewrite Hm, Hz. simpl. exists i2. split; [|done]. do 2 f_equal. unfold z.
    rewrite Z.add_comm, Z.div_add by lia. change (1 / 4) with 0. lia.
Qed.

Lemma decode_times_ok A (c : Codec A) P I (IN : Input I) (L : InputLaws I) l (i : I) rest :
  codec_ok c P -> Forall P l -> feeds i (flat_map (encode c) l ++ rest) ->
  exists i', decode_times c (length l) i = Some (l, i') /\ feeds i' rest.
Proof.
  intros Hc Hl. revert i. induction Hl as [|a l Ha _ IH]; intros i Hf; simpl in *; [by exists i|].
  rewrite <- app_assoc in Hf. destruct (Hc _ _ _ _ _ _ Ha Hf) as (i1 & -> & Hf1). simpl.
  destruct (IH i1 Hf1) as (i2 & -> & Hf2). by exists i2.
Qed.

Lemma demo_vec_ok A n (c : Codec A) P : Z.of_nat n < 2 ^ 14 -> codec_ok c P ->
  codec_ok (demo_vec_codec A n c) (bounded n P).
Proof.
  intros Hn Hc I IN L l i rest [Hlen Hl] Hf. simpl in *. rewrite <- app_assoc in Hf.
  destruct (read_length_ok _ _ _ (length l) i _ ltac:(lia) Hf) as (i1 & -> & Hf1). simpl.
  rewrite (proj2 (Nat.leb_le _ _)) by done. by eapply decode_times_ok.
Qed.

#[export] Instance demo_scale_laws : ScaleLaws.
Proof.
  unshelve refine {| append_zeros_laws I IN L := zeros_input_laws |}.
  - apply (uint_codec_ok 1).
  - apply (uint_codec_ok 4).
  - apply (uint_codec_ok 8).
  - done.
  - done.
  - apply demo_option_ok.
  - apply demo_vec_ok.
  - intros I IN L i l. simpl. revert i. induction l as [|b l IH]; intros i Hf; simpl; [done|].
    destruct (feeds_cons i b l Hf) as (i' & E & Hf').
    unfold zeros_byte. simpl. rewrite E. simpl. split; [done|by apply IH].
  - intros I IN L i l k. simpl. revert i. induction l as [|b l IH]; intros i He; simpl.
    + apply ends_nil in He. induction k as [|k IHk]; simpl; [done|].
      unfold zeros_byte. simpl. rewrite He. done.
    + destruct (ends_cons i b l He) as (i' & E & He').
      unfold zeros_byte. simpl. rewrite E. simpl. split; [done|by apply IH].
Qed.
