(* ===== verification/Registry.v ===== *)
(** * The identity registry

    [pallets/registry/src/types.rs] and [lib.rs]: the data of an identity with its
    hand-written codec, and the two dispatchables that set and clear an identity against a
    deposit on hold.  The checks and amounts of the runtime are those of
    [runtime/src/lib.rs]. *)

From stdpp Require Import base tactics list gmap option.
From S2P Require Import Prelude Protocol Pallet Scale.
From Stdlib Require Import ZArith Lia.
Open Scope Z_scope.

(** ** Data *)

Inductive Data : Type :=
| Data_None
| Data_Raw (bytes : list Z)
| Data_BlakeTwo256 (h : list Z)
| Data_Sha256 (h : list Z)
| Data_Keccak256 (h : list Z)
| Data_ShaThree256 (h : list Z).

#[export] Instance Data_eq_dec : EqDecision Data.
Proof. solve_decision. Defined.

(** The bounds of the types: [BoundedVec<u8, ConstU32<64>>] and [[u8; 32]]. *)
Definition Data_wf (d : Data) : Prop :=
  match d with
  | Data_None => True
  | Data_Raw x => (length x <= 64)%nat
  | Data_BlakeTwo256 h | Data_Sha256 h | Data_Keccak256 h | Data_ShaThree256 h => length h = 32%nat
  end.

Record IdentityInfo : Type := mk_IdentityInfo {
  additional : list (Data * Data);
  display : Data;
  legal : Data;
  web : Data;
  riot : Data;
  email : Data;
  pgp_fingerprint : option (list Z);
  image : Data;
  twitter : Data;
}.

Record Registration : Type := mk_Registration {
  deposit : Z;
  info : IdentityInfo;
}.
#[export] Instance eta_Registration : Eta Registration := fun r =>
  mk_Registration (deposit r) (info r).

Section DataCodec.
Context `{S : Scale}.

(** [Data::decode]; the vector of [n - 1] zeros is within the bound of 64. *)
Definition Data_decode {I : Type} `{Input I} (input : I) : option (Data * I) :=
  '(byte, input) ← read 1 input;
  match byte with
  | [b] =>
      if b =? 0 then Some (Data_None, input)
      else if (1 <=? b) && (b <=? 65) then
        '(r, input) ← read (Z.to_nat (saturating_sub b 1)) input; Some (Data_Raw r, input)
      else if b =? 66 then
        '(h, input) ← decode (array_codec 32) input; Some (Data_BlakeTwo256 h, input)
      else if b =? 67 then
        '(h, input) ← decode (array_codec 32) input; Some (Data_Sha256 h, input)
      else if b =? 68 then
        '(h, input) ← decode (array_codec 32) input; Some (Data_Keccak256 h, input)
      else if b =? 69 then
        '(h, input) ← decode (array_codec 32) input; Some (Data_ShaThree256 h, input)
      else None
  | _ => None
  end.

Definition Data_encode (d : Data) : list Z :=
  match d with
  | Data_None => [0]
  | Data_Raw x =>
      let l := Z.min (Z.of_nat (length x)) 64 in
      saturating_add 8 l 1 :: x
  | Data_BlakeTwo256 h => 66 :: h
  | Data_Sha256 h => 67 :: h
  | Data_Keccak256 h => 68 :: h
  | Data_ShaThree256 h => 69 :: h
  end.

Definition Data_codec : Codec Data := mk_Codec Data_encode (@Data_decode).

(** The derived codec of [IdentityInfo]: its fields in order. *)
Definition IdentityInfo_codec (field_limit : nat) : Codec IdentityInfo :=
  map_codec
    (fun '(a, (d, (l, (w, (r, (e, (p, (i, t)))))))) => mk_IdentityInfo a d l w r e p i t)
    (fun x => (additional x, (display x, (legal x, (web x, (riot x, (email x,
                (pgp_fingerprint x, (image x, twitter x)))))))))
    (pair_codec (bounded_vec_codec field_limit (pair_codec Data_codec Data_codec))
    (pair_codec Data_codec (pair_codec Data_codec (pair_codec Data_codec
    (pair_codec Data_codec (pair_codec Data_codec
    (pair_codec (option_codec (array_codec 20))
    (pair_codec Data_codec Data_codec)))))))).

(** The derived encoding of [Registration]; the balance is a [u64]. *)
Definition Registration_encode (field_limit : nat) (r : Registration) : list Z :=
  encode (pair_codec u64_codec (IdentityInfo_codec field_limit)) (deposit r, info r).

(** [Registration::decode] *)
Definition Registration_decode (field_limit : nat) {I : Type} `{Input I} (input : I) :
    option (Registration * I) :=
  '((deposit, info), input) ←
     decode (pair_codec u64_codec (IdentityInfo_codec field_limit)) (AppendZerosInput_new input);
  Some (mk_Registration deposit info, AppendZerosInput_inner input).

End DataCodec.

(** ** The pallet *)

Inductive RegistryError : Type :=
| RegistryError_CannotRegister
| RegistryError_TooManyFieldsInIdentityInfo
| RegistryError_NotRegistered.

(** An error of the pallet, a bad origin, or an error of the currency. *)
Inductive RegistryDispatchError : Type :=
| RegistryDispatchError_Module (e : RegistryError)
| RegistryDispatchError_BadOrigin
| RegistryDispatchError_Currency (code : Z).

Inductive RegistryEvent : Type :=
| RegistryEvent_IdentitySet (who : AccountId)
| RegistryEvent_IdentityDissolved (who : AccountId).

Record RegistryStore (W : Type) : Type := mk_RegistryStore {
  IdentityOf : gmap AccountId Registration;
  registry_events : list RegistryEvent;
  registry_world : W;
}.
Arguments mk_RegistryStore {W}.
Arguments IdentityOf {W} _.
Arguments registry_events {W} _.
Arguments registry_world {W} _.
#[export] Instance eta_RegistryStore W : Eta (RegistryStore W) := fun r =>
  mk_RegistryStore (IdentityOf r) (registry_events r) (registry_world r).

Class RegistryConfig := {
  MaxAdditionalFields : Z;
  InitialDeposit : Z;
  FieldDeposit : Z;
}.

(** The code of other pallets: who may register, and the balances on hold for the reason
    [RegistryIdentity].  [release_identity] is called with [Precision::BestEffort] and returns
    the released amount. *)
Class RegistryRuntime (W : Type) := {
  can_register : AccountId -> AccountId -> W -> bool;
  identity_holds : W -> gmap AccountId Z;
  hold_identity : AccountId -> Z -> W -> result Z W;
  release_identity : AccountId -> Z -> W -> result Z (Z * W);
}.

(** [saturating_mul] of [u64] *)
Definition u64_saturating_mul (a b : Z) : Z := Z.min (a * b) (uint_max 64).

Section Pallet.
Context {W : Type} `{CF : !RegistryConfig} `{RR : !RegistryRuntime W}.
Implicit Types s : RegistryStore W.
Abbreviation ract := (act (RegistryStore W) RegistryDispatchError).
Abbreviation ensureR c e := (ensure c (RegistryDispatchError_Module e)).

Definition registry_signed (origin : RuntimeOrigin) : result RegistryDispatchError AccountId :=
  match origin with
  | Origin_Signed who => Ok who
  | _ => Err RegistryDispatchError_BadOrigin
  end.

Definition deposit_registry_event (e : RegistryEvent) : ract unit :=
  modify (fun s => s <| registry_events ::= fun l => l ++ [e] |>).

Definition hold_deposit (who : AccountId) (amount : Z) : ract unit := fun s =>
  match hold_identity who amount (registry_world s) with
  | Ok w => Ok (tt, s <| registry_world := w |>)
  | Err code => Err (RegistryDispatchError_Currency code)
  end.

(** The result of the release is only looked at by a [debug_assert!]. *)
Definition release_deposit (who : AccountId) (amount : Z) : ract unit := fun s =>
  match release_identity who amount (registry_world s) with
  | Ok (_, w) => Ok (tt, s <| registry_world := w |>)
  | Err _ => Ok (tt, s)
  end.

Definition set_identity (origin : RuntimeOrigin) (identified : AccountId) (new_info : IdentityInfo) :
    ract unit :=
  who <-! check (fun _ => registry_signed origin);
  do! check (fun s => ensureR (can_register who identified (registry_world s))
                        RegistryError_CannotRegister);
  let extra_fields := Z.of_nat (length (additional new_info)) mod 2 ^ 32 in
  do! check (fun _ => ensureR (extra_fields <=? MaxAdditionalFields)
                        RegistryError_TooManyFieldsInIdentityInfo);
  let fd := u64_saturating_mul extra_fields FieldDeposit in
  found <-! asks (fun s => IdentityOf s !! identified);
  let id := match found with
            | Some id => id <| info := new_info |>
            | None => {| info := new_info; deposit := 0 |}
            end in
  let old_deposit := deposit id in
  let id := id <| deposit := saturating_add 64 InitialDeposit fd |> in
  do! (if old_deposit <? deposit id
       then hold_deposit who (saturating_sub (deposit id) old_deposit) else ret tt);
  do! (if deposit id <? old_deposit
       then release_deposit who (saturating_sub old_deposit (deposit id)) else ret tt);
  do! modify (fun s => s <| IdentityOf ::= <[identified := id]> |>);
  deposit_registry_event (RegistryEvent_IdentitySet identified).

(** [total_deposit] is the deposit. *)
Definition clear_identity (origin : RuntimeOrigin) (identified : AccountId) : ract unit :=
  who <-! check (fun _ => registry_signed origin);
  id <-! check (fun s => ok_or (IdentityOf s !! identified)
                           (RegistryDispatchError_Module RegistryError_NotRegistered));
  do! modify (fun s => s <| IdentityOf ::= delete identified |>);
  do! release_deposit who (deposit id);
  deposit_registry_event (RegistryEvent_IdentityDissolved identified).

End Pallet.

(** ** The runtime *)

(** The queries of the Subtensor pallet the runtime's check calls. *)
Class SubnetQueries (W : Type) := {
  coldkey_owns_hotkey : AccountId -> AccountId -> W -> bool;
  is_hotkey_registered_on_root : AccountId -> W -> bool;
  is_subnet_owner : AccountId -> W -> bool;
}.

Definition AllowIdentityReg_can_register `{SubnetQueries W} (address identified : AccountId)
    (w : W) : bool :=
  if bool_decide (address <> identified) then
    coldkey_owns_hotkey address identified w && is_hotkey_registered_on_root identified w
  else is_subnet_owner address w.

Definition runtime_registry_config : RegistryConfig := {|
  MaxAdditionalFields := 1;
  InitialDeposit := 100000000;
  FieldDeposit := 100000000;
|}.
