(* ===== verification/RegistrySafety.v ===== *)
(** * Properties of the identity registry

    The codec of identities reads back what it writes, also where trailing zero bytes were
    not stored; deposits are backed by balances on hold; and what clearing an identity does
    to the deposit of another account. *)

From stdpp Require Import base tactics list gmap option.
From S2P Require Import Prelude Protocol Pallet Scale Registry.
From Stdlib Require Import ZArith Lia.
Open Scope Z_scope.

(** ** Codecs *)

Section Codecs.
Context `{SL : ScaleLaws}.

(** A leading byte, then an array. *)
Lemma feeds_tagged_array {I : Type} `{InputLaws I} (i : I) b h rest : length h = 32%nat ->
  feeds i ((b :: h) ++ rest) -> exists i1 i',
  read 1 i = Some ([b], i1) /\ decode (array_codec 32) i1 = Some (h, i') /\ feeds i' rest.
Proof.
  intros Hh (i1 & E1 & Hf)%feeds_cons. rewrite <- Hh.
  destruct (read_feeds i1 h rest Hf) as (i' & E & Hf'). exists i1, i'. by rewrite array_decode.
Qed.

Lemma Data_codec_ok : codec_ok Data_codec Data_wf.
Proof.
  intros I IN L d i rest Hd Hf. simpl in *. unfold Data_decode.
  destruct d as [|x|h|h|h|h]; simpl in Hd; unfold Data_encode in Hf;
    try (destruct (feeds_tagged_array i _ h rest Hd Hf) as (i1 & i' & -> & E & Hf');
         exists i'; simpl; by rewrite E).
  - destruct (feeds_cons i 0 rest Hf) as (i' & -> & Hf'). by exists i'.
  - destruct (feeds_cons i _ (x ++ rest) Hf) as (i1 & -> & Hf1). simpl.
    assert (E : saturating_add 8 (Z.min (Z.of_nat (length x)) 64) 1 = Z.of_nat (length x) + 1)
      by (unfold saturating_add, uint_max; lia). rewrite E.
    rewrite (proj2 (Z.eqb_neq _ _)), !(proj2 (Z.leb_le _ _)) by lia. simpl.
    replace (Z.to_nat _) with (length x) by (unfold saturating_sub; lia).
    destruct (read_feeds i1 x rest Hf1) as (i' & -> & Hf'). by exists i'.
Qed.

Lemma read_byte_sound {I : Type} `{InputLaws I} (i : I) a i' : read 1 i = Some (a, i') ->
  exists b, a = [b] /\ forall l, feeds i' l -> feeds i (b :: l).
Proof.
  intros [Hl Hf]%read_sound. destruct a as [|b [|]]; try done. by exists b.
Qed.

Lemma Data_codec_sound : codec_sound Data_codec Data_wf.
Proof.
  intros I IN L d i i' E. simpl in *. unfold Data_decode in E.
  destruct (read 1 i) as [[a i1]|] eqn:E1; [|done]. simpl in E.
  destruct (read_byte_sound i a i1 E1) as (b & -> & Hb).
  destruct (Z.eqb_spec b 0) as [Hz|]; [simplify_eq; split; [done|]; intros l Hl; by apply Hb|].
  destruct ((1 <=? b) && (b <=? 65)) eqn:Hr.
  { destruct (read _ i1) as [[r i2]|] eqn:E2; simpl in E; simplify_eq.
    apply read_sound in E2 as [Hlen Hf]. boolprop. unfold saturating_sub in Hlen. simpl.
    split; [lia|]. intros l Hl. replace (saturating_add _ _ _) with b
      by (unfold saturating_add, uint_max; lia). apply Hb, Hf, Hl. }
  repeat match type of E with (if ?x =? ?k then _ else _) = _ =>
    destruct (Z.eqb_spec x k) as [Hk|];
    [rewrite array_decode in E; destruct (read 32 i1) as [[h i2]|] eqn:E2; simpl in E; simplify_eq;
     apply read_sound in E2 as [Hlen Hf]; simpl; split; [done|]; intros l Hl; apply Hb, Hf, Hl|]
  end. done.
Qed.

(** The bounds of the types of an identity and of a registration. *)
Definition IdentityInfo_wf (field_limit : nat) (x : IdentityInfo) : Prop :=
  bounded field_limit (fun p => Data_wf (fst p) /\ Data_wf (snd p)) (additional x)
  /\ Data_wf (display x) /\ Data_wf (legal x) /\ Data_wf (web x) /\ Data_wf (riot x)
  /\ Data_wf (email x) /\ if_some (fun a => length a = 20%nat) (pgp_fingerprint x)
  /\ Data_wf (image x) /\ Data_wf (twitter x).

Definition Registration_wf (field_limit : nat) (r : Registration) : Prop :=
  in_range 64 (deposit r) /\ IdentityInfo_wf field_limit (info r).

Lemma IdentityInfo_codec_ok n : Z.of_nat n < 2 ^ 14 ->
  codec_ok (IdentityInfo_codec n) (IdentityInfo_wf n).
Proof.
  intros Hn. eapply map_codec_ok; [|intros x Hx|by intros []].
  - repeat (apply pair_codec_ok; [|]); try apply Data_codec_ok.
    + apply bounded_vec_ok; [done|]. apply pair_codec_ok; apply Data_codec_ok.
    + apply option_ok, array_ok.
  - exact Hx.
Qed.

(** A registration is read back from its encoding, and also from an encoding that was
    stored without its trailing zero bytes, as one of fewer fields is: what is missing reads
    as empty. *)
Theorem registration_roundtrip (n : nat) (r : Registration) I (IN : Input I) (L : InputLaws I)
    (i : I) (stored : list Z) (k : nat)
    (Hn : Z.of_nat n < 2 ^ 14) (Hr : Registration_wf n r)
    (Hstored : stored ++ replicate k 0 = Registration_encode n r) (Hi : ends i stored) :
  exists i', Registration_decode n i = Some (r, i').
Proof.
  pose proof (append_zeros_end I IN L i stored k Hi) as Hf. rewrite Hstored in Hf.
  unfold Registration_encode in Hf. rewrite <- (app_nil_r (encode _ _)) in Hf.
  destruct (pair_codec_ok _ _ _ _ u64_ok (IdentityInfo_codec_ok n Hn)
    _ _ _ (deposit r, info r) _ _ Hr Hf) as (z & E & _).
  exists (AppendZerosInput_inner z). unfold Registration_decode. rewrite E. by destruct r.
Qed.

(** The leading bytes of identity data are unambiguous: data read from an input is within
    the bounds of its type, and its encoding is what was read. *)
Theorem identity_data_decode_exact I (IN : Input I) (L : InputLaws I) (i i' : I) (d : Data)
    (Hd : Data_decode i = Some (d, i')) :
  Data_wf d /\ forall l, feeds i' l -> feeds i (Data_encode d ++ l).
Proof. by apply (Data_codec_sound I IN L). Qed.

End Codecs.

(** ** Deposits *)

Definition on_hold `{RegistryRuntime W} (w : W) (a : AccountId) : Z := default 0 (identity_holds w !! a).

(** What [fungible::MutateHold] documents: a hold or release changes the balance on hold of
    one account; a release of best effort releases what is on hold if it is asked for more. *)
Class RegistryLaws (W : Type) `{RR : RegistryRuntime W} := {
  on_hold_range a w : 0 <= on_hold w a;
  hold_identity_held a x w w' : hold_identity a x w = Ok w' -> forall b,
    on_hold w' b = on_hold w b + if decide (b = a) then x else 0;
  release_identity_held a x w y w' : release_identity a x w = Ok (y, w') ->
    y = Z.min x (on_hold w a)
    /\ forall b, on_hold w' b = on_hold w b - if decide (b = a) then y else 0;
  release_identity_total a x w : 0 <= x -> exists y w', release_identity a x w = Ok (y, w');
}.

(** Sums of maps that agree but for bindings to zero. *)
Lemma sum_nonzero (m : gmap AccountId Z) :
  map_sum (fun _ x => x) m = map_sum (fun _ x => x) (filter (fun p => snd p <> 0) m).
Proof.
  induction m as [|a x m Ha IH] using map_ind; [done|].
  rewrite map_sum_insert_None by done. destruct (decide (x = 0)) as [->|Hx].
  - rewrite map_filter_insert_False by (simpl; lia). rewrite delete_id by done. lia.
  - rewrite map_filter_insert_True by done.
    rewrite map_sum_insert_None by (apply map_lookup_filter_None; by left). lia.
Qed.

Lemma sum_default (m m' : gmap AccountId Z) :
  (forall a, default 0 (m !! a) = default 0 (m' !! a)) ->
  map_sum (fun _ x => x) m = map_sum (fun _ x => x) m'.
Proof.
  intros H. rewrite (sum_nonzero m), (sum_nonzero m'). f_equal. apply map_eq. intros a.
  specialize (H a). rewrite !map_lookup_filter.
  destruct (m !! a) as [x|], (m' !! a) as [y|]; simpl in *; subst; try done;
    repeat case_guard; simpl in *; congruence.
Qed.

Section Deposits.
Context {W : Type} `{CF : !RegistryConfig} `{RR : !RegistryRuntime W} `{RL : !RegistryLaws W}.
Implicit Types s : RegistryStore W.

Definition total_on_hold (w : W) : Z := map_sum (fun _ x => x) (identity_holds w).
Definition total_deposits s : Z := map_sum (fun _ r => deposit r) (IdentityOf s).

Lemma total_on_hold_change (w w' : W) a x :
  (forall b, on_hold w' b = on_hold w b + if decide (b = a) then x else 0) ->
  total_on_hold w' = total_on_hold w + x.
Proof.
  intros H. unfold total_on_hold.
  rewrite (sum_default _ (<[a := on_hold w a + x]> (identity_holds w))).
  - rewrite map_sum_insert. unfold on_hold. destruct (identity_holds w !! a); simpl; lia.
  - intros b. specialize (H b). unfold on_hold in *. rewrite H.
    destruct (decide (b = a)) as [->|Hb].
    + by rewrite lookup_insert_eq.
    + rewrite lookup_insert_ne by done. lia.
Qed.

Lemma hold_deposit_Ok who x s s' : hold_deposit who x s = Ok (tt, s') ->
  exists w, s' = s <| registry_world := w |>
  /\ forall b, on_hold w b = on_hold (registry_world s) b + if decide (b = who) then x else 0.
Proof.
  unfold hold_deposit. destruct (hold_identity _ _ _) as [w|] eqn:E; [|done]. intros [= <-].
  exists w. split; [done|]. by apply hold_identity_held.
Qed.

(** A release takes at most what it is asked for, from the caller alone, and never fails. *)
Lemma release_deposit_run who x s : 0 <= x -> exists w,
  release_deposit who x s = Ok (tt, s <| registry_world := w |>)
  /\ forall b, on_hold w b = on_hold (registry_world s) b
       - if decide (b = who) then Z.min x (on_hold (registry_world s) who) else 0.
Proof.
  intros Hx. destruct (release_identity_total who x (registry_world s) Hx) as (y & w & E).
  exists w. unfold release_deposit. rewrite E. split; [done|].
  by destruct (release_identity_held _ _ _ _ _ E) as [-> H].
Qed.

(** The deposit of an identity of [k] additional fields. *)
Definition deposit_for (k : Z) : Z := saturating_add 64 InitialDeposit (u64_saturating_mul k FieldDeposit).

(** The bounds of the amounts of the configuration. *)
Definition registry_config_ok : Prop :=
  0 <= InitialDeposit /\ 0 <= FieldDeposit /\ 0 <= MaxAdditionalFields < 2 ^ 32.

Record registry_inv s : Prop := {
  ri_deposit a r : IdentityOf s !! a = Some r ->
    Z.of_nat (length (additional (info r))) <= MaxAdditionalFields
    /\ deposit r = deposit_for (Z.of_nat (length (additional (info r))));
  ri_backed : total_deposits s <= total_on_hold (registry_world s);
}.

Lemma deposit_for_nonneg k : registry_config_ok -> 0 <= k -> 0 <= deposit_for k.
Proof.
  intros (HI & HF & _) Hk. unfold deposit_for, saturating_add, u64_saturating_mul, uint_max.
  assert (0 <= k * FieldDeposit) by nia. lia.
Qed.

(** The steps of the registry: its calls, with [IdentityInfo] within the bound of its type,
    and steps of other pallets, which do not take from this hold. *)
Inductive registry_step : RegistryStore W -> RegistryStore W -> Prop :=
| registry_step_set origin identified new_info s s' :
    Z.of_nat (length (additional new_info)) <= MaxAdditionalFields ->
    set_identity origin identified new_info s = Ok (tt, s') -> registry_step s s'
| registry_step_clear origin identified s s' :
    clear_identity origin identified s = Ok (tt, s') -> registry_step s s'
| registry_step_other w s :
    (forall a, on_hold w a = on_hold (registry_world s) a) ->
    registry_step s (s <| registry_world := w |>).

(** What the adjustment of a deposit from [old] to [new] does to the balances on hold. *)
Lemma adjust_deposit who old new s s1 s2 :
  (if old <? new then hold_deposit who (saturating_sub new old) else ret tt) s = Ok (tt, s1) ->
  (if new <? old then release_deposit who (saturating_sub old new) else ret tt) s1 = Ok (tt, s2) ->
  exists w, s2 = s <| registry_world := w |>
  /\ forall b, on_hold w b = on_hold (registry_world s) b
       + if decide (b = who) then Z.max (new - old) (- on_hold (registry_world s) who) else 0.
Proof.
  pose proof (on_hold_range who (registry_world s)).
  unfold saturating_sub. destruct (Z.ltb_spec old new), (Z.ltb_spec new old); try lia; intros Hh Hl.
  - apply hold_deposit_Ok in Hh as (w & -> & Hw). apply ret_Ok in Hl as [_ ->].
    exists w. split; [done|]. intros b. rewrite Hw. case_decide; lia.
  - apply ret_Ok in Hh as [_ ->].
    destruct (release_deposit_run who (Z.max (old - new) 0) s) as (w & E & Hw); [lia|].
    rewrite E in Hl. injection Hl as <-. exists w. split; [done|]. intros b. rewrite Hw. case_decide; lia.
  - apply ret_Ok in Hh as [_ ->]. apply ret_Ok in Hl as [_ ->]. exists (registry_world s).
    split; [by destruct s|]. intros b. case_decide; lia.
Qed.

Lemma set_identity_run origin identified new_info s s' :
  0 <= MaxAdditionalFields < 2 ^ 32 ->
  Z.of_nat (length (additional new_info)) <= MaxAdditionalFields ->
  set_identity origin identified new_info s = Ok (tt, s') ->
  let new := deposit_for (Z.of_nat (length (additional new_info))) in
  let old := match IdentityOf s !! identified with Some r => deposit r | None => 0 end in
  exists who, origin = Origin_Signed who
  /\ IdentityOf s' = <[identified := mk_Registration new new_info]> (IdentityOf s)
  /\ forall b, on_hold (registry_world s') b = on_hold (registry_world s) b
       + if decide (b = who) then Z.max (new - old) (- on_hold (registry_world s) who) else 0.
Proof.
  intros HM Hlen H. unfold set_identity in H. rewrite Z.mod_small in H by lia.
  set (k := Z.of_nat (length (additional new_info))) in *. fold (deposit_for k) in H.
  apply abind_Ok in H as (who & s1 & [H1 ->]%check_Ok & H).
  apply abind_Ok in H as (u & s2 & [_ ->]%check_Ok & H).
  apply abind_Ok in H as (u1 & s3 & [_ ->]%check_Ok & H).
  apply abind_Ok in H as (found & s4 & [-> ->]%asks_Ok & H).
  apply abind_Ok in H as ([] & s5 & H5 & H). apply abind_Ok in H as ([] & s6 & H6 & H).
  exists who. split; [destruct origin; simpl in H1; congruence|].
  destruct (IdentityOf s !! identified) as [r|];
    destruct (adjust_deposit _ _ _ _ _ _ H5 H6) as (w & -> & Hw); clear H5 H6;
    unfold deposit_registry_event in H; inv_run; done.
Qed.

Lemma set_identity_inv origin identified new_info s s' : registry_config_ok ->
  Z.of_nat (length (additional new_info)) <= MaxAdditionalFields ->
  set_identity origin identified new_info s = Ok (tt, s') -> registry_inv s -> registry_inv s'.
Proof.
  intros (_ & _ & HM) Hlen H [Hd Hb].
  destruct (set_identity_run _ _ _ _ _ HM Hlen H) as (who & _ & E & Hw).
  apply total_on_hold_change in Hw as T. split.
  - intros a r. rewrite E. intros [[<- <-]|[_ Hr]]%lookup_insert_Some; [done|eauto].
  - unfold total_deposits. rewrite E, map_sum_insert. simpl. fold (total_deposits s).
    destruct (IdentityOf s !! identified); lia.
Qed.

Lemma clear_identity_run who identified r s : IdentityOf s !! identified = Some r ->
  0 <= deposit r -> exists s',
  clear_identity (Origin_Signed who) identified s = Ok (tt, s')
  /\ IdentityOf s' = delete identified (IdentityOf s)
  /\ forall b, on_hold (registry_world s') b = on_hold (registry_world s) b
       - if decide (b = who) then Z.min (deposit r) (on_hold (registry_world s) who) else 0.
Proof.
  intros Hr Hd. set (s1 := s <| IdentityOf ::= delete identified |>).
  destruct (release_deposit_run who (deposit r) s1 Hd) as (w & E & Hw).
  exists (s1 <| registry_world := w |> <| registry_events ::=
            fun l => l ++ [RegistryEvent_IdentityDissolved identified] |>).
  split_and!; [|done|done].
  unfold clear_identity, abind, check, modify. simpl. rewrite Hr. simpl. fold s1.
  change (set_field IdentityOf _ s) with s1. by rewrite E.
Qed.

Lemma clear_identity_inv origin identified s s' : registry_config_ok ->
  clear_identity origin identified s = Ok (tt, s') -> registry_inv s -> registry_inv s'.
Proof.
  intros Hc H [Hd Hb].
  assert (exists who r, origin = Origin_Signed who /\ IdentityOf s !! identified = Some r)
    as (who & r & -> & Hr).
  { unfold clear_identity in H. inv_run. destruct origin; try done. eauto. }
  assert (Hnn : 0 <= deposit r).
  { rewrite (proj2 (Hd _ _ Hr)). apply deposit_for_nonneg; [done|lia]. }
  destruct (clear_identity_run who identified r s Hr Hnn) as (s1 & E1 & E & Hw).
  rewrite H in E1. injection E1 as <-. split.
  - intros b r'. rewrite E. intros [_ Hr']%lookup_delete_Some. eauto.
  - unfold total_deposits in *. rewrite E. rewrite (map_sum_delete _ _ _ _ Hr) in Hb.
    rewrite (total_on_hold_change (registry_world s) (registry_world s') who
      (- Z.min (deposit r) (on_hold (registry_world s) who))); [lia|].
    intros b. rewrite Hw. case_decide; lia.
Qed.

(** Every identity in the registry has at most the allowed number of fields and records
    exactly the deposit for them, and the recorded deposits of all identities together are
    never more than what is on hold, whatever calls are made by whatever accounts. *)
Theorem registry_deposits_backed s s' (Hc : registry_config_ok) (Hinv : registry_inv s)
    (Hrun : rtc registry_step s s') : registry_inv s'.
Proof.
  induction Hrun as [|s s1 s2 Hstep _ IH]; [done|]. apply IH. destruct Hstep.
  - by eapply set_identity_inv.
  - by eapply clear_identity_inv.
  - destruct Hinv as [Hd Hb]. split; [done|]. simpl. etransitivity; [exact Hb|].
    unfold total_on_hold. rewrite (sum_default _ (identity_holds w)); [done|].
    intros a. symmetry. apply H.
Qed.

(** Whoever registered an identity for the first time and clears it has back what was
    on hold: after [set_identity] and [clear_identity] by one account the registry has no
    identity for the account and every balance on hold is what it was. *)
Theorem set_clear_identity_restores who identified new_info s s1 (Hc : registry_config_ok)
    (Hlen : Z.of_nat (length (additional new_info)) <= MaxAdditionalFields)
    (Hnew : IdentityOf s !! identified = None)
    (Hset : set_identity (Origin_Signed who) identified new_info s = Ok (tt, s1)) :
  exists s2, clear_identity (Origin_Signed who) identified s1 = Ok (tt, s2)
  /\ IdentityOf s2 = IdentityOf s
  /\ forall a, on_hold (registry_world s2) a = on_hold (registry_world s) a.
Proof.
  pose proof Hc as (_ & _ & HM).
  destruct (set_identity_run _ _ _ _ _ HM Hlen Hset) as (who' & [= <-] & E & Hw).
  rewrite Hnew in Hw. set (new := deposit_for _) in *.
  assert (Hnn : 0 <= new) by (apply deposit_for_nonneg; [done|lia]).
  destruct (clear_identity_run who identified (mk_Registration new new_info) s1)
    as (s2 & E2 & Ei & Hw2); [by rewrite E, lookup_insert_eq|done|].
  exists s2. split_and!; [done| |].
  - by rewrite Ei, E, delete_insert_id.
  - intros a. rewrite Hw2, !Hw. simpl. pose proof (on_hold_range who (registry_world s)).
    repeat case_decide; subst; try done; lia.
Qed.

(** C38 Clearing an identity asks for no permission and releases the deposit of the caller,
    not of the account that paid it: any account with nothing on hold removes any identity,
    and every deposit stays on hold, that of the removed identity included. *)
Theorem stranger_clears_identity stranger identified r s (Hinv : registry_inv s)
    (Hc : registry_config_ok) (Hr : IdentityOf s !! identified = Some r)
    (Hstranger : on_hold (registry_world s) stranger = 0) :
  exists s', clear_identity (Origin_Signed stranger) identified s = Ok (tt, s')
  /\ IdentityOf s' !! identified = None
  /\ forall a, on_hold (registry_world s') a = on_hold (registry_world s) a.
Proof.
  assert (Hd : 0 <= deposit r).
  { rewrite (proj2 (ri_deposit _ Hinv _ _ Hr)). apply deposit_for_nonneg; [done|lia]. }
  destruct (clear_identity_run stranger identified r s Hr Hd) as (s' & E & Hi & Hw).
  exists s'. split_and!; [done|by rewrite Hi, lookup_delete_eq|].
  intros a. rewrite Hw, Hstranger. case_decide; lia.
Qed.

End Deposits.
