(* ===== verification/Drand.v ===== *)
(** * The randomness beacon

    [pallets/drand/src/lib.rs] with the types of [types.rs]: the pulses of the drand beacon that
    unsigned transactions write to the chain, their pruning, and the validation of these
    transactions by the pool.  The verifier of pulses and the signatures of payloads are
    parameters. *)

From stdpp Require Import base tactics list gmap option.
From S2P Require Import Prelude Protocol Pallet.
From Stdlib Require Import ZArith Lia.
Open Scope Z_scope.

Definition MAX_KEPT_PULSES : Z := 216000.
Definition MAX_REMOVED_PULSES : Z := 100.

Record BeaconConfiguration : Type := mk_BeaconConfiguration {
  public_key : list Z;
  period : Z;
  genesis_time : Z;
  chain_hash : list Z;
  group_hash : list Z;
  scheme_id : list Z;
  (** [metadata.beacon_id] *)
  beacon_id : list Z;
}.

(** The configuration of the quicknet beacon. *)
Definition DefaultBeaconConfig : BeaconConfiguration := {|
  public_key := [
    131; 207; 15; 40; 150; 173; 238; 126; 184; 181; 240; 31; 202; 211; 145; 34; 18;
    196; 55; 224; 7; 62; 145; 31; 185; 0; 34; 211; 231; 96; 24; 60; 140; 75; 69; 11;
    106; 10; 108; 58; 198; 165; 119; 106; 45; 16; 100; 81; 13; 31; 236; 117; 140; 146;
    28; 194; 43; 14; 23; 230; 58; 175; 75; 203; 94; 214; 99; 4; 222; 156; 248; 9; 189;
    39; 76; 167; 59; 171; 74; 245; 166; 233; 199; 106; 75; 192; 158; 118; 234; 232;
    153; 30; 245; 236; 228; 90];
  period := 3;
  genesis_time := 1692803367;
  chain_hash := [
    82; 219; 155; 167; 14; 12; 192; 246; 234; 247; 128; 61; 208; 116; 71; 161; 245; 71;
    119; 53; 253; 63; 102; 23; 146; 186; 148; 96; 12; 132; 233; 113];
  group_hash := [
    244; 119; 213; 200; 159; 33; 161; 124; 134; 58; 127; 147; 124; 106; 109; 21; 133;
    148; 20; 210; 190; 9; 205; 68; 141; 66; 121; 175; 51; 28; 93; 62];
  scheme_id := [
    98; 108; 115; 45; 117; 110; 99; 104; 97; 105; 110; 101; 100; 45; 103; 49; 45; 114;
    102; 99; 57; 51; 56; 48];
  beacon_id := [113; 117; 105; 99; 107; 110; 101; 116];
|}.

Record Pulse : Type := mk_Pulse {
  round : Z;
  randomness : list Z;
  pulse_signature : list Z;
}.

Record PulsesPayload (Public : Type) : Type := mk_PulsesPayload {
  pp_block_number : Z;
  pulses : list Pulse;
  pp_public : Public;
}.
Arguments mk_PulsesPayload {Public}.
Arguments pp_block_number {Public} _.
Arguments pulses {Public} _.
Arguments pp_public {Public} _.

Record BeaconConfigurationPayload (Public : Type) : Type := mk_BeaconConfigurationPayload {
  bp_block_number : Z;
  bp_config : BeaconConfiguration;
  bp_public : Public;
}.
Arguments mk_BeaconConfigurationPayload {Public}.
Arguments bp_block_number {Public} _.
Arguments bp_config {Public} _.
Arguments bp_public {Public} _.

Inductive DrandCall (Public Signature : Type) : Type :=
| DrandCall_write_pulse (pulses_payload : PulsesPayload Public) (signature : option Signature)
| DrandCall_set_beacon_config (config_payload : BeaconConfigurationPayload Public)
    (signature : option Signature)
| DrandCall_set_oldest_stored_round (oldest_round : Z).
Arguments DrandCall_write_pulse {Public Signature}.
Arguments DrandCall_set_beacon_config {Public Signature}.
Arguments DrandCall_set_oldest_stored_round {Public Signature}.

(** The errors of the pallet, and that of a wrong origin. *)
Inductive DrandError : Type :=
| DrandError_NoneValue
| DrandError_StorageOverflow
| DrandError_DrandConnectionFailure
| DrandError_UnverifiedPulse
| DrandError_InvalidRoundNumber
| DrandError_PulseVerificationError
| DrandError_BadOrigin.

Inductive DrandEvent : Type :=
| DrandEvent_BeaconConfigChanged
| DrandEvent_NewPulse (rounds : list Z)
| DrandEvent_SetOldestStoredRound (oldest_round : Z).

Record DrandStore : Type := mk_DrandStore {
  BeaconConfig : BeaconConfiguration;
  Pulses : gmap Z Pulse;
  LastStoredRound : Z;
  OldestStoredRound : Z;
  NextUnsignedAt : Z;
  drand_block : Z;
  drand_events : list DrandEvent;
}.
#[export] Instance eta_DrandStore : Eta DrandStore := fun r => mk_DrandStore
  (BeaconConfig r) (Pulses r) (LastStoredRound r) (OldestStoredRound r) (NextUnsignedAt r)
  (drand_block r) (drand_events r).

(** [T::Verifier], [T::UnsignedPriority] and the check of the signature of a payload. *)
Class DrandConfig (Public Signature : Type) := {
  verify_pulse : BeaconConfiguration -> Pulse -> result unit bool;
  UnsignedPriority : Z;
  verify_pulses_payload : PulsesPayload Public -> Signature -> bool;
  verify_config_payload : BeaconConfigurationPayload Public -> Signature -> bool;
}.

(** The reasons of [InvalidTransaction] the pallet gives. *)
Inductive DrandInvalid : Type :=
| DrandInvalid_Call
| DrandInvalid_Future
| DrandInvalid_Stale
| DrandInvalid_BadProof
| DrandInvalid_BadSigner.

(** What a transaction provides, before it is hashed: its round, or the block from which the
    next one is accepted and the key of its author. *)
Inductive DrandTag (Public : Type) : Type :=
| DrandTag_round (r : Z)
| DrandTag_config (next_unsigned_at : Z) (public : Public).
Arguments DrandTag_round {Public}.
Arguments DrandTag_config {Public}.

Record DrandValid (Public : Type) : Type := mk_DrandValid {
  dv_priority : Z;
  dv_provides : DrandTag Public;
  dv_longevity : Z;
  dv_propagate : bool;
}.
Arguments mk_DrandValid {Public}.
Arguments dv_priority {Public} _.
Arguments dv_provides {Public} _.
Arguments dv_longevity {Public} _.
Arguments dv_propagate {Public} _.

Section Drand.
Context {Public Signature : Type} `{DC : !DrandConfig Public Signature}.
Abbreviation dact := (act DrandStore DrandError).
Abbreviation validity := (result DrandInvalid (DrandValid Public)).

(** ** Storing pulses *)

(** The variables of the loop of [write_pulse]. *)
Record PulseLoop : Type := mk_PulseLoop {
  lp_pulses : gmap Z Pulse;
  lp_last : Z;
  lp_new_rounds : list Z;
  lp_first_new : option Z;
}.

Fixpoint pulse_loop (config : BeaconConfiguration) (is_first_storage : bool) (l : list Pulse)
    (v : PulseLoop) : result DrandError PulseLoop :=
  match l with
  | [] => Ok v
  | pulse :: rest =>
      is_verified <-? map_err (fun _ => DrandError_PulseVerificationError) (verify_pulse config pulse);
      if is_verified : bool then
        try! ensure (lp_last v <? round pulse) DrandError_InvalidRoundNumber;
        pulse_loop config is_first_storage rest {|
          lp_pulses := <[round pulse := pulse]> (lp_pulses v);
          lp_last := round pulse;
          lp_new_rounds := lp_new_rounds v ++ [round pulse];
          lp_first_new :=
            match is_first_storage, lp_first_new v with
            | true, None => Some (round pulse)
            | _, first => first
            end;
        |}
      else pulse_loop config is_first_storage rest v
  end.

(** The loop of [prune_old_pulses], with the number of removals that are left. *)
Fixpoint prune_loop (budget : nat) (last_stored_round oldest : Z) (m : gmap Z Pulse) :
    gmap Z Pulse * Z :=
  match budget with
  | O => (m, oldest)
  | S budget =>
      if MAX_KEPT_PULSES <? saturating_add 64 (saturating_sub last_stored_round oldest) 1
      then prune_loop budget last_stored_round (saturating_add 64 oldest 1) (delete oldest m)
      else (m, oldest)
  end.

Definition prune_old_pulses (last_stored_round : Z) (s : DrandStore) : DrandStore :=
  let oldest := OldestStoredRound s in
  if oldest =? 0 then s
  else
    let '(m, oldest) := prune_loop (Z.to_nat MAX_REMOVED_PULSES) last_stored_round oldest (Pulses s) in
    s <| Pulses := m |> <| OldestStoredRound := oldest |>.

Definition deposit_drand_event (e : DrandEvent) : dact unit :=
  modify (fun s => s <| drand_events ::= fun l => l ++ [e] |>).

Definition write_pulse (origin : RuntimeOrigin) (pulses_payload : PulsesPayload Public) : dact unit :=
  do! check (fun _ => match origin with Origin_None => Ok tt | _ => Err DrandError_BadOrigin end);
  config <-! asks BeaconConfig;
  last_stored_round <-! asks LastStoredRound;
  oldest_stored_round <-! asks OldestStoredRound;
  let is_first_storage := (last_stored_round =? 0) && (oldest_stored_round =? 0) in
  v <-! check (fun s => pulse_loop config is_first_storage (pulses pulses_payload)
                          (mk_PulseLoop (Pulses s) last_stored_round [] None));
  do! modify (fun s => s <| Pulses := lp_pulses v |> <| LastStoredRound := lp_last v |>);
  do! modify (fun s => match lp_first_new v with
                       | Some first_round => s <| OldestStoredRound := first_round |>
                       | None => s
                       end);
  do! modify (prune_old_pulses (lp_last v));
  do! modify (fun s => s <| NextUnsignedAt := drand_block s |>);
  match lp_new_rounds v with
  | [] => ret tt
  | rounds => deposit_drand_event (DrandEvent_NewPulse rounds)
  end.

Definition set_beacon_config (origin : RuntimeOrigin)
    (config_payload : BeaconConfigurationPayload Public) : dact unit :=
  do! check (fun _ => match origin with Origin_Root => Ok tt | _ => Err DrandError_BadOrigin end);
  do! modify (fun s => s <| BeaconConfig := bp_config config_payload |>
                         <| NextUnsignedAt := saturating_add 32 (drand_block s) 1 |>);
  deposit_drand_event DrandEvent_BeaconConfigChanged.

Definition set_oldest_stored_round (origin : RuntimeOrigin) (oldest_round : Z) : dact unit :=
  do! check (fun _ => match origin with Origin_Root => Ok tt | _ => Err DrandError_BadOrigin end);
  do! modify (fun s => s <| OldestStoredRound := oldest_round |>);
  deposit_drand_event (DrandEvent_SetOldestStoredRound oldest_round).

Definition dispatch_drand (call : DrandCall Public Signature) (origin : RuntimeOrigin) : dact unit :=
  match call with
  | DrandCall_write_pulse payload _ => write_pulse origin payload
  | DrandCall_set_beacon_config payload _ => set_beacon_config origin payload
  | DrandCall_set_oldest_stored_round oldest_round => set_oldest_stored_round origin oldest_round
  end.

(** The randomness of a round that is not stored, or that is not of 32 bytes, is zero. *)
Definition random_at (s : DrandStore) (r : Z) : list Z :=
  let rand := match Pulses s !! r with Some pulse => randomness pulse | None => [] end in
  if bool_decide (length rand = 32%nat) then rand else replicate 32 0.

(** ** Validation of unsigned transactions *)

Definition validate_transaction_parameters (s : DrandStore) (block_number : Z) (public : Public)
    (rounds : option (list Z)) : validity :=
  let next_unsigned_at := NextUnsignedAt s in
  let current_block := drand_block s in
  if current_block <? block_number then Err DrandInvalid_Future
  else match rounds with
  | Some [r] =>
      if current_block <? next_unsigned_at then Err DrandInvalid_Stale
      else if r <=? LastStoredRound s then Err DrandInvalid_Stale
      else Ok {| dv_priority := saturating_add 64 UnsignedPriority (saturating_sub (uint_max 64) r);
                 dv_provides := DrandTag_round r;
                 dv_longevity := 3;
                 dv_propagate := false |}
  | Some _ => Err DrandInvalid_Call
  | None =>
      if block_number <? next_unsigned_at then Err DrandInvalid_Stale
      else Ok {| dv_priority := UnsignedPriority;
                 dv_provides := DrandTag_config next_unsigned_at public;
                 dv_longevity := 1;
                 dv_propagate := true |}
  end.

Definition validate_signature_and_parameters (s : DrandStore) (signature_valid : bool)
    (block_number : Z) (public : Public) (rounds : option (list Z)) : validity :=
  if negb signature_valid then Err DrandInvalid_BadProof
  else validate_transaction_parameters s block_number public rounds.

Definition validate_unsigned (s : DrandStore) (call : DrandCall Public Signature) : validity :=
  match call with
  | DrandCall_set_beacon_config payload signature =>
      sig <-? ok_or signature DrandInvalid_BadSigner;
      validate_signature_and_parameters s (verify_config_payload payload sig)
        (bp_block_number payload) (bp_public payload) None
  | DrandCall_write_pulse payload signature =>
      sig <-? ok_or signature DrandInvalid_BadSigner;
      validate_signature_and_parameters s (verify_pulses_payload payload sig)
        (pp_block_number payload) (pp_public payload) (Some (map round (pulses payload)))
  | DrandCall_set_oldest_stored_round _ => Err DrandInvalid_Call
  end.

End Drand.
