(* ===== verification/DrandSafety.v ===== *)
(** * Properties of the randomness beacon

    What the stored pulses are, how many there can be, and how the validation of unsigned
    transactions fits their dispatch. *)

From stdpp Require Import base tactics list gmap option sorting.
From S2P Require Import Prelude Protocol Pallet Drand.
From Stdlib Require Import ZArith Lia.
Open Scope Z_scope.

(** ** Pruning *)

(** What the loop leaves: the rounds from some later oldest one on. *)
Lemma prune_loop_spec budget last oldest (m : gmap Z Pulse) :
  0 < oldest -> last < 2 ^ 64 -> exists n m',
  prune_loop budget last oldest m = (m', oldest + Z.of_nat n)
  /\ (forall k, m' !! k = if decide (oldest <= k < oldest + Z.of_nat n) then None else m !! k)
  /\ (n <> O -> MAX_KEPT_PULSES <= last - (oldest + Z.of_nat n) + 1)
  /\ (last - (oldest + Z.of_nat n) + 1 <= MAX_KEPT_PULSES \/ n = budget).
Proof.
  intros Ho Hl. revert oldest m Ho. induction budget as [|budget IH]; intros oldest m Ho; simpl.
  { exists O, m. split_and!; [f_equal; lia| |done|by right].
    intros k. by rewrite decide_False by lia. }
  destruct (Z.ltb_spec MAX_KEPT_PULSES (saturating_add 64 (saturating_sub last oldest) 1)) as [Hc|Hc];
    unfold saturating_add, saturating_sub, uint_max, MAX_KEPT_PULSES in Hc.
  - replace (saturating_add 64 oldest 1) with (oldest + 1)
      by (unfold saturating_add, uint_max; lia).
    destruct (IH (oldest + 1) (delete oldest m)) as (n & m' & E & Hm & Hn & Hb); [lia|].
    exists (S n), m'. unfold MAX_KEPT_PULSES in *. split_and!.
    + rewrite E. f_equal. lia.
    + intros k. rewrite Hm. destruct (decide (k = oldest)) as [->|Hk].
      * rewrite lookup_delete_eq. rewrite (decide_True _ _ (P := oldest <= oldest < _)) by lia.
        by case_decide.
      * rewrite lookup_delete_ne by done. repeat case_decide; try done; lia.
    + intros _. destruct n; lia.
    + destruct Hb; [left; lia|right; lia].
  - exists O, m. split_and!; [f_equal; lia| |done|left; unfold MAX_KEPT_PULSES; lia].
    intros k. by rewrite decide_False by lia.
Qed.

Section Beacon.
Context {Public Signature : Type} `{DC : !DrandConfig Public Signature}.
Implicit Types s : DrandStore.

(** ** Storing *)

(** The pulses of a payload that verify, in order. *)
Definition verified (config : BeaconConfiguration) (l : list Pulse) : list Pulse :=
  List.filter (fun p => match verify_pulse config p with Ok b => b | Err _ => false end) l.

(** The loop succeeds exactly if no check fails and the rounds of the verified pulses
    increase from the last stored one on, and then stores these pulses. *)
Fixpoint increasing (last : Z) (l : list Z) : Prop :=
  match l with [] => True | r :: l => last < r /\ increasing r l end.

Definition last_round (last : Z) (l : list Pulse) : Z := List.last (map round l) last.

Definition insert_pulses (l : list Pulse) (m : gmap Z Pulse) : gmap Z Pulse :=
  fold_left (fun m p => <[round p := p]> m) l m.

Lemma last_cons {A} (l : list A) (x d : A) : List.last (x :: l) d = List.last l x.
Proof.
  revert x d. induction l as [|y l IH]; intros x d; [done|].
  change (List.last (x :: y :: l) d) with (List.last (y :: l) d). by rewrite !IH.
Qed.

Lemma pulse_loop_spec config first l v v' :
  pulse_loop config first l v = Ok v' <->
  (forall p, p ∈ l -> is_ok (verify_pulse config p) = true)
  /\ increasing (lp_last v) (map round (verified config l))
  /\ v' = {| lp_pulses := insert_pulses (verified config l) (lp_pulses v);
             lp_last := last_round (lp_last v) (verified config l);
             lp_new_rounds := lp_new_rounds v ++ map round (verified config l);
             lp_first_new := match first, lp_first_new v with
                             | true, None => head (map round (verified config l))
                             | _, f => f
                             end |}.
Proof.
  revert v. induction l as [|p l IH]; intros v; simpl.
  - unfold last_round. simpl. rewrite app_nil_r. split.
    + intros [= <-]. split_and!; [by intros p ?%not_elem_of_nil|done|].
      destruct v as [? ? ? f]; simpl. by destruct first, f.
    + intros (_ & _ & ->). destruct v as [? ? ? f]; simpl. by destruct first, f.
  - destruct (verify_pulse config p) as [b|e] eqn:E; simpl.
    2:{ split; [done|]. intros (H & _). specialize (H p ltac:(by left)). by rewrite E in H. }
    destruct b; simpl.
    + destruct (Z.ltb_spec (lp_last v) (round p)) as [Hlt|Hlt]; simpl.
      2:{ split; [done|]. intros (_ & [? _] & _). lia. }
      rewrite IH. simpl. unfold last_round. cbn [map]. rewrite last_cons, <- app_assoc.
      setoid_rewrite elem_of_cons. split; intros (H1 & H2 & ->); split_and!; auto.
      * intros q [->|Hq]; [by rewrite E|auto].
      * f_equal. by destruct first, (lp_first_new v).
      * destruct H2; auto.
      * f_equal. by destruct first, (lp_first_new v).
    + rewrite IH. setoid_rewrite elem_of_cons. split; intros (H1 & H2 & ->); split_and!; auto.
      intros q [->|Hq]; [by rewrite E|auto].
Qed.

(** ** What is stored *)

Record drand_inv s : Prop := {
  di_last : in_range 64 (LastStoredRound s);
  di_none : LastStoredRound s = 0 -> OldestStoredRound s = 0 /\ Pulses s = ∅;
  di_oldest : 0 < LastStoredRound s -> 0 < OldestStoredRound s <= LastStoredRound s;
  di_round r p : Pulses s !! r = Some p ->
    round p = r /\ OldestStoredRound s <= r <= LastStoredRound s;
}.

Lemma last_round_cons last p l : last_round last (p :: l) = last_round (round p) l.
Proof. apply last_cons. Qed.

Lemma increasing_last last l : increasing last (map round l) -> last <= last_round last l.
Proof.
  revert last. induction l as [|p l IH]; intros last; [done|]. rewrite last_round_cons.
  intros [Hlt Hl]. specialize (IH _ Hl). lia.
Qed.

Lemma increasing_rounds last l p : increasing last (map round l) -> p ∈ l ->
  last < round p <= last_round last l.
Proof.
  revert last. induction l as [|q l IH]; intros last; [by intros _ ?%not_elem_of_nil|].
  intros [Hlt Hl] Hp. rewrite last_round_cons. apply elem_of_cons in Hp as [->|Hp].
  - split; [done|]. by apply increasing_last.
  - specialize (IH _ Hl Hp). lia.
Qed.

Lemma insert_pulses_lookup l m r p : insert_pulses l m !! r = Some p ->
  (p ∈ l /\ round p = r) \/ m !! r = Some p.
Proof.
  revert m. induction l as [|q l IH]; intros m; [by right|]. intros H.
  apply (IH (<[round q := q]> m)) in H as [[Hp Hr]|H]; [left; split; [by right|done]|].
  apply lookup_insert_Some in H as [[Hq <-]|[_ H]]; [left; split; [by left|done]|by right].
Qed.

(** A successful [write_pulse], step by step: the verified pulses are stored, the oldest
    round is set by the first ones, and the oldest are pruned. *)
Definition stored (config : BeaconConfiguration) (l : list Pulse) s : DrandStore :=
  s <| Pulses := insert_pulses (verified config l) (Pulses s) |>
    <| LastStoredRound := last_round (LastStoredRound s) (verified config l) |>
    <| OldestStoredRound :=
         if (LastStoredRound s =? 0) && (OldestStoredRound s =? 0)
         then default (OldestStoredRound s) (head (map round (verified config l)))
         else OldestStoredRound s |>.

Lemma write_pulse_run origin payload s :
  let l := pulses payload in let config := BeaconConfig s in
  (exists s', write_pulse origin payload s = Ok (tt, s')) <->
  origin = Origin_None
  /\ (forall p, p ∈ l -> is_ok (verify_pulse config p) = true)
  /\ increasing (LastStoredRound s) (map round (verified config l)).
Proof.
  intros l config. split.
  - intros [s' H]. unfold write_pulse in H.
    apply abind_Ok in H as (u & s1 & [Ho ->]%check_Ok & H).
    apply abind_Ok in H as (c & s2 & [-> ->]%asks_Ok & H).
    apply abind_Ok in H as (r & s3 & [-> ->]%asks_Ok & H).
    apply abind_Ok in H as (o & s4 & [-> ->]%asks_Ok & H).
    apply abind_Ok in H as (v & s5 & [Hv ->]%check_Ok & _).
    apply pulse_loop_spec in Hv as (H1 & H2 & _). split; [by destruct origin|done].
  - intros (-> & H1 & H2). unfold write_pulse, abind, check, asks, modify. simpl.
    assert (exists v, pulse_loop config ((LastStoredRound s =? 0) && (OldestStoredRound s =? 0)) l
      (mk_PulseLoop (Pulses s) (LastStoredRound s) [] None) = Ok v) as [v E]
      by (eexists; apply pulse_loop_spec; split_and!; [done..|reflexivity]).
    unfold config, l in E. rewrite E.
    simpl. destruct (lp_new_rounds v); simpl; [|unfold deposit_drand_event, modify]; eauto.
Qed.

Lemma prune_block last s : drand_block (prune_old_pulses last s) = drand_block s.
Proof. unfold prune_old_pulses. destruct (_ =? _); [done|]. by destruct (prune_loop _ _ _ _). Qed.

Lemma write_pulse_state origin payload s s' : write_pulse origin payload s = Ok (tt, s') ->
  exists next events, s' = prune_old_pulses
      (last_round (LastStoredRound s) (verified (BeaconConfig s) (pulses payload)))
      (stored (BeaconConfig s) (pulses payload) s)
    <| NextUnsignedAt := next |> <| drand_events := events |>
  /\ next = drand_block s.
Proof.
  intros H. unfold write_pulse in H.
  apply abind_Ok in H as (u & s1 & [Ho ->]%check_Ok & H).
  apply abind_Ok in H as (c & s2 & [-> ->]%asks_Ok & H).
  apply abind_Ok in H as (r & s3 & [-> ->]%asks_Ok & H).
  apply abind_Ok in H as (o & s4 & [-> ->]%asks_Ok & H).
  apply abind_Ok in H as (v & s5 & [Hv ->]%check_Ok & H).
  apply pulse_loop_spec in Hv as (_ & _ & ->). simpl in H.
  apply abind_Ok in H as ([] & s6 & ->%modify_Ok & H).
  apply abind_Ok in H as ([] & s7 & ->%modify_Ok & H).
  apply abind_Ok in H as ([] & s8 & ->%modify_Ok & H).
  apply abind_Ok in H as ([] & s9 & ->%modify_Ok & H).
  set (l := verified (BeaconConfig s) (pulses payload)) in *.
  match type of H with context [prune_old_pulses _ ?x] =>
    assert (E : x = stored (BeaconConfig s) (pulses payload) s) end.
  { unfold stored. fold l. destruct (_ && _); [destruct (map round l)|]; by destruct s. }
  rewrite E, prune_block in H. exists (drand_block s), (drand_events s'). split; [|done].
  destruct (map round l); [|unfold deposit_drand_event in H]; inv_run; done.
Qed.

(** The payload has rounds of [u64]. *)
Definition typed_rounds (l : list Pulse) : Prop := forall p, p ∈ l -> in_range 64 (round p).

Lemma verified_elem config l p : p ∈ verified config l ->
  p ∈ l /\ verify_pulse config p = Ok true.
Proof.
  unfold verified. intros [Hl Hv]%list_elem_of_In%filter_In. split; [by apply list_elem_of_In|].
  by destruct (verify_pulse config p) as [[]|].
Qed.

Lemma last_round_typed last l : in_range 64 last -> typed_rounds l -> in_range 64 (last_round last l).
Proof.
  revert last. induction l as [|p l IH]; intros last Hl Ht; [done|]. rewrite last_round_cons.
  apply IH; [apply Ht; by left|]. intros q Hq. apply Ht. by right.
Qed.

Lemma stored_inv config l s : drand_inv s -> typed_rounds l ->
  increasing (LastStoredRound s) (map round (verified config l)) -> drand_inv (stored config l s).
Proof.
  intros [Hl Hn Ho Hr] Ht Hi.
  assert (Ht' : typed_rounds (verified config l))
    by (intros p [Hp _]%verified_elem; by apply Ht).
  unfold stored. set (v := verified config l) in *. clearbody v.
  pose proof (increasing_last _ _ Hi) as Hle. pose proof (last_round_typed _ _ Hl Ht') as Hlr.
  destruct Hl as [Hl _].
  split; simpl; [done| | |].
  - intros E. assert (E0 : LastStoredRound s = 0) by lia. destruct (Hn E0) as [Eo Ep].
    destruct v as [|p v].
    + rewrite E0, Eo. simpl. done.
    + pose proof (increasing_rounds _ _ p Hi ltac:(by left)). lia.
  - intros Hpos. destruct (Z.eqb_spec (LastStoredRound s) 0) as [E0|E0]; simpl; [|lia].
    destruct (Hn E0) as [Eo _]. rewrite Eo. simpl. destruct v as [|p v]; simpl.
    + unfold last_round in Hpos. simpl in Hpos. lia.
    + pose proof (increasing_rounds _ _ p Hi ltac:(by left)). lia.
  - intros r p [[Hp <-]|Hp]%insert_pulses_lookup; (split; [try done; by apply Hr|]).
    + pose proof (increasing_rounds _ _ p Hi Hp).
      destruct (Z.eqb_spec (LastStoredRound s) 0) as [E0|E0]; simpl; [|lia].
      destruct (Hn E0) as [Eo _]. rewrite Eo. simpl. destruct v as [|q v]; simpl.
      * by apply not_elem_of_nil in Hp.
      * apply elem_of_cons in Hp as [->|Hp]; [lia|]. destruct Hi as [_ Hi].
        pose proof (increasing_rounds _ _ p Hi Hp). lia.
    + destruct (Hr _ _ Hp) as [_ Hb]. destruct (Z.eqb_spec (LastStoredRound s) 0) as [E0|E0]; simpl; [|lia].
      destruct (Hn E0) as [_ Ep]. by rewrite Ep in Hp.
Qed.

(** The pulses that pruning leaves are those from its oldest round on; it leaves no more
    rounds than are kept, or has removed as many as it may. *)
Record pruned s s' : Prop := {
  pr_config : BeaconConfig s' = BeaconConfig s;
  pr_last : LastStoredRound s' = LastStoredRound s;
  pr_oldest : OldestStoredRound s <= OldestStoredRound s';
  pr_pulses r : Pulses s' !! r = if decide (r < OldestStoredRound s') then None else Pulses s !! r;
  pr_window : LastStoredRound s - OldestStoredRound s' + 1 <= MAX_KEPT_PULSES
    \/ OldestStoredRound s' = OldestStoredRound s + MAX_REMOVED_PULSES;
}.

Lemma pulses_below s r : drand_inv s -> r < OldestStoredRound s -> Pulses s !! r = None.
Proof.
  intros Hinv Hr. destruct (Pulses s !! r) as [p|] eqn:E; [|done].
  destruct (di_round _ Hinv _ _ E). lia.
Qed.

Lemma prune_pruned s : drand_inv s -> let s' := prune_old_pulses (LastStoredRound s) s in
  pruned s s' /\ drand_inv s'.
Proof.
  intros Hinv s'. pose proof Hinv as [Hl Hn Ho Hr]. unfold s', prune_old_pulses.
  destruct (Z.eqb_spec (OldestStoredRound s) 0) as [E0|E0].
  { split; [|done]. split; try done; [intros r; case_decide; [by apply pulses_below|done]|left].
    destruct (decide (LastStoredRound s = 0)) as [E|E].
    - rewrite E, E0. unfold MAX_KEPT_PULSES. lia.
    - destruct Hl. specialize (Ho ltac:(lia)). lia. }
  assert (Hpos : 0 < LastStoredRound s).
  { destruct Hl. destruct (decide (LastStoredRound s = 0)) as [E|E]; [|lia].
    by destruct (Hn E). }
  specialize (Ho Hpos).
  destruct (prune_loop_spec (Z.to_nat MAX_REMOVED_PULSES) (LastStoredRound s) (OldestStoredRound s) (Pulses s))
    as (n & m & E & Hm & Hk & Hb); [lia|apply Hl|].
  rewrite E. set (o := OldestStoredRound s + Z.of_nat n) in *.
  assert (Hoo : OldestStoredRound s <= o <= LastStoredRound s).
  { unfold o, MAX_KEPT_PULSES in *. destruct n; [lia|]. specialize (Hk ltac:(lia)). lia. }
  assert (Hlook : forall r, m !! r = if decide (r < o) then None else Pulses s !! r).
  { intros r. rewrite Hm. destruct (decide (r < OldestStoredRound s)).
    - rewrite (pulses_below s r) by done. by repeat case_decide.
    - repeat case_decide; try done; lia. }
  split; split; simpl; try done; try lia.
  - destruct Hb as [Hb| ->]; [by left|right]. unfold o. unfold MAX_REMOVED_PULSES. lia.
  - intros r p. rewrite Hlook. case_decide; [done|]. intros Hp. destruct (Hr _ _ Hp). split; [done|lia].
Qed.

(** ** What is stored whatever root does *)

(** [set_oldest_stored_round] lets root set the oldest round to any number.  This is left of the
    invariant then. *)
Record drand_weak s : Prop := {
  dw_last : in_range 64 (LastStoredRound s);
  dw_oldest : in_range 64 (OldestStoredRound s);
  dw_round r p : Pulses s !! r = Some p -> round p = r /\ r <= LastStoredRound s;
}.

Lemma stored_weak config l s : drand_weak s -> typed_rounds l ->
  increasing (LastStoredRound s) (map round (verified config l)) -> drand_weak (stored config l s).
Proof.
  intros [Hl Ho Hr] Ht Hi.
  assert (Ht' : typed_rounds (verified config l)) by (intros p [Hp _]%verified_elem; by apply Ht).
  unfold stored. set (v := verified config l) in *. clearbody v.
  split; simpl; [by apply last_round_typed| |].
  - destruct (_ && _); [|done]. destruct v as [|p v]; simpl; [done|]. apply Ht'. by left.
  - intros r p [[Hp <-]|Hp]%insert_pulses_lookup.
    + pose proof (increasing_rounds _ _ p Hi Hp). split; [done|lia].
    + destruct (Hr _ _ Hp). pose proof (increasing_last _ _ Hi). split; [done|lia].
Qed.

(** Pruning removes pulses, and never that of the last round. *)
Lemma prune_weak s : drand_weak s -> let s' := prune_old_pulses (LastStoredRound s) s in
  drand_weak s' /\ LastStoredRound s' = LastStoredRound s
  /\ Pulses s' !! LastStoredRound s = Pulses s !! LastStoredRound s.
Proof.
  intros Hw s'. pose proof Hw as [[Hl0 Hl] [Ho0 Ho] Hr]. unfold s', prune_old_pulses.
  destruct (Z.eqb_spec (OldestStoredRound s) 0) as [E0|E0]; [done|].
  destruct (prune_loop_spec (Z.to_nat MAX_REMOVED_PULSES) (LastStoredRound s) (OldestStoredRound s) (Pulses s))
    as (n & m & E & Hm & Hk & _); [lia|done|].
  rewrite E. unfold MAX_KEPT_PULSES in Hk. split_and!; simpl; [|done|].
  - split; simpl; [done| |].
    + unfold in_range in *. destruct n; [lia|]. specialize (Hk ltac:(lia)). lia.
    + intros r p. rewrite Hm. case_decide; [done|]. apply Hr.
  - rewrite Hm. rewrite decide_False; [done|]. destruct n; [lia|]. specialize (Hk ltac:(lia)). lia.
Qed.

Lemma write_weak origin payload s s' : drand_weak s -> typed_rounds (pulses payload) ->
  write_pulse origin payload s = Ok (tt, s') ->
  let v := verified (BeaconConfig s) (pulses payload) in
  drand_weak s' /\ LastStoredRound s' = last_round (LastStoredRound s) v
  /\ LastStoredRound s <= LastStoredRound s'
  /\ Pulses s' !! LastStoredRound s' = insert_pulses v (Pulses s) !! LastStoredRound s'
  /\ NextUnsignedAt s' = drand_block s /\ drand_block s' = drand_block s.
Proof.
  intros Hw Ht H v. destruct (proj1 (write_pulse_run _ _ _) (ex_intro _ _ H)) as (_ & _ & Hi).
  destruct (write_pulse_state _ _ _ _ H) as (next & events & -> & ->).
  destruct (prune_weak _ (stored_weak _ _ _ Hw Ht Hi)) as ([A B C] & El & Ep).
  set (s1 := stored _ _ s) in *. change (last_round _ _) with (LastStoredRound s1) in *.
  set (s2 := prune_old_pulses _ s1) in *. assert (Eb : drand_block s2 = drand_block s) by (unfold s2; by rewrite prune_block).
  split_and!; [by split|exact El| | |done|exact Eb].
  - change (LastStoredRound s <= LastStoredRound s2). rewrite El. by apply increasing_last.
  - change (Pulses s2 !! LastStoredRound s2 = Pulses s1 !! LastStoredRound s2). by rewrite El.
Qed.

(** ** Steps of the chain *)

(** A write of a pulse that validation accepts, of a round at most [gap] after the last one,
    calls of the root origin that change the configuration, the next blocks, and, if [root]
    allows it, calls of the root origin that set the oldest round. *)
Inductive drand_step (gap : Z) (root : bool) : DrandStore -> DrandStore -> Prop :=
| drand_step_write payload signature valid s s' :
    validate_unsigned s (DrandCall_write_pulse payload signature) = Ok valid ->
    typed_rounds (pulses payload) ->
    (forall p, p ∈ pulses payload -> LastStoredRound s = 0 \/ round p <= LastStoredRound s + gap) ->
    dispatch_drand (DrandCall_write_pulse payload signature) Origin_None s = Ok (tt, s') ->
    drand_step gap root s s'
| drand_step_config origin payload signature s s' :
    dispatch_drand (DrandCall_set_beacon_config payload signature) origin s = Ok (tt, s') ->
    drand_step gap root s s'
| drand_step_oldest origin oldest_round s s' : root = true -> in_range 64 oldest_round ->
    dispatch_drand (DrandCall_set_oldest_stored_round oldest_round) origin s = Ok (tt, s') ->
    drand_step gap root s s'
| drand_step_block b s : drand_step gap root s (s <| drand_block := b |>).

Lemma validate_one payload signature s valid :
  validate_unsigned s (DrandCall_write_pulse payload signature) = Ok valid ->
  exists p, pulses payload = [p] /\ LastStoredRound s < round p
            /\ NextUnsignedAt s <= drand_block s /\ pp_block_number payload <= drand_block s.
Proof.
  simpl. intros H. inv_run. unfold validate_signature_and_parameters in H. inv_run.
  unfold validate_transaction_parameters in H. inv_run.
  destruct (pulses payload) as [|p [|q l]]; simpl in H; try done. inv_run. boolprop.
  exists p. split_and!; [done|lia..].
Qed.

Definition within_window s : Prop :=
  LastStoredRound s - OldestStoredRound s + 1 <= MAX_KEPT_PULSES.

Lemma stored_window config p s gap : drand_inv s -> within_window s -> gap <= MAX_REMOVED_PULSES ->
  LastStoredRound s = 0 \/ round p <= LastStoredRound s + gap ->
  LastStoredRound (stored config [p] s) - OldestStoredRound (stored config [p] s) + 1
  <= MAX_KEPT_PULSES + MAX_REMOVED_PULSES.
Proof.
  intros [_ Hn _ _] Hw Hg Hgap.
  unfold within_window, stored, verified, last_round, MAX_REMOVED_PULSES, MAX_KEPT_PULSES in *. simpl.
  destruct (match verify_pulse _ _ with Ok _ => _ | Err _ => _ end); simpl.
  - destruct (Z.eqb_spec (LastStoredRound s) 0) as [E0|E0]; simpl; [|lia].
    destruct (Hn E0) as [-> _]. simpl. lia.
  - destruct (_ && _); simpl; lia.
Qed.

Lemma write_step gap payload signature valid s s' : drand_inv s ->
  validate_unsigned s (DrandCall_write_pulse payload signature) = Ok valid ->
  typed_rounds (pulses payload) ->
  (forall p, p ∈ pulses payload -> LastStoredRound s = 0 \/ round p <= LastStoredRound s + gap) ->
  write_pulse Origin_None payload s = Ok (tt, s') ->
  drand_inv s' /\ (gap <= MAX_REMOVED_PULSES -> within_window s -> within_window s').
Proof.
  intros Hinv Hv Ht Hgap H. destruct (validate_one _ _ _ _ Hv) as (p & Ep & Hp & _).
  destruct (proj1 (write_pulse_run _ _ _) (ex_intro _ _ H)) as (_ & _ & Hi).
  pose proof (stored_inv _ _ _ Hinv Ht Hi) as Hinv1.
  destruct (write_pulse_state _ _ _ _ H) as (next & events & -> & _).
  destruct (prune_pruned _ Hinv1) as [Hpr Hinv2].
  set (s1 := stored _ _ s) in *. change (last_round _ _) with (LastStoredRound s1) in *.
  set (s2 := prune_old_pulses _ s1) in *. split.
  { destruct Hinv2 as [A B C D]. by split. }
  intros Hg Hw. unfold within_window in *. simpl. rewrite (pr_last _ _ Hpr).
  destruct (pr_window _ _ Hpr) as [?|Eo]; [done|]. rewrite Eo.
  pose proof (stored_window (BeaconConfig s) p s gap Hinv Hw Hg) as Hs. rewrite Ep in Hgap.
  specialize (Hs (Hgap p ltac:(by left))). unfold s1. rewrite Ep. lia.
Qed.

Definition drand_genesis : DrandStore := mk_DrandStore DefaultBeaconConfig ∅ 0 0 0 0 [].

Lemma genesis_drand_inv : drand_inv drand_genesis /\ within_window drand_genesis.
Proof. split; [split; simpl; try done; try lia|]. by vm_compute. Qed.

Lemma pulses_size s : drand_inv s -> 0 <= LastStoredRound s - OldestStoredRound s + 1 ->
  Z.of_nat (size (Pulses s)) <= LastStoredRound s - OldestStoredRound s + 1.
Proof.
  intros Hinv Hw. rewrite <- size_dom.
  assert (Hsub : dom (Pulses s) ⊆
    (list_to_set (seqZ (OldestStoredRound s) (LastStoredRound s - OldestStoredRound s + 1)) : gset Z)).
  { intros r Hr. apply elem_of_dom in Hr as [p Hp]. apply elem_of_list_to_set, elem_of_seqZ.
    destruct (di_round _ Hinv _ _ Hp). lia. }
  apply subseteq_size in Hsub. rewrite size_list_to_set in Hsub by apply NoDup_seqZ.
  rewrite length_seqZ in Hsub. lia.
Qed.

Lemma drand_step_inv gap s s' : drand_step gap false s s' -> drand_inv s ->
  drand_inv s' /\ (gap <= MAX_REMOVED_PULSES -> within_window s -> within_window s').
Proof.
  intros H Hinv. destruct H as [payload sig valid s s' Hv Ht Hg H|origin payload sig s s' H
    |origin r s s' Hroot|b s].
  - by eapply write_step.
  - simpl in H. unfold set_beacon_config, deposit_drand_event in H. inv_run.
    destruct Hinv as [A B C D]. split; [by split|done].
  - done.
  - destruct Hinv as [A B C D]. split; [by split|done].
Qed.

Lemma drand_step_weak gap root s s' : drand_step gap root s s' -> drand_weak s ->
  drand_weak s' /\ LastStoredRound s <= LastStoredRound s'.
Proof.
  intros H Hw. destruct H as [payload sig valid s s' Hv Ht Hg H|origin payload sig s s' H
    |origin r s s' _ Hr H|b s].
  - simpl in H. by destruct (write_weak _ _ _ _ Hw Ht H) as (? & _ & ? & _).
  - simpl in H. unfold set_beacon_config, deposit_drand_event in H. inv_run.
    destruct Hw as [A B C]. split; [by split|done].
  - simpl in H. unfold set_oldest_stored_round, deposit_drand_event in H. inv_run.
    destruct Hw as [A B C]. split; [by split|done].
  - destruct Hw as [A B C]. split; [by split|done].
Qed.

Lemma drand_run_weak gap root s s' : rtc (drand_step gap root) s s' -> drand_weak s ->
  drand_weak s' /\ LastStoredRound s <= LastStoredRound s'.
Proof.
  induction 1 as [s|s s1 s2 Hstep _ IH]; [done|]. intros Hw.
  destruct (drand_step_weak _ _ _ _ Hstep Hw) as [Hw1 Hl]. destruct (IH Hw1). split; [done|lia].
Qed.

Lemma genesis_weak : drand_weak drand_genesis.
Proof. by split. Qed.

Lemma drand_run_inv gap s : rtc (drand_step gap false) drand_genesis s ->
  drand_inv s /\ (gap <= MAX_REMOVED_PULSES -> within_window s).
Proof.
  intros Hrun. assert (Hgen : forall s0 s, rtc (drand_step gap false) s0 s -> drand_inv s0 ->
    drand_inv s /\ (gap <= MAX_REMOVED_PULSES -> within_window s0 -> within_window s)).
  { clear. induction 1 as [|x y z Hxy _ IH]; [done|]. intros Hx.
    destruct (drand_step_inv _ _ _ Hxy Hx) as [Hy Hw]. destruct (IH Hy). auto. }
  destruct genesis_drand_inv as [Hi Hw]. destruct (Hgen _ _ Hrun Hi). auto.
Qed.

(** C36 In every state the chain reaches, each stored pulse is under its own round and no later
    than the last stored one.  If root has never set the oldest round, it is no earlier than the
    oldest one either; and if moreover no accepted round was more than a hundred after the
    last one, then at most [MAX_KEPT_PULSES] pulses are stored: pruning keeps up. *)
Theorem beacon_storage_bounded gap root s (Hrun : rtc (drand_step gap root) drand_genesis s) :
  (forall r p, Pulses s !! r = Some p -> round p = r /\ r <= LastStoredRound s)
  /\ (root = false ->
      (forall r p, Pulses s !! r = Some p -> OldestStoredRound s <= r)
      /\ (gap <= MAX_REMOVED_PULSES -> Z.of_nat (size (Pulses s)) <= MAX_KEPT_PULSES)).
Proof.
  split; [apply (dw_round _ (proj1 (drand_run_weak _ _ _ _ Hrun genesis_weak)))|]. intros ->.
  destruct (drand_run_inv gap s Hrun) as [Hinv Hw]. split; [apply (di_round _ Hinv)|].
  intros Hg. specialize (Hw Hg). unfold within_window in Hw.
  destruct (decide (LastStoredRound s = 0)) as [E|E].
  - destruct (di_none _ Hinv E) as [_ ->]. rewrite map_size_empty. unfold MAX_KEPT_PULSES. lia.
  - pose proof (di_last _ Hinv) as [? _]. pose proof (di_oldest _ Hinv ltac:(lia)).
    pose proof (pulses_size _ Hinv ltac:(lia)). lia.
Qed.

Lemma write_pulse_result origin payload s s' : drand_inv s -> typed_rounds (pulses payload) ->
  write_pulse origin payload s = Ok (tt, s') ->
  let v := verified (BeaconConfig s) (pulses payload) in
  drand_inv s' /\ LastStoredRound s' = last_round (LastStoredRound s) v
  /\ (forall r, Pulses s' !! r = if decide (r < OldestStoredRound s') then None
                                else insert_pulses v (Pulses s) !! r)
  /\ NextUnsignedAt s' = drand_block s /\ drand_block s' = drand_block s.
Proof.
  intros Hinv Ht H v. destruct (proj1 (write_pulse_run _ _ _) (ex_intro _ _ H)) as (_ & _ & Hi).
  destruct (write_pulse_state _ _ _ _ H) as (next & events & -> & ->).
  destruct (prune_pruned _ (stored_inv _ _ _ Hinv Ht Hi)) as [Hpr [A B C D]].
  split_and!; [by split|apply (pr_last _ _ Hpr)|apply (pr_pulses _ _ Hpr)|done|].
  simpl. by rewrite prune_block.
Qed.

(** [write_pulse] stores exactly the pulses of its payload that verify.  It succeeds iff
    its origin is none, no verification fails and the rounds of the verified pulses increase
    from the last stored one on; the rounds that were there stay, but for those below the new
    oldest round, and a pulse that does not verify is never stored. *)
Theorem write_pulse_exact origin payload s (Hinv : drand_inv s)
    (Htyped : typed_rounds (pulses payload)) :
  let v := verified (BeaconConfig s) (pulses payload) in
  ((exists s', write_pulse origin payload s = Ok (tt, s')) <->
     origin = Origin_None
     /\ (forall p, p ∈ pulses payload -> is_ok (verify_pulse (BeaconConfig s) p) = true)
     /\ increasing (LastStoredRound s) (map round v))
  /\ forall s', write_pulse origin payload s = Ok (tt, s') ->
     drand_inv s' /\ LastStoredRound s' = last_round (LastStoredRound s) v
     /\ forall r, Pulses s' !! r = if decide (r < OldestStoredRound s') then None
                                  else insert_pulses v (Pulses s) !! r.
Proof.
  intros v. split; [apply write_pulse_run|]. intros s' H.
  by destruct (write_pulse_result _ _ _ _ Hinv Htyped H) as (? & ? & ? & _).
Qed.

(** A transaction whose rounds are not after the last stored one is not accepted. *)
Lemma stored_round_refused payload signature p s : pulses payload = [p] ->
  round p <= LastStoredRound s ->
  is_ok (validate_unsigned s (DrandCall_write_pulse payload signature)) = false.
Proof.
  intros Hp Hr. destruct (validate_unsigned s _) as [valid|] eqn:E; [|done].
  destruct (validate_one _ _ _ _ E) as (q & Hq & Hlt & _). rewrite Hp in Hq. injection Hq as <-. lia.
Qed.

(** C37 A pulse that the pool accepts and that verifies is stored: in every state the chain
    reaches, also if root sets the oldest round, the dispatch of its transaction in the state
    it was validated in succeeds and makes it the last round.  The same transaction is stale then
    and is accepted in no state the chain reaches later, while a signed transaction of one pulse of
    a later round, for no later block, is accepted in the same block. *)
Theorem accepted_pulse_stored gap root payload signature valid p s
    (Hrun : rtc (drand_step gap root) drand_genesis s)
    (Hvalid : validate_unsigned s (DrandCall_write_pulse payload signature) = Ok valid)
    (Hp : pulses payload = [p]) (Hround : in_range 64 (round p))
    (Hverify : verify_pulse (BeaconConfig s) p = Ok true) :
  exists s', write_pulse Origin_None payload s = Ok (tt, s')
  /\ Pulses s' !! round p = Some p /\ LastStoredRound s' = round p
  /\ validate_unsigned s' (DrandCall_write_pulse payload signature) = Err DrandInvalid_Stale
  /\ (forall s'', rtc (drand_step gap root) s' s'' ->
       is_ok (validate_unsigned s'' (DrandCall_write_pulse payload signature)) = false)
  /\ forall payload' sig' p', pulses payload' = [p'] -> round p < round p' ->
       verify_pulses_payload payload' sig' = true -> pp_block_number payload' <= drand_block s ->
       is_ok (validate_unsigned s' (DrandCall_write_pulse payload' (Some sig'))) = true.
Proof.
  destruct (drand_run_weak _ _ _ _ Hrun genesis_weak) as [Hw _].
  destruct (validate_one _ _ _ _ Hvalid) as (p0 & Ep & Hlt & Hnext & Hblock).
  rewrite Hp in Ep. injection Ep as <-.
  assert (Ev : verified (BeaconConfig s) (pulses payload) = [p])
    by (rewrite Hp; unfold verified; simpl; by rewrite Hverify).
  destruct (proj2 (write_pulse_run Origin_None payload s)) as [s' H].
  { split_and!; [done| |rewrite Ev; simpl; lia].
    rewrite Hp. intros q ->%list_elem_of_singleton. by rewrite Hverify. }
  assert (Ht : typed_rounds (pulses payload)) by (rewrite Hp; by intros q ->%list_elem_of_singleton).
  destruct (write_weak _ _ _ _ Hw Ht H) as (Hw' & El & _ & Hlook & Eb1 & Eb2).
  rewrite Ev in El, Hlook. unfold last_round in El. simpl in El. rewrite El in Hlook.
  exists s'. split_and!; [done|rewrite Hlook; apply lookup_insert_eq|done| | |].
  - destruct signature as [sig|]; [|done]. simpl in *. unfold validate_signature_and_parameters in *.
    destruct (verify_pulses_payload payload sig); [|done]. simpl. clear Hvalid. unfold validate_transaction_parameters. rewrite Hp, Eb1, Eb2, El. simpl.
    by rewrite (proj2 (Z.ltb_ge _ _)), Z.ltb_irrefl, Z.leb_refl by lia.
  - intros s'' Hr. apply (stored_round_refused _ _ p); [done|].
    destruct (drand_run_weak _ _ _ _ Hr Hw'). lia.
  - intros payload' sig' p' Hp' Hr' Hsig Hb'. simpl.
    unfold validate_signature_and_parameters, validate_transaction_parameters.
    rewrite Hsig, Hp', Eb1, Eb2, El. simpl.
    by rewrite (proj2 (Z.ltb_ge _ _)), Z.ltb_irrefl, (proj2 (Z.leb_gt _ _)) by lia.
Qed.

(** An unsigned transaction that sets the configuration of the beacon is accepted by the
    pool and propagated, but its dispatch always fails: the call wants the root origin. *)
Theorem unsigned_config_accepted_never_applied payload sig s
    (Hsig : verify_config_payload payload sig = true)
    (Hblock : NextUnsignedAt s <= bp_block_number payload <= drand_block s) :
  is_ok (validate_unsigned s (DrandCall_set_beacon_config payload (Some sig))) = true
  /\ dispatch_drand (DrandCall_set_beacon_config payload (Some sig)) Origin_None s
     = Err DrandError_BadOrigin.
Proof.
  split; [|done]. simpl. unfold validate_signature_and_parameters, validate_transaction_parameters.
  rewrite Hsig. simpl. by rewrite !(proj2 (Z.ltb_ge _ _)) by lia.
Qed.

End Beacon.
