(* ===== verification/Commitments.v ===== *)
(** * Metadata commitments

    [pallets/commitments/src/types.rs] and [lib.rs]: the data accounts commit to for a subnet,
    with its hand-written codec, the rate limit on its size, and the reveal of fields that are
    encrypted until a round of the randomness beacon.  The decryption and the pallets of
    subnets and balances are parameters. *)

From stdpp Require Import base tactics list gmap option sorting.
From S2P Require Import Prelude Protocol Pallet Scale Drand.
From Stdlib Require Import ZArith Lia.
Open Scope Z_scope.

(** ** Data *)

Definition MAX_TIMELOCK_COMMITMENT_SIZE_BYTES : nat := 1024.
Definition MAX_BIGRAW_COMMITMENT_SIZE_BYTES : nat := 512.

Inductive CommitData : Type :=
| CommitData_None
| CommitData_Raw (bytes : list Z)
| CommitData_BlakeTwo256 (h : list Z)
| CommitData_Sha256 (h : list Z)
| CommitData_Keccak256 (h : list Z)
| CommitData_ShaThree256 (h : list Z)
| CommitData_TimelockEncrypted (encrypted : list Z) (reveal_round : Z)
| CommitData_ResetBondsFlag
| CommitData_BigRaw (bytes : list Z).

Definition is_timelock_encrypted (d : CommitData) : bool :=
  match d with CommitData_TimelockEncrypted _ _ => true | _ => false end.

Definition len_for_rate_limit (d : CommitData) : Z :=
  match d with
  | CommitData_None => 0
  | CommitData_Raw bytes => Z.of_nat (length bytes)
  | CommitData_BlakeTwo256 arr | CommitData_Sha256 arr
  | CommitData_Keccak256 arr | CommitData_ShaThree256 arr => Z.of_nat (length arr)
  | CommitData_TimelockEncrypted encrypted _ => Z.of_nat (length encrypted)
  | CommitData_ResetBondsFlag => 0
  | CommitData_BigRaw bytes => Z.of_nat (length bytes)
  end.

(** [CommitmentInfo] has the one field [fields]. *)
Record CommitRegistration : Type := mk_CommitRegistration {
  commit_deposit : Z;
  commit_block : Z;
  fields : list CommitData;
}.

Record UsageTracker : Type := mk_UsageTracker {
  last_epoch : Z;
  used_space : Z;
}.
#[export] Instance eta_UsageTracker : Eta UsageTracker := fun r =>
  mk_UsageTracker (last_epoch r) (used_space r).

Section CommitCodec.
Context `{S : Scale}.

Definition CommitData_decode {I : Type} `{Input I} (input : I) : option (CommitData * I) :=
  '(byte, input) ← read 1 input;
  match byte with
  | [b] =>
      if b =? 0 then Some (CommitData_None, input)
      else if (1 <=? b) && (b <=? 129) then
        '(r, input) ← read (Z.to_nat (saturating_sub b 1)) input; Some (CommitData_Raw r, input)
      else if b =? 130 then
        '(h, input) ← decode (array_codec 32) input; Some (CommitData_BlakeTwo256 h, input)
      else if b =? 131 then
        '(h, input) ← decode (array_codec 32) input; Some (CommitData_Sha256 h, input)
      else if b =? 132 then
        '(h, input) ← decode (array_codec 32) input; Some (CommitData_Keccak256 h, input)
      else if b =? 133 then
        '(h, input) ← decode (array_codec 32) input; Some (CommitData_ShaThree256 h, input)
      else if b =? 134 then
        '(encrypted, input) ←
           decode (bounded_vec_codec MAX_TIMELOCK_COMMITMENT_SIZE_BYTES u8_codec) input;
        '(reveal_round, input) ← decode u64_codec input;
        Some (CommitData_TimelockEncrypted encrypted reveal_round, input)
      else if b =? 135 then Some (CommitData_ResetBondsFlag, input)
      else if b =? 136 then
        '(bigvec, input) ←
           decode (bounded_vec_codec MAX_BIGRAW_COMMITMENT_SIZE_BYTES u8_codec) input;
        Some (CommitData_BigRaw bigvec, input)
      else None
  | _ => None
  end.

Definition CommitData_encode (d : CommitData) : list Z :=
  match d with
  | CommitData_None => [0]
  | CommitData_Raw x =>
      let l := Z.min (Z.of_nat (length x)) 128 in
      saturating_add 8 l 1 :: x
  | CommitData_BlakeTwo256 h => 130 :: h
  | CommitData_Sha256 h => 131 :: h
  | CommitData_Keccak256 h => 132 :: h
  | CommitData_ShaThree256 h => 133 :: h
  | CommitData_TimelockEncrypted encrypted reveal_round =>
      [134] ++ encode (bounded_vec_codec MAX_TIMELOCK_COMMITMENT_SIZE_BYTES u8_codec) encrypted
        ++ encode u64_codec reveal_round
  | CommitData_ResetBondsFlag => [135]
  | CommitData_BigRaw bigvec =>
      [136] ++ encode (bounded_vec_codec MAX_BIGRAW_COMMITMENT_SIZE_BYTES u8_codec) bigvec
  end.

Definition CommitData_codec : Codec CommitData := mk_Codec CommitData_encode (@CommitData_decode).

(** The balance is a [u64], the block number a [u32]. *)
Definition CommitRegistration_fields_codec (max_fields : nat) : Codec (Z * (Z * list CommitData)) :=
  pair_codec u64_codec (pair_codec u32_codec (bounded_vec_codec max_fields CommitData_codec)).

Definition CommitRegistration_encode (max_fields : nat) (r : CommitRegistration) : list Z :=
  encode (CommitRegistration_fields_codec max_fields) (commit_deposit r, (commit_block r, fields r)).

Definition CommitRegistration_decode (max_fields : nat) {I : Type} `{Input I} (input : I) :
    option (CommitRegistration * I) :=
  '((deposit, (block, info)), input) ←
     decode (CommitRegistration_fields_codec max_fields) (AppendZerosInput_new input);
  Some (mk_CommitRegistration deposit block info, AppendZerosInput_inner input).

End CommitCodec.

(** ** The pallet *)

Inductive CommitmentError : Type :=
| CommitmentError_TooManyFieldsInCommitmentInfo
| CommitmentError_AccountNotAllowedCommit
| CommitmentError_SpaceLimitExceeded
| CommitmentError_UnexpectedUnreserveLeftover
| CommitmentError_BadOrigin
| CommitmentError_Currency (code : Z).

Inductive CommitmentEvent : Type :=
| CommitmentEvent_Commitment (netuid : Z) (who : AccountId)
| CommitmentEvent_TimelockCommitment (netuid : Z) (who : AccountId) (reveal_round : Z)
| CommitmentEvent_CommitmentRevealed (netuid : Z) (who : AccountId).

(** A double map of subnet and account has pairs as keys.  [commit_pulses] is the storage of
    the beacon, which the pallet reads. *)
Abbreviation CommitKey := (Z * AccountId)%type.

Record CommitmentStore (W : Type) : Type := mk_CommitmentStore {
  TimelockedIndex : gset CommitKey;
  CommitmentOf : gmap CommitKey CommitRegistration;
  LastCommitment : gmap CommitKey Z;
  LastBondsReset : gmap CommitKey Z;
  RevealedCommitments : gmap CommitKey (list (list Z * Z));
  UsedSpaceOf : gmap CommitKey UsageTracker;
  MaxSpace : Z;
  commit_pulses : gmap Z Pulse;
  commit_now : Z;
  commit_events : list CommitmentEvent;
  commit_world : W;
}.
Arguments mk_CommitmentStore {W}.
Arguments TimelockedIndex {W} _.
Arguments CommitmentOf {W} _.
Arguments LastCommitment {W} _.
Arguments LastBondsReset {W} _.
Arguments RevealedCommitments {W} _.
Arguments UsedSpaceOf {W} _.
Arguments MaxSpace {W} _.
Arguments commit_pulses {W} _.
Arguments commit_now {W} _.
Arguments commit_events {W} _.
Arguments commit_world {W} _.
#[export] Instance eta_CommitmentStore W : Eta (CommitmentStore W) := fun r =>
  mk_CommitmentStore (TimelockedIndex r) (CommitmentOf r) (LastCommitment r) (LastBondsReset r)
    (RevealedCommitments r) (UsedSpaceOf r) (MaxSpace r) (commit_pulses r) (commit_now r)
    (commit_events r) (commit_world r).

Definition DefaultMaxSpace : Z := 3100.

Definition commitment_genesis {W} (pulses : gmap Z Pulse) (w : W) : CommitmentStore W :=
  mk_CommitmentStore ∅ ∅ ∅ ∅ ∅ ∅ DefaultMaxSpace pulses 0 [] w.

Class CommitmentConfig := {
  MaxFields : Z;
  CommitInitialDeposit : Z;
  CommitFieldDeposit : Z;
}.

(** The code of other pallets; [unreserve] returns what it could not unreserve. *)
Class CommitmentRuntime (W : Type) := {
  can_commit : Z -> AccountId -> W -> bool;
  on_metadata_commitment : Z -> AccountId -> W -> W;
  get_epoch_index : Z -> Z -> W -> Z;
  reserve : AccountId -> Z -> W -> result Z W;
  unreserve : AccountId -> Z -> W -> Z * W;
}.

(** Timelock encryption: the signature of a round decrypts what was encrypted for it. *)
Class TimelockCrypto := {
  tle_signature : Type;
  tle_ciphertext : Type;
  deserialize_signature : list Z -> option tle_signature;
  deserialize_ciphertext : list Z -> option tle_ciphertext;
  tld : tle_ciphertext -> tle_signature -> option (list Z);
}.

(** The order of a [BTreeSet] of subnets and accounts. *)
Fixpoint bytes_leb (a b : list Z) : bool :=
  match a, b with
  | [], _ => true
  | _, [] => false
  | x :: a, y :: b => (x <? y) || ((x =? y) && bytes_leb a b)
  end.
Definition key_leb (a b : CommitKey) : bool :=
  (a.1 <? b.1) || ((a.1 =? b.1) && bytes_leb a.2 b.2).
Definition index_iter (index : gset CommitKey) : list CommitKey :=
  merge_sort (fun a b => Is_true (key_leb a b)) (elements index).

Definition u64_mul_saturating (a b : Z) : Z := Z.min (a * b) (uint_max 64).

Section Commitments.
Context {W : Type} `{CF : !CommitmentConfig} `{CR : !CommitmentRuntime W} `{TC : !TimelockCrypto}.
Implicit Types s : CommitmentStore W.
Abbreviation mact := (act (CommitmentStore W) CommitmentError).

Definition deposit_commitment_event (e : CommitmentEvent) s : CommitmentStore W :=
  s <| commit_events ::= fun l => l ++ [e] |>.

(** The space a commitment counts for; its fields are too small for the sum to overflow. *)
Definition required_space (info : list CommitData) : Z :=
  Z.max (foldr Z.add 0 (map len_for_rate_limit info)) 100.

Definition is_reset_bonds (d : CommitData) : bool :=
  match d with CommitData_ResetBondsFlag => true | _ => false end.

Definition reserve_deposit (who : AccountId) (amount : Z) : mact unit := fun s =>
  match reserve who amount (commit_world s) with
  | Ok w => Ok (tt, s <| commit_world := w |>)
  | Err code => Err (CommitmentError_Currency code)
  end.

Definition unreserve_deposit (who : AccountId) (amount : Z) : mact unit := fun s =>
  let '(err_amount, w) := unreserve who amount (commit_world s) in
  if negb (err_amount =? 0) then Err CommitmentError_UnexpectedUnreserveLeftover
  else Ok (tt, s <| commit_world := w |>).

Definition set_commitment (origin : RuntimeOrigin) (netuid : Z) (info : list CommitData) : mact unit :=
  who <-! check (fun _ => match origin with Origin_Signed who => Ok who
                          | _ => Err CommitmentError_BadOrigin end);
  do! check (fun s => ensure (can_commit netuid who (commit_world s))
                        CommitmentError_AccountNotAllowedCommit);
  let extra_fields := Z.of_nat (length info) mod 2 ^ 32 in
  do! check (fun _ => ensure (extra_fields <=? MaxFields)
                        CommitmentError_TooManyFieldsInCommitmentInfo);
  cur_block <-! asks commit_now;
  let required := required_space info in
  usage <-! asks (fun s => default (mk_UsageTracker 0 0) (UsedSpaceOf s !! (netuid, who)));
  current_epoch <-! asks (fun s => get_epoch_index netuid cur_block (commit_world s));
  let usage := if negb (last_epoch usage =? current_epoch)
               then usage <| last_epoch := current_epoch |> <| used_space := 0 |> else usage in
  do! (if existsb is_reset_bonds info
       then modify (fun s => s <| LastBondsReset ::= <[(netuid, who) := cur_block]> |>
                              <| commit_world ::= on_metadata_commitment netuid who |>)
       else ret tt);
  do! check (fun s => ensure (saturating_add 64 (used_space usage) required <=? MaxSpace s)
                        CommitmentError_SpaceLimitExceeded);
  let usage := usage <| used_space := saturating_add 64 (used_space usage) required |> in
  do! modify (fun s => s <| UsedSpaceOf ::= <[(netuid, who) := usage]> |>);
  old_deposit <-! asks (fun s => match CommitmentOf s !! (netuid, who) with
                                 | Some id => commit_deposit id
                                 | None => 0
                                 end);
  let fd := u64_mul_saturating extra_fields CommitFieldDeposit in
  let new_deposit := saturating_add 64 CommitInitialDeposit fd in
  do! (if old_deposit <? new_deposit
       then reserve_deposit who (saturating_sub new_deposit old_deposit) else ret tt);
  do! (if new_deposit <? old_deposit
       then unreserve_deposit who (saturating_sub old_deposit new_deposit) else ret tt);
  let id := mk_CommitRegistration new_deposit cur_block info in
  do! modify (fun s => s <| CommitmentOf ::= <[(netuid, who) := id]> |>
                         <| LastCommitment ::= <[(netuid, who) := cur_block]> |>);
  modify (fun s =>
    match List.find is_timelock_encrypted info with
    | Some (CommitData_TimelockEncrypted _ reveal_round) =>
        deposit_commitment_event (CommitmentEvent_TimelockCommitment netuid who reveal_round) s
          <| TimelockedIndex ::= fun index => {[(netuid, who)]} ∪ index |>
    | _ =>
        deposit_commitment_event (CommitmentEvent_Commitment netuid who) s
          <| TimelockedIndex ::= fun index => index ∖ {[(netuid, who)]} |>
    end).

Definition set_max_space (origin : RuntimeOrigin) (new_limit : Z) : mact unit :=
  do! check (fun _ => match origin with Origin_Root => Ok tt | _ => Err CommitmentError_BadOrigin end);
  modify (fun s => s <| MaxSpace := new_limit |>).

(** ** Reveals *)

(** A field stays, is revealed with its contents, or is dropped with a warning. *)
Inductive FieldOutcome : Type :=
| FieldOutcome_remain
| FieldOutcome_reveal (decrypted_bytes : list Z)
| FieldOutcome_drop.

(** [strip_prefix(b"0x")] *)
Definition strip_0x (bytes : list Z) : list Z :=
  match bytes with 48 :: 120 :: rest => rest | _ => bytes end.

Definition reveal_field (pulses : gmap Z Pulse) (data : CommitData) : FieldOutcome :=
  match data with
  | CommitData_TimelockEncrypted encrypted reveal_round =>
      match pulses !! reveal_round with
      | None => FieldOutcome_remain
      | Some pulse =>
          match deserialize_signature (strip_0x (pulse_signature pulse)) with
          | None => FieldOutcome_drop
          | Some sig =>
              match deserialize_ciphertext encrypted with
              | None => FieldOutcome_drop
              | Some commit =>
                  match default [] (tld commit sig) with
                  | [] => FieldOutcome_drop
                  | decrypted_bytes => FieldOutcome_reveal decrypted_bytes
                  end
              end
          end
      end
  | _ => FieldOutcome_remain
  end.

(** The fields that remain and those that are revealed, in order. *)
Fixpoint reveal_fields (pulses : gmap Z Pulse) (l : list CommitData) :
    list CommitData * list (list Z) :=
  match l with
  | [] => ([], [])
  | data :: rest =>
      let '(remain, revealed) := reveal_fields pulses rest in
      match reveal_field pulses data with
      | FieldOutcome_remain => (data :: remain, revealed)
      | FieldOutcome_reveal bytes => (remain, bytes :: revealed)
      | FieldOutcome_drop => (remain, revealed)
      end
  end.

Definition MAX_REVEALS : nat := 10.

Definition remove_index (key : CommitKey) s : CommitmentStore W :=
  s <| TimelockedIndex ::= fun idx => idx ∖ {[key]} |>.

(** The step of [reveal_timelocked_commitments] for one entry of the index; [false] if the
    fields that remain were more than the bound, which ends the loop. *)
Definition reveal_entry (key : CommitKey) s : CommitmentStore W * bool :=
  match CommitmentOf s !! key with
  | None => (remove_index key s, true)
  | Some registration =>
      let '(remain_fields, revealed_fields) := reveal_fields (commit_pulses s) (fields registration) in
      let s :=
        match revealed_fields with
        | [] => s
        | _ =>
            let existing_reveals := default [] (RevealedCommitments s !! key)
              ++ map (fun bytes => (bytes, commit_now s)) revealed_fields in
            let existing_reveals := drop (length existing_reveals - MAX_REVEALS) existing_reveals in
            s <| commit_events ::= fun l =>
                   l ++ map (fun _ => CommitmentEvent_CommitmentRevealed key.1 key.2) revealed_fields |>
              <| RevealedCommitments ::= <[key := existing_reveals]> |>
        end in
      if negb (Z.of_nat (length remain_fields) <=? MaxFields) then (s, false)
      else
        match remain_fields with
        | [] => (remove_index key (s <| CommitmentOf ::= delete key |>), true)
        | _ =>
            let registration := mk_CommitRegistration (commit_deposit registration)
              (commit_block registration) remain_fields in
            let s := s <| CommitmentOf ::= <[key := registration]> |> in
            (if existsb is_timelock_encrypted remain_fields then s else remove_index key s, true)
        end
  end.

Fixpoint reveal_loop (l : list CommitKey) s : CommitmentStore W * bool :=
  match l with
  | [] => (s, true)
  | key :: rest => let '(s, ok) := reveal_entry key s in if ok : bool then reveal_loop rest s else (s, false)
  end.

Definition reveal_timelocked_commitments s : CommitmentStore W * bool :=
  reveal_loop (index_iter (TimelockedIndex s)) s.

(** The hook logs an error and goes on. *)
Definition commitments_on_initialize s : CommitmentStore W := (reveal_timelocked_commitments s).1.

(** [clear_prefix] on the double maps and [retain] on the index. *)
Definition purge_netuid (netuid : Z) s : CommitmentStore W :=
  let clear {A} (m : gmap CommitKey A) := filter (fun p => p.1.1 <> netuid) m in
  s <| CommitmentOf ::= clear |> <| LastCommitment ::= clear |> <| LastBondsReset ::= clear |>
    <| RevealedCommitments ::= clear |> <| UsedSpaceOf ::= clear |>
    <| TimelockedIndex ::= filter (fun p => p.1 <> netuid) |>.

End Commitments.
