(* ===== verification/CommitmentSafety.v ===== *)
(** * Properties of metadata commitments

    The codec reads back what it writes; the index lists exactly the commitments with a
    timelocked field; a block reveals every field whose round is there; and the rate limit
    bounds what an account commits in an epoch. *)

From stdpp Require Import base tactics list gmap option sorting.
From S2P Require Import Prelude Protocol Pallet Scale Drand Commitments.
From Stdlib Require Import ZArith Lia.
Open Scope Z_scope.

(** ** Codec *)

Section CommitCodecs.
Context `{SL : ScaleLaws}.

(** The bounds of the types. *)
Definition CommitData_wf (d : CommitData) : Prop :=
  match d with
  | CommitData_None | CommitData_ResetBondsFlag => True
  | CommitData_Raw x => (length x <= 128)%nat
  | CommitData_BlakeTwo256 h | CommitData_Sha256 h
  | CommitData_Keccak256 h | CommitData_ShaThree256 h => length h = 32%nat
  | CommitData_TimelockEncrypted encrypted reveal_round =>
      bounded MAX_TIMELOCK_COMMITMENT_SIZE_BYTES (in_range 8) encrypted /\ in_range 64 reveal_round
  | CommitData_BigRaw x => bounded MAX_BIGRAW_COMMITMENT_SIZE_BYTES (in_range 8) x
  end.

Definition CommitRegistration_wf (max_fields : nat) (r : CommitRegistration) : Prop :=
  in_range 64 (commit_deposit r) /\ in_range 32 (commit_block r)
  /\ bounded max_fields CommitData_wf (fields r).

Lemma CommitData_codec_ok : codec_ok CommitData_codec CommitData_wf.
Proof.
  intros I IN L d i rest Hd Hf. simpl in *. unfold CommitData_decode.
  destruct d as [|x|h|h|h|h|enc rr| |x]; simpl in Hd; cbn [CommitData_encode] in Hf;
    try (destruct (feeds_cons i _ _ Hf) as (i1 & -> & Hf1); simpl; rewrite array_decode, <- Hd;
         destruct (read_feeds i1 h rest Hf1) as (i' & -> & Hf'); by exists i').
  - destruct (feeds_cons i _ _ Hf) as (i1 & -> & Hf1). by exists i1.
  - destruct (feeds_cons i _ _ Hf) as (i1 & -> & Hf1). simpl.
    replace (saturating_add _ _ _) with (Z.of_nat (length x) + 1)
      by (unfold saturating_add, uint_max; lia).
    rewrite (proj2 (Z.eqb_neq _ _)), !(proj2 (Z.leb_le _ _)) by lia. simpl.
    replace (Z.to_nat _) with (length x) by (unfold saturating_sub; lia).
    destruct (read_feeds i1 x rest Hf1) as (i' & -> & Hf'). by exists i'.
  - destruct Hd as [He Hr]. rewrite <- !app_assoc in Hf. destruct (feeds_cons i _ _ Hf) as (i1 & -> & Hf1). simpl.
    destruct (bounded_vec_ok _ MAX_TIMELOCK_COMMITMENT_SIZE_BYTES u8_codec _ ltac:(by vm_compute) u8_ok
      _ _ _ _ _ _ He Hf1) as (i2 & -> & Hf2). simpl.
    destruct (u64_ok _ _ _ _ _ _ Hr Hf2) as (i3 & -> & Hf3). by exists i3.
  - destruct (feeds_cons i _ _ Hf) as (i1 & -> & Hf1). by exists i1.
  - rewrite <- app_assoc in Hf. destruct (feeds_cons i _ _ Hf) as (i1 & -> & Hf1). simpl.
    destruct (bounded_vec_ok _ MAX_BIGRAW_COMMITMENT_SIZE_BYTES u8_codec _ ltac:(by vm_compute) u8_ok
      _ _ _ _ _ _ Hd Hf1) as (i2 & -> & Hf2). by exists i2.
Qed.

(** A commitment is read back from its encoding, whatever its kinds of data, and also
    where trailing zero bytes were not stored. *)
Theorem commitment_roundtrip (n : nat) (r : CommitRegistration) I (IN : Input I) (L : InputLaws I)
    (i : I) (stored : list Z) (k : nat)
    (Hn : Z.of_nat n < 2 ^ 14) (Hr : CommitRegistration_wf n r)
    (Hstored : stored ++ replicate k 0 = CommitRegistration_encode n r) (Hi : ends i stored) :
  exists i', CommitRegistration_decode n i = Some (r, i').
Proof.
  pose proof (append_zeros_end I IN L i stored k Hi) as Hf. rewrite Hstored in Hf.
  unfold CommitRegistration_encode in Hf. rewrite <- (app_nil_r (encode _ _)) in Hf.
  assert (Hok := pair_codec_ok _ _ _ _ u64_ok (pair_codec_ok _ _ _ _ u32_ok
    (bounded_vec_ok _ n CommitData_codec _ Hn CommitData_codec_ok))).
  destruct (Hok _ _ _ (commit_deposit r, (commit_block r, fields r)) _ _ Hr Hf) as (z & E & _).
  exists (AppendZerosInput_inner z). unfold CommitRegistration_decode, CommitRegistration_fields_codec.
  rewrite E. by destruct r.
Qed.

End CommitCodecs.

(** ** Reveals *)

Section Reveals.
Context {W : Type} `{CF : !CommitmentConfig} `{CR : !CommitmentRuntime W} `{TC : !TimelockCrypto}.
Implicit Types s : CommitmentStore W.

Definition has_timelock (l : list CommitData) : bool := existsb is_timelock_encrypted l.

(** A field whose round is stored does not remain, any other does. *)
Definition due (pulses : gmap Z Pulse) (d : CommitData) : Prop :=
  match d with
  | CommitData_TimelockEncrypted _ r => pulses !! r <> None
  | _ => False
  end.

Lemma reveal_field_remain pulses d : reveal_field pulses d = FieldOutcome_remain <-> ~ due pulses d.
Proof.
  destruct d as [| | | | | |enc r| |]; simpl; try (split; by auto).
  destruct (pulses !! r) as [p|]; [|naive_solver].
  destruct (deserialize_signature _); [|naive_solver].
  destruct (deserialize_ciphertext _); [|naive_solver].
  destruct (default [] _); naive_solver.
Qed.

Lemma reveal_fields_remain pulses l d :
  d ∈ (reveal_fields pulses l).1 <-> d ∈ l /\ ~ due pulses d.
Proof.
  induction l as [|x l IH]; simpl; [set_solver|].
  destruct (reveal_fields pulses l) as [remain revealed]. simpl in *.
  pose proof (reveal_field_remain pulses x) as Hx.
  destruct (reveal_field pulses x); simpl; rewrite ?elem_of_cons, IH; naive_solver.
Qed.

Lemma reveal_fields_length pulses l : (length (reveal_fields pulses l).1 <= length l)%nat.
Proof.
  induction l as [|x l IH]; simpl; [lia|].
  destruct (reveal_fields pulses l) as [remain revealed]. simpl in *.
  destruct (reveal_field pulses x); simpl; lia.
Qed.

(** What the reveal does to the entries of one account of a subnet. *)
Definition revealed_commitment (pulses : gmap Z Pulse) (o : option CommitRegistration) :
    option CommitRegistration :=
  r ← o;
  match (reveal_fields pulses (fields r)).1 with
  | [] => None
  | remain => Some (mk_CommitRegistration (commit_deposit r) (commit_block r) remain)
  end.

Definition revealed_contents (pulses : gmap Z Pulse) (now : Z) (o : option CommitRegistration)
    (old : option (list (list Z * Z))) : option (list (list Z * Z)) :=
  match o with
  | None => old
  | Some r =>
      match (reveal_fields pulses (fields r)).2 with
      | [] => old
      | l => let all := default [] old ++ map (fun bytes => (bytes, now)) l in
             Some (drop (length all - MAX_REVEALS) all)
      end
  end.

Definition timelocked (o : option CommitRegistration) : Prop :=
  exists r, o = Some r /\ has_timelock (fields r) = true.

Lemma timelocked_Some r : timelocked (Some r) <-> has_timelock (fields r) = true.
Proof. unfold timelocked. naive_solver. Qed.

(** The fields of the store that the reveal does not touch. *)
Definition same_rest s s' : Prop :=
  LastCommitment s' = LastCommitment s /\ LastBondsReset s' = LastBondsReset s
  /\ UsedSpaceOf s' = UsedSpaceOf s /\ MaxSpace s' = MaxSpace s
  /\ commit_pulses s' = commit_pulses s /\ commit_now s' = commit_now s
  /\ commit_world s' = commit_world s.

(** The state [s'] after the entries [l] of the index. *)
Record revealed_entries (l : list CommitKey) s s' : Prop := {
  re_commitments k : CommitmentOf s' !! k =
    if decide (k ∈ l) then revealed_commitment (commit_pulses s) (CommitmentOf s !! k)
    else CommitmentOf s !! k;
  re_contents k : RevealedCommitments s' !! k =
    if decide (k ∈ l)
    then revealed_contents (commit_pulses s) (commit_now s) (CommitmentOf s !! k)
           (RevealedCommitments s !! k)
    else RevealedCommitments s !! k;
  re_index k : k ∈ TimelockedIndex s' <->
    k ∈ TimelockedIndex s
    /\ (k ∈ l -> timelocked (revealed_commitment (commit_pulses s) (CommitmentOf s !! k)));
  re_same : same_rest s s';
}.

Lemma revealed_entries_nil s : revealed_entries [] s s.
Proof.
  split; try done.
  - intros k. split; [intros H; split; [done|by intros ?%not_elem_of_nil]|by intros [? _]].
Qed.

Definition fields_bounded s : Prop :=
  forall k r, CommitmentOf s !! k = Some r -> Z.of_nat (length (fields r)) <= MaxFields.

(** The same for one entry, with the key compared directly. *)
Lemma revealed_entries_one key s s' :
  (forall k, CommitmentOf s' !! k = if decide (k = key)
     then revealed_commitment (commit_pulses s) (CommitmentOf s !! key) else CommitmentOf s !! k) ->
  (forall k, RevealedCommitments s' !! k = if decide (k = key)
     then revealed_contents (commit_pulses s) (commit_now s) (CommitmentOf s !! key)
            (RevealedCommitments s !! key)
     else RevealedCommitments s !! k) ->
  (forall k, k ∈ TimelockedIndex s' <-> k ∈ TimelockedIndex s
     /\ (k = key -> timelocked (revealed_commitment (commit_pulses s) (CommitmentOf s !! key)))) ->
  same_rest s s' -> revealed_entries [key] s s'.
Proof.
  intros H1 H2 H3 H4. split; [intros k; rewrite H1|intros k; rewrite H2|intros k; rewrite H3|done].
  1,2: repeat case_decide; subst; try done; set_solver.
  rewrite list_elem_of_singleton. naive_solver.
Qed.

Lemma reveal_entry_spec key s : fields_bounded s ->
  exists s', reveal_entry key s = (s', true) /\ revealed_entries [key] s s'.
Proof.
  intros Hb. unfold reveal_entry.
  destruct (CommitmentOf s !! key) as [r|] eqn:E.
  2:{ eexists. split; [done|]. apply revealed_entries_one; rewrite ?E; simpl; try done.
      - intros k. case_decide; subst; done.
      - intros k. case_decide; subst; done.
      - intros k. rewrite elem_of_difference, elem_of_singleton. unfold timelocked. naive_solver. }
  pose proof (reveal_fields_length (commit_pulses s) (fields r)) as Hlen. specialize (Hb key r E).
  destruct (reveal_fields (commit_pulses s) (fields r)) as [remain revealed] eqn:F. simpl in Hlen.
  rewrite (proj2 (Z.leb_le _ _)) by lia. simpl.
  set (s1 := match revealed with [] => s | _ => _ end).
  assert (Hs1 : CommitmentOf s1 = CommitmentOf s /\ TimelockedIndex s1 = TimelockedIndex s
    /\ (forall k, RevealedCommitments s1 !! k = if decide (k = key)
         then revealed_contents (commit_pulses s) (commit_now s) (Some r) (RevealedCommitments s !! key)
         else RevealedCommitments s !! k)
    /\ same_rest s s1).
  { unfold s1, revealed_contents, same_rest. rewrite F. simpl. destruct revealed as [|b l]; simpl.
    - split_and!; try done. intros k. case_decide; subst; done.
    - split_and!; try done. intros k. case_decide; subst; [by rewrite lookup_insert_eq|].
      by rewrite lookup_insert_ne. }
  destruct Hs1 as (E1 & E2 & E3 & E4). clearbody s1.
  assert (Ec : revealed_commitment (commit_pulses s) (Some r) = match remain with [] => None
    | _ => Some (mk_CommitRegistration (commit_deposit r) (commit_block r) remain) end)
    by (unfold revealed_commitment; simpl; rewrite F; by destruct remain).
  destruct remain as [|d remain]; [|fold (has_timelock (d :: remain))];
    (eexists; split; [done|]); apply revealed_entries_one; rewrite ?E, ?Ec.
  - intros k. simpl. rewrite E1. case_decide; subst; [by rewrite lookup_delete_eq|].
    by rewrite lookup_delete_ne.
  - done.
  - intros k. simpl. rewrite E2, elem_of_difference, elem_of_singleton. unfold timelocked. naive_solver.
  - done.
  - intros k. destruct (has_timelock _); simpl; rewrite E1; case_decide; subst;
      rewrite ?lookup_insert_eq, ?lookup_insert_ne by done; done.
  - intros k. by destruct (has_timelock _).
  - intros k. rewrite timelocked_Some. simpl fields. destruct (has_timelock _); simpl;
      rewrite E2, ?elem_of_difference, ?elem_of_singleton; intuition congruence.
  - by destruct (has_timelock _).
Qed.

(** The entries of a list without duplicates, one after the other. *)
Lemma revealed_entries_cons key l s s1 s2 : key ∉ l ->
  revealed_entries [key] s s1 -> revealed_entries l s1 s2 -> revealed_entries (key :: l) s s2.
Proof.
  intros Hk [A1 A2 A3 (B1 & B2 & B3 & B4 & B5 & B6 & B7)] [C1 C2 C3 C4].
  unfold same_rest in *. rewrite B1, B2, B3, B4, B5, B6, B7 in C4. rewrite B5, B6 in C2.
  rewrite B5 in C1, C3.
  assert (Hmem : forall k, k ∈ [key] <-> k = key) by (intros k; apply list_elem_of_singleton).
  assert (Hcons : forall k, k ∈ key :: l <-> k = key \/ k ∈ l) by (intros k; apply elem_of_cons).
  split; [| | |done]; intros k; specialize (Hmem k); specialize (Hcons k).
  - rewrite C1, A1. destruct (decide (k ∈ l)), (decide (k ∈ [key])), (decide (k ∈ key :: l));
      try done; exfalso; naive_solver.
  - rewrite C2, A1, A2. destruct (decide (k ∈ l)), (decide (k ∈ [key])), (decide (k ∈ key :: l));
      try done; exfalso; naive_solver.
  - rewrite C3, A3, Hcons, Hmem, A1. destruct (decide (k ∈ [key])); naive_solver.
Qed.

Lemma reveal_loop_spec l s : NoDup l -> fields_bounded s ->
  exists s', reveal_loop l s = (s', true) /\ revealed_entries l s s'.
Proof.
  intros Hl. revert s. induction Hl as [|key l Hk _ IH]; intros s Hb; simpl.
  { exists s. split; [done|apply revealed_entries_nil]. }
  destruct (reveal_entry_spec key s Hb) as (s1 & -> & H1).
  destruct (IH s1) as (s2 & -> & H2).
  { intros k r. rewrite (re_commitments _ _ _ H1). case_decide; [|apply Hb].
    destruct (CommitmentOf s !! k) as [r0|] eqn:E; [|done]. specialize (Hb _ _ E). simpl.
    pose proof (reveal_fields_length (commit_pulses s) (fields r0)).
    destruct (reveal_fields _ _).1; [done|]. intros [= <-]. simpl in *. lia. }
  exists s2. split; [done|by eapply revealed_entries_cons].
Qed.

(** ** The index *)

Record commit_inv s : Prop := {
  ci_index k : k ∈ TimelockedIndex s <-> timelocked (CommitmentOf s !! k);
  ci_fields : fields_bounded s;
  ci_reveals k l : RevealedCommitments s !! k = Some l -> (length l <= MAX_REVEALS)%nat;
}.

Lemma index_iter_elem (index : gset CommitKey) k : k ∈ index_iter index <-> k ∈ index.
Proof. unfold index_iter. by rewrite merge_sort_Permutation, elem_of_elements. Qed.

Lemma index_iter_NoDup (index : gset CommitKey) : NoDup (index_iter index).
Proof. unfold index_iter. rewrite merge_sort_Permutation. apply NoDup_elements. Qed.

Lemma reveal_all s : commit_inv s -> exists s',
  reveal_timelocked_commitments s = (s', true)
  /\ revealed_entries (index_iter (TimelockedIndex s)) s s'.
Proof. intros [_ Hb _]. apply reveal_loop_spec; [apply index_iter_NoDup|done]. Qed.

(** Nothing of a commitment without a timelocked field is revealed. *)
Lemma due_has_timelock pulses l d : d ∈ l -> due pulses d -> has_timelock l = true.
Proof.
  intros Hd Hdue. apply existsb_exists. exists d. split; [by apply list_elem_of_In|].
  by destruct d.
Qed.

Lemma reveal_inv s s' : commit_inv s ->
  revealed_entries (index_iter (TimelockedIndex s)) s s' -> commit_inv s'.
Proof.
  intros [Hi Hb Hr] [A B C _]. split.
  - intros k. rewrite C, A. pose proof (index_iter_elem (TimelockedIndex s) k).
    case_decide; naive_solver.
  - intros k r. rewrite A. case_decide; [|apply Hb].
    destruct (CommitmentOf s !! k) as [r0|] eqn:E; [|done]. specialize (Hb _ _ E). simpl.
    pose proof (reveal_fields_length (commit_pulses s) (fields r0)).
    destruct (reveal_fields _ _).1; [done|]. intros [= <-]. simpl in *. lia.
  - intros k l. rewrite B. case_decide; [|apply Hr]. unfold revealed_contents.
    destruct (CommitmentOf s !! k); [|apply Hr]. destruct (reveal_fields _ _).2; [apply Hr|].
    intros [= <-]. rewrite length_drop. lia.
Qed.

(** ** Setting a commitment *)

Lemma find_timelock (info : list CommitData) :
  match List.find is_timelock_encrypted info with
  | Some d => has_timelock info = true /\ exists enc r, d = CommitData_TimelockEncrypted enc r
  | None => has_timelock info = false
  end.
Proof.
  induction info as [|d info IH]; simpl; [done|].
  destruct (is_timelock_encrypted d) eqn:E; [|done].
  simpl. split; [done|]. destruct d; simpl in E; try done. eauto.
Qed.

(** The space used in the current epoch. *)
Definition space_used s (k : CommitKey) (epoch : Z) : Z :=
  match UsedSpaceOf s !! k with
  | Some u => if last_epoch u =? epoch then used_space u else 0
  | None => 0
  end.

Record commitment_set (netuid : Z) (who : AccountId) (info : list CommitData) s s' : Prop := {
  cs_allowed : can_commit netuid who (commit_world s) = true;
  cs_commitment : exists deposit,
    CommitmentOf s' = <[(netuid, who) := mk_CommitRegistration deposit (commit_now s) info]> (CommitmentOf s);
  cs_index k : k ∈ TimelockedIndex s' <->
    if decide (k = (netuid, who)) then has_timelock info = true else k ∈ TimelockedIndex s;
  cs_reveals : RevealedCommitments s' = RevealedCommitments s;
  cs_space : exists epoch, epoch = get_epoch_index netuid (commit_now s) (commit_world s)
    /\ saturating_add 64 (space_used s (netuid, who) epoch) (required_space info) <= MaxSpace s
    /\ UsedSpaceOf s' = <[(netuid, who) := mk_UsageTracker epoch
         (saturating_add 64 (space_used s (netuid, who) epoch) (required_space info))]> (UsedSpaceOf s);
  cs_limit : MaxSpace s' = MaxSpace s;
  cs_now : commit_now s' = commit_now s;
}.

Lemma current_usage s k epoch :
  let usage := default (mk_UsageTracker 0 0) (UsedSpaceOf s !! k) in
  (if negb (last_epoch usage =? epoch)
   then usage <| last_epoch := epoch |> <| used_space := 0 |> else usage)
  = mk_UsageTracker epoch (space_used s k epoch).
Proof.
  intros usage. unfold space_used. subst usage.
  destruct (UsedSpaceOf s !! k) as [[e v]|]; cbn [default from_option last_epoch id].
  - destruct (Z.eqb_spec e epoch) as [->|]; done.
  - destruct (Z.eqb_spec 0 epoch) as [<-|]; done.
Qed.

(** The changes of the deposit touch nothing but the balances. *)
Lemma adjust_reserve who (a b : bool) x y s s1 s2 :
  (if a then reserve_deposit who x else ret tt) s = Ok (tt, s1) ->
  (if b then unreserve_deposit who y else ret tt) s1 = Ok (tt, s2) ->
  exists w, s2 = s <| commit_world := w |>.
Proof.
  intros H1 H2.
  assert (exists w1, s1 = s <| commit_world := w1 |>) as [w1 ->].
  { destruct a; [|inv_run; exists (commit_world s); by destruct s].
    unfold reserve_deposit in H1. destruct (reserve _ _ _) as [w|]; [|done].
    injection H1 as <-. by exists w. }
  destruct b; [|inv_run; by exists w1]. unfold unreserve_deposit in H2.
  destruct (unreserve _ _ _) as [e w]. destruct (negb _); [done|]. injection H2 as <-. by exists w.
Qed.

Lemma set_commitment_run origin netuid info s s' :
  0 <= MaxFields < 2 ^ 32 -> Z.of_nat (length info) <= MaxFields ->
  set_commitment origin netuid info s = Ok (tt, s') ->
  exists who, origin = Origin_Signed who /\ commitment_set netuid who info s s'.
Proof.
  intros HM Hlen H. unfold set_commitment in H. rewrite Z.mod_small in H by lia.
  apply abind_Ok in H as (who & s1 & [Ho ->]%check_Ok & H). exists who.
  split; [destruct origin; congruence|]. clear Ho.
  apply abind_Ok in H as (u & s2 & [Hcan%ensure_Ok ->]%check_Ok & H).
  apply abind_Ok in H as (u1 & s3 & [_ ->]%check_Ok & H).
  apply abind_Ok in H as (now & s4 & [-> ->]%asks_Ok & H).
  apply abind_Ok in H as (usage & s5 & [Hu ->]%asks_Ok & H).
  apply abind_Ok in H as (epoch & s6 & [He ->]%asks_Ok & H).
  apply abind_Ok in H as (u2 & s7 & H7 & H).
  apply abind_Ok in H as (u3 & s8 & [Hspace%ensure_Ok%Z.leb_le ->]%check_Ok & H).
  apply abind_Ok in H as (u4 & s9 & ->%modify_Ok & H).
  apply abind_Ok in H as (old & s10 & [_ ->]%asks_Ok & H).
  apply abind_Ok in H as ([] & s11 & H11 & H). apply abind_Ok in H as ([] & s12 & H12 & H).
  destruct (adjust_reserve _ _ _ _ _ _ _ _ H11 H12) as [w ->]. clear H11 H12.
  apply abind_Ok in H as (u5 & s13 & ->%modify_Ok & H). apply modify_Ok in H.
  assert (E7 : exists m w7, s7 = s <| LastBondsReset := m |> <| commit_world := w7 |>).
  { destruct (existsb _ _); inv_run; [by eexists _, _|].
    exists (LastBondsReset s), (commit_world s). by destruct s. }
  destruct E7 as (m7 & w7 & ->). simpl in *.
  rewrite Hu, current_usage in H, Hspace. simpl in Hspace.
  pose proof (find_timelock info) as Hfind.
  assert (Ei : forall k, k ∈ TimelockedIndex s' <->
    if decide (k = (netuid, who)) then has_timelock info = true else k ∈ TimelockedIndex s).
  { intros k. subst s'. destruct (List.find _ _) as [d|];
      [destruct Hfind as [Hf (enc & r & ->)]|]; simpl;
      rewrite ?elem_of_union, ?elem_of_difference, elem_of_singleton; case_decide; intuition congruence. }
  destruct (List.find _ _) as [d|]; [destruct Hfind as [_ (enc & r & ->)]|]; subst s' epoch;
    (split; simpl; [done|by eexists|exact Ei|done|by eexists|done|done]).
Qed.

(** ** Steps *)

Lemma clear_lookup {A} (netuid : Z) (m : gmap CommitKey A) k :
  filter (fun p : CommitKey * A => p.1.1 <> netuid) m !! k = if decide (k.1 = netuid) then None else m !! k.
Proof.
  rewrite map_lookup_filter. destruct (m !! k) as [x|]; simpl; [|by case_decide].
  case_guard; case_decide; naive_solver.
Qed.

Lemma purge_inv netuid s : commit_inv s -> commit_inv (purge_netuid netuid s).
Proof.
  intros [Hi Hb Hr]. split; simpl.
  - intros k. rewrite elem_of_filter, clear_lookup, Hi. unfold timelocked.
    case_decide; naive_solver.
  - intros k r. simpl. rewrite clear_lookup. case_decide; [done|apply Hb].
  - intros k l. rewrite clear_lookup. case_decide; [done|apply Hr].
Qed.

(** The calls, with [CommitmentInfo] within the bound of its type, the hook of every block,
    the end of a subnet, and the steps of the other pallets. *)
Inductive commit_step : CommitmentStore W -> CommitmentStore W -> Prop :=
| commit_step_set origin netuid info s s' :
    Z.of_nat (length info) <= MaxFields ->
    set_commitment origin netuid info s = Ok (tt, s') -> commit_step s s'
| commit_step_limit origin limit s s' :
    set_max_space origin limit s = Ok (tt, s') -> commit_step s s'
| commit_step_block s : commit_step s (commitments_on_initialize s)
| commit_step_purge netuid s : commit_step s (purge_netuid netuid s)
| commit_step_other pulses now w s :
    commit_step s (s <| commit_pulses := pulses |> <| commit_now := now |> <| commit_world := w |>).

Lemma set_commitment_inv origin netuid info s s' : 0 <= MaxFields < 2 ^ 32 ->
  Z.of_nat (length info) <= MaxFields ->
  set_commitment origin netuid info s = Ok (tt, s') -> commit_inv s -> commit_inv s'.
Proof.
  intros HM Hlen H [Hi Hb Hr].
  destruct (set_commitment_run _ _ _ _ _ HM Hlen H) as (who & _ & [_ [d Ec] Ei Er _ _ _]).
  split.
  - intros k. rewrite Ei, Ec. case_decide as Hk.
    + subst. rewrite lookup_insert_eq. by rewrite timelocked_Some.
    + rewrite lookup_insert_ne by done. apply Hi.
  - intros k r. rewrite Ec. intros [[<- <-]|[_ Hk]]%lookup_insert_Some; [done|by apply (Hb k)].
  - by rewrite Er.
Qed.

Lemma commit_step_inv s s' : 0 <= MaxFields < 2 ^ 32 -> commit_step s s' -> commit_inv s -> commit_inv s'.
Proof.
  intros HM Hstep Hinv. destruct Hstep as [? ? ? ? ? Hl H|? ? ? ? H| | |].
  - by eapply set_commitment_inv.
  - unfold set_max_space in H. inv_run. by destruct Hinv as [A B C]; split.
  - destruct (reveal_all s Hinv) as (s' & E & Hre). unfold commitments_on_initialize. rewrite E.
    by eapply reveal_inv.
  - by apply purge_inv.
  - by destruct Hinv as [A B C]; split.
Qed.

(** C33 The index lists exactly the commitments that have a timelocked field, in every state
    that calls, blocks and the ends of subnets lead to, so that no such field is missed; no
    commitment has more fields than allowed, and no more than ten reveals are kept. *)
Theorem timelocked_index_exact pulses w s (HM : 0 <= MaxFields < 2 ^ 32)
    (Hrun : rtc commit_step (commitment_genesis pulses w) s) :
  (forall k, k ∈ TimelockedIndex s <->
     exists r, CommitmentOf s !! k = Some r /\ has_timelock (fields r) = true)
  /\ (forall k r, CommitmentOf s !! k = Some r -> Z.of_nat (length (fields r)) <= MaxFields)
  /\ (forall k l, RevealedCommitments s !! k = Some l -> (length l <= MAX_REVEALS)%nat).
Proof.
  assert (H : commit_inv s).
  { assert (Hgen : forall s0 s, rtc commit_step s0 s -> commit_inv s0 -> commit_inv s).
    { intros s0 s1. induction 1; eauto using commit_step_inv. }
    apply (Hgen _ _ Hrun). split; simpl.
    - intros k. unfold timelocked. rewrite lookup_empty. set_solver.
    - intros k r. simpl. by rewrite lookup_empty.
    - intros k l. by rewrite lookup_empty. }
  destruct H as [A B C]. split_and!; [apply A|apply B|apply C].
Qed.

(** C34 The start of a block reveals everything that is due and nothing else.  The loop goes
    through the whole index; no timelocked field remains whose round has a pulse; a field
    remains iff it is not due; what decrypts is kept, with the block, as one of the last ten
    reveals; commitments without a timelocked field stay.  The balances are not touched: the
    deposit of a commitment that is removed stays reserved. *)
Theorem block_reveals_due_fields s (Hinv : commit_inv s) :
  let s' := commitments_on_initialize s in
  (reveal_timelocked_commitments s).2 = true
  /\ (forall k r, CommitmentOf s !! k = Some r -> has_timelock (fields r) = true ->
       (forall d, (exists r', CommitmentOf s' !! k = Some r' /\ d ∈ fields r')
                  <-> d ∈ fields r /\ ~ due (commit_pulses s) d)
       /\ RevealedCommitments s' !! k
          = revealed_contents (commit_pulses s) (commit_now s) (Some r) (RevealedCommitments s !! k))
  /\ (forall k, ~ timelocked (CommitmentOf s !! k) -> CommitmentOf s' !! k = CommitmentOf s !! k
       /\ RevealedCommitments s' !! k = RevealedCommitments s !! k)
  /\ commit_world s' = commit_world s.
Proof.
  destruct (reveal_all s Hinv) as (s1 & E & [A B _ (_ & _ & _ & _ & _ & _ & Hw)]).
  unfold commitments_on_initialize. rewrite E. simpl.
  assert (Hmem : forall k, k ∈ index_iter (TimelockedIndex s) <-> timelocked (CommitmentOf s !! k))
    by (intros k; rewrite index_iter_elem; apply (ci_index _ Hinv)).
  split_and!; [done| | |done].
  - intros k r Hr Ht. assert (Hk : k ∈ index_iter (TimelockedIndex s))
      by (apply Hmem; exists r; done).
    rewrite B, A, !decide_True by done. rewrite Hr. split; [|done]. intros d.
    rewrite <- reveal_fields_remain. simpl.
    destruct (reveal_fields _ _).1 as [|x l]; [|naive_solver].
    split; [by intros (r' & [=] & _)|by intros ?%not_elem_of_nil].
  - intros k Hk. rewrite A, B. by rewrite !decide_False by (by rewrite Hmem).
Qed.

(** The end of a subnet removes everything the pallet stores for it, the entries of the
    index included, and nothing of any other subnet. *)
Theorem purge_netuid_exact netuid s k :
  let s' := purge_netuid netuid s in
  let keep {A} (m m' : gmap CommitKey A) := m' !! k = if decide (k.1 = netuid) then None else m !! k in
  keep (CommitmentOf s) (CommitmentOf s') /\ keep (LastCommitment s) (LastCommitment s')
  /\ keep (LastBondsReset s) (LastBondsReset s')
  /\ keep (RevealedCommitments s) (RevealedCommitments s')
  /\ keep (UsedSpaceOf s) (UsedSpaceOf s')
  /\ (k ∈ TimelockedIndex s' <-> k ∈ TimelockedIndex s /\ k.1 <> netuid).
Proof.
  simpl. split_and!; try apply clear_lookup. rewrite elem_of_filter. tauto.
Qed.

(** ** The rate limit *)

(** Steps during an epoch of a subnet, with the space that the account has committed in them:
    its commitments, those of others, blocks, limits up to [M], the removal of other subnets,
    and steps of other pallets.  The removal of the subnet itself ends its epochs. *)
Inductive epoch_step (netuid : Z) (who : AccountId) (epoch M : Z) :
    Z -> CommitmentStore W -> CommitmentStore W -> Prop :=
| epoch_step_own info s s' :
    Z.of_nat (length info) <= MaxFields ->
    get_epoch_index netuid (commit_now s) (commit_world s) = epoch ->
    set_commitment (Origin_Signed who) netuid info s = Ok (tt, s') ->
    epoch_step netuid who epoch M (required_space info) s s'
| epoch_step_other_account netuid' who' info s s' :
    (netuid', who') <> (netuid, who) -> Z.of_nat (length info) <= MaxFields ->
    set_commitment (Origin_Signed who') netuid' info s = Ok (tt, s') ->
    epoch_step netuid who epoch M 0 s s'
| epoch_step_limit origin limit s s' : limit <= M ->
    set_max_space origin limit s = Ok (tt, s') -> epoch_step netuid who epoch M 0 s s'
| epoch_step_purge netuid' s : netuid' <> netuid ->
    epoch_step netuid who epoch M 0 s (purge_netuid netuid' s)
| epoch_step_block s : commit_inv s -> epoch_step netuid who epoch M 0 s (commitments_on_initialize s)
| epoch_step_other pulses now w s : epoch_step netuid who epoch M 0 s
    (s <| commit_pulses := pulses |> <| commit_now := now |> <| commit_world := w |>).

Inductive epoch_run (netuid : Z) (who : AccountId) (epoch M : Z) :
    list Z -> CommitmentStore W -> CommitmentStore W -> Prop :=
| epoch_run_nil s : epoch_run netuid who epoch M [] s s
| epoch_run_cons x l s1 s2 s3 : epoch_step netuid who epoch M x s1 s2 ->
    epoch_run netuid who epoch M l s2 s3 -> epoch_run netuid who epoch M (x :: l) s1 s3.

Lemma epoch_step_space netuid who epoch M x s s' : 0 <= MaxFields < 2 ^ 32 -> M < 2 ^ 32 ->
  epoch_step netuid who epoch M x s s' -> MaxSpace s <= M ->
  MaxSpace s' <= M
  /\ space_used s' (netuid, who) epoch = space_used s (netuid, who) epoch + x
  /\ (x <> 0 -> space_used s' (netuid, who) epoch <= M).
Proof.
  intros HM HM2 Hstep Hm. destruct Hstep as [info s s' Hl He H|n' w' info s s' Hne Hl H
    |origin limit s s' Hlim H|n' s Hne|s Hinv|pulses now w s].
  - destruct (set_commitment_run _ _ _ _ _ HM Hl H)
      as (who' & [= <-] & [_ _ _ _ (e & -> & Hs & Eu) El _]).
    rewrite He in *. rewrite El.
    assert (E : space_used s' (netuid, who) epoch
      = saturating_add 64 (space_used s (netuid, who) epoch) (required_space info))
      by (unfold space_used at 1; rewrite Eu, lookup_insert_eq; simpl; by rewrite Z.eqb_refl).
    rewrite E. unfold saturating_add, uint_max in *. split_and!; lia.
  - destruct (set_commitment_run _ _ _ _ _ HM Hl H) as (who' & [= <-] & [_ _ _ _ (e & _ & _ & Eu) El _]).
    rewrite El. unfold space_used. rewrite Eu, lookup_insert_ne by done. split_and!; [done|lia|done].
  - unfold set_max_space in H. inv_run. unfold space_used. simpl. split_and!; [done|lia|done].
  - unfold space_used. simpl. rewrite map_lookup_filter.
    destruct (UsedSpaceOf s !! (netuid, who)) as [u|]; simpl; [rewrite option_guard_True by done|];
      split_and!; [done|lia|done|done|lia|done].
  - destruct (reveal_all s Hinv) as (s' & E & [_ _ _ (_ & _ & Eu & El & _)]).
    unfold commitments_on_initialize, space_used. rewrite E. simpl. rewrite Eu, El.
    split_and!; [done|lia|done].
  - unfold space_used. simpl. split_and!; [done|lia|done].
Qed.

(** C35 The rate limit holds: in an epoch an account commits no more space for a subnet than
    the largest limit in force during it, if it starts the epoch with none used, however its
    commitments are spread over blocks and whoever else commits; other subnets may be removed
    meanwhile, while the removal of the subnet itself forgets the space used. *)
Theorem epoch_space_bounded netuid who epoch M l s s'
    (HM : 0 <= MaxFields < 2 ^ 32) (HM2 : 0 <= M < 2 ^ 32) (Hlimit : MaxSpace s <= M)
    (Hfresh : space_used s (netuid, who) epoch = 0)
    (Hrun : epoch_run netuid who epoch M l s s') :
  foldr Z.add 0 l <= M.
Proof.
  assert (Hgen : forall l s s', epoch_run netuid who epoch M l s s' -> MaxSpace s <= M ->
    space_used s (netuid, who) epoch <= M ->
    space_used s (netuid, who) epoch + foldr Z.add 0 l <= M).
  { clear -HM HM2. induction 1 as [|x l s1 s2 s3 Hstep _ IH]; intros Hm Hu; simpl; [lia|].
    destruct (epoch_step_space _ _ _ _ _ _ _ HM (proj2 HM2) Hstep Hm) as (Hm2 & Eu & Hx).
    assert (space_used s2 (netuid, who) epoch <= M) by (destruct (decide (x = 0)); [lia|auto]).
    specialize (IH Hm2 ltac:(done)). lia. }
  specialize (Hgen _ _ _ Hrun Hlimit). lia.
Qed.

End Reveals.
