(* ===== verification/StorageWitnesses.v ===== *)
(** * Concrete runs of ticks, registry, beacon and commitments

    The theorems about these pallets applied to concrete states, with the codec of
    [ScaleDemo], a map of balances on hold, a verifier that accepts pulses with a signature,
    and a decryption that returns the ciphertext. *)

From stdpp Require Import base tactics list gmap option.
From S2P Require Import Prelude Protocol Pallet Ticks TickBitmap Scale ScaleDemo Registry RegistrySafety Drand DrandSafety Commitments CommitmentSafety.
From Stdlib Require Import ZArith Lia.
Open Scope Z_scope.

(** The state after a call; the state before it if it fails. *)
Definition after {S E} (m : act S E unit) (s : S) : S :=
  match m s with Ok (_, s') => s' | Err _ => s end.

Definition alice : AccountId := [1].
Definition bob : AccountId := [2].

Module TickRun.

Lemma tick_arithmetic_exact_witness :
  TickIndex_saturating_add 443000 1000 = TickIndex_MAX
  /\ TickIndex_saturating_sub (-443000) 1000 = TickIndex_MIN
  /\ TickIndex_checked_add 443000 1000 <> Ok 444000.
Proof.
  assert (H1 : in_bounds 443000) by (split; by vm_compute).
  assert (H2 : in_bounds (-443000)) by (split; by vm_compute).
  assert (Hv : i32_min <= 1000 <= i32_max) by (split; by vm_compute).
  destruct (tick_arithmetic_exact 443000 1000 H1 Hv) as (Ha & _ & _ & Hadd & _).
  destruct (tick_arithmetic_exact (-443000) 1000 H2 Hv) as (_ & _ & _ & _ & Hsub & _).
  split; [rewrite Hadd; by vm_compute|split; [rewrite Hsub; by vm_compute|]].
  intros E. apply Ha in E as [_ [_ Hb]]. by apply Hb.
Defined.

Lemma tick_is_active_iff_witness :
  tick_is_active ∅ 1 TickIndex_MAX = true <-> TickIndex_MAX ∈ (∅ : gset Z) \/ TickIndex_MAX = TickIndex_MAX /\ (∅ : gset Z) = ∅.
Proof.
  assert (Hb : in_bounds TickIndex_MAX) by (rewrite tick_max; split; by vm_compute).
  exact (tick_is_active_iff ∅ 1 ∅ TickIndex_MAX (empty_represents 1) Hb).
Defined.

End TickRun.

Module RegistryRun.

Abbreviation world := (gmap AccountId N).

#[export] Instance world_queries : SubnetQueries world := {
  coldkey_owns_hotkey _ _ _ := false;
  is_hotkey_registered_on_root _ _ := false;
  is_subnet_owner _ _ := true;
}.

Definition held (w : world) (a : AccountId) : Z := Z.of_N (default 0%N (w !! a)).
Definition put (w : world) (a : AccountId) (x : Z) : world := <[a := Z.to_N x]> w.

#[export] Instance world_runtime : RegistryRuntime world := {
  can_register := AllowIdentityReg_can_register;
  identity_holds w := Z.of_N <$> w;
  hold_identity a x w := if 0 <=? x then Ok (put w a (held w a + x)) else Err 1;
  release_identity a x w :=
    if 0 <=? x then let y := Z.min x (held w a) in Ok (y, put w a (held w a - y)) else Err 1;
}.

Lemma on_hold_held w a : on_hold w a = held w a.
Proof. unfold on_hold, held. simpl. rewrite lookup_fmap. by destruct (w !! a). Qed.

Lemma held_nonneg w a : 0 <= held w a.
Proof. unfold held. lia. Qed.

Lemma held_put w a x b : 0 <= x -> held (put w a x) b = if decide (b = a) then x else held w b.
Proof.
  intros Hx. unfold held, put. case_decide; subst.
  - rewrite lookup_insert_eq. simpl. lia.
  - by rewrite lookup_insert_ne.
Qed.

#[export] Instance world_laws : RegistryLaws world.
Proof.
  split.
  - intros a w. rewrite on_hold_held. apply held_nonneg.
  - intros a x w w'. simpl. destruct (Z.leb_spec 0 x); [|done]. intros [= <-] b.
    pose proof (held_nonneg w a). rewrite !on_hold_held, held_put by lia. case_decide; subst; lia.
  - intros a x w y w'. simpl. destruct (Z.leb_spec 0 x); [|done]. intros [= <- <-].
    pose proof (held_nonneg w a). rewrite on_hold_held. split; [done|]. intros b.
    rewrite !on_hold_held, held_put by lia. case_decide; subst; lia.
  - intros a x w Hx. simpl. rewrite (proj2 (Z.leb_le _ _) Hx). eauto.
Qed.

#[export] Instance config : RegistryConfig := runtime_registry_config.

Definition identity : IdentityInfo :=
  mk_IdentityInfo [(Data_Raw [1; 2], Data_None)] (Data_Raw [97]) Data_None Data_None Data_None
    Data_None None Data_None Data_None.

Definition empty : RegistryStore world := mk_RegistryStore ∅ [] ∅.
Definition registered : RegistryStore world := after (set_identity (Origin_Signed alice) alice identity) empty.
Definition cleared : RegistryStore world := after (clear_identity (Origin_Signed bob) alice) registered.

Lemma config_ok : registry_config_ok.
Proof. split_and!; by vm_compute. Qed.

Lemma empty_inv : registry_inv empty.
Proof. split; [|by vm_compute]. intros a r. simpl. by rewrite lookup_empty. Qed.

Lemma registered_step : registry_step empty registered.
Proof. by apply (registry_step_set (Origin_Signed alice) alice identity). Qed.

Lemma cleared_step : registry_step registered cleared.
Proof. by apply (registry_step_clear (Origin_Signed bob) alice). Qed.

Lemma registry_deposits_backed_witness : registry_inv cleared.
Proof.
  apply (registry_deposits_backed empty cleared config_ok empty_inv).
  eapply rtc_l; [exact registered_step|]. eapply rtc_l; [exact cleared_step|]. apply rtc_refl.
Defined.

Lemma set_clear_identity_restores_witness : exists s2,
  clear_identity (Origin_Signed alice) alice registered = Ok (tt, s2) /\ IdentityOf s2 = ∅.
Proof.
  destruct (set_clear_identity_restores alice alice identity empty registered config_ok)
    as (s2 & E & Ei & _); [by vm_compute|by vm_compute|by vm_compute|].
  exists s2. split; [exact E|exact Ei].
Defined.

Lemma registered_inv : registry_inv registered.
Proof.
  eapply (set_identity_inv (Origin_Signed alice) alice identity empty);
    [apply config_ok|by vm_compute|by vm_compute|apply empty_inv].
Qed.

(** The identity of Alice is gone, and two deposits of a tenth of a token stay on hold. *)
Lemma stranger_clears_identity_witness : exists s',
  clear_identity (Origin_Signed bob) alice registered = Ok (tt, s')
  /\ IdentityOf s' !! alice = None /\ on_hold (registry_world s') alice = 200000000.
Proof.
  destruct (stranger_clears_identity bob alice (mk_Registration 200000000 identity) registered
    registered_inv config_ok) as (s' & E & Ei & Hw); [by vm_compute|by vm_compute|].
  exists s'. split; [exact E|split; [exact Ei|]]. rewrite Hw. by vm_compute.
Defined.

(** Three zero bytes at the end of the encoding were not stored. *)
Definition registration : Registration := mk_Registration 200000000 identity.
Definition stored_bytes : list Z :=
  take (length (Registration_encode 1 registration) - 3) (Registration_encode 1 registration).

Lemma registration_roundtrip_witness :
  exists i, Registration_decode 1 stored_bytes = Some (registration, i).
Proof.
  apply (registration_roundtrip 1 registration (list Z) list_input list_input_laws stored_bytes
    stored_bytes 3); [by vm_compute| |by vm_compute|reflexivity].
  split; [solve_range|]. split_and!; try done; try (simpl; lia).
  - repeat constructor; simpl; lia.
Defined.

Lemma identity_data_decode_exact_witness :
  Data_wf (Data_Raw [7; 8]) /\ feeds ([3; 7; 8; 9] : list Z) (Data_encode (Data_Raw [7; 8]) ++ [9]).
Proof.
  destruct (identity_data_decode_exact (list Z) list_input list_input_laws [3; 7; 8; 9] [9]
    (Data_Raw [7; 8]) eq_refl) as [Hw Hf].
  split; [exact Hw|]. apply Hf. simpl. by exists [].
Defined.

End RegistryRun.

Module BeaconRun.

#[export] Instance config : DrandConfig Z Z := {
  verify_pulse _ p := Ok (negb (bool_decide (pulse_signature p = [])));
  UnsignedPriority := 1000;
  verify_pulses_payload _ sig := 0 <? sig;
  verify_config_payload _ sig := 0 <? sig;
}.

Definition pulse (r : Z) : Pulse := mk_Pulse r (replicate 32 r) [r].
Definition payload (r : Z) : PulsesPayload Z := mk_PulsesPayload 1 [pulse r] 7.

Definition start : DrandStore := drand_genesis.
Definition block1 : DrandStore := start <| drand_block := 1 |>.
Definition first_round : DrandStore := after (write_pulse Origin_None (payload 1000)) block1.

Lemma start_inv : drand_inv block1.
Proof. destruct (genesis_drand_inv) as [[A B C D] _]. by split. Qed.

Lemma block1_reached : rtc (drand_step 100 true) drand_genesis block1.
Proof. apply rtc_once, (drand_step_block 100 true 1). Qed.

Lemma typed_payload r : in_range 64 r -> typed_rounds (pulses (payload r)).
Proof. intros Hr p ->%list_elem_of_singleton. exact Hr. Qed.

Lemma first_step : drand_step 100 false block1 first_round.
Proof.
  eapply (drand_step_write 100 false (payload 1000) (Some 1)); [by vm_compute| | |by vm_compute].
  - apply typed_payload. solve_range.
  - intros p _. by left.
Qed.

Lemma beacon_storage_bounded_witness :
  Z.of_nat (size (Pulses first_round)) <= MAX_KEPT_PULSES.
Proof.
  apply (proj2 (beacon_storage_bounded 100 false first_round ltac:(
    eapply rtc_l; [apply (drand_step_block 100 false 1)|]; eapply rtc_l; [exact first_step|]; apply rtc_refl)));
    [reflexivity|by vm_compute].
Defined.

Lemma write_pulse_exact_witness : Pulses first_round !! 1000 = Some (pulse 1000).
Proof.
  destruct (write_pulse_exact Origin_None (payload 1000) block1 start_inv) as [_ H];
    [apply typed_payload; solve_range|].
  destruct (H first_round) as (_ & _ & Hl); [by vm_compute|]. rewrite Hl. by vm_compute.
Defined.

Lemma accepted_pulse_stored_witness : exists s',
  write_pulse Origin_None (payload 1000) block1 = Ok (tt, s')
  /\ is_ok (validate_unsigned s' (DrandCall_write_pulse (payload 1001) (Some 1))) = true.
Proof.
  destruct (accepted_pulse_stored 100 true (payload 1000) (Some 1)
    (mk_DrandValid (saturating_add 64 1000 (uint_max 64 - 1000)) (DrandTag_round 1000) 3 false)
    (pulse 1000) block1 block1_reached) as (s' & E & _ & _ & _ & _ & H);
    [by vm_compute|reflexivity|solve_range|by vm_compute|].
  exists s'. split; [exact E|]. by apply (H (payload 1001) 1 (pulse 1001)).
Defined.

Lemma unsigned_config_accepted_never_applied_witness :
  dispatch_drand (DrandCall_set_beacon_config (mk_BeaconConfigurationPayload 1 DefaultBeaconConfig 7) (Some 1))
    Origin_None block1 = Err DrandError_BadOrigin.
Proof.
  apply (unsigned_config_accepted_never_applied (mk_BeaconConfigurationPayload 1 DefaultBeaconConfig 7) 1 block1);
    [reflexivity|split; by vm_compute].
Defined.

End BeaconRun.

Module CommitmentRun.

#[export] Instance config : CommitmentConfig := {
  MaxFields := 3;
  CommitInitialDeposit := 0;
  CommitFieldDeposit := 0;
}.

#[export] Instance runtime : CommitmentRuntime unit := {
  can_commit _ _ _ := true;
  on_metadata_commitment _ _ w := w;
  get_epoch_index _ block _ := block / 360;
  reserve _ _ w := Ok w;
  unreserve _ _ w := (0, w);
}.

#[export] Instance crypto : TimelockCrypto := {
  tle_signature := list Z;
  tle_ciphertext := list Z;
  deserialize_signature := Some;
  deserialize_ciphertext := Some;
  tld c _ := Some c;
}.

Definition info : list CommitData :=
  [CommitData_TimelockEncrypted [104; 105] 5; CommitData_Raw [1]; CommitData_TimelockEncrypted [9] 6].

Definition genesis : CommitmentStore unit :=
  commitment_genesis {[5 := mk_Pulse 5 [] [1]]} tt.
Definition committed : CommitmentStore unit := after (set_commitment (Origin_Signed alice) 1 info) genesis.

Lemma max_fields : 0 <= MaxFields < 2 ^ 32.
Proof. split; by vm_compute. Qed.

Lemma committed_step : commit_step genesis committed.
Proof. by apply (commit_step_set (Origin_Signed alice) 1 info). Qed.

Lemma timelocked_index_exact_witness : (1, alice) ∈ TimelockedIndex (commitments_on_initialize committed).
Proof.
  destruct (timelocked_index_exact {[5 := mk_Pulse 5 [] [1]]} tt (commitments_on_initialize committed) max_fields)
    as [H _].
  { eapply rtc_l; [exact committed_step|]. eapply rtc_l; [apply commit_step_block|]. apply rtc_refl. }
  apply H. exists (mk_CommitRegistration 0 0 [CommitData_Raw [1]; CommitData_TimelockEncrypted [9] 6]).
  split; by vm_compute.
Defined.

Lemma genesis_commit_inv : commit_inv genesis.
Proof.
  split.
  - intros k. unfold timelocked. simpl. rewrite lookup_empty. set_solver.
  - intros k r. simpl. by rewrite lookup_empty.
  - intros k l. simpl. by rewrite lookup_empty.
Qed.

Lemma committed_inv : commit_inv committed.
Proof. apply (commit_step_inv genesis); [apply max_fields|apply committed_step|apply genesis_commit_inv]. Qed.

Lemma block_reveals_due_fields_witness :
  RevealedCommitments (commitments_on_initialize committed) !! (1, alice) = Some [([104; 105], 0)].
Proof.
  destruct (block_reveals_due_fields committed committed_inv) as (_ & H & _).
  destruct (H (1, alice) (mk_CommitRegistration 0 0 info)) as [_ E]; [by vm_compute|by vm_compute|].
  rewrite E. by vm_compute.
Defined.

Lemma epoch_space_bounded_witness : foldr Z.add 0 [100] <= 3100.
Proof.
  apply (epoch_space_bounded 1 alice 0 3100 [100] genesis committed max_fields);
    [split; by vm_compute|by vm_compute|by vm_compute|].
  apply (epoch_run_cons 1 alice 0 3100 100 [] genesis committed); [|apply epoch_run_nil].
  apply (epoch_step_own 1 alice 0 3100 info); by vm_compute.
Defined.

Definition registration : CommitRegistration := mk_CommitRegistration 0 12 info.

Lemma commitment_roundtrip_witness : exists i,
  CommitRegistration_decode 3 (CommitRegistration_encode 3 registration) = Some (registration, i).
Proof.
  apply (commitment_roundtrip 3 registration (list Z) list_input list_input_laws
    (CommitRegistration_encode 3 registration) (CommitRegistration_encode 3 registration) 0);
    [by vm_compute| |apply app_nil_r|reflexivity].
  split; [solve_range|split; [solve_range|]]. split; [simpl; lia|].
  repeat constructor; simpl; unfold in_range, MAX_TIMELOCK_COMMITMENT_SIZE_BYTES; lia.
Defined.

End CommitmentRun.
